(* ===== verification/_CoqProject ===== *)
-Q . S2P
Prelude.v
GoStd.v
GoEnc.v
KadBucket.v
KadTable.v
KadTheorems.v
ForkID.v
PeriodicHeap.v
Periodic.v
Rlp.v
Crypto.v
RlpxMsg.v
Enode.v
Handshake.v
RlpxFrame.v
RlpxStream.v
RlpxSession.v
RlpxConn.v
Rlpx.v
Link.v
Discv4Msg.v
Discv4.v
Discv4Theorems.v
Discv4Sys.v
Discv4Lookup.v
Discv4Net.v
Server.v
ServerTheorems.v
Node.v
EthMsg.v
Eth.v
EthTheorems.v
EthRlpx.v
Enr.v
DnsDisc.v
DnsDiscTheorems.v
