(* ===== verification/Prelude.v ===== *)
(** * go-devp2p: a verification development

    The repository is a devp2p node in Go: it finds peers over UDP, dials them over TCP, negotiates an
    encrypted session with each and multiplexes protocols over it.  This library models its parts as
    Rocq functions and step relations, close enough to the code to be read beside it, and proves what
    makes each part correct.

    ** The program and where it is modelled

    - [discovery/kademlia] (k-buckets and the routing table): [KadBucket], [KadTable], with the
      theorems in [KadTheorems].  A bucket is the list of its entries; a table is a record of its
      fields; the operations [Update], [Remove] (here [RemovePeer]), [NearestPeers], [Find], [Size]
      and so on are functions on it, atomic because the code holds [tabLock].
    - [discovery/discv4.go]: [Discv4Msg] (peers, the four messages, packets), [Discv4] (the backend
      and the pieces of its goroutines), [Discv4Theorems] (its invariant and what packets do to it),
      [Discv4Sys] (the goroutines interleaved by a step relation) and [Discv4Lookup].  [Discv4Net] adds
      [udp_transport.go], [mock_transport.go] and the life of a backend: [DiscV4], [AddNode],
      [Schedule], lookups and [Close].
    - [periodic.go] (the scheduler of dial attempts): [PeriodicHeap] (container/heap over shared,
      mutable objects in an explicit store) and [Periodic] (the dispatcher and its goroutine).
    - [forkid/forkid.go]: [ForkID], and its RLP codec in [EthMsg].
    - [crypto/crypto.go] and [enode/enode.go]: [Crypto] (keys, signatures, identifiers), [Enode] (node
      URLs); compressed keys are in [DnsDisc].
    - [rlpx]: [RlpxMsg] ([common.go], [handshake_messages.go]), [Handshake] ([handshake.go]),
      [RlpxFrame] ([halfConn] of [session.go]), [RlpxStream] ([stream.go]), [RlpxSession]
      (sessions, negotiation and the protocol handshake), [Rlpx] ([rlpx.go], [p2pHandshake] and
      [Handshake]: dialling, accepting, the listener), [RlpxConn] (the methods of [net.Conn] that
      sessions and streams have, with the deadlines their clients set) and [Link] (two sessions and
      the bytes between them).
    - [server.go], [peer.go], [peerstore.go], [config.go]: [Server] (the server's state and operations,
      and its goroutines as a step relation), [ServerTheorems], and [Node], which puts the server,
      the transport of [Rlpx] and the discovery of [Discv4Net] together.
    - [wire/eth]: [EthMsg] ([messages.go]), [Eth] ([backend.go], a step function over the reader, the
      requests and the user's calls), [EthTheorems] and [EthRlpx], in which the handler runs on a
      stream of a session of [Link].
    - [enr]: [Enr].  [dnsdisc]: [DnsDisc] (entries and the walk) and [DnsDiscTheorems].
    - [GoStd] has what the sources use of Go's standard library: fixed-width integers, big-endian
      and hexadecimal codecs, [bytes.Compare], [sort], [hash/crc32]; [GoEnc] has base64, base32,
      [strings] and [fmt.Sscanf].

    The parts meet as in the code: the discovery backend keeps a routing table and the theorems about
    its queries rest on those about the table; sessions own streams and a [halfConn] per direction,
    keyed by the secrets of the handshake; the transport makes sessions of connections; the server
    runs the dispatcher of [Periodic], and its theorems rest on the dispatcher's invariant and on the
    errors of the protocol handshake; eth runs over a stream, which it sees as a queue of messages
    (a view that [EthRlpx] derives from the sessions), and validates the peer's fork identifier; entries of a DNS tree hold node records.

    ** Conventions

    [outcome] (below) is the result of a Go function: a value, an error, a panic, or exhausted fuel.
    A function that changes its receiver takes it and returns it.  Machine integers are [Z] with the
    conversions of the code written out; bytes are [Z] below 256; slices are lists, and where the
    code relies on aliasing (the fork list cleaned in place, the jobs of the heap, the header buffer
    of a [halfConn]) the shared storage is explicit.  Goroutines are interleaved by step relations
    or step functions whose steps are the pieces the code runs under a lock or between two channel
    operations; buffered channels are queues with their capacity, unbuffered ones a set of blocked
    receivers, timers and the clock are labels or arguments.  Randomness is an argument.

    ** Interfaces

    Code outside the repository is a class with documented laws, and everything is proved against
    the class: [FastRLP] (umbracle/fastrlp), [Curve], [CompressedKeys] and [PrivateKeys] (btcec), [Keccak]
    (x/crypto/sha3), [Ecies] (umbracle/ecies), [Block] and [Snappy] (AES as a block function,
    golang/snappy), [GoNet] (the syntax of net and net/url), [GoSort] (the contract of [sort.Sort],
    which does not fix the order of equal elements).  Each has an instance that computes and satisfies
    the laws ([reference_rlp] is the RLP encoding itself; the cryptographic ones are toys), so the
    theorems apply to something and their witnesses evaluate.  Go interfaces of the program are
    classes or records too: [Marshaler], [Unmarshaler] and [Codec] of eth, the entries of a record,
    the backend that eth's user provides, the resolver of a DNS tree.

    ** What the theorems show

    - Routing table: updates and removals do what they say and keep the table well formed; every
      reachable table agrees with what the callbacks announced and is bounded; nearest-peer queries
      are sound, exact when the target's bucket can answer alone, and not exact in general; the
      shared hash can be raced on.
    - Discovery: packets are authentic; in every reachable state of the interleaved goroutines, whose
      handlers, sends and receives are steps of their own, queries succeed, decodable packets are
      handled, and what panics is exactly a packet or neighbours that do not decode; findnode is
      answered completely, to bonded peers only, and in packets that fit if the known addresses are
      proper ones (which nothing checks); there is a run in which two nodes bond with each other; lookups
      end if their requests return.  A request ends by its timer unless the timer fires before the
      goroutine is in its receive, and then it blocks for ever, which every request can.  The UDP listener
      hands on what it reads, and panics on an empty datagram; a timer that was not stopped cuts off a
      newer request.
    - Periodic jobs: the heap refines a set of jobs with its minimum, whatever the order of calls;
      the dispatcher neither panics nor blocks on its channels; a restart can leave two loops, and a job
      that is added again can fire at its old time.
    - Fork identifiers: the table of checksums gives the identifier EIP-2124 defines; nodes of the same
      chain accept each other; the rejections; the panics of empty fork lists.
    - rlpx: both sides of the handshake derive the same secrets; frames round-trip and are accepted
      only with the right MACs; a stream refines a queue, though the error can overtake a message for a
      reader that waits; sessions negotiate disjoint ranges; with the pieces of [Disconnect], [exitErr] and the
      loops interleaved, a session shuts down once, in order, and stops, and the steps that panic are exactly
      known; two transports connect if the first packets arrive whole, and, if they lay their common
      protocols out alike (which depends on the order in which they list them), what their clients do
      on the connection, with receive loops and pings interleaved and bytes in flight, refines a pair of
      queues per stream from which everything sent can be received.  The accept queue keeps the order.  The
      inputs on which sessions panic, and the message that comes before the streams are open.  A deadline
      set on a stream is that of the whole connection, and ends the session when it passes.
    - Server: in every interleaving of its goroutines, [Close] included, exactly a second [Close] panics;
      peers are stored under their own ids, with sessions that are watched or closed already; a dial
      leaves in the dispatcher what the text of its error says.  Busy peers are not dialled again, connected
      peers are, and the close of a replaced session takes the newer one.
    - Nodes: a server starts when its ports are free and loads the peers its store file has; what a dial
      through the transport brings to the server is a session with the dialled node, and is a step of the
      server; two nodes that dial and accept each other each start the handlers of their common
      protocols for a peer with the other's identifier.  On the mock network two backends bond; no schedule
      of a backend's goroutines, lookups and [Close] breaks its invariant, though lookups are not exclusive.
    - eth: a request that succeeds was answered by the peer under its identifier, requests end; over an
      encrypted connection between nodes of the same layout, what the handler reads is a prefix of what
      the peer sent on the stream, and a request and its answer can cross; the exact conditions under which a
      step panics; two nodes of this code deadlock in the handshake; messages round-trip, a status field by field.
    - Keys, records and DNS trees: they round-trip; a published tree is walked completely and in order, and
      the walk ends; a record is returned only with a chain of hashes from the root.

    ** Bounds and fuel

    Loops that are not structural take fuel computed from their input (the number of buckets still
    to split, the size of the heap, the number of peers to send), and the theorems show that the
    answer is never [NoFuel].  A loop the code can leave only by a channel operation is a step
    relation, without fuel.

    ** What is not modelled

    Sockets, files and tickers, whose results are arguments; the deadlines of dialling and of the
    handshakes; what is logged.  The generation of private keys, which only calls the curve library.
    Data races: a step reads or writes a map as a whole, also where the code reads it without its lock, and a
    hash of the routing table is computed in one step, so that the race of [KadTheorems.hashPeer_race] is not one
    of the behaviours of [Discv4Sys].  The [*Peer] values that goroutines of discovery share are copies, whose
    [Last] and [TCP] may be overwritten at any time ([Discv4Sys.st_written]).  The handlers of protocols that the server runs
    return what they like, and do not panic; those of eth are in [Eth].  Interfaces ([transport.go],
    [discovery.go]) and accessors have no behaviour.  Nil values where the types allow them but the
    program never makes them (the total difficulty of a status, an entry of a record).  [fmt.Sscanf]
    is that of ASCII input.  The timeout of the protocol handshake.
    A lookup of a response handler and its call are one step, while a timer
    could fire between them; the response would be dropped, as if it had come a moment later. *)

From stdpp Require Import base list gmap strings numbers sorting.
From Stdlib Require Import Ascii.

(** ** Outcomes of Go code

    A Go function returns a value, returns a non-nil [error], panics, or does not return.  [Ok] and
    [Err] are the first two; [Panic] is a run-time panic (index out of range, nil dereference,
    explicit [panic], close of a closed channel); [NoFuel] is the answer of a fuelled loop or
    recursion whose fuel ran out, so a theorem that a result is [Ok] is also a termination
    theorem.  A function that mutates its receiver and also returns an error is modelled by [Ok]
    of the new receiver paired with the error. *)

Inductive outcome (A : Type) : Type :=
| Ok (a : A)
| Err (e : string)
| Panic
| NoFuel.

Arguments Ok {A} a.
Arguments Err {A} e.
Arguments Panic {A}.
Arguments NoFuel {A}.

#[global] Instance outcome_ret : MRet outcome := fun A a => Ok a.

#[global] Instance outcome_bind : MBind outcome := fun A B k m =>
  match m with
  | Ok a => k a
  | Err e => Err e
  | Panic => Panic
  | NoFuel => NoFuel
  end.

#[global] Instance outcome_fmap : FMap outcome := fun A B f m =>
  match m with
  | Ok a => Ok (f a)
  | Err e => Err e
  | Panic => Panic
  | NoFuel => NoFuel
  end.

(** A checked read [l[i]]: Go panics when the index is out of range. *)
Definition idx {A} (l : list A) (i : nat) : outcome A :=
  match l !! i with
  | Some x => Ok x
  | None => Panic
  end.

(** [for _, x := range l] with a body that may fail, collecting the results. *)
Fixpoint mapO {A B} (f : A -> outcome B) (l : list A) : outcome (list B) :=
  match l with
  | [] => Ok []
  | x :: l' => y ← f x; ys ← mapO f l'; Ok (y :: ys)
  end.

(** An [option] answer of a library call as an outcome. *)
Definition of_option {A} (e : string) (o : option A) : outcome A :=
  match o with
  | Some a => Ok a
  | None => Err e
  end.

(** ** Notations *)

Declare Scope go_scope.
Delimit Scope go_scope with go.
Abbreviation bytes := (list Z).
Notation "l .[ i ]" := (idx l i) (at level 1, left associativity, format "l .[ i ]") : go_scope.

(** A machine byte. *)
Definition byte_ok (b : Z) : Prop := (0 <= b < 256)%Z.
Abbreviation bytes_ok := (Forall byte_ok).

(** ** Tactics *)

Create HintDb devp2p.

(** Case analysis on every [if] and [match] of the goal or of a hypothesis, with equations. *)
Ltac case_if :=
  match goal with
  | |- context [if ?b then _ else _] => let E := fresh "E" in destruct b eqn:E
  | H : context [if ?b then _ else _] |- _ => let E := fresh "E" in destruct b eqn:E
  end.

(** Turn boolean tests on [Z] and [nat] into propositions, then [lia]. *)
Ltac blia :=
  repeat match goal with
  | H : _ && _ = true |- _ => apply andb_true_iff in H; destruct H
  | H : _ || _ = false |- _ => apply orb_false_iff in H; destruct H
  | H : negb _ = true |- _ => apply negb_true_iff in H
  | H : negb _ = false |- _ => apply negb_false_iff in H
  | H : (_ <? _)%Z = true |- _ => apply Z.ltb_lt in H
  | H : (_ <? _)%Z = false |- _ => apply Z.ltb_ge in H
  | H : (_ <=? _)%Z = true |- _ => apply Z.leb_le in H
  | H : (_ <=? _)%Z = false |- _ => apply Z.leb_gt in H
  | H : (_ =? _)%Z = true |- _ => apply Z.eqb_eq in H
  | H : (_ =? _)%Z = false |- _ => apply Z.eqb_neq in H
  | H : (_ <? _)%nat = true |- _ => apply Nat.ltb_lt in H
  | H : (_ <? _)%nat = false |- _ => apply Nat.ltb_ge in H
  | H : (_ <=? _)%nat = true |- _ => apply Nat.leb_le in H
  | H : (_ <=? _)%nat = false |- _ => apply Nat.leb_gt in H
  | H : (_ =? _)%nat = true |- _ => apply Nat.eqb_eq in H
  | H : (_ =? _)%nat = false |- _ => apply Nat.eqb_neq in H
  end; lia.

(** Invert an equation [bind m k = Ok r]: names the intermediate results. *)
Ltac invO H :=
  match type of H with
  | mbind _ ?m = Ok _ =>
      let a := fresh "a" in let E := fresh "E" in
      destruct m as [a|?|?|] eqn:E; simpl in H; try discriminate H; try invO H
  | Ok _ = Ok _ => injection H as H; subst
  | _ => idtac
  end.

(** ** Generic lemmas *)

Lemma bind_Ok {A B} (m : outcome A) (k : A -> outcome B) b :
  m ≫= k = Ok b <-> exists a, m = Ok a /\ k a = Ok b.
Proof. destruct m; simpl; naive_solver. Qed.

Lemma idx_Ok {A} (l : list A) i x : idx l i = Ok x <-> l !! i = Some x.
Proof. unfold idx. destruct (l !! i); naive_solver. Qed.

Lemma idx_lt {A} (l : list A) i : (i < length l)%nat -> exists x, idx l i = Ok x /\ l !! i = Some x.
Proof. intros [x Hx]%lookup_lt_is_Some. exists x. by rewrite idx_Ok. Qed.

Lemma idx_Panic {A} (l : list A) i : idx l i = Panic <-> (length l <= i)%nat.
Proof.
  unfold idx. destruct (l !! i) eqn:E.
  - apply lookup_lt_Some in E. split; [discriminate|lia].
  - apply lookup_ge_None in E. split; [lia|done].
Qed.

Lemma mapO_Ok {A B} (f : A -> outcome B) l r :
  mapO f l = Ok r <-> Forall2 (fun a b => f a = Ok b) l r.
Proof.
  revert r. induction l as [|x l IH]; intros r; simpl.
  - split; [intros [= <-]; constructor | by inversion 1].
  - rewrite bind_Ok. split.
    + intros (y & Hy & (ys & Hys & [= <-])%bind_Ok). constructor; [done|by apply IH].
    + inversion 1; subst. eexists; split; [done|]. apply bind_Ok.
      eexists; split; [by apply IH|done].
Qed.

Lemma mapO_pure {A B} (f : A -> outcome B) (g : A -> B) l :
  Forall (fun a => f a = Ok (g a)) l -> mapO f l = Ok (g <$> l).
Proof.
  rewrite mapO_Ok. induction 1; simpl; constructor; auto.
Qed.

(** Neither a panic nor exhausted fuel. *)
Definition safe {A} (o : outcome A) : Prop := match o with Ok _ | Err _ => True | _ => False end.

Lemma safe_bind {A B} (m : outcome A) (k : A -> outcome B) :
  safe m -> (forall a, m = Ok a -> safe (k a)) -> safe (m ≫= k).
Proof. destruct m; simpl; auto. Qed.

Lemma safe_of_option {A} e (o : option A) : safe (of_option e o).
Proof. by destruct o. Qed.

Lemma safe_idx {A} (l : list A) i : (i < length l)%nat -> safe (idx l i).
Proof. intros (x & -> & _)%idx_lt. done. Qed.

Lemma safe_mapO {A B} (f : A -> outcome B) l : (forall x, safe (f x)) -> safe (mapO f l).
Proof. intros Hf. induction l; simpl; [done|]. apply safe_bind; [done|]. intros. apply safe_bind; [done|]. done. Qed.

(** Show that a sequence of calls is [safe]: lengths that were checked bound the indices. *)
Ltac solve_safe :=
  repeat match goal with
  | |- safe (Ok _) => exact I
  | |- safe (Err _) => exact I
  | |- safe (of_option _ _) => apply safe_of_option
  | |- safe (idx _ _) => apply safe_idx; blia
  | |- safe (mapO _ _) => apply safe_mapO; intros
  | |- safe (mbind _ _) => apply safe_bind; [|intros ? _]
  | |- safe (match ?p with (_, _) => _ end) => destruct p
  | |- safe (if _ then _ else _) => case_if
  | _ => eauto with devp2p
  end.

Lemma of_option_Ok {A} e (o : option A) a : of_option e o = Ok a -> o = Some a.
Proof. by destruct o; simpl; intros [= ->]. Qed.

Lemma Forall_byte_app l k : bytes_ok (l ++ k) <-> bytes_ok l /\ bytes_ok k.
Proof. apply Forall_app. Qed.

Lemma Forall_byte_replicate n b : byte_ok b -> bytes_ok (replicate n b).
Proof. intros. by apply Forall_replicate. Qed.

Lemma byte_ok_mod x : byte_ok (x mod 256).
Proof. unfold byte_ok. apply Z.mod_pos_bound. lia. Qed.

Lemma bytes_ok_take n l : bytes_ok l -> bytes_ok (take n l).
Proof. apply Forall_take. Qed.

Lemma bytes_ok_drop n l : bytes_ok l -> bytes_ok (drop n l).
Proof. apply Forall_drop. Qed.

#[export] Hint Resolve byte_ok_mod bytes_ok_take bytes_ok_drop Forall_byte_replicate : devp2p.

(** An exhaustive check over all pairs of bytes, for facts about bit operations on bytes. *)
Definition all_bytes : list Z := seqZ 0 256.

Lemma elem_of_all_bytes b : byte_ok b <-> b ∈ all_bytes.
Proof. unfold all_bytes, byte_ok. rewrite elem_of_seqZ. lia. Qed.

Lemma byte_cases (P : Z -> bool) :
  forallb P all_bytes = true -> forall x, byte_ok x -> P x = true.
Proof. rewrite forallb_forall. intros H x Hx. apply H. by apply list_elem_of_In, elem_of_all_bytes. Qed.

Lemma byte_pair_cases (P : Z -> Z -> bool) :
  forallb (fun x => forallb (P x) all_bytes) all_bytes = true ->
  forall x y, byte_ok x -> byte_ok y -> P x y = true.
Proof.
  intros H x y Hx Hy. apply (byte_cases (P x)); [|done].
  by apply (byte_cases (fun x => forallb (P x) all_bytes)).
Qed.

Lemma lxor_byte_ok x y : byte_ok x -> byte_ok y -> byte_ok (Z.lxor x y).
Proof.
  intros Hx Hy.
  pose proof (byte_pair_cases (fun x y => (0 <=? Z.lxor x y)%Z && (Z.lxor x y <? 256)%Z) ltac:(vm_compute; reflexivity) x y Hx Hy) as H.
  unfold byte_ok. cbv beta in H. blia.
Qed.

(** Removing the first element that satisfies a test. *)
Fixpoint remove_first {A} (p : A -> bool) (l : list A) : list A :=
  match l with
  | [] => []
  | x :: l' => if p x then l' else x :: remove_first p l'
  end.

Lemma remove_first_sublist {A} (p : A -> bool) l : remove_first p l `sublist_of` l.
Proof.
  induction l as [|x l IH]; simpl; [done|]. destruct (p x).
  - by constructor.
  - by constructor.
Qed.

Lemma elem_of_take_incl {A} n (l : list A) x : x ∈ take n l -> x ∈ l.
Proof. rewrite <-(take_drop n l) at 2. rewrite elem_of_app. auto. Qed.

Lemma elem_of_drop_incl {A} n (l : list A) x : x ∈ drop n l -> x ∈ l.
Proof. rewrite <-(take_drop n l) at 2. rewrite elem_of_app. auto. Qed.

Lemma filter_all {A} (P : A -> Prop) `{!forall x, Decision (P x)} l : Forall P l -> filter P l = l.
Proof. induction 1 as [|x l Hx _ IH]; [done|]. rewrite filter_cons_True by done. by rewrite IH. Qed.

Lemma filter_none {A} (P : A -> Prop) `{!forall x, Decision (P x)} l :
  Forall (fun x => ¬ P x) l -> filter P l = [].
Proof. induction 1 as [|x l Hx _ IH]; [done|]. by rewrite filter_cons_False. Qed.
