(* ===== verification/GoStd.v ===== *)
(** * The parts of the Go language and standard library the sources use

    Fixed-width integers, [encoding/binary] big-endian codecs, [encoding/hex], [bytes.Compare],
    [math/bits.LeadingZeros8], [sort.Sort] and [sort.Slice] (through their documented contract),
    [sort.Search] and [hash/crc32]. *)

From stdpp Require Import base list gmap strings numbers sorting pretty.
From Stdlib Require Import Ascii.
From S2P Require Import Prelude.
Local Open Scope Z_scope.

(** ** Fixed-width unsigned integers: conversions truncate *)

Definition uint8 (x : Z) : Z := x mod 2 ^ 8.
Definition uint16 (x : Z) : Z := x mod 2 ^ 16.
Definition uint32 (x : Z) : Z := x mod 2 ^ 32.
Definition uint64 (x : Z) : Z := x mod 2 ^ 64.
Definition MaxUint64 : Z := 2 ^ 64 - 1.
Definition u16_ok (x : Z) : Prop := 0 <= x < 2 ^ 16.
Definition u32_ok (x : Z) : Prop := 0 <= x < 2 ^ 32.
Definition u64_ok (x : Z) : Prop := 0 <= x < 2 ^ 64.

(** ** [encoding/binary.BigEndian]: [PutUint16], [PutUint32], [PutUint64] and their inverses *)

Fixpoint be_put (n : nat) (w : Z) : bytes :=
  match n with
  | O => []
  | S k => Z.shiftr w (8 * Z.of_nat k) mod 256 :: be_put k w
  end.

Definition be_get (b : bytes) : Z := foldl (fun acc x => Z.lor (Z.shiftl acc 8) x) 0 b.

(** ** [copy(dst, src)] on slices: overwrites a prefix, never grows *)

Definition copy (dst src : bytes) : bytes :=
  let n := Nat.min (length dst) (length src) in take n src ++ drop n dst.

(** ** [bytes.Compare(a, b) < 0]: lexicographic order *)

Fixpoint bytes_less (a b : bytes) : bool :=
  match a, b with
  | _, [] => false
  | [], _ :: _ => true
  | x :: a', y :: b' => if x =? y then bytes_less a' b' else x <? y
  end.

Definition bytes_equal (a b : bytes) : bool := bool_decide (a = b).

(** ** Strings as byte sequences *)

Definition byte_of_ascii (c : ascii) : Z := Z.of_N (N_of_ascii c).
Definition ascii_of_byte (b : Z) : ascii := ascii_of_N (Z.to_N b).
Definition string_bytes (s : string) : bytes := byte_of_ascii <$> String.list_ascii_of_string s.
Definition bytes_string (b : bytes) : string := String.string_of_list_ascii (ascii_of_byte <$> b).

(** [strings.HasPrefix] and the suffix after a prefix. *)
Definition HasPrefix (s pre : string) : bool := String.prefix pre s.
Fixpoint str_drop (n : nat) (s : string) : string :=
  match n, s with
  | O, _ => s
  | S _, EmptyString => EmptyString
  | S k, String _ s' => str_drop k s'
  end.

(** ** [encoding/hex] *)

Definition hextable : list ascii := String.list_ascii_of_string "0123456789abcdef".
Definition hex_digit (d : Z) : ascii := default "0"%char (hextable !! Z.to_nat d).

(** [%d] of a nonnegative integer. *)
Definition fmt_d (n : Z) : string := pretty.pretty (Z.to_N n).

(** [%x] of a [uint64]: at most 16 digits. *)
Fixpoint fmt_x_digits (fuel : nat) (n : Z) (acc : string) : string :=
  match fuel with
  | O => acc
  | S fuel =>
      let acc := String (hex_digit (n mod 16)) acc in
      if n / 16 =? 0 then acc else fmt_x_digits fuel (n / 16) acc
  end.
Definition fmt_x (n : Z) : string := fmt_x_digits 16 n "".

Example fmt_x_examples : fmt_x 0 = "0" /\ fmt_x 0x7f = "7f" /\ fmt_x (2 ^ 64 - 1) = "ffffffffffffffff".
Proof. done. Qed.

Fixpoint hex_EncodeToString (b : bytes) : string :=
  match b with
  | [] => EmptyString
  | x :: b' => String (hex_digit (Z.shiftr x 4)) (String (hex_digit (Z.land x 15)) (hex_EncodeToString b'))
  end.

Definition fromHexChar (c : ascii) : option Z :=
  let x := byte_of_ascii c in
  if (48 <=? x) && (x <=? 57) then Some (x - 48)
  else if (97 <=? x) && (x <=? 102) then Some (x - 97 + 10)
  else if (65 <=? x) && (x <=? 70) then Some (x - 65 + 10)
  else None.

Fixpoint hex_DecodeString (s : string) : option bytes :=
  match s with
  | EmptyString => Some []
  | String c (String d s') =>
      hi ← fromHexChar c; lo ← fromHexChar d; r ← hex_DecodeString s';
      Some (Z.lor (Z.shiftl hi 4) lo :: r)
  | String _ EmptyString => None
  end.

(** ** [math/bits.LeadingZeros8] *)

Definition Len8 (x : Z) : Z := if x =? 0 then 0 else Z.log2 x + 1.
Definition LeadingZeros8 (x : Z) : Z := 8 - Len8 x.

(** ** [sort.Sort] and [sort.Slice]

    The documented contract: the result is a permutation of the input in ascending order of
    [Less], which must be a strict weak order; equal elements may come out in any order. *)

Record strict_weak {A} (less : A -> A -> bool) : Prop := {
  sw_irrefl : forall x, less x x = false;
  sw_trans : forall x y z, less x y = true -> less y z = true -> less x z = true;
  sw_negtrans : forall x y z, less x y = false -> less y z = false -> less x z = false;
}.

Definition ascending {A} (less : A -> A -> bool) : list A -> Prop :=
  StronglySorted (fun x y => less y x = false).

Class GoSort := {
  sort_Sort : forall {A : Type}, (A -> A -> bool) -> list A -> list A;
  sort_perm : forall {A : Type} (less : A -> A -> bool) l, sort_Sort less l ≡ₚ l;
  sort_ascending : forall {A : Type} (less : A -> A -> bool) l,
    strict_weak less -> ascending less (sort_Sort less l);
}.

(** Insertion sort, an implementation of the contract that computes. *)
Fixpoint ins {A} (less : A -> A -> bool) (x : A) (l : list A) : list A :=
  match l with
  | [] => [x]
  | y :: l' => if less y x then y :: ins less x l' else x :: l
  end.

Fixpoint insertion_sort {A} (less : A -> A -> bool) (l : list A) : list A :=
  match l with
  | [] => []
  | x :: l' => ins less x (insertion_sort less l')
  end.

(** ** [sort.Search(n, f)]: the binary search of the standard library *)

Fixpoint search_loop (fuel : nat) (f : nat -> bool) (i j : nat) : outcome nat :=
  match fuel with
  | O => NoFuel
  | S k =>
      if (i <? j)%nat then
        let h := Nat.div2 (i + j) in
        if f h then search_loop k f i h else search_loop k f (S h) j
      else Ok i
  end.

Definition sort_Search (n : nat) (f : nat -> bool) : outcome nat := search_loop (S n) f 0 n.

(** ** [hash/crc32] with [IEEETable]: the bit-reflected polynomial 0xedb88320 *)

Definition crc_step (crc : Z) : Z :=
  if Z.land crc 1 =? 1 then Z.lxor (Z.shiftr crc 1) 3988292384 else Z.shiftr crc 1.
Definition crc_table_entry (i : Z) : Z := Nat.iter 8 crc_step i.
Definition crc_byte (crc v : Z) : Z :=
  Z.lxor (crc_table_entry (Z.land (Z.lxor crc v) 255)) (Z.shiftr crc 8).
Definition crc_not (crc : Z) : Z := Z.lxor crc (2 ^ 32 - 1).
Definition crc32_Update (crc : Z) (p : bytes) : Z := crc_not (foldl crc_byte (crc_not crc) p).
Definition ChecksumIEEE (p : bytes) : Z := crc32_Update 0 p.

(** ** Lemmas *)

Lemma length_be_put n w : length (be_put n w) = n.
Proof. induction n; simpl; auto. Qed.

Lemma be_put_ok n w : bytes_ok (be_put n w).
Proof. induction n; simpl; constructor; auto with devp2p. Qed.

Lemma be_get_app_acc acc b :
  foldl (fun acc x => Z.lor (Z.shiftl acc 8) x) acc b =
  Z.lor (Z.shiftl acc (8 * Z.of_nat (length b))) (be_get b).
Proof.
  unfold be_get. revert acc. induction b as [|x b IH]; intros acc; simpl.
  - by rewrite Z.shiftl_0_r, Z.lor_0_r.
  - change (Z.lor (Z.shiftl 0 8) x) with x. rewrite (IH (Z.lor _ x)), (IH x). rewrite Z.shiftl_lor, Z.shiftl_shiftl by lia.
    rewrite <-Z.lor_assoc. do 2 f_equal; lia.
Qed.

Lemma be_get_cons x b :
  be_get (x :: b) = Z.lor (Z.shiftl x (8 * Z.of_nat (length b))) (be_get b).
Proof. unfold be_get at 1. simpl foldl. change (Z.lor (Z.shiftl 0 8) x) with x. apply be_get_app_acc. Qed.

Lemma be_put_mod n w : be_get (be_put n w) = w mod 2 ^ (8 * Z.of_nat n).
Proof.
  induction n as [|n IH]; simpl be_put.
  - by rewrite Z.mod_1_r.
  - rewrite be_get_cons, length_be_put, IH.
    replace 256 with (2 ^ 8) by done. rewrite <-!Z.land_ones by lia.
    apply Z.bits_inj'. intros i Hi.
    rewrite Z.lor_spec, !Z.land_spec, Z.shiftl_spec by lia.
    destruct (decide (i < 8 * Z.of_nat n)).
    + rewrite (Z.testbit_neg_r _ (i - _)) by lia. rewrite !Z.ones_spec_low by lia. done.
    + rewrite Z.land_spec, Z.shiftr_spec by lia.
      rewrite (Z.ones_spec_high (8 * Z.of_nat n)) by lia.
      rewrite andb_false_r, orb_false_r. f_equal; [f_equal; lia|].
      destruct (decide (i < 8 * Z.of_nat (S n))).
      * rewrite !Z.ones_spec_low by lia. done.
      * rewrite !Z.ones_spec_high by lia. done.
Qed.

Lemma be_put_get n w : 0 <= w < 2 ^ (8 * Z.of_nat n) -> be_get (be_put n w) = w.
Proof. intros. rewrite be_put_mod. by apply Z.mod_small. Qed.

(** Digits in place do not overlap. *)
Lemma lor_add_low x r k : 0 <= k -> 0 <= r < 2 ^ k -> Z.lor (Z.shiftl x k) r = x * 2 ^ k + r.
Proof.
  intros Hk Hr. rewrite <-Z.add_nocarry_lor; [by rewrite Z.shiftl_mul_pow2 by lia|].
  apply Z.bits_inj'. intros n Hn. rewrite Z.land_spec, Z.bits_0, Z.shiftl_spec by lia. destruct (decide (n < k)); [by rewrite Z.testbit_neg_r by lia|].
  rewrite <-(Z.mod_small r (2 ^ k)), Z.mod_pow2_bits_high by lia. apply andb_false_r.
Qed.

Lemma be_get_bound b : bytes_ok b -> 0 <= be_get b < 2 ^ (8 * Z.of_nat (length b)).
Proof.
  induction 1 as [|x b Hx Hb IH]; [cbn; lia|]. rewrite be_get_cons, lor_add_low by lia. cbn [length].
  replace (8 * Z.of_nat (S (length b))) with (8 + 8 * Z.of_nat (length b)) by lia. rewrite Z.pow_add_r by lia. unfold byte_ok in Hx. nia.
Qed.

Lemma be_get_inj b b' : bytes_ok b -> bytes_ok b' -> length b = length b' -> be_get b = be_get b' -> b = b'.
Proof.
  intros Hb. revert b'. induction Hb as [|x b Hx Hb IH]; intros b' Hb' Hl E; [by destruct b'|]. destruct Hb' as [|x' b' Hx' Hb']; [done|].
  injection Hl as Hl. rewrite !be_get_cons, Hl, !lor_add_low in E by (rewrite <-?Hl; (lia || by apply be_get_bound || (rewrite ?Hl; by apply be_get_bound))).
  pose proof (be_get_bound b Hb). pose proof (be_get_bound b' Hb'). rewrite Hl in *. assert (x = x') as -> by nia. f_equal. apply IH; [done|done|lia].
Qed.

Lemma be_get_put b : bytes_ok b -> be_put (length b) (be_get b) = b.
Proof.
  intros Hb. apply be_get_inj; [apply be_put_ok|done|apply length_be_put|]. apply be_put_get. by apply be_get_bound.
Qed.

Lemma be_get_zeros n b : be_get (replicate n 0 ++ b) = be_get b.
Proof. induction n as [|n IH]; [done|]. cbn [replicate app]. by rewrite be_get_cons, Z.shiftl_0_l, Z.lor_0_l. Qed.

Lemma length_copy dst src : length (copy dst src) = length dst.
Proof. unfold copy. rewrite length_app, length_take, length_drop. lia. Qed.

Lemma copy_full dst src : length dst = length src -> copy dst src = src.
Proof.
  intros H. unfold copy. rewrite H, Nat.min_id, take_ge by lia.
  rewrite drop_ge by lia. apply app_nil_r.
Qed.

Lemma copy_app a b src : length a = length src -> copy (a ++ b) src = src ++ b.
Proof.
  intros H. unfold copy. rewrite length_app, Nat.min_r by lia.
  rewrite take_ge by lia. f_equal. by rewrite <-H, drop_app_length.
Qed.

Lemma bytes_less_irrefl a : bytes_less a a = false.
Proof. induction a; simpl; [done|]. by rewrite Z.eqb_refl. Qed.

Lemma bytes_less_trans a b c :
  bytes_less a b = true -> bytes_less b c = true -> bytes_less a c = true.
Proof.
  revert b c. induction a as [|x a IH]; intros [|y b] [|z c]; simpl; try done.
  destruct (x =? y) eqn:E1, (y =? z) eqn:E2, (x =? z) eqn:E3; intros H1 H2; try blia; eauto.
Qed.

(** Lexicographic order is total: incomparable sequences are equal. *)
Lemma bytes_less_total a b : bytes_less a b = false -> bytes_less b a = false -> a = b.
Proof.
  revert b. induction a as [|x a IH]; intros [|y b]; simpl; try done.
  rewrite (Z.eqb_sym y x). destruct (x =? y) eqn:E; [|intros; exfalso; blia].
  apply Z.eqb_eq in E as ->. intros. f_equal. auto.
Qed.

Lemma bytes_less_negtrans a b c :
  bytes_less a b = false -> bytes_less b c = false -> bytes_less a c = false.
Proof.
  intros H1 H2. destruct (bytes_less a c) eqn:E; [|done].
  destruct (bytes_less b a) eqn:E2.
  - by rewrite (bytes_less_trans b a c) in H2.
  - rewrite (bytes_less_total a b) in E by done. congruence.
Qed.

Lemma bytes_less_strict_weak {A} (f : A -> bytes) :
  strict_weak (fun x y => bytes_less (f x) (f y)).
Proof.
  split; intros.
  - apply bytes_less_irrefl.
  - eauto using bytes_less_trans.
  - eauto using bytes_less_negtrans.
Qed.

Lemma Zlt_strict_weak {A} (f : A -> Z) : strict_weak (fun x y => f x <? f y).
Proof. split; intros; repeat case_if; blia. Qed.

Lemma ins_perm {A} (less : A -> A -> bool) x l : ins less x l ≡ₚ x :: l.
Proof. induction l as [|y l IH]; simpl; [done|]. case_if; [|done]. rewrite IH. constructor. Qed.

Lemma insertion_sort_perm {A} (less : A -> A -> bool) l : insertion_sort less l ≡ₚ l.
Proof. induction l as [|x l IH]; simpl; [done|]. by rewrite ins_perm, IH. Qed.

Lemma ins_ascending {A} (less : A -> A -> bool) x l :
  strict_weak less -> ascending less l -> ascending less (ins less x l).
Proof.
  intros W. induction 1 as [|y l Hs IH Hy]; simpl.
  - repeat constructor.
  - case_if.
    + constructor; [done|]. rewrite ins_perm. constructor; [|done].
      destruct (less x y) eqn:E2; [|done].
      pose proof (sw_trans _ W _ _ _ E E2) as H. by rewrite (sw_irrefl _ W) in H.
    + constructor; [by constructor|]. constructor; [done|].
      eapply Forall_impl; [exact Hy|]. simpl. intros z Hz. eapply sw_negtrans; eauto.
Qed.

#[export] Instance insertion_GoSort : GoSort.
Proof.
  refine {| sort_Sort := @insertion_sort |}.
  - intros. apply insertion_sort_perm.
  - intros A less l W. induction l; simpl; [constructor|]. by apply ins_ascending.
Defined.

(** Sorting is determined by the contract when the order has no ties among the elements. *)
Lemma ascending_unique {A} (less : A -> A -> bool) (l1 l2 : list A) :
  (forall x y, x ∈ l1 -> y ∈ l1 -> less x y = false -> less y x = false -> x = y) ->
  ascending less l1 -> ascending less l2 -> l1 ≡ₚ l2 -> l1 = l2.
Proof.
  intros Ha H1. revert l2. induction H1 as [|x l1 H1 IH Hx]; intros l2 H2 Hp.
  - by apply Permutation_nil_l in Hp.
  - destruct H2 as [|y l2 H2 Hy]; [by apply Permutation_nil_r in Hp|].
    assert (x = y) as ->.
    { assert (x ∈ y :: l2) as Hxin by (rewrite <-Hp; constructor).
      assert (y ∈ x :: l1) as Hyin by (rewrite Hp; constructor).
      apply elem_of_cons in Hxin as [->|Hxin]; [done|].
      apply elem_of_cons in Hyin as [->|Hyin]; [done|].
      rewrite Forall_forall in Hx, Hy.
      apply Ha; [constructor|by constructor| |]; [by apply Hy|by apply Hx]. }
    f_equal. apply IH; [|done|by apply Permutation_cons_inv in Hp].
    intros u v Hu Hv. apply Ha; by constructor.
Qed.

(** The binary search terminates and, for a monotone predicate, finds the least index where
    the predicate holds. *)
Lemma search_loop_correct f n fuel i j :
  (forall a b, (a <= b < n)%nat -> f a = true -> f b = true) ->
  (i <= j <= n)%nat -> (j - i < fuel)%nat ->
  (forall a, (a < i)%nat -> f a = false) -> (forall a, (j <= a < n)%nat -> f a = true) ->
  exists r, search_loop fuel f i j = Ok r /\ (r <= n)%nat /\
    (forall a, (a < r)%nat -> f a = false) /\ (forall a, (r <= a < n)%nat -> f a = true).
Proof.
  intros Hm. revert i j. induction fuel as [|fuel IH]; intros i j Hij Hf Hlo Hhi; [lia|].
  simpl. destruct (i <? j)%nat eqn:E.
  - apply Nat.ltb_lt in E.
    assert (i <= Nat.div2 (i + j) < j)%nat as Hh.
    { rewrite Nat.div2_div. split; [apply Nat.div_le_lower_bound; lia|].
      apply Nat.Div0.div_lt_upper_bound; lia. }
    destruct (f (Nat.div2 (i + j))) eqn:Ef.
    + apply IH; try lia; [done|]. intros a Ha.
      destruct (decide (a < j)%nat); [|apply Hhi; lia]. eapply Hm; [|exact Ef]. lia.
    + apply IH; try lia; [|done]. intros a Ha.
      destruct (f a) eqn:Ea; [|done]. rewrite <-Ef. symmetry. apply (Hm a); [lia|done].
  - apply Nat.ltb_ge in E. exists i. split_and!; try done; [lia|]. intros a Ha. apply Hhi. lia.
Qed.

Lemma sort_Search_correct f n :
  (forall a b, (a <= b < n)%nat -> f a = true -> f b = true) ->
  exists r, sort_Search n f = Ok r /\ (r <= n)%nat /\
    (forall a, (a < r)%nat -> f a = false) /\ (forall a, (r <= a < n)%nat -> f a = true).
Proof. intros Hm. apply search_loop_correct; auto; lia. Qed.

(** [encoding/hex] round trips. *)
Lemma hex_byte x : byte_ok x ->
  (fromHexChar (hex_digit (Z.shiftr x 4)) ≫= fun hi =>
   fromHexChar (hex_digit (Z.land x 15)) ≫= fun lo => Some (Z.lor (Z.shiftl hi 4) lo)) = Some x.
Proof.
  intros H. apply (byte_cases (fun x => bool_decide (
  (fromHexChar (hex_digit (Z.shiftr x 4)) ≫= fun hi =>
   fromHexChar (hex_digit (Z.land x 15)) ≫= fun lo => Some (Z.lor (Z.shiftl hi 4) lo)) = Some x)))
   in H; [by apply bool_decide_eq_true in H|]. vm_compute. done.
Qed.

Lemma hex_roundtrip b : bytes_ok b -> hex_DecodeString (hex_EncodeToString b) = Some b.
Proof.
  induction 1 as [|x b Hx Hb IH]; simpl; [done|].
  pose proof (hex_byte x Hx) as E.
  destruct (fromHexChar (hex_digit (Z.shiftr x 4))) as [hi|]; simpl in *; [|done].
  destruct (fromHexChar (hex_digit (Z.land x 15))) as [lo|]; simpl in *; [|done].
  rewrite IH. simpl. congruence.
Qed.

Lemma length_hex b : String.length (hex_EncodeToString b) = (2 * length b)%nat.
Proof. induction b; simpl; lia. Qed.

Lemma hex_inj a b : bytes_ok a -> bytes_ok b -> hex_EncodeToString a = hex_EncodeToString b -> a = b.
Proof. intros Ha Hb E. apply (f_equal hex_DecodeString) in E. rewrite !hex_roundtrip in E by done. congruence. Qed.

Lemma byte_of_ascii_ok c : byte_ok (byte_of_ascii c).
Proof. unfold byte_ok, byte_of_ascii. pose proof (N_ascii_bounded c). lia. Qed.

Lemma string_bytes_ok s : bytes_ok (string_bytes s).
Proof. unfold string_bytes. apply Forall_fmap, Forall_true. intros; apply byte_of_ascii_ok. Qed.

Lemma ascii_of_byte_of_ascii c : ascii_of_byte (byte_of_ascii c) = c.
Proof. unfold ascii_of_byte, byte_of_ascii. by rewrite N2Z.id, ascii_N_embedding. Qed.

Lemma byte_of_ascii_of_byte b : byte_ok b -> byte_of_ascii (ascii_of_byte b) = b.
Proof.
  unfold byte_ok, ascii_of_byte, byte_of_ascii. intros. rewrite N_ascii_embedding by lia. lia.
Qed.

Lemma bytes_string_bytes s : bytes_string (string_bytes s) = s.
Proof.
  unfold bytes_string, string_bytes. transitivity (String.string_of_list_ascii (String.list_ascii_of_string s));
    [|apply String.string_of_list_ascii_of_string]. f_equal.
  induction (String.list_ascii_of_string s); [done|]. by rewrite !fmap_cons, ascii_of_byte_of_ascii, IHl.
Qed.

Lemma string_bytes_string b : bytes_ok b -> string_bytes (bytes_string b) = b.
Proof.
  intros H. unfold bytes_string, string_bytes. rewrite String.list_ascii_of_string_of_list_ascii.
  induction H; [done|]. by rewrite !fmap_cons, byte_of_ascii_of_byte, IHForall.
Qed.

(** [crc32.Update] composes: updating in two steps is updating with the concatenation. *)
Lemma crc_not_involutive x : crc_not (crc_not x) = x.
Proof. unfold crc_not. by rewrite Z.lxor_assoc, Z.lxor_nilpotent, Z.lxor_0_r. Qed.

Lemma crc32_Update_app c p q : crc32_Update (crc32_Update c p) q = crc32_Update c (p ++ q).
Proof. unfold crc32_Update. by rewrite crc_not_involutive, foldl_app. Qed.

Lemma HasPrefix_app pre s : HasPrefix (pre ++ s) pre = true.
Proof.
  unfold HasPrefix. induction pre as [|c pre IH]; [by destruct s|].
  change ((if ascii_dec c c then String.prefix pre (pre ++ s) else false) = true). by destruct (ascii_dec c c).
Qed.

Lemma str_drop_app pre s : str_drop (String.length pre) (pre ++ s) = s.
Proof. by induction pre. Qed.

#[export] Hint Resolve be_put_ok string_bytes_ok byte_of_ascii_ok : devp2p.
#[export] Hint Rewrite length_be_put length_copy : devp2p.
