(* ===== verification/GoEnc.v ===== *)
(** * Text encodings of Go's standard library

    [encoding/base64] with [RawURLEncoding], [encoding/base32] with [StdEncoding] and no padding,
    [strings.Split] and [strings.Join], and [fmt.Sscanf] for formats of literals, single spaces and
    the verbs [%s] and [%d].  Groups of bytes are turned into groups of digits through the number
    they spell, as the library does.  [Sscanf] is that of ASCII input: the library reads runes. *)

From stdpp Require Import base sets strings numbers list.
From Stdlib Require Import Ascii.
From S2P Require Import Prelude GoStd.
Local Open Scope Z_scope.

Notation chars := String.list_ascii_of_string.
Notation of_chars := String.string_of_list_ascii.

(** ** Alphabets *)

Definition digit_char (alphabet : list ascii) (d : Z) : ascii := default "A"%char (alphabet !! Z.to_nat d).
Definition char_digit (alphabet : list ascii) (c : ascii) : option Z :=
  (fun p => Z.of_nat p.1) <$> list_find (eq c) alphabet.

Definition base64_url : list ascii := chars "ABCDEFGHIJKLMNOPQRSTUVWXYZabcdefghijklmnopqrstuvwxyz0123456789-_".
Definition base32_std : list ascii := chars "ABCDEFGHIJKLMNOPQRSTUVWXYZ234567".

(** Line breaks are skipped by both decoders. *)
Definition is_newline (c : ascii) : bool := bool_decide (c = "010"%char) || bool_decide (c = "013"%char).
Definition strip_newlines (s : list ascii) : list ascii := filter (fun c => is_newline c = false) s.

(** ** base64: three bytes are four digits *)

Fixpoint b64_digits (b : bytes) : list Z :=
  match b with
  | x :: y :: z :: r =>
      let v := x * 2 ^ 16 + y * 2 ^ 8 + z in
      v / 2 ^ 18 :: v / 2 ^ 12 mod 64 :: v / 2 ^ 6 mod 64 :: v mod 64 :: b64_digits r
  | [x; y] => let v := x * 2 ^ 16 + y * 2 ^ 8 in [v / 2 ^ 18; v / 2 ^ 12 mod 64; v / 2 ^ 6 mod 64]
  | [x] => let v := x * 2 ^ 16 in [v / 2 ^ 18; v / 2 ^ 12 mod 64]
  | [] => []
  end.

(** The last group may have two or three digits; the bits left over are not checked. *)
Fixpoint b64_bytes (l : list Z) : option bytes :=
  match l with
  | a :: b :: c :: d :: r =>
      let v := a * 2 ^ 18 + b * 2 ^ 12 + c * 2 ^ 6 + d in
      rest ← b64_bytes r; Some (v / 2 ^ 16 :: v / 2 ^ 8 mod 256 :: v mod 256 :: rest)
  | [a; b; c] => let v := a * 2 ^ 18 + b * 2 ^ 12 + c * 2 ^ 6 in Some [v / 2 ^ 16; v / 2 ^ 8 mod 256]
  | [a; b] => let v := a * 2 ^ 18 + b * 2 ^ 12 in Some [v / 2 ^ 16]
  | [_] => None
  | [] => Some []
  end.

Definition base64_EncodeToString (b : bytes) : string := of_chars (digit_char base64_url <$> b64_digits b).
Definition base64_DecodeString (s : string) : option bytes :=
  l ← mapM (char_digit base64_url) (strip_newlines (chars s)); b64_bytes l.

(** ** base32: five bytes are eight digits *)

(** [enc32 k v]: the first [k] digits of a 40-bit number. *)
Definition digits32 (k : nat) (v : Z) : list Z :=
  take k [v / 2 ^ 35; v / 2 ^ 30 mod 32; v / 2 ^ 25 mod 32; v / 2 ^ 20 mod 32; v / 2 ^ 15 mod 32; v / 2 ^ 10 mod 32; v / 2 ^ 5 mod 32; v mod 32].
Definition bytes32 (k : nat) (v : Z) : bytes :=
  take k [v / 2 ^ 32; v / 2 ^ 24 mod 256; v / 2 ^ 16 mod 256; v / 2 ^ 8 mod 256; v mod 256].

Fixpoint b32_digits (b : bytes) : list Z :=
  match b with
  | b0 :: b1 :: b2 :: b3 :: b4 :: r => digits32 8 (b0 * 2 ^ 32 + b1 * 2 ^ 24 + b2 * 2 ^ 16 + b3 * 2 ^ 8 + b4) ++ b32_digits r
  | [b0; b1; b2; b3] => digits32 7 (b0 * 2 ^ 32 + b1 * 2 ^ 24 + b2 * 2 ^ 16 + b3 * 2 ^ 8)
  | [b0; b1; b2] => digits32 5 (b0 * 2 ^ 32 + b1 * 2 ^ 24 + b2 * 2 ^ 16)
  | [b0; b1] => digits32 4 (b0 * 2 ^ 32 + b1 * 2 ^ 24)
  | [b0] => digits32 2 (b0 * 2 ^ 32)
  | [] => []
  end.

(** The bytes of a group of [length l] digits: a group of one, three or six digits loses its tail. *)
Definition pack32 (l : list Z) : bytes :=
  let v := foldl (fun v d => v * 32 + d) 0 l * 2 ^ (40 - 5 * Z.of_nat (length l)) in
  match length l with
  | 8%nat => bytes32 5 v
  | 7%nat => bytes32 4 v
  | 5%nat => bytes32 3 v
  | 4%nat => bytes32 2 v
  | 2%nat => bytes32 1 v
  | _ => []
  end.

(** One group: at most [k] more digits after [dbuf].  [NoPadding] is -1, so the byte 255 still takes
    the place of the padding character.  The flag is set at the end of the input. *)
Fixpoint quantum32 (k : nat) (src : list ascii) (dbuf : list Z) : option (list Z * bool * list ascii) :=
  match k with
  | O => Some (dbuf, false, src)
  | S k' =>
      match src with
      | [] => Some (dbuf, true, [])
      | c :: src' =>
          let j := length dbuf in
          if bool_decide (c = "255"%char) && (2 <=? j)%nat && (length src' <? 8)%nat then
            if (length src' + j <? 7)%nat || negb (forallb (fun c => bool_decide (c = "255"%char)) (take (7 - j) src'))
               || (j =? 3)%nat || (j =? 6)%nat
            then None else Some (dbuf, true, src')
          else d ← char_digit base32_std c; quantum32 k' src' (dbuf ++ [d])
      end
  end.

Fixpoint decode32 (fuel : nat) (src : list ascii) : option bytes :=
  match src, fuel with
  | [], _ => Some []
  | _, O => None
  | _, S f =>
      '(dbuf, fin, src) ← quantum32 8 src [];
      if fin : bool then Some (pack32 dbuf) else rest ← decode32 f src; Some (pack32 dbuf ++ rest)
  end.

Definition base32_EncodeToString (b : bytes) : string := of_chars (digit_char base32_std <$> b32_digits b).
Definition base32_DecodeString (s : string) : option bytes :=
  let src := strip_newlines (chars s) in decode32 (length src) src.

(** ** strings.Split and strings.Join with a separator of one character *)

Fixpoint split_chars (sep : ascii) (cur : list ascii) (s : list ascii) : list (list ascii) :=
  match s with
  | [] => [cur]
  | c :: s' => if bool_decide (c = sep) then cur :: split_chars sep [] s' else split_chars sep (cur ++ [c]) s'
  end.
Definition Split (s : string) (sep : ascii) : list string := of_chars <$> split_chars sep [] (chars s).

Fixpoint Join (l : list string) (sep : string) : string :=
  match l with
  | [] => ""
  | [s] => s
  | s :: l' => s ++ sep ++ Join l' sep
  end.

(** ** fmt.Sscanf *)

Inductive scanned := SStr (s : string) | SNum (n : Z).

Definition isSpace (c : ascii) : bool :=
  let x := byte_of_ascii c in ((9 <=? x) && (x <=? 13)) || (x =? 32).
Definition isDigit (c : ascii) : bool := let x := byte_of_ascii c in (48 <=? x) && (x <=? 57).

(** [SkipSpace]: a newline is an error, unless it follows a carriage return. *)
Fixpoint SkipSpace (s : list ascii) : outcome (list ascii) :=
  match s with
  | [] => Ok []
  | c :: s' =>
      match s' with
      | c' :: s'' => if bool_decide (c = "013"%char) && bool_decide (c' = "010"%char) then SkipSpace s'' else
                     if bool_decide (c = "010"%char) then Err "unexpected newline"
                     else if isSpace c then SkipSpace s' else Ok s
      | [] => if bool_decide (c = "010"%char) then Err "unexpected newline" else if isSpace c then Ok [] else Ok s
      end
  end.

(** The longest prefix that satisfies a test. *)
Fixpoint span (p : ascii -> bool) (s : list ascii) : list ascii * list ascii :=
  match s with
  | c :: s' => if p c then let '(a, b) := span p s' in (c :: a, b) else ([], s)
  | [] => ([], [])
  end.

Fixpoint skip_blanks (s : list ascii) : list ascii :=
  match s with
  | c :: s' => if isSpace c && negb (bool_decide (c = "010"%char)) then skip_blanks s' else s
  | [] => []
  end.

(** [strconv.ParseUint(tok, 10, 64)] of a nonempty string of digits. *)
Definition digits_value (l : list ascii) : Z := foldl (fun n c => n * 10 + (byte_of_ascii c - 48)) 0 l.
Definition ParseUint (l : list ascii) : outcome Z :=
  if digits_value l <=? MaxUint64 then Ok (digits_value l) else Err "value out of range".

Fixpoint Sscanf (inp format : list ascii) {struct format} : outcome (list scanned) :=
  match format with
  | [] => Ok []
  | c :: format' =>
      if bool_decide (c = "%"%char) then
        match format' with
        | [] => Err "missing verb: % at end of format string"
        | verb :: format'' =>
            inp ← SkipSpace inp;
            if bool_decide (inp = []) then Err "unexpected EOF" else
            if bool_decide (verb = "s"%char) then
              let '(tok, inp) := span (fun c => negb (isSpace c)) inp in
              l ← Sscanf inp format''; Ok (SStr (of_chars tok) :: l)
            else if bool_decide (verb = "d"%char) then
              let '(tok, inp) := span isDigit inp in
              if bool_decide (tok = []) then Err "expected integer" else
              n ← ParseUint tok; l ← Sscanf inp format''; Ok (SNum n :: l)
            else Err "bad verb"
        end
      else if isSpace c then
        match inp with
        | [] => Sscanf [] format'
        | i :: _ =>
            if negb (isSpace i) then Err "expected space in input to match format"
            else if bool_decide (i = "010"%char) then Err "newline in input does not match format"
            else Sscanf (skip_blanks inp) format'
        end
      else
        match inp with
        | [] => Err "unexpected EOF"
        | i :: inp' => if bool_decide (i = c) then Sscanf inp' format' else Err "input does not match format"
        end
  end.

(** ** Lemmas *)

Lemma chars_of_chars l : chars (of_chars l) = l.
Proof. apply String.list_ascii_of_string_of_list_ascii. Qed.
Lemma of_chars_chars s : of_chars (chars s) = s.
Proof. apply String.string_of_list_ascii_of_string. Qed.

Lemma chars_app a b : chars (a ++ b) = chars a ++ chars b.
Proof. induction a as [|c a IH]; [done|]. change (c :: chars (a ++ b) = (c :: chars a) ++ chars b). by rewrite IH. Qed.

(** A check of all digits below [n]. *)
Lemma digit_cases (n : Z) (P : Z -> bool) : forallb P (seqZ 0 n) = true -> forall d, 0 <= d < n -> P d = true.
Proof. rewrite forallb_forall. intros H d Hd. apply H, list_elem_of_In, elem_of_seqZ. lia. Qed.

(** What the decoders need of an encoded character: its digit back, no line break, not the byte 255. *)
Definition char_ok (alphabet : list ascii) (d : Z) : bool :=
  bool_decide (char_digit alphabet (digit_char alphabet d) = Some d) && negb (is_newline (digit_char alphabet d))
  && negb (bool_decide (digit_char alphabet d = "255"%char)).

Lemma char_ok64 d : 0 <= d < 64 -> char_ok base64_url d = true.
Proof. apply digit_cases. vm_compute. reflexivity. Qed.
Lemma char_ok32 d : 0 <= d < 32 -> char_ok base32_std d = true.
Proof. apply digit_cases. vm_compute. reflexivity. Qed.

Lemma char_ok_digit al d : char_ok al d = true -> char_digit al (digit_char al d) = Some d.
Proof. unfold char_ok. intros [[H%bool_decide_eq_true_1 _]%andb_true_iff _]%andb_true_iff. done. Qed.

Lemma strip_digits al l : Forall (fun d => char_ok al d = true) l -> strip_newlines (digit_char al <$> l) = digit_char al <$> l.
Proof.
  intros Hl. apply filter_all. apply Forall_fmap. eapply Forall_impl; [exact Hl|]. intros d Hd.
  unfold char_ok in Hd. apply andb_true_iff in Hd as [[_ Hd%negb_true_iff]%andb_true_iff _]. done.
Qed.

Lemma mapM_digits al l : Forall (fun d => char_ok al d = true) l -> mapM (char_digit al) (digit_char al <$> l) = Some l.
Proof. intros Hl. apply mapM_Some. induction Hl; constructor; [by apply char_ok_digit|done]. Qed.

(** *** Round trips *)

Lemma list_ind3 {A} (P : list A -> Prop) : P [] -> (forall x, P [x]) -> (forall x y, P [x; y]) ->
  (forall x y z r, P r -> P (x :: y :: z :: r)) -> forall l, P l.
Proof. intros H0 H1 H2 H3. fix IH 1. intros [|x [|y [|z r]]]; [apply H0|apply H1|apply H2|apply H3, IH]. Qed.

Lemma list_ind5 {A} (P : list A -> Prop) : P [] -> (forall x, P [x]) -> (forall x y, P [x; y]) -> (forall x y z, P [x; y; z]) ->
  (forall x y z w, P [x; y; z; w]) -> (forall x y z w v r, P r -> P (x :: y :: z :: w :: v :: r)) -> forall l, P l.
Proof. intros H0 H1 H2 H3 H4 H5. fix IH 1. intros [|x [|y [|z [|w [|v r]]]]]; [apply H0|apply H1|apply H2|apply H3|apply H4|apply H5, IH]. Qed.

(** Divisions by constants. *)
Ltac divlia := unfold byte_ok in *; Z.to_euclidean_division_equations; lia.

Lemma b64_digits_range b : bytes_ok b -> Forall (fun d => 0 <= d < 64) (b64_digits b).
Proof.
  induction b as [|x|x y|x y z r IH] using list_ind3; intros Hb; repeat match goal with H : Forall _ (_ :: _) |- _ => apply Forall_cons in H as [? H] end;
    cbn [b64_digits]; cbv zeta; repeat constructor; try (by apply IH); divlia.
Qed.

Lemma b64_roundtrip b : bytes_ok b -> b64_bytes (b64_digits b) = Some b.
Proof.
  induction b as [|x|x y|x y z r IH] using list_ind3; intros Hb; repeat match goal with H : Forall _ (_ :: _) |- _ => apply Forall_cons in H as [? H] end;
    cbn [b64_digits b64_bytes]; cbv zeta; [done| | |rewrite IH by done; cbn [mbind option_bind]]; f_equal; repeat f_equal; divlia.
Qed.

Theorem base64_roundtrip b : bytes_ok b -> base64_DecodeString (base64_EncodeToString b) = Some b.
Proof.
  intros Hb. unfold base64_DecodeString, base64_EncodeToString. rewrite chars_of_chars.
  assert (Forall (fun d => char_ok base64_url d = true) (b64_digits b)) as Hd.
  { eapply Forall_impl; [by apply b64_digits_range|]. apply char_ok64. }
  rewrite strip_digits, mapM_digits by done. by apply b64_roundtrip.
Qed.

Lemma quantum32_digits l : Forall (fun d => char_ok base32_std d = true) l -> forall k rest dbuf,
  quantum32 (length l + k) ((digit_char base32_std <$> l) ++ rest) dbuf = quantum32 k rest (dbuf ++ l).
Proof.
  induction 1 as [|d l Hd _ IH]; intros k rest dbuf; [by rewrite app_nil_r|].
  rewrite fmap_cons. cbn [length Nat.add quantum32 app]. pose proof (char_ok_digit _ _ Hd) as E.
  unfold char_ok in Hd. apply andb_true_iff in Hd as [_ Hn%negb_true_iff]. rewrite Hn. cbn [andb].
  rewrite E. cbn [mbind option_bind]. rewrite IH. by rewrite <-app_assoc.
Qed.

Lemma digits32_range k v : 0 <= v < 2 ^ 40 -> Forall (fun d => 0 <= d < 32) (digits32 k v).
Proof. intros Hv. apply Forall_take. repeat constructor; divlia. Qed.

Lemma digits32_value k v : (k <= 8)%nat -> (1 <= k)%nat -> foldl (fun v d => v * 32 + d) 0 (digits32 k v) = v / 2 ^ (40 - 5 * Z.of_nat k).
Proof.
  intros Hk H1. destruct k as [|[|[|[|[|[|[|[|[|k]]]]]]]]]; [lia|..|lia];
    unfold digits32; cbn [take foldl]; cbn [Z.of_nat Pos.of_succ_nat Pos.succ Z.mul Z.sub Z.add Z.opp Pos.mul Z.pos_sub Pos.add Pos.pred_double Z.succ_double Z.pred_double Z.double]; divlia.
Qed.

Lemma length_digits32 k v : (k <= 8)%nat -> length (digits32 k v) = k.
Proof. intros Hk. unfold digits32. rewrite length_take. cbn [length]. lia. Qed.

(** A group of digits gives back the bytes it was made of. *)
Lemma pack32_digits k v : (1 <= k <= 8)%nat -> v mod 2 ^ (40 - 5 * Z.of_nat k) = 0 -> pack32 (digits32 k v) =
  match k with 8%nat => bytes32 5 v | 7%nat => bytes32 4 v | 5%nat => bytes32 3 v | 4%nat => bytes32 2 v | 2%nat => bytes32 1 v | _ => [] end.
Proof.
  intros Hk Hv. unfold pack32. rewrite digits32_value by lia. rewrite length_digits32 by lia.
  set (m := 2 ^ (40 - 5 * Z.of_nat k)) in *. assert (v / m * m = v) as ->; [|done].
  pose proof (Z.div_mod v m ltac:(unfold m; apply Z.pow_nonzero; lia)). lia.
Qed.

Lemma decode32_full f v rest : 0 <= v < 2 ^ 40 -> (exists rest', decode32 f rest = Some rest') ->
  decode32 (S f) ((digit_char base32_std <$> digits32 8 v) ++ rest) = (fun r => bytes32 5 v ++ r) <$> decode32 f rest.
Proof.
  intros Hv [r Hr]. assert (Forall (fun d => char_ok base32_std d = true) (digits32 8 v)) as Hd.
  { eapply Forall_impl; [by apply digits32_range|]. apply char_ok32. }
  pose proof (quantum32_digits _ Hd 0 rest []) as Hq. rewrite length_digits32 in Hq by lia. cbn [Nat.add] in Hq.
  destruct ((digit_char base32_std <$> digits32 8 v) ++ rest) as [|c l] eqn:El; [done|].
  cbn [decode32]. rewrite Hq. cbn [quantum32 mbind option_bind app]. rewrite Hr. cbn [mbind option_bind fmap option_fmap option_map].
  by rewrite pack32_digits by (rewrite ?Z.mod_1_r; lia || done).
Qed.

Lemma decode32_last f k v : 0 <= v < 2 ^ 40 -> (1 <= k < 8)%nat -> v mod 2 ^ (40 - 5 * Z.of_nat k) = 0 ->
  decode32 (S f) (digit_char base32_std <$> digits32 k v) = Some (pack32 (digits32 k v)).
Proof.
  intros Hv Hk Hm. assert (Forall (fun d => char_ok base32_std d = true) (digits32 k v)) as Hd.
  { eapply Forall_impl; [by apply digits32_range|]. apply char_ok32. }
  pose proof (quantum32_digits _ Hd (8 - k) [] []) as Hq. rewrite length_digits32, app_nil_r in Hq by lia.
  replace (k + (8 - k))%nat with 8%nat in Hq by lia. cbn [app] in Hq.
  pose proof (length_digits32 k v ltac:(lia)) as Hl.
  destruct (digit_char base32_std <$> digits32 k v) as [|c l] eqn:El.
  { apply (f_equal length) in El. rewrite length_fmap, Hl in El. cbn in El. lia. }
  cbn [decode32]. rewrite Hq. destruct (8 - k)%nat eqn:E8; [lia|]. done.
Qed.

Lemma b32_decode b : bytes_ok b -> forall f, (length (b32_digits b) <= f)%nat ->
  decode32 f (digit_char base32_std <$> b32_digits b) = Some b.
Proof.
  induction b as [|x|x y|x y z|x y z w|x y z w v r IH] using list_ind5; intros Hb f Hf; [by destruct f|..];
    repeat match goal with H : Forall _ (_ :: _) |- _ => apply Forall_cons in H as [? H] end; cbn [b32_digits] in *.
  5: { set (n := x * 2 ^ 32 + y * 2 ^ 24 + z * 2 ^ 16 + w * 2 ^ 8 + v) in *.
       rewrite length_app, length_digits32 in Hf by lia. destruct f as [|f]; [lia|]. rewrite fmap_app.
       rewrite decode32_full; [|unfold n, byte_ok in *; lia|]; rewrite IH by (done || lia); [|by eexists].
       cbn [fmap option_fmap option_map]. f_equal. unfold n, bytes32. cbn [take app]. repeat f_equal; divlia. }
  all: destruct f as [|f]; [by cbn in Hf; lia|]; rewrite decode32_last; [f_equal|divlia|lia|cbn; divlia];
    rewrite pack32_digits; [|lia|cbn; divlia]; unfold bytes32; cbn [take]; repeat f_equal; divlia.
Qed.

Lemma b32_digits_range b : bytes_ok b -> Forall (fun d => 0 <= d < 32) (b32_digits b).
Proof.
  induction b as [|x|x y|x y z|x y z w|x y z w v r IH] using list_ind5; intros Hb; [constructor|..];
    repeat match goal with H : Forall _ (_ :: _) |- _ => apply Forall_cons in H as [? H] end; cbn [b32_digits] in *.
  5: apply Forall_app; split; [|by apply IH].
  all: apply digits32_range; divlia.
Qed.

Theorem base32_roundtrip b : bytes_ok b -> base32_DecodeString (base32_EncodeToString b) = Some b.
Proof.
  intros Hb. unfold base32_DecodeString, base32_EncodeToString. rewrite chars_of_chars.
  rewrite strip_digits. 2: { eapply Forall_impl; [by apply b32_digits_range|]. apply char_ok32. }
  apply b32_decode; [done|]. by rewrite length_fmap.
Qed.

(** *** Splitting what was joined *)

Lemma split_chars_app sep cur a rest : sep ∉ a -> split_chars sep cur (a ++ sep :: rest) = (cur ++ a) :: split_chars sep [] rest.
Proof.
  revert cur. induction a as [|c a IH]; intros cur Hn; cbn [app split_chars].
  - rewrite bool_decide_eq_true_2 by done. by rewrite app_nil_r.
  - rewrite bool_decide_eq_false_2 by set_solver. rewrite IH by set_solver. by rewrite <-app_assoc.
Qed.

Lemma split_chars_end sep cur a : sep ∉ a -> split_chars sep cur a = [cur ++ a].
Proof.
  revert cur. induction a as [|c a IH]; intros cur Hn; cbn [split_chars]; [by rewrite app_nil_r|].
  rewrite bool_decide_eq_false_2 by set_solver. rewrite IH by set_solver. by rewrite <-app_assoc.
Qed.

Theorem Split_Join sep l : l ≠ [] -> Forall (fun s => sep ∉ chars s) l -> Split (Join l (String sep "")) sep = l.
Proof.
  intros Hne Hl. unfold Split. induction Hl as [|s l Hs Hl IH]; [done|]. destruct l as [|s' l].
  - cbn [Join]. rewrite split_chars_end by done. cbn. by rewrite of_chars_chars.
  - change (Join (s :: s' :: l) (String sep "")) with (s ++ String sep (Join (s' :: l) (String sep "")))%string.
    rewrite chars_app. cbn [String.list_ascii_of_string]. rewrite split_chars_app by done.
    rewrite fmap_cons, IH by done. cbn [app]. by rewrite of_chars_chars.
Qed.

(** *** Scanning *)

Lemma span_app p a c rest : Forall (fun c => p c = true) a -> p c = false -> span p (a ++ c :: rest) = (a, c :: rest).
Proof. induction 1 as [|x a Hx _ IH]; intros Hc; cbn [app span]; [by rewrite Hc|]. by rewrite Hx, IH. Qed.

Lemma span_all p a : Forall (fun c => p c = true) a -> span p a = (a, []).
Proof. induction 1 as [|x a Hx _ IH]; cbn [span]; [done|]. by rewrite Hx, IH. Qed.

(** A word: not empty, no spaces. *)
Definition word (s : string) : Prop := chars s ≠ [] /\ Forall (fun c => isSpace c = false) (chars s).

Lemma SkipSpace_word c s : isSpace c = false -> SkipSpace (c :: s) = Ok (c :: s).
Proof.
  intros Hc. assert (c ≠ "010"%char) by (by intros ->). assert (c ≠ "013"%char) by (by intros ->).
  cbn [SkipSpace]. destruct s; rewrite ?Hc; rewrite ?(bool_decide_eq_false_2 (c = "010"%char)), ?(bool_decide_eq_false_2 (c = "013"%char)) by done; done.
Qed.

Lemma Sscanf_string s rest format : word s -> (rest = [] \/ exists r, rest = " "%char :: r) ->
  Sscanf (chars s ++ rest) ("%"%char :: "s"%char :: format) = l ← Sscanf rest format; Ok (SStr s :: l).
Proof.
  intros [Hne Hs] Hr. assert (Forall (fun c => negb (isSpace c) = true) (chars s)) as Hs'.
  { eapply Forall_impl; [exact Hs|]. by intros c ->. }
  cbn [Sscanf]. assert (SkipSpace (chars s ++ rest) = Ok (chars s ++ rest)) as ->.
  { destruct (chars s) as [|c l] eqn:E; [done|]. apply Forall_cons in Hs as [Hc _]. by apply SkipSpace_word. }
  cbn [mbind outcome_bind]. assert (span (fun c => negb (isSpace c)) (chars s ++ rest) = (chars s, rest)) as Hsp.
  { destruct Hr as [->|[r ->]]; [rewrite app_nil_r; by apply span_all|by apply span_app]. }
  rewrite (bool_decide_eq_false_2 (chars s ++ rest = [])) by (by destruct (chars s)).
  rewrite !bool_decide_eq_true_2 by done. by rewrite Hsp, of_chars_chars.
Qed.

Lemma Sscanf_number tok rest format : tok ≠ [] -> Forall (fun c => isDigit c = true) tok -> digits_value tok <= MaxUint64 ->
  Sscanf (tok ++ " "%char :: rest) ("%"%char :: "d"%char :: format) = l ← Sscanf (" "%char :: rest) format; Ok (SNum (digits_value tok) :: l).
Proof.
  intros Hne Hd Hv. cbn [Sscanf]. assert (SkipSpace (tok ++ " "%char :: rest) = Ok (tok ++ " "%char :: rest)) as ->.
  { destruct tok as [|c l] eqn:E; [done|]. apply Forall_cons in Hd as [Hc _]. apply SkipSpace_word.
    unfold isDigit, isSpace in *. destruct (_ && _ || _) eqn:Es; [|done]. apply orb_true_iff in Es as [Es|Es]; blia. }
  cbn [mbind outcome_bind]. rewrite (bool_decide_eq_false_2 (_ ++ _ = [])) by (by destruct tok).
  rewrite (span_app isDigit) by done. rewrite (bool_decide_eq_false_2 (tok = [])) by done.
  rewrite (bool_decide_eq_true_2 ("%"%char = "%"%char)), (bool_decide_eq_false_2 ("d"%char = "s"%char)), (bool_decide_eq_true_2 ("d"%char = "d"%char)) by done.
  unfold ParseUint. rewrite (proj2 (Z.leb_le _ _)) by done. done.
Qed.

Lemma Sscanf_literal l rest format : Forall (fun c => isSpace c = false /\ c ≠ "%"%char) l ->
  Sscanf (l ++ rest) (l ++ format) = Sscanf rest format.
Proof.
  induction 1 as [|c l [Hs Hp] _ IH]; [done|]. cbn [app Sscanf].
  rewrite (bool_decide_eq_false_2 (c = "%"%char)) by done. by rewrite Hs, bool_decide_eq_true_2 by done.
Qed.

(** A field: a space, a literal. *)
Definition literal (p : list ascii) : Prop := p ≠ [] /\ Forall (fun c => isSpace c = false /\ c ≠ "%"%char) p.

Lemma Sscanf_field p rest format : literal p -> Sscanf (" "%char :: p ++ rest) (" "%char :: p ++ format) = Sscanf rest format.
Proof.
  intros [Hne Hp]. pose proof (Sscanf_literal p rest format Hp) as <-.
  assert (forall i inp fmt, isSpace i = false -> Sscanf (" "%char :: i :: inp) (" "%char :: fmt) = Sscanf (i :: inp) fmt) as Hs.
  { intros i inp fmt Hi. cbn [Sscanf skip_blanks]. change (isSpace " ") with true. rewrite Hi. done. }
  destruct p as [|c p]; [done|]. apply Forall_cons in Hp as [[Hc _] _]. by apply Hs.
Qed.

Lemma Sscanf_field_string p s rest format : literal p -> word s -> (rest = [] \/ exists r, rest = " "%char :: r) ->
  Sscanf (" "%char :: p ++ chars s ++ rest) (" "%char :: p ++ "%"%char :: "s"%char :: format) = l ← Sscanf rest format; Ok (SStr s :: l).
Proof. intros. rewrite Sscanf_field by done. by apply Sscanf_string. Qed.

(** The verbs of a format, and that the values scanned are of their kinds. *)
Fixpoint verbs (format : list ascii) : list ascii :=
  match format with
  | [] => []
  | c :: format' =>
      if bool_decide (c = "%"%char) then match format' with [] => [] | v :: format'' => v :: verbs format'' end else verbs format'
  end.

Definition scanned_as (v : ascii) (x : scanned) : Prop :=
  match x with SStr _ => v = "s"%char | SNum n => v = "d"%char /\ u64_ok n end.

Lemma digits_value_nonneg l : Forall (fun c => isDigit c = true) l -> 0 <= digits_value l.
Proof.
  intros Hl. assert (forall acc, 0 <= acc -> 0 <= foldl (fun n c => n * 10 + (byte_of_ascii c - 48)) acc l) as Hf; [|by apply Hf].
  induction Hl as [|c l Hc _ IH]; intros acc Ha; [done|]. cbn [foldl]. apply IH. unfold isDigit in Hc. blia.
Qed.

Lemma span_Forall p s : Forall (fun c => p c = true) (span p s).1.
Proof. induction s as [|c s IH]; cbn [span]; [constructor|]. destruct (p c) eqn:E; [|constructor]. destruct (span p s). by constructor. Qed.

Lemma SkipSpace_safe s : safe (SkipSpace s).
Proof.
  assert (forall n s, (length s <= n)%nat -> safe (SkipSpace s)) as Hn; [|by apply (Hn (length s))]. clear s.
  induction n as [|n IH]; intros [|c [|c' s]] Hl; cbn [length] in Hl; try done; try lia; [cbn [SkipSpace]; solve_safe|].
  pose proof (IH (c' :: s) ltac:(cbn [length]; lia)) as H1. pose proof (IH s ltac:(lia)) as H2.
  change (SkipSpace (c :: c' :: s)) with (if bool_decide (c = "013"%char) && bool_decide (c' = "010"%char) then SkipSpace s else
    if bool_decide (c = "010"%char) then Err "unexpected newline" else if isSpace c then SkipSpace (c' :: s) else Ok (c :: c' :: s)).
  repeat case_if; done.
Qed.

Lemma Sscanf_scanned format : forall inp, safe (Sscanf inp format) /\ forall l, Sscanf inp format = Ok l -> Forall2 scanned_as (verbs format) l.
Proof.
  assert (forall n format inp, (length format <= n)%nat -> safe (Sscanf inp format) /\ forall l, Sscanf inp format = Ok l -> Forall2 scanned_as (verbs format) l)
    as Hn; [|intros inp; by apply (Hn (length format))]. clear format.
  induction n as [|n IH]; intros [|c format] inp Hlen; cbn [length] in Hlen; try lia; cbn [Sscanf verbs]; try (split; [done|intros l [= <-]; constructor]).
  destruct (bool_decide_reflect (c = "%"%char)) as [->|Hc].
  - destruct format as [|v format]; [done|]. cbn [length] in Hlen. pose proof (SkipSpace_safe inp) as Hs.
    destruct (SkipSpace inp) as [inp1| | |]; try done. cbn [mbind outcome_bind]. case_bool_decide; [done|].
    destruct (bool_decide_reflect (v = "s"%char)) as [->|Hv].
    + destruct (span _ inp1) as [tok inp2]. destruct (IH format inp2 ltac:(lia)) as [Hsafe Hl]. split; [solve_safe|].
      intros l E. invO E. constructor; [done|by apply Hl].
    + destruct (bool_decide_reflect (v = "d"%char)) as [->|Hv']; [|done].
      pose proof (span_Forall isDigit inp1) as Hd. destruct (span _ inp1) as [tok inp2]. cbn in Hd.
      destruct (IH format inp2 ltac:(lia)) as [Hsafe Hl]. case_bool_decide; [done|]. unfold ParseUint. case_if; [|done].
      cbn [mbind outcome_bind]. split; [solve_safe|]. intros l E'. invO E'. constructor; [|by apply Hl].
      pose proof (digits_value_nonneg tok Hd). split; [done|]. unfold u64_ok, MaxUint64 in *. blia.
  - destruct (isSpace c); destruct inp as [|i inp]; try done; try (apply IH; lia); repeat case_if; try done; apply IH; lia.
Qed.
