(* ===== verification/KadBucket.v ===== *)
(** * Kademlia identifiers and buckets

    [discovery/kademlia/util.go] (XOR metric on hashed identifiers) and
    [discovery/kademlia/bucket.go] (a k-bucket over [container/list]).  A [*list.List] is the list
    of its values from front to back; an [*list.Element] held by a loop is a position in it. *)

From stdpp Require Import base list gmap strings numbers sorting.
From S2P Require Import Prelude GoStd.

(** ** util.go *)

Definition ID_less (id other : bytes) : bool := bytes_less id other.

(** [c[i] = a[i] ^ b[i]] for [i < len(a)]: panics when [b] is shorter than [a]. *)
Fixpoint xor (a b : bytes) : outcome bytes :=
  match a, b with
  | [], _ => Ok []
  | x :: a', y :: b' => c ← xor a' b'; Ok (Z.lxor x y :: c)
  | _ :: _, [] => Panic
  end.

Fixpoint zeroPrefixLen_from (i : nat) (id : bytes) : nat :=
  match id with
  | [] => i * 8
  | b :: id' => if (b =? 0)%Z then zeroPrefixLen_from (S i) id' else i * 8 + Z.to_nat (LeadingZeros8 b)
  end.

Definition zeroPrefixLen (id : bytes) : nat := zeroPrefixLen_from 0 id.

Definition CommonPrefixLen (a b : bytes) : outcome nat := c ← xor a b; Ok (zeroPrefixLen c).

(** ** bucket.go *)

Record Entry := mkEntry { eid : string; ehash : bytes }.

#[global] Instance Entry_eq_dec : EqDecision Entry.
Proof. solve_decision. Defined.

Abbreviation Bucket := (list Entry).

Definition newBucket : Bucket := [].

Definition Peers (b : Bucket) : list string := eid <$> b.

Fixpoint Has (b : Bucket) (id : string) : bool :=
  match b with
  | [] => false
  | e :: b' => if String.eqb (eid e) id then true else Has b' id
  end.

(** Removes the first element with that id; the boolean tells whether there was one. *)
Fixpoint Remove (b : Bucket) (id : string) : Bucket * bool :=
  match b with
  | [] => ([], false)
  | e :: b' => if String.eqb (eid e) id then (b', true) else let '(r, f) := Remove b' id in (e :: r, f)
  end.

(** The loop of [MoveToFront] does not stop at the first match: after [list.MoveToFront(e)] the
    cursor [e] is the front of the list and [e.Next()] is the second element. *)
Fixpoint move_loop (fuel : nat) (id : string) (b : Bucket) (i : nat) : outcome Bucket :=
  match fuel with
  | O => NoFuel
  | S k =>
      match b !! i with
      | None => Ok b
      | Some e =>
          if String.eqb (eid e) id then move_loop k id (e :: delete i b) 1 else move_loop k id b (S i)
      end
  end.

Definition MoveToFront (b : Bucket) (id : string) : outcome Bucket :=
  move_loop (2 * length b + 2) id b 0.

Definition PushFront (b : Bucket) (p : Entry) : Bucket := p :: b.

(** [b.list.Back()] is nil on an empty list, and [b.list.Remove(nil)] dereferences it. *)
Definition PopBack (b : Bucket) : outcome (Bucket * string) :=
  match last b with
  | None => Panic
  | Some e => Ok (removelast b, eid e)
  end.

Definition Len (b : Bucket) : nat := length b.

(** [(kept, out)]: [kept] stays in the receiver, [out] is the returned bucket. *)
Fixpoint Split (b : Bucket) (cpl : nat) (target : bytes) : outcome (Bucket * Bucket) :=
  match b with
  | [] => Ok ([], [])
  | e :: b' =>
      peerCPL ← CommonPrefixLen (ehash e) target;
      '(kept, out) ← Split b' cpl target;
      Ok (if (cpl <? peerCPL)%nat then (kept, e :: out) else (e :: kept, out))
  end.

(** ** The XOR metric *)

(** The distance and the shared prefix length, on identifiers of equal length. *)
Definition dist (a b : bytes) : bytes := zip_with Z.lxor a b.
Definition cpl (a b : bytes) : nat := zeroPrefixLen (dist a b).
Definition nlz (x : Z) : nat := Z.to_nat (LeadingZeros8 x).

Lemma xor_dist a b : (length a <= length b)%nat -> xor a b = Ok (dist a b).
Proof.
  unfold dist. revert b. induction a as [|x a IH]; intros [|y b]; simpl; intros; try done; try lia.
  by rewrite IH by lia.
Qed.

Lemma xor_panics a b : (length b < length a)%nat -> xor a b = Panic.
Proof.
  revert b. induction a as [|x a IH]; intros [|y b]; simpl; intros; try done; try lia.
  by rewrite IH by lia.
Qed.

Lemma CommonPrefixLen_cpl a b : (length a <= length b)%nat -> CommonPrefixLen a b = Ok (cpl a b).
Proof. intros. unfold CommonPrefixLen. by rewrite xor_dist. Qed.

Lemma zeroPrefixLen_from_shift i id : zeroPrefixLen_from i id = i * 8 + zeroPrefixLen id.
Proof.
  unfold zeroPrefixLen. revert i. induction id as [|b id IH]; intros i; simpl; [lia|].
  case_if; [|lia]. rewrite (IH (S i)), (IH 1%nat). lia.
Qed.

Lemma zeroPrefixLen_cons b id :
  zeroPrefixLen (b :: id) = if (b =? 0)%Z then 8 + zeroPrefixLen id else nlz b.
Proof.
  unfold zeroPrefixLen at 1. simpl. case_if; [|done]. apply (zeroPrefixLen_from_shift 1).
Qed.

Lemma nlz_lt8 b : byte_ok b -> b ≠ 0%Z -> (nlz b < 8)%nat.
Proof.
  intros H Hb. apply (byte_cases (fun b => (b =? 0)%Z || (nlz b <? 8)%nat)) in H; [|by vm_compute].
  apply orb_true_iff in H as [H|H]; blia.
Qed.

(** Facts about two bytes, checked exhaustively. *)
Definition nlz_pair_check (x y : Z) : bool :=
  (x =? 0)%Z || (y =? 0)%Z ||
  (implb (nlz y <? nlz x)%nat (x <? y)%Z &&
   (if (nlz x =? nlz y)%nat then (Z.lxor x y =? 0)%Z || (nlz x <? nlz (Z.lxor x y))%nat
    else negb (Z.lxor x y =? 0)%Z && (nlz (Z.lxor x y) =? Nat.min (nlz x) (nlz y))%nat)).

Lemma nlz_pair x y : byte_ok x -> byte_ok y -> x ≠ 0%Z -> y ≠ 0%Z ->
  ((nlz y < nlz x)%nat -> (x < y)%Z) /\
  (nlz x = nlz y -> Z.lxor x y = 0%Z \/ (nlz x < nlz (Z.lxor x y))%nat) /\
  (nlz x ≠ nlz y -> Z.lxor x y ≠ 0%Z /\ nlz (Z.lxor x y) = Nat.min (nlz x) (nlz y)).
Proof.
  intros Hx Hy Nx Ny.
  assert (nlz_pair_check x y = true) as H by (apply (byte_pair_cases nlz_pair_check); [by vm_compute|done..]).
  unfold nlz_pair_check in H.
  rewrite (proj2 (Z.eqb_neq x 0)), (proj2 (Z.eqb_neq y 0)) in H by done. simpl in H.
  apply andb_true_iff in H as [H1 H2]. split.
  - intros Hlt. rewrite (proj2 (Nat.ltb_lt _ _)) in H1 by done. simpl in H1. blia.
  - destruct (nlz x =? nlz y)%nat eqn:E.
    + split; [|blia]. intros _. apply orb_true_iff in H2 as [H2|H2]; [left; blia|right; blia].
    + split; [blia|]. intros _. apply andb_true_iff in H2 as [H2 H3]. split; [|blia].
      apply negb_true_iff in H2. blia.
Qed.

Lemma zeroPrefixLen_le id : bytes_ok id -> (zeroPrefixLen id <= 8 * length id)%nat.
Proof.
  induction 1 as [|b id Hb _ IH]; [done|]. rewrite zeroPrefixLen_cons. simpl length.
  case_if; [lia|]. pose proof (nlz_lt8 b Hb). blia.
Qed.

(** More leading zeros means a smaller number. *)
Lemma zeroPrefixLen_less x y : bytes_ok x -> bytes_ok y -> length x = length y ->
  (zeroPrefixLen y < zeroPrefixLen x)%nat -> bytes_less x y = true.
Proof.
  intros Hx. revert y. induction Hx as [|b x Hb Hx IH]; intros [|c y] Hy Hl; simpl in Hl; try done.
  - unfold zeroPrefixLen; simpl; lia.
  - inversion_clear Hy as [|?? Hc Hy']. rewrite !zeroPrefixLen_cons. simpl.
    destruct (b =? 0)%Z eqn:E1, (c =? 0)%Z eqn:E2.
    + intros. rewrite (proj2 (Z.eqb_eq b c)) by blia. apply IH; [done|lia..].
    + intros _. rewrite (proj2 (Z.eqb_neq b c)) by blia. unfold byte_ok in *. apply Z.ltb_lt. blia.
    + pose proof (nlz_lt8 b Hb). pose proof (zeroPrefixLen_le y Hy'). intros. exfalso. blia.
    + apply Z.eqb_neq in E1, E2. intros Hlt.
      destruct (nlz_pair b c Hb Hc E1 E2) as [Hlt' _]. specialize (Hlt' Hlt).
      rewrite (proj2 (Z.eqb_neq b c)) by lia. by apply Z.ltb_lt.
Qed.

Lemma zeroPrefixLen_full x : bytes_ok x -> zeroPrefixLen x = 8 * length x -> x = replicate (length x) 0%Z.
Proof.
  induction 1 as [|b x Hb _ IH]; [done|]. rewrite zeroPrefixLen_cons. simpl length. simpl replicate.
  case_if; intros Hz.
  - f_equal; [blia|]. apply IH. lia.
  - pose proof (nlz_lt8 b Hb). blia.
Qed.

Lemma dist_ok a b : bytes_ok a -> bytes_ok b -> bytes_ok (dist a b).
Proof.
  intros Ha. revert b. induction Ha as [|x a Hx _ IH]; intros [|y b] Hb; simpl; try constructor.
  - inversion_clear Hb. unfold byte_ok in *. split.
    + apply Z.lxor_nonneg. lia.
    + destruct (decide (Z.lxor x y = 0%Z)) as [->|Hn]; [lia|].
      apply (Z.log2_lt_cancel _ 256). eapply Z.le_lt_trans; [apply Z.log2_lxor; lia|].
      assert (forall z, (0 <= z < 256)%Z -> (Z.log2 z < 8)%Z) as Hl.
      { intros z Hz. destruct (decide (z = 0%Z)) as [->|]; [done|]. apply Z.log2_lt_pow2; lia. }
      change (Z.log2 256) with 8%Z. apply Z.max_lub_lt; auto.
  - inversion_clear Hb. auto.
Qed.

Lemma length_dist a b : length a = length b -> length (dist a b) = length a.
Proof. intros. unfold dist. rewrite length_zip_with. lia. Qed.

Lemma dist_comm a b : dist a b = dist b a.
Proof. unfold dist. revert b. induction a; intros [|]; simpl; try done. by rewrite Z.lxor_comm, IHa. Qed.

Lemma dist_via a b c : length a = length c -> length b = length c ->
  dist a b = zip_with Z.lxor (dist a c) (dist b c).
Proof.
  unfold dist. revert b c. induction a as [|x a IH]; intros [|y b] [|z c]; simpl; intros; try done.
  f_equal; [|apply IH; lia].
  rewrite (Z.lxor_comm y z), Z.lxor_assoc, <-(Z.lxor_assoc z z y), Z.lxor_nilpotent.
  by rewrite Z.lxor_0_l.
Qed.

Lemma dist_self_zero a : dist a a = replicate (length a) 0%Z.
Proof. unfold dist. induction a; simpl; [done|]. by rewrite Z.lxor_nilpotent, IHa. Qed.

Lemma dist_inj a b c : length b = length a -> length c = length a ->
  dist a b = dist a c -> b = c.
Proof.
  unfold dist. revert b c. induction a as [|x a IH]; intros [|y b] [|z c]; simpl; intros Hb Hc H; try done.
  injection H as H1 H2. f_equal; [|apply IH; lia || done].
  apply (f_equal (Z.lxor x)) in H1. by rewrite <-!Z.lxor_assoc, Z.lxor_nilpotent, !Z.lxor_0_l in H1.
Qed.

Lemma zpl_xor x y : bytes_ok x -> bytes_ok y -> length x = length y ->
  (zeroPrefixLen x ≠ zeroPrefixLen y ->
   zeroPrefixLen (dist x y) = Nat.min (zeroPrefixLen x) (zeroPrefixLen y)) /\
  (zeroPrefixLen x = zeroPrefixLen y -> zeroPrefixLen x < 8 * length x ->
   zeroPrefixLen x < zeroPrefixLen (dist x y)).
Proof.
  intros Hx. revert y. induction Hx as [|b x Hb Hx IH]; intros [|c y] Hy Hl; simpl in Hl; try done.
  inversion_clear Hy as [|?? Hc Hy']. injection Hl as Hl. specialize (IH y Hy' Hl).
  unfold dist in *. simpl zip_with. rewrite !zeroPrefixLen_cons. simpl length.
  pose proof (zeroPrefixLen_le _ Hx). pose proof (zeroPrefixLen_le _ Hy').
  destruct (b =? 0)%Z eqn:E1, (c =? 0)%Z eqn:E2.
  - apply Z.eqb_eq in E1 as ->. apply Z.eqb_eq in E2 as ->. simpl. lia.
  - apply Z.eqb_eq in E1 as ->. rewrite Z.lxor_0_l, E2. pose proof (nlz_lt8 c Hc). blia.
  - apply Z.eqb_eq in E2 as ->. rewrite Z.lxor_0_r, E1. pose proof (nlz_lt8 b Hb). blia.
  - apply Z.eqb_neq in E1, E2. pose proof (nlz_lt8 b Hb E1). pose proof (nlz_lt8 c Hc E2).
    destruct (nlz_pair b c Hb Hc E1 E2) as (_ & He & Hn). split.
    + intros Hne. destruct (Hn Hne) as [Hz ->]. by rewrite (proj2 (Z.eqb_neq _ 0)).
    + intros Heq _. destruct (He Heq) as [->|Hlt]; simpl; [lia|].
      destruct (Z.lxor b c =? 0)%Z; lia.
Qed.

(** ** Bucket lemmas *)

Lemma eqb_id (a b : string) : String.eqb a b = bool_decide (a = b).
Proof. destruct (String.eqb_spec a b); [by rewrite bool_decide_true|by rewrite bool_decide_false]. Qed.

Lemma Has_elem b id : Has b id = true <-> id ∈ Peers b.
Proof.
  unfold Peers. induction b as [|e b IH]; simpl; [set_solver|].
  destruct (String.eqb_spec (eid e) id); set_solver.
Qed.

Lemma Has_false b id : Has b id = false <-> id ∉ Peers b.
Proof. rewrite <-Has_elem. destruct (Has b id); naive_solver. Qed.

(** A bucket that contains an id splits around its first occurrence. *)
Lemma Peers_split b id : id ∈ Peers b ->
  exists b1 e b2, b = b1 ++ e :: b2 /\ eid e = id /\ id ∉ Peers b1.
Proof.
  unfold Peers. induction b as [|e b IH]; simpl; [set_solver|].
  destruct (decide (eid e = id)) as [He|He].
  - intros _. exists [], e, b. split_and!; [done..|set_solver].
  - intros Hin. destruct IH as (b1 & e' & b2 & -> & ? & ?); [set_solver|].
    exists (e :: b1), e', b2. split_and!; [done..|set_solver].
Qed.

Lemma Remove_spec b id :
  (id ∉ Peers b -> Remove b id = (b, false)) /\
  (forall b1 e b2, b = b1 ++ e :: b2 -> eid e = id -> id ∉ Peers b1 -> Remove b id = (b1 ++ b2, true)).
Proof.
  unfold Peers. split.
  - induction b as [|e b IH]; simpl; [done|]. intros Hn.
    destruct (String.eqb_spec (eid e) id); [set_solver|]. by rewrite IH by set_solver.
  - intros b1 e b2 -> He. induction b1 as [|e' b1 IH]; simpl; intros Hn.
    + by rewrite He, String.eqb_refl.
    + destruct (String.eqb_spec (eid e') id); [set_solver|]. by rewrite IH by set_solver.
Qed.

Lemma move_loop_skip fuel id b i :
  (forall j e, (i <= j)%nat -> b !! j = Some e -> eid e ≠ id) ->
  (length b - i < fuel)%nat -> move_loop fuel id b i = Ok b.
Proof.
  revert i. induction fuel as [|fuel IH]; intros i Hn Hf; [lia|]. simpl.
  destruct (b !! i) as [e|] eqn:E; [|done].
  destruct (String.eqb_spec (eid e) id); [exfalso; by apply (Hn i e)|].
  apply lookup_lt_Some in E. apply IH; [|lia]. intros j e' Hj Hl. apply (Hn j e'); [lia|done].
Qed.

Lemma move_loop_reach fuel id b1 e b2 i :
  eid e = id -> id ∉ Peers b1 -> (i <= length b1)%nat -> (length b1 - i < fuel)%nat ->
  move_loop fuel id (b1 ++ e :: b2) i =
  move_loop (fuel - (length b1 - i) - 1) id (e :: b1 ++ b2) 1.
Proof.
  intros He Hn. revert i. induction fuel as [|fuel IH]; intros i Hi Hf; [lia|].
  replace (S fuel - (length b1 - i) - 1)%nat with (fuel - (length b1 - i))%nat by lia.
  cbn [move_loop]. destruct (decide (i = length b1)) as [->|Hne].
  - rewrite list_lookup_middle by done. rewrite He, String.eqb_refl.
    rewrite delete_middle. by rewrite Nat.sub_diag, Nat.sub_0_r.
  - rewrite lookup_app_l by lia.
    destruct (b1 !! i) as [e'|] eqn:E; [|apply lookup_ge_None in E; lia].
    destruct (String.eqb_spec (eid e') id) as [He'|].
    { exfalso. apply Hn. unfold Peers. rewrite <-He'. apply list_elem_of_fmap_2. by eapply list_elem_of_lookup_2. }
    rewrite IH by lia. f_equal. lia.
Qed.

(** With unique ids the loop ends and moves the entry to the front. *)
Lemma MoveToFront_unique b1 e b2 :
  NoDup (Peers (b1 ++ e :: b2)) -> MoveToFront (b1 ++ e :: b2) (eid e) = Ok (e :: b1 ++ b2).
Proof.
  unfold Peers. rewrite fmap_app, fmap_cons. intros (Hb1 & Hd & [He Hb2]%NoDup_cons)%NoDup_app.
  unfold MoveToFront. rewrite move_loop_reach; try lia; [|done| |].
  - apply move_loop_skip.
    + intros [|j] e' Hj Hl; [lia|]. simpl in Hl. apply lookup_app_Some in Hl as [Hl|[_ Hl]].
      * intros Heq. apply (Hd (eid e)); [|by constructor].
        rewrite <-Heq. apply list_elem_of_fmap_2. by eapply list_elem_of_lookup_2.
      * intros Heq. apply He. rewrite <-Heq. apply list_elem_of_fmap_2. by eapply list_elem_of_lookup_2.
    + simpl. rewrite !length_app. simpl. lia.
  - unfold Peers. intros Hin. apply (Hd (eid e) Hin). by constructor.
  - rewrite length_app. simpl. lia.
Qed.

(** With an id that occurs twice the loop never ends, whatever the fuel. *)
Lemma move_loop_diverges fuel id b i :
  (2 <= length (filter (fun e => eid e = id) b))%nat ->
  (exists k e, (i <= k)%nat /\ b !! k = Some e /\ eid e = id) ->
  move_loop fuel id b i = NoFuel.
Proof.
  revert b i. induction fuel as [|fuel IH]; intros b i Hc (k & e & Hk & Hl & He); [done|]. simpl.
  destruct (b !! i) as [e'|] eqn:E; [|apply lookup_ge_None in E; apply lookup_lt_Some in Hl; lia].
  destruct (String.eqb_spec (eid e') id) as [He'|Hne].
  - assert (b ≡ₚ e' :: delete i b) as Hp by (by apply delete_Permutation).
    apply IH; [by rewrite <-Hp|].
    rewrite Hp, filter_cons_True in Hc by done. simpl in Hc.
    destruct (filter (fun e => eid e = id) (delete i b)) as [|e2 l2] eqn:Ef; [simpl in Hc; lia|].
    assert (e2 ∈ filter (fun e => eid e = id) (delete i b)) as [He2 Hin]%list_elem_of_filter
      by (rewrite Ef; constructor).
    apply list_elem_of_lookup in Hin as [j Hj]. exists (S j), e2. split_and!; [lia|done..].
  - apply IH; [done|]. exists k, e. split_and!; [|done..].
    destruct (decide (k = i)) as [->|]; [congruence|lia].
Qed.

Lemma Split_spec b c target :
  Forall (fun e => length (ehash e) = length target) b ->
  Split b c target = Ok (filter (fun e => cpl (ehash e) target <= c)%nat b,
                         filter (fun e => c < cpl (ehash e) target)%nat b).
Proof.
  induction 1 as [|e b He _ IH]; simpl; [done|].
  rewrite CommonPrefixLen_cpl by lia. simpl. rewrite IH. simpl. f_equal.
  destruct (c <? cpl (ehash e) target)%nat eqn:E.
  - rewrite filter_cons_False by blia. by rewrite filter_cons_True by blia.
  - rewrite filter_cons_True by blia. by rewrite filter_cons_False by blia.
Qed.

Lemma Peers_app a b : Peers (a ++ b) = Peers a ++ Peers b.
Proof. apply fmap_app. Qed.

Lemma length_Peers b : length (Peers b) = length b.
Proof. apply length_fmap. Qed.

Lemma Peers_filter_NoDup (P : Entry -> Prop) `{!forall e, Decision (P e)} b :
  NoDup (Peers b) -> NoDup (Peers (filter P b)).
Proof. intros Hn. eapply sublist_NoDup; [exact Hn|]. apply fmap_sublist, sublist_filter. Qed.

Lemma elem_of_Peers id b : id ∈ Peers b <-> exists e, e ∈ b /\ eid e = id.
Proof. unfold Peers. rewrite list_elem_of_fmap. naive_solver. Qed.

#[global] Instance Peers_perm : Proper ((≡ₚ) ==> (≡ₚ)) Peers.
Proof. unfold Peers. solve_proper. Qed.
