(* ===== verification/KadTable.v ===== *)
(** * The Kademlia routing table

    [discovery/kademlia/kademlia.go] and [discovery/kademlia/sorting.go].  The table lock makes
    every exported operation atomic, so each is a function from table to table; the notification
    callbacks [PeerAdded] and [PeerRemoved] are the events the operation emits, in order. *)

From stdpp Require Import base list gmap strings numbers sorting.
From S2P Require Import Prelude GoStd KadBucket.

(** What the table uses of [hash.Hash]: [Reset; Write p; Sum nil], a digest of [Size] bytes. *)
Record hash_Hash := mkHash {
  Sum : bytes -> bytes;
  Size : nat;
  Sum_size : forall p, length (Sum p) = Size;
  Sum_ok : forall p, bytes_ok (Sum p);
}.

Definition ErrPeerRejectedNoCapacity : string := "peer rejected; insufficient capacity".

Record RoutingTable := mkTable {
  local : bytes;
  maxLatency : Z;
  Buckets : list Bucket;
  bucketsize : Z;
  hash : hash_Hash;
}.

Inductive event := PeerAdded (p : string) | PeerRemoved (p : string).

Definition with_buckets (rt : RoutingTable) (bs : list Bucket) : RoutingTable :=
  mkTable (local rt) (maxLatency rt) bs (bucketsize rt) (hash rt).

Definition hashPeer (rt : RoutingTable) (p : string) : bytes := Sum (hash rt) (string_bytes p).

(** A nil hash is replaced by SHA3-256 on the first use, which is the hashing of the local peer. *)
Definition NewRoutingTable (sha3_New256 : hash_Hash) (bucketsize : Z) (peer : string)
    (latency : Z) (hash : option hash_Hash) : RoutingTable :=
  let h := default sha3_New256 hash in
  mkTable (Sum h (string_bytes peer)) latency [newBucket] bucketsize h.

(** Unfolds the last bucket until the newly split one has room. *)
Fixpoint nextBucket (fuel : nat) (rt : RoutingTable) : outcome RoutingTable :=
  match fuel with
  | O => NoFuel
  | S k =>
      let last := (length (Buckets rt) - 1)%nat in
      bucket ← idx (Buckets rt) last;
      '(kept, new) ← Split bucket last (local rt);
      let rt' := with_buckets rt (<[last := kept]> (Buckets rt) ++ [new]) in
      if (bucketsize rt <=? Z.of_nat (Len new))%Z then nextBucket k rt' else Ok rt'
  end.

(** Splitting at index [last] leaves only peers with a longer shared prefix in the new bucket, so
    no more than one split per bit of the identifier is needed. *)
Definition nextBucket_fuel (rt : RoutingTable) : nat := 8 * length (local rt) + 2.

(** [bucketID := cpl; if bucketID >= len(rt.Buckets) { bucketID = len(rt.Buckets)-1 }] *)
Definition bucketID (rt : RoutingTable) (c : nat) : nat :=
  if (length (Buckets rt) <=? c)%nat then length (Buckets rt) - 1 else c.

Definition set_bucket (rt : RoutingTable) (i : nat) (b : Bucket) : RoutingTable :=
  with_buckets rt (<[i := b]> (Buckets rt)).

Definition Update (rt : RoutingTable) (p : string)
    : outcome (RoutingTable * (string * option string) * list event) :=
  let peerID := hashPeer rt p in
  c ← CommonPrefixLen peerID (local rt);
  let i := bucketID rt c in
  bucket ← idx (Buckets rt) i;
  if Has bucket p then
    bucket' ← MoveToFront bucket p;
    Ok (set_bucket rt i bucket', (EmptyString, None), [])
  else if (Z.of_nat (Len bucket) <? bucketsize rt)%Z then
    Ok (set_bucket rt i (PushFront bucket (mkEntry p peerID)), (EmptyString, None), [PeerAdded p])
  else if (i =? length (Buckets rt) - 1)%nat then
    rt1 ← nextBucket (nextBucket_fuel rt) rt;
    let i1 := bucketID rt1 c in
    bucket1 ← idx (Buckets rt1) i1;
    if (bucketsize rt1 <=? Z.of_nat (Len bucket1))%Z
    then Ok (rt1, (EmptyString, Some ErrPeerRejectedNoCapacity), [])
    else Ok (set_bucket rt1 i1 (PushFront bucket1 (mkEntry p peerID)), (EmptyString, None), [PeerAdded p])
  else Ok (rt, (EmptyString, Some ErrPeerRejectedNoCapacity), []).

Definition RemovePeer (rt : RoutingTable) (p : string) : outcome (RoutingTable * list event) :=
  c ← CommonPrefixLen (hashPeer rt p) (local rt);
  let i := bucketID rt c in
  bucket ← idx (Buckets rt) i;
  let '(bucket', found) := Remove bucket p in
  Ok (set_bucket rt i bucket', if found then [PeerRemoved p] else []).

(** ** sorting.go *)

Record peerDistance := mkPD { pd_p : string; pd_distance : bytes }.

Definition pds_Less (a b : peerDistance) : bool := ID_less (pd_distance a) (pd_distance b).

Definition appendPeer (target : bytes) (entry : Entry) : outcome peerDistance :=
  d ← xor target (ehash entry); Ok (mkPD (eid entry) d).

Definition appendPeersFromList (target : bytes) (peers : list peerDistance) (l : Bucket)
    : outcome (list peerDistance) :=
  new ← mapO (appendPeer target) l; Ok (peers ++ new).

(** ** Queries *)

Section Queries.
Context `{GoSort}.

(** The candidates: the bucket of the target and, when it holds fewer than [count] peers, the
    previous and the next bucket. *)
Definition candidates (rt : RoutingTable) (id : bytes) (i : nat) (count : Z) : outcome (list peerDistance) :=
  bucket ← idx (Buckets rt) i;
  pds ← appendPeersFromList id [] bucket;
  if (Z.of_nat (length pds) <? count)%Z then
    pds ← (if (0 <? i)%nat then b ← idx (Buckets rt) (i - 1); appendPeersFromList id pds b else Ok pds);
    if (i <? length (Buckets rt) - 1)%nat
    then b ← idx (Buckets rt) (i + 1); appendPeersFromList id pds b
    else Ok pds
  else Ok pds.

(** [if count < pds.Len() { pds.peers = pds.peers[:count] }]: a negative count panics. *)
Definition truncate (pds : list peerDistance) (count : Z) : outcome (list peerDistance) :=
  if (count <? Z.of_nat (length pds))%Z then
    if (count <? 0)%Z then Panic else Ok (take (Z.to_nat count) pds)
  else Ok pds.

(** [make([]peerDistance, 0, 3*rt.bucketsize)] panics on a negative capacity. *)
Definition NearestPeers (rt : RoutingTable) (peer : string) (count : Z) : outcome (list string) :=
  let id := hashPeer rt peer in
  c ← CommonPrefixLen id (local rt);
  if (3 * bucketsize rt <? 0)%Z then Panic else
  pds ← candidates rt id (bucketID rt c) count;
  pds ← truncate (sort_Sort pds_Less pds) count;
  Ok (fmap (M:=list) pd_p pds).

Definition NearestPeer (rt : RoutingTable) (id : string) : outcome string :=
  peers ← NearestPeers rt id 1; Ok (default EmptyString (head peers)).

Definition Find (rt : RoutingTable) (id : string) : outcome string :=
  srch ← NearestPeers rt id 1;
  match srch with
  | [] => Ok EmptyString
  | p :: _ => if String.eqb p id then Ok p else Ok EmptyString
  end.

End Queries.

Definition TableSize (rt : RoutingTable) : nat := foldl (fun tot b => tot + Len b)%nat 0%nat (Buckets rt).

Definition ListPeers (rt : RoutingTable) : list string :=
  foldl (fun peers b => peers ++ Peers b) [] (Buckets rt).

(** [p := e.Value.(string)]: the values are [*Entry], so the assertion panics on any entry. *)
Definition Print (rt : RoutingTable) : outcome unit :=
  if forallb (fun b => (Len b =? 0)%nat) (Buckets rt) then Ok tt else Panic.

(** ** Operation sequences *)

Inductive op := OpUpdate (p : string) | OpRemove (p : string).

Definition run_op (rt : RoutingTable) (o : op) : outcome (RoutingTable * list event) :=
  match o with
  | OpUpdate p => '(rt', _, evs) ← Update rt p; Ok (rt', evs)
  | OpRemove p => RemovePeer rt p
  end.

Fixpoint run_ops (rt : RoutingTable) (os : list op) : outcome (RoutingTable * list event) :=
  match os with
  | [] => Ok (rt, [])
  | o :: os' => '(rt1, e1) ← run_op rt o; '(rt2, e2) ← run_ops rt1 os'; Ok (rt2, e1 ++ e2)
  end.

(** The peer set a subscriber of the two callbacks keeps. *)
Definition track (s : gset string) (e : event) : gset string :=
  match e with
  | PeerAdded p => {[ p ]} ∪ s
  | PeerRemoved p => s ∖ {[ p ]}
  end.

(** ** Well-formed tables *)

(** Where an identifier belongs: the bucket of its shared prefix length, or the last one. *)
Definition home (rt : RoutingTable) (h : bytes) : nat :=
  Nat.min (cpl h (local rt)) (length (Buckets rt) - 1).

(** The buckets: nonempty list, each within capacity, without repeated ids, each entry carrying
    the hash of its id and lying in its home bucket. *)
Record wf_buckets (rt : RoutingTable) : Prop := {
  wb_ne : Buckets rt ≠ [];
  wb_local : length (local rt) = Size (hash rt);
  wb_local_ok : bytes_ok (local rt);
  wb_entry : forall i b e, Buckets rt !! i = Some b -> e ∈ b ->
    ehash e = hashPeer rt (eid e) /\ i = home rt (ehash e);
  wb_nodup : forall i b, Buckets rt !! i = Some b -> NoDup (Peers b);
  wb_cap : forall i b, Buckets rt !! i = Some b -> (Z.of_nat (length b) <= bucketsize rt)%Z;
}.

Record wf (rt : RoutingTable) : Prop := {
  wf_size : (1 <= bucketsize rt)%Z;
  wf_b : wf_buckets rt;
}.

(** ** Lemmas about the shape of the table *)

Lemma length_hashPeer rt p : length (hashPeer rt p) = Size (hash rt).
Proof. apply Sum_size. Qed.

Lemma hashPeer_ok rt p : bytes_ok (hashPeer rt p).
Proof. apply Sum_ok. Qed.

Lemma CommonPrefixLen_hashPeer rt p : wf_buckets rt ->
  CommonPrefixLen (hashPeer rt p) (local rt) = Ok (cpl (hashPeer rt p) (local rt)).
Proof. intros W. apply CommonPrefixLen_cpl. by rewrite length_hashPeer, (wb_local _ W). Qed.

Lemma bucketID_home rt h : Buckets rt ≠ [] -> bucketID rt (cpl h (local rt)) = home rt h.
Proof.
  intros Hne. unfold bucketID, home.
  assert (length (Buckets rt) ≠ 0)%nat by (by destruct (Buckets rt)).
  case_if; blia.
Qed.

Lemma home_lt rt h : Buckets rt ≠ [] -> (home rt h < length (Buckets rt))%nat.
Proof.
  intros Hne. unfold home. assert (length (Buckets rt) ≠ 0)%nat by (by destruct (Buckets rt)). lia.
Qed.

Lemma home_bucket rt h : Buckets rt ≠ [] -> exists b, Buckets rt !! home rt h = Some b.
Proof. intros. by apply lookup_lt_is_Some, home_lt. Qed.

Lemma ListPeers_concat rt : ListPeers rt = concat (Peers <$> Buckets rt).
Proof.
  unfold ListPeers. rewrite <-(app_nil_l (concat _)).
  generalize (@nil string) as acc. induction (Buckets rt) as [|b bs IH]; intros acc; simpl.
  - by rewrite app_nil_r.
  - by rewrite IH, app_assoc.
Qed.

Lemma TableSize_length rt : TableSize rt = length (ListPeers rt).
Proof.
  unfold TableSize. rewrite ListPeers_concat.
  enough (forall acc, foldl (fun tot b => tot + Len b) acc (Buckets rt) = acc + length (concat (Peers <$> Buckets rt))) as E
    by apply E.
  induction (Buckets rt) as [|b bs IH]; intros acc; [simpl; lia|].
  rewrite fmap_cons. cbn [foldl concat]. rewrite IH, length_app, length_Peers. unfold Len. lia.
Qed.

Lemma elem_of_ListPeers rt p :
  p ∈ ListPeers rt <-> exists i b, Buckets rt !! i = Some b /\ p ∈ Peers b.
Proof.
  rewrite ListPeers_concat, list_elem_of_In, in_concat. split.
  - intros (x & Hx & Hp). apply list_elem_of_In, list_elem_of_fmap in Hx as (b & -> & Hb).
    apply list_elem_of_lookup in Hb as [i Hi]. exists i, b. by rewrite list_elem_of_In.
  - intros (i & b & Hi & Hp). exists (Peers b). rewrite <-!list_elem_of_In. split; [|done].
    apply list_elem_of_fmap_2. by eapply list_elem_of_lookup_2.
Qed.

(** A peer of the table is in its home bucket. *)
Lemma ListPeers_home rt p b : wf_buckets rt ->
  Buckets rt !! home rt (hashPeer rt p) = Some b -> p ∈ ListPeers rt <-> p ∈ Peers b.
Proof.
  intros W Hb. rewrite elem_of_ListPeers. split; [|by eauto].
  intros (i & b' & Hi & (e & He & <-)%elem_of_Peers).
  destruct (wb_entry _ W i b' e Hi He) as [Hh ->].
  rewrite Hh in Hi. rewrite Hi in Hb. injection Hb as ->. apply elem_of_Peers. eauto.
Qed.

Lemma concat_insert (bs : list Bucket) i b b' l : bs !! i = Some b -> Peers b' ≡ₚ l ++ Peers b ->
  concat (Peers <$> <[i := b']> bs) ≡ₚ l ++ concat (Peers <$> bs).
Proof.
  intros Hi Hp. rewrite insert_take_drop by (by eapply lookup_lt_Some).
  rewrite <-(take_drop_middle bs i b Hi) at 3.
  rewrite !fmap_app, !fmap_cons, !concat_app. simpl. rewrite Hp. solve_Permutation.
Qed.

Lemma ListPeers_set_bucket rt i b b' l : Buckets rt !! i = Some b -> Peers b' ≡ₚ l ++ Peers b ->
  ListPeers (set_bucket rt i b') ≡ₚ l ++ ListPeers rt.
Proof. intros. rewrite !ListPeers_concat. by eapply concat_insert. Qed.

(** Replacing one bucket preserves well-formedness when the new bucket satisfies its conditions. *)
Lemma set_bucket_wf rt i b' : wf_buckets rt ->
  (forall e, e ∈ b' -> ehash e = hashPeer rt (eid e) /\ i = home rt (ehash e)) ->
  NoDup (Peers b') -> (Z.of_nat (length b') <= bucketsize rt)%Z ->
  wf_buckets (set_bucket rt i b').
Proof.
  intros W He Hnd Hcap.
  assert (forall j b, <[i:=b']> (Buckets rt) !! j = Some b ->
    (j = i /\ b = b') \/ Buckets rt !! j = Some b) as Hcase.
  { intros j b [(-> & -> & _)|[_ ?]]%list_lookup_insert_Some; auto. }
  assert (forall h, home (set_bucket rt i b') h = home rt h) as Hhome.
  { intros h. unfold home, set_bucket. simpl. by rewrite length_insert. }
  split; simpl.
  - intros Hn%(f_equal length). rewrite length_insert in Hn.
    destruct (Buckets rt) eqn:E; [by apply (wb_ne _ W)|done].
  - apply W.
  - apply W.
  - intros j b e Hj Hin. rewrite Hhome. destruct (Hcase j b Hj) as [[-> ->]|Hj'].
    + by apply He.
    + by apply (wb_entry _ W j b).
  - intros j b Hj. destruct (Hcase j b Hj) as [[-> ->]|Hj']; [done|by eapply wb_nodup].
  - intros j b Hj. destruct (Hcase j b Hj) as [[-> ->]|Hj']; [done|by eapply wb_cap].
Qed.

Lemma filter_le_perm (f : Entry -> nat) c (b : Bucket) :
  filter (fun e => f e <= c)%nat b ++ filter (fun e => c < f e)%nat b ≡ₚ b.
Proof.
  rewrite (list_filter_iff (fun e => c < f e)%nat (fun e => ¬ (f e <= c))%nat) by (intros; lia).
  apply filter_app_complement.
Qed.

(** One unfolding of the last bucket. *)
Definition split_last (rt : RoutingTable) (b : Bucket) : RoutingTable :=
  let last := (length (Buckets rt) - 1)%nat in
  with_buckets rt
    (<[last := filter (fun e => cpl (ehash e) (local rt) <= last)%nat b]> (Buckets rt) ++
     [filter (fun e => last < cpl (ehash e) (local rt))%nat b]).

Lemma split_last_lookup rt b j b1 :
  Buckets rt !! (length (Buckets rt) - 1)%nat = Some b ->
  Buckets (split_last rt b) !! j = Some b1 ->
  ((j < length (Buckets rt) - 1)%nat /\ Buckets rt !! j = Some b1) \/
  (j = (length (Buckets rt) - 1)%nat /\
   b1 = filter (fun e => cpl (ehash e) (local rt) <= length (Buckets rt) - 1)%nat b) \/
  (j = length (Buckets rt) /\
   b1 = filter (fun e => length (Buckets rt) - 1 < cpl (ehash e) (local rt))%nat b).
Proof.
  intros Hb Hj. apply lookup_lt_Some in Hb as Hlt. simpl in Hj.
  apply lookup_app_Some in Hj as [Hj|[Hge Hj]].
  - apply list_lookup_insert_Some in Hj as [(-> & -> & _)|[Hne Hj]]; [auto|].
    left. split; [|done]. apply lookup_lt_Some in Hj. lia.
  - rewrite length_insert in *. apply list_lookup_singleton_Some in Hj as [? ->].
    right; right. split; [lia|done].
Qed.

Lemma split_last_wf rt b : wf_buckets rt ->
  Buckets rt !! (length (Buckets rt) - 1)%nat = Some b ->
  wf_buckets (split_last rt b) /\ ListPeers (split_last rt b) ≡ₚ ListPeers rt.
Proof.
  intros W Hb. pose proof (lookup_lt_Some _ _ _ Hb) as Hlt. split.
  - assert (length (Buckets (split_last rt b)) = S (length (Buckets rt))) as Hlen
      by (simpl; rewrite length_app, length_insert; simpl; lia).
    split; try apply W.
    + intros Hn%(f_equal length). simpl in Hn, Hlen. rewrite Hlen in Hn. done.
    + intros j b1 e Hj Hin. unfold home. rewrite Hlen. change (local (split_last rt b)) with (local rt).
      destruct (split_last_lookup _ _ _ _ Hb Hj) as [[Hjl Hj']|[[-> ->]|[-> ->]]].
      * destruct (wb_entry _ W j b1 e Hj' Hin) as [? Hh]. split; [done|]. unfold home in Hh. lia.
      * apply list_elem_of_filter in Hin as [Hc Hin].
        destruct (wb_entry _ W _ b e Hb Hin) as [? Hh]. split; [done|]. unfold home in Hh. lia.
      * apply list_elem_of_filter in Hin as [Hc Hin].
        destruct (wb_entry _ W _ b e Hb Hin) as [? Hh]. split; [done|]. lia.
    + intros j b1 Hj. destruct (split_last_lookup _ _ _ _ Hb Hj) as [[Hjl Hj']|[[-> ->]|[-> ->]]].
      * by eapply wb_nodup.
      * apply Peers_filter_NoDup, (wb_nodup _ W _ b Hb).
      * apply Peers_filter_NoDup, (wb_nodup _ W _ b Hb).
    + intros j b1 Hj. pose proof (wb_cap _ W _ b Hb) as Hc. change (bucketsize (split_last rt b)) with (bucketsize rt).
      destruct (split_last_lookup _ _ _ _ Hb Hj) as [[Hjl Hj']|[[-> ->]|[-> ->]]].
      * by eapply wb_cap.
      * etransitivity; [|exact Hc]. apply inj_le, length_filter.
      * etransitivity; [|exact Hc]. apply inj_le, length_filter.
  - rewrite !ListPeers_concat. simpl. rewrite fmap_app, concat_app. simpl. rewrite app_nil_r.
    rewrite insert_take_drop by lia. rewrite <-(take_drop_middle _ _ b Hb) at 5.
    rewrite !fmap_app, !fmap_cons, !concat_app. simpl.
    rewrite <-(filter_le_perm (fun e => cpl (ehash e) (local rt)) (length (Buckets rt) - 1) b) at 3.
    rewrite Peers_app. solve_Permutation.
Qed.

(** ** Unfolding terminates *)

Lemma nextBucket_step k rt b : wf_buckets rt ->
  Buckets rt !! (length (Buckets rt) - 1)%nat = Some b ->
  nextBucket (S k) rt =
  let new := filter (fun e => length (Buckets rt) - 1 < cpl (ehash e) (local rt))%nat b in
  if (bucketsize rt <=? Z.of_nat (length new))%Z then nextBucket k (split_last rt b) else Ok (split_last rt b).
Proof.
  intros W Hb. cbn [nextBucket]. unfold idx. rewrite Hb. simpl.
  rewrite Split_spec; [done|]. apply Forall_forall. intros e He.
  destruct (wb_entry _ W _ b e Hb He) as [-> _]. by rewrite length_hashPeer, (wb_local _ W).
Qed.

Lemma cpl_le_bits rt p : wf_buckets rt -> (cpl (hashPeer rt p) (local rt) <= 8 * length (local rt))%nat.
Proof.
  intros W. unfold cpl. etransitivity.
  - apply zeroPrefixLen_le, dist_ok; [apply hashPeer_ok|apply W].
  - rewrite length_dist; rewrite length_hashPeer, (wb_local _ W); done.
Qed.

(** A table after zero or more operations of the same owner: only the buckets may differ. *)
Record same_conf (rt rt' : RoutingTable) : Prop := {
  sc_local : local rt' = local rt;
  sc_hash : hash rt' = hash rt;
  sc_size : bucketsize rt' = bucketsize rt;
}.

Lemma nextBucket_ok fuel rt : wf rt ->
  (1 <= fuel)%nat -> (8 * length (local rt) + 2 <= fuel + length (Buckets rt))%nat ->
  exists rt', nextBucket fuel rt = Ok rt' /\ wf rt' /\ same_conf rt rt' /\
    ListPeers rt' ≡ₚ ListPeers rt /\ (length (Buckets rt) < length (Buckets rt'))%nat /\
    (length (Buckets rt') <= Nat.max (S (length (Buckets rt))) (8 * length (local rt) + 2))%nat.
Proof.
  revert rt. induction fuel as [|k IH]; intros rt [Hs W] Hf Hm; [lia|].
  assert (exists b, Buckets rt !! (length (Buckets rt) - 1)%nat = Some b) as [b Hb].
  { apply lookup_lt_is_Some. pose proof (wb_ne _ W). destruct (Buckets rt); [done|]. simpl. lia. }
  pose proof (lookup_lt_Some _ _ _ Hb) as Hlt.
  destruct (split_last_wf rt b W Hb) as [W' Hp].
  assert (length (Buckets (split_last rt b)) = S (length (Buckets rt))) as Hlen
    by (simpl; rewrite length_app, length_insert; simpl; lia).
  rewrite (nextBucket_step _ _ b) by done. cbv zeta. case_if.
  - (* the new bucket is full, hence nonempty: its entries share more than [last] bits *)
    assert (length (Buckets rt) <= 8 * length (local rt))%nat as Hbits.
    { match type of E with context [filter ?P b] => destruct (filter P b) as [|e l] eqn:Ef end; [simpl in E; blia|].
      assert (e ∈ e :: l) as Hin by constructor. rewrite <-Ef in Hin.
      apply list_elem_of_filter in Hin as [Hc Hin].
      destruct (wb_entry _ W _ b e Hb Hin) as [Hh _]. rewrite Hh in Hc.
      pose proof (cpl_le_bits rt (eid e) W). lia. }
    destruct (IH (split_last rt b)) as (rt' & -> & W2 & [S1 S2 S3] & Hp2 & Hlt2 & Hmax);
      [by split|lia|rewrite Hlen; simpl; lia|].
    rewrite Hlen in *. simpl in *. exists rt'. split_and!; [done..| |lia|lia].
    by rewrite Hp2.
  - exists (split_last rt b). split_and!; try done; [lia|lia].
Qed.

(** ** Update *)

Lemma wf_home_bucket rt p : wf_buckets rt ->
  exists b, Buckets rt !! home rt (hashPeer rt p) = Some b /\
    idx (Buckets rt) (home rt (hashPeer rt p)) = Ok b.
Proof.
  intros W. destruct (home_bucket rt (hashPeer rt p)) as [b Hb]; [apply W|].
  exists b. by rewrite idx_Ok.
Qed.

Lemma push_wf rt p b : wf rt -> Buckets rt !! home rt (hashPeer rt p) = Some b -> p ∉ Peers b ->
  (Z.of_nat (length b) < bucketsize rt)%Z ->
  wf (set_bucket rt (home rt (hashPeer rt p)) (PushFront b (mkEntry p (hashPeer rt p)))).
Proof.
  intros [Hs W] Hb Hn Hlt. split; [done|]. apply set_bucket_wf; [done| | |simpl; lia].
  - intros e [->|He]%elem_of_cons; [done|]. by apply (wb_entry _ W _ b).
  - simpl. constructor; [done|]. by eapply wb_nodup.
Qed.

(** The number of buckets that can ever be needed: one per shared prefix length, and an empty
    last one. *)
Definition max_buckets (rt : RoutingTable) : nat := 8 * length (local rt) + 2.

Lemma last_nonempty_bound rt b : wf_buckets rt ->
  Buckets rt !! (length (Buckets rt) - 1)%nat = Some b -> b ≠ [] ->
  (length (Buckets rt) < max_buckets rt)%nat.
Proof.
  intros W Hb Hne. destruct b as [|e b]; [done|].
  destruct (wb_entry _ W _ _ e Hb) as [Hh Hi]; [constructor|].
  pose proof (cpl_le_bits rt (eid e) W) as Hc. rewrite <-Hh in Hc. unfold home in Hi. unfold max_buckets. lia.
Qed.

(** The outcomes of [Update] on a well-formed table. *)
Inductive update_result (rt : RoutingTable) (p : string) :
    RoutingTable * (string * option string) * list event -> Prop :=
| upd_moved rt' b : p ∈ ListPeers rt -> ListPeers rt' ≡ₚ ListPeers rt ->
    Buckets rt' !! home rt (hashPeer rt p) = Some b -> head (Peers b) = Some p ->
    length (Buckets rt') = length (Buckets rt) ->
    update_result rt p (rt', (EmptyString, None), [])
| upd_added rt' : p ∉ ListPeers rt -> ListPeers rt' ≡ₚ p :: ListPeers rt ->
    update_result rt p (rt', (EmptyString, None), [PeerAdded p])
| upd_rejected rt' b : p ∉ ListPeers rt -> ListPeers rt' ≡ₚ ListPeers rt ->
    Buckets rt' !! home rt' (hashPeer rt p) = Some b -> Z.of_nat (length b) = bucketsize rt ->
    update_result rt p (rt', (EmptyString, Some ErrPeerRejectedNoCapacity), []).

Lemma Update_move rt p b : wf rt -> Buckets rt !! home rt (hashPeer rt p) = Some b -> p ∈ Peers b ->
  exists b', MoveToFront b p = Ok b' /\ b' ≡ₚ b /\ head (Peers b') = Some p.
Proof.
  intros [_ W] Hb Hp. pose proof (wb_nodup _ W _ b Hb) as Hnd.
  destruct (Peers_split b p Hp) as (b1 & e & b2 & -> & <- & _).
  exists (e :: b1 ++ b2). rewrite MoveToFront_unique by done. split_and!; [done| |done].
  apply Permutation_middle.
Qed.

Lemma Update_spec rt p : wf rt ->
  exists r, Update rt p = Ok r /\ wf (r.1.1) /\ same_conf rt (r.1.1) /\ update_result rt p r /\
    (length (Buckets r.1.1) <= Nat.max (length (Buckets rt)) (max_buckets rt))%nat.
Proof.
  intros Wf. pose proof Wf as [Hs W]. unfold Update.
  rewrite CommonPrefixLen_hashPeer by done. cbn [mbind outcome_bind].
  rewrite bucketID_home by apply W.
  destruct (wf_home_bucket rt p W) as (b & Hb & ->). cbn [mbind outcome_bind].
  pose proof (ListPeers_home rt p b W Hb) as Hin.
  destruct (Has b p) eqn:Ehas.
  - apply Has_elem in Ehas. destruct (Update_move rt p b Wf Hb Ehas) as (b' & -> & Hp & Hhd).
    eexists. split; [done|]. simpl.
    assert (wf (set_bucket rt (home rt (hashPeer rt p)) b')) as Wf'.
    { split; [done|]. apply set_bucket_wf; [done| | |].
      - intros e. rewrite Hp. intros He. by apply (wb_entry _ W _ b).
      - rewrite Hp. by eapply wb_nodup.
      - rewrite Hp. by eapply wb_cap. }
    split_and!; [done|done| |rewrite length_insert; lia]. apply upd_moved with (b := b').
    + by apply Hin.
    + apply (ListPeers_set_bucket rt _ b b' []); [done|]. by rewrite Hp.
    + simpl. rewrite list_lookup_insert_eq by (by eapply lookup_lt_Some). done.
    + done.
    + simpl. by rewrite length_insert.
  - apply Has_false in Ehas.
    assert (p ∉ ListPeers rt) as Hnin by (by rewrite Hin).
    destruct (Z.of_nat (Len b) <? bucketsize rt)%Z eqn:Elen.
    + eexists. split; [done|]. simpl. apply Z.ltb_lt in Elen.
      split_and!; [by apply push_wf|done| |rewrite length_insert; lia]. apply upd_added; [done|].
      by apply (ListPeers_set_bucket rt _ b _ [p]).
    + apply Z.ltb_ge in Elen. pose proof (wb_cap _ W _ b Hb) as Hcap. unfold Len in Elen.
      destruct (home rt (hashPeer rt p) =? length (Buckets rt) - 1)%nat eqn:Elast.
      * destruct (nextBucket_ok (nextBucket_fuel rt) rt) as (rt1 & -> & Wf1 & SC & Hp & Hlt & Hmax);
          [done|unfold nextBucket_fuel; lia..|]. cbn [mbind outcome_bind].
        assert (length (Buckets rt1) <= max_buckets rt)%nat as Hbound.
        { apply Nat.eqb_eq in Elast. rewrite Elast in Hb.
          assert (b ≠ []) by (intros ->; simpl in Elen; lia).
          pose proof (last_nonempty_bound rt b W Hb). unfold max_buckets in *. naive_solver lia. }
        destruct SC as [S1 S2 S3]. pose proof Wf1 as [_ W1].
        assert (hashPeer rt p = hashPeer rt1 p) as Hh by (unfold hashPeer; by rewrite S2).
        rewrite Hh. rewrite <-S1, bucketID_home by apply W1.
        destruct (wf_home_bucket rt1 p W1) as (b1 & Hb1 & ->). cbn [mbind outcome_bind].
        case_if.
        -- eexists. split; [done|]. simpl. split_and!; [done|done| |lia].
           apply upd_rejected with (b := b1); [done..|by rewrite Hh|].
           pose proof (wb_cap _ W1 _ _ Hb1). unfold Len in E. blia.
        -- eexists. split; [done|]. simpl.
           assert (p ∉ Peers b1) by (rewrite <-(ListPeers_home rt1 p b1), Hp by done; done).
           split_and!; [apply push_wf; [done..|unfold Len in E; blia]|by split| |rewrite length_insert; lia].
           apply upd_added; [done|]. rewrite <-Hp. by apply (ListPeers_set_bucket rt1 _ b1 _ [p]).
      * eexists. split; [done|]. simpl. split_and!; [done|done| |lia].
        apply upd_rejected with (b := b); [done..|lia].
Qed.

(** ** Remove *)

Lemma RemovePeer_spec rt p : wf rt ->
  exists rt' evs, RemovePeer rt p = Ok (rt', evs) /\ wf rt' /\ same_conf rt rt' /\
    length (Buckets rt') = length (Buckets rt) /\
    ((p ∈ ListPeers rt /\ evs = [PeerRemoved p] /\ ListPeers rt ≡ₚ p :: ListPeers rt' /\ p ∉ ListPeers rt') \/
     (p ∉ ListPeers rt /\ evs = [] /\ Buckets rt' = Buckets rt)).
Proof.
  intros Wf. pose proof Wf as [Hs W]. unfold RemovePeer.
  rewrite CommonPrefixLen_hashPeer by done. cbn [mbind outcome_bind].
  rewrite bucketID_home by apply W.
  destruct (wf_home_bucket rt p W) as (b & Hb & ->). cbn [mbind outcome_bind].
  pose proof (ListPeers_home rt p b W Hb) as Hin. pose proof (wb_nodup _ W _ b Hb) as Hnd.
  destruct (decide (p ∈ Peers b)) as [Hp|Hp].
  - destruct (Peers_split b p Hp) as (b1 & e & b2 & -> & <- & Hn).
    rewrite (proj2 (Remove_spec (b1 ++ e :: b2) (eid e)) b1 e b2) by done.
    assert (b1 ++ e :: b2 ≡ₚ e :: b1 ++ b2) as Hperm by (symmetry; apply Permutation_middle).
    rewrite Hperm in Hnd. apply NoDup_cons in Hnd as [Hne Hnd].
    assert (wf (set_bucket rt (home rt (hashPeer rt (eid e))) (b1 ++ b2))) as Wf'.
    { split; [done|]. apply set_bucket_wf; [done| |done|].
      - intros e' He'. apply (wb_entry _ W _ _ _ Hb). rewrite Hperm. by constructor.
      - pose proof (wb_cap _ W _ _ Hb) as Hc. rewrite Hperm in Hc. simpl in Hc. lia. }
    eexists _, _. split; [done|]. split_and!; [done|done|simpl; by rewrite length_insert|].
    left. split_and!; [by apply Hin|done| |].
    + rewrite !ListPeers_concat. simpl. rewrite insert_take_drop by (by eapply lookup_lt_Some).
      rewrite <-(take_drop_middle _ _ _ Hb) at 1.
      rewrite !fmap_app, !fmap_cons, !concat_app. simpl. rewrite Hperm. simpl. solve_Permutation.
    + rewrite (ListPeers_home _ (eid e) (b1 ++ b2)); [done|apply Wf'|]. simpl.
      replace (home _ _) with (home rt (hashPeer rt (eid e))).
      * apply list_lookup_insert_eq. by eapply lookup_lt_Some.
      * unfold home. simpl. by rewrite length_insert.
  - rewrite (proj1 (Remove_spec b p)) by done. eexists _, _. split; [done|].
    assert (Buckets (set_bucket rt (home rt (hashPeer rt p)) b) = Buckets rt) as E by (by apply list_insert_id).
    split_and!; [|done|by rewrite E|right; by rewrite Hin].
    assert (set_bucket rt (home rt (hashPeer rt p)) b = rt) as ->; [|done].
    unfold set_bucket, with_buckets. rewrite list_insert_id by done. by destruct rt.
Qed.
