(* ===== verification/KadTheorems.v ===== *)
(** * Theorems about the Kademlia routing table

    Update and removal keep the table well formed and do what they say; every reachable table is
    well formed, bounded, and agrees with what the callbacks announce; nearest-peer queries return
    table peers in order of XOR distance, and the exact nearest ones when the target's bucket can
    answer alone. *)

From stdpp Require Import base list gmap strings numbers sorting.
From S2P Require Import Prelude GoStd KadBucket KadTable.

(** ** The metric around the local identifier *)

Lemma dist_self_repl n : dist (replicate n 0%Z) (replicate n 0%Z) = replicate n 0%Z.
Proof. unfold dist. induction n; simpl; [done|]. by f_equal. Qed.

Lemma cpl_via a b l : bytes_ok a -> bytes_ok b -> bytes_ok l ->
  length a = length l -> length b = length l ->
  (cpl a l ≠ cpl b l -> cpl a b = Nat.min (cpl a l) (cpl b l)) /\
  (cpl a l = cpl b l -> (cpl a l < 8 * length l)%nat -> (cpl a l < cpl a b)%nat) /\
  (Nat.min (cpl a l) (cpl b l) <= cpl a b)%nat.
Proof.
  intros Oa Ob Ol La Lb.
  assert (cpl a b = zeroPrefixLen (dist (dist a l) (dist b l))) as Hab
    by (unfold cpl; by rewrite (dist_via a b l)).
  destruct (zpl_xor (dist a l) (dist b l)) as [Hne Heq];
    [by apply dist_ok..|rewrite !length_dist by congruence; congruence|].
  rewrite <-Hab in Hne, Heq. rewrite length_dist, La in Heq by done. fold (cpl a l) (cpl b l) in *.
  split_and!; [done|done|].
  destruct (decide (cpl a l = cpl b l)) as [E|E]; [|rewrite Hne by done; lia].
  destruct (decide (cpl a l < 8 * length l)%nat) as [Hl|Hl]; [specialize (Heq E Hl); lia|].
  assert (forall x, bytes_ok x -> length x = length l -> (8 * length l <= cpl x l)%nat ->
    dist x l = replicate (length l) 0%Z) as Hz.
  { intros x Ox Lx Hx. rewrite <-Lx. rewrite <-(length_dist x l) by done.
    apply zeroPrefixLen_full; [by apply dist_ok|]. rewrite length_dist by done.
    pose proof (zeroPrefixLen_le (dist x l)) as Hle. rewrite length_dist in Hle by done.
    specialize (Hle ltac:(by apply dist_ok)). unfold cpl in Hx. lia. }
  rewrite Hab, (Hz a), (Hz b) by (done || lia). rewrite dist_self_repl, <-(Hz a) by (done || lia).
  fold (cpl a l). lia.
Qed.

(** Entries of the target's home bucket share a longer prefix with the target than any entry
    elsewhere. *)
Lemma home_closer rt t x y : wf_buckets rt ->
  home rt (hashPeer rt x) = home rt (hashPeer rt t) ->
  home rt (hashPeer rt y) ≠ home rt (hashPeer rt t) ->
  (cpl (hashPeer rt t) (hashPeer rt y) < cpl (hashPeer rt t) (hashPeer rt x))%nat.
Proof.
  intros W Hx Hy. unfold home in *.
  assert (forall p, bytes_ok (hashPeer rt p)) as Ok by (intros; apply hashPeer_ok).
  assert (forall p, length (hashPeer rt p) = length (local rt)) as Ln
    by (intros; by rewrite length_hashPeer, (wb_local _ W)).
  destruct (cpl_via (hashPeer rt t) (hashPeer rt x) (local rt)) as (_ & Hxe & Hxm); [auto using wb_local_ok..|].
  destruct (cpl_via (hashPeer rt t) (hashPeer rt y) (local rt)) as (Hyn & _ & _); [auto using wb_local_ok..|].
  pose proof (cpl_le_bits rt t W). pose proof (cpl_le_bits rt x W). pose proof (cpl_le_bits rt y W).
  set (ct := cpl (hashPeer rt t) (local rt)) in *. set (cx := cpl (hashPeer rt x) (local rt)) in *.
  set (cy := cpl (hashPeer rt y) (local rt)) in *.
  rewrite Hyn by lia. destruct (decide (ct = cx)) as [E|]; [|lia].
  destruct (decide (ct < 8 * length (local rt))%nat) as [Hl|]; [specialize (Hxe E Hl); lia|lia].
Qed.

Lemma closer_less a b t : bytes_ok a -> bytes_ok b -> bytes_ok t ->
  length a = length t -> length b = length t -> (cpl t b < cpl t a)%nat ->
  bytes_less (dist t b) (dist t a) = false.
Proof.
  intros Oa Ob Ot La Lb Hc. destruct (bytes_less (dist t b) (dist t a)) eqn:E; [|done].
  assert (bytes_less (dist t a) (dist t b) = true) as E2.
  { apply zeroPrefixLen_less; [by apply dist_ok..|rewrite !length_dist by congruence; congruence|done]. }
  pose proof (bytes_less_trans _ _ _ E E2) as F. by rewrite bytes_less_irrefl in F.
Qed.

(** ** Candidates *)

Definition pd (id : bytes) (e : Entry) : peerDistance := mkPD (eid e) (dist id (ehash e)).

Lemma appendPeersFromList_ok rt id pds i b : wf_buckets rt -> length id = Size (hash rt) ->
  Buckets rt !! i = Some b -> appendPeersFromList id pds b = Ok (pds ++ (pd id <$> b)).
Proof.
  intros W Hl Hb. unfold appendPeersFromList.
  rewrite (mapO_pure (appendPeer id) (pd id)); [done|].
  apply Forall_forall. intros e He. unfold appendPeer.
  destruct (wb_entry _ W i b e Hb He) as [Hh _].
  rewrite xor_dist; [done|]. by rewrite Hh, length_hashPeer, Hl.
Qed.

(** Entries of different buckets have different ids. *)
Lemma Peers_disjoint rt i j b b' : wf_buckets rt ->
  Buckets rt !! i = Some b -> Buckets rt !! j = Some b' -> i ≠ j ->
  forall p, p ∈ Peers b -> p ∉ Peers b'.
Proof.
  intros W Hi Hj Hij p (e & He & <-)%elem_of_Peers (e' & He' & Heq)%elem_of_Peers.
  destruct (wb_entry _ W i b e Hi He) as [Hh Hhome]. destruct (wb_entry _ W j b' e' Hj He') as [Hh' Hhome'].
  apply Hij. rewrite Hhome, Hhome', Hh, Hh'. by rewrite Heq.
Qed.

Lemma ListPeers_NoDup rt : wf_buckets rt -> NoDup (ListPeers rt).
Proof.
  intros W. rewrite ListPeers_concat.
  assert (forall i b, Buckets rt !! i = Some b -> NoDup (Peers b)) as Hnd by (intros; by eapply wb_nodup).
  assert (forall i j b b', Buckets rt !! i = Some b -> Buckets rt !! j = Some b' -> i ≠ j ->
    forall p, p ∈ Peers b -> p ∉ Peers b') as Hdis by (intros i j b b' Hi Hj Hij; by apply (Peers_disjoint rt i j b b')).
  revert Hnd Hdis. generalize (Buckets rt). clear. induction l as [|b bs IH]; intros Hnd Hdis; [constructor|].
  rewrite fmap_cons. cbn [concat]. apply NoDup_app. split_and!.
  - by apply (Hnd 0%nat).
  - intros p Hp Hin. apply list_elem_of_In, in_concat in Hin as (x & Hx & Hp').
    apply list_elem_of_In, list_elem_of_fmap in Hx as (b' & -> & Hb').
    apply list_elem_of_lookup in Hb' as [j Hj].
    apply (Hdis 0%nat (S j) b b' eq_refl Hj ltac:(lia) p Hp). by apply list_elem_of_In.
  - apply IH; [intros i b' Hb'; by apply (Hnd (S i))|].
    intros i j b1 b2 H1 H2 Hij. apply (Hdis (S i) (S j)); [done..|lia].
Qed.

(** The candidate list: the home bucket first, then entries of neighbouring buckets only when the
    home bucket is short. *)
Lemma candidates_ok rt t count b : wf_buckets rt ->
  Buckets rt !! home rt (hashPeer rt t) = Some b ->
  exists extra, candidates rt (hashPeer rt t) (home rt (hashPeer rt t)) count =
      Ok (pd (hashPeer rt t) <$> (b ++ extra)) /\
    NoDup (Peers (b ++ extra)) /\
    (forall e, e ∈ b ++ extra -> ehash e = hashPeer rt (eid e) /\ eid e ∈ ListPeers rt) /\
    ((count <= Z.of_nat (length b))%Z -> extra = []).
Proof.
  intros W Hb. set (id := hashPeer rt t) in *. set (i := home rt id) in *.
  assert (length id = Size (hash rt)) as Hl by apply length_hashPeer.
  assert (forall j b', Buckets rt !! j = Some b' -> forall e, e ∈ b' ->
    ehash e = hashPeer rt (eid e) /\ eid e ∈ ListPeers rt) as Hin.
  { intros j b' Hj e He. split; [by eapply wb_entry|]. apply elem_of_ListPeers. exists j, b'.
    split; [done|]. apply elem_of_Peers. eauto. }
  unfold candidates. rewrite (proj2 (idx_Ok _ _ b) Hb). cbn [mbind outcome_bind].
  rewrite (appendPeersFromList_ok rt _ _ i b) by done. cbn [mbind outcome_bind app].
  rewrite length_fmap. pose proof (wb_nodup _ W _ _ Hb) as Hnd.
  destruct (Z.of_nat (length b) <? count)%Z eqn:Ec.
  2: { exists []. rewrite app_nil_r. split_and!; [done|done| |done]. intros e He. by eapply Hin. }
  assert (exists prev, (if (0 <? i)%nat then b0 ← idx (Buckets rt) (i - 1); appendPeersFromList id (pd id <$> b) b0
                        else Ok (pd id <$> b)) = Ok (pd id <$> (b ++ prev)) /\
    NoDup (Peers (b ++ prev)) /\ (forall e, e ∈ prev -> exists b0, Buckets rt !! (i - 1)%nat = Some b0 /\ e ∈ b0 /\ (0 < i)%nat))
    as (prev & -> & Hndp & Hprev).
  { destruct (0 <? i)%nat eqn:Ei.
    - apply Nat.ltb_lt in Ei. pose proof (lookup_lt_Some _ _ _ Hb) as Hlt.
      destruct (idx_lt (Buckets rt) (i - 1)) as (b0 & -> & Hb0); [lia|]. cbn [mbind outcome_bind].
      rewrite (appendPeersFromList_ok rt _ _ (i - 1) b0) by done. exists b0. rewrite fmap_app. split_and!; [done| |eauto].
      rewrite Peers_app. apply NoDup_app. split_and!; [done| |by eapply wb_nodup].
      eapply Peers_disjoint; eauto; lia.
    - exists []. rewrite app_nil_r. split_and!; [done..|set_solver]. }
  cbn [mbind outcome_bind].
  destruct (i <? length (Buckets rt) - 1)%nat eqn:En.
  - apply Nat.ltb_lt in En. destruct (idx_lt (Buckets rt) (i + 1)) as (b1 & -> & Hb1); [lia|].
    cbn [mbind outcome_bind]. rewrite (appendPeersFromList_ok rt _ _ (i + 1) b1) by done.
    exists (prev ++ b1). rewrite <-fmap_app, app_assoc. split_and!; [done| | |blia].
    + rewrite Peers_app. apply NoDup_app. split_and!; [done| |by eapply wb_nodup].
      intros p Hp. rewrite Peers_app in Hp. apply elem_of_app in Hp as [Hp|Hp].
      * eapply (Peers_disjoint rt i (i + 1)); eauto; lia.
      * apply elem_of_Peers in Hp as (e & He & <-). destruct (Hprev e He) as (b0 & Hb0 & He0 & Hi).
        eapply (Peers_disjoint rt (i - 1) (i + 1)); eauto; [lia|]. apply elem_of_Peers. eauto.
    + intros e He. rewrite !elem_of_app in He. destruct He as [[He|He]|He]; [by apply (Hin i b)| |by apply (Hin _ b1 Hb1)].
      destruct (Hprev e He) as (b0 & Hb0 & He0 & _). by apply (Hin _ b0 Hb0).
  - exists prev. split_and!; [done..| |blia].
    intros e He. rewrite elem_of_app in He. destruct He as [He|He]; [by apply (Hin i b)|].
    destruct (Hprev e He) as (b0 & Hb0 & He0 & _). by apply (Hin _ b0 Hb0).
Qed.

(** ** Nearest peers *)

Section Nearest.
Context `{GoSort}.

(** The order of the query: XOR distance from the hash of [t]. *)
Definition farther (rt : RoutingTable) (t p q : string) : Prop :=
  bytes_less (dist (hashPeer rt t) (hashPeer rt q)) (dist (hashPeer rt t) (hashPeer rt p)) = false.

(** What a query computes: the candidates sorted and cut off. *)
Lemma NearestPeers_unfold rt t count b : wf rt -> (0 <= count)%Z ->
  Buckets rt !! home rt (hashPeer rt t) = Some b ->
  exists cands pds, NearestPeers rt t count = Ok (pd_p <$> take (Z.to_nat count) pds) /\
    pds ≡ₚ pd (hashPeer rt t) <$> cands /\ ascending pds_Less pds /\
    NoDup (Peers cands) /\ b `prefix_of` cands /\
    (forall e, e ∈ cands -> ehash e = hashPeer rt (eid e) /\ eid e ∈ ListPeers rt) /\
    ((count <= Z.of_nat (length b))%Z -> cands = b).
Proof.
  intros [Hs W] Hc Hb. destruct (candidates_ok rt t count b W Hb) as (extra & Hcand & Hnd & Hin & Hex).
  exists (b ++ extra), (sort_Sort pds_Less (pd (hashPeer rt t) <$> (b ++ extra))).
  split_and!; [| |apply sort_ascending, bytes_less_strict_weak|done|by exists extra|done|].
  - unfold NearestPeers. rewrite CommonPrefixLen_hashPeer by done. cbn [mbind outcome_bind].
    rewrite (proj2 (Z.ltb_ge _ 0)) by lia.
    rewrite bucketID_home by apply W. rewrite Hcand. cbn [mbind outcome_bind].
    unfold truncate. case_if.
    + by rewrite (proj2 (Z.ltb_ge count 0)) by done.
    + cbn [mbind outcome_bind]. by rewrite take_ge by blia.
  - apply sort_perm.
  - intros Hle. by rewrite (Hex Hle), app_nil_r.
Qed.

Lemma pds_entry (id : bytes) (cands : Bucket) pds x : pds ≡ₚ pd id <$> cands -> x ∈ pds ->
  exists e, e ∈ cands /\ x = pd id e.
Proof. intros Hp. rewrite Hp, list_elem_of_fmap. naive_solver. Qed.

Lemma pds_names (id : bytes) (cands : Bucket) pds :
  pds ≡ₚ pd id <$> cands -> pd_p <$> pds ≡ₚ Peers cands.
Proof. intros ->. rewrite <-list_fmap_compose. done. Qed.

Lemma ascending_names rt t cands pds :
  pds ≡ₚ pd (hashPeer rt t) <$> cands -> ascending pds_Less pds ->
  (forall e, e ∈ cands -> ehash e = hashPeer rt (eid e) /\ eid e ∈ ListPeers rt) ->
  StronglySorted (farther rt t) (pd_p <$> pds).
Proof.
  intros Hp Hs Hin.
  assert (forall x, x ∈ pds -> pd_distance x = dist (hashPeer rt t) (hashPeer rt (pd_p x))) as Hd.
  { intros x Hx. destruct (pds_entry _ _ _ _ Hp Hx) as (e & He & ->). simpl. by destruct (Hin e He) as [-> _]. }
  clear Hp. induction Hs as [|x l Hs IH Hx]; [constructor|]. rewrite fmap_cons. constructor.
  - apply IH. intros y Hy. apply Hd. by constructor.
  - apply Forall_fmap. rewrite Forall_forall in *. intros y Hy. specialize (Hx y Hy).
    unfold farther. simpl. rewrite <-!Hd by (by constructor). done.
Qed.

Lemma StronglySorted_take {A} (R : A -> A -> Prop) n l : StronglySorted R l -> StronglySorted R (take n l).
Proof.
  intros Hs. revert n. induction Hs as [|x l Hs IH Hx]; intros [|n]; simpl; constructor; [done|].
  by apply Forall_take.
Qed.

Lemma StronglySorted_take_drop {A} (R : A -> A -> Prop) n l x y :
  StronglySorted R l -> x ∈ take n l -> y ∈ drop n l -> R x y.
Proof.
  intros Hs. revert n. induction Hs as [|z l Hs IH Hz]; intros [|n]; simpl; try set_solver.
  rewrite elem_of_cons. intros [->|Hx] Hy; [|by eapply IH].
  rewrite Forall_forall in Hz. apply Hz. by eapply elem_of_drop_incl.
Qed.

Lemma NearestPeers_sound_aux rt t count : wf rt -> (0 <= count)%Z ->
  exists out, NearestPeers rt t count = Ok out /\ (Z.of_nat (length out) <= count)%Z /\
    NoDup out /\ (forall p, p ∈ out -> p ∈ ListPeers rt) /\ StronglySorted (farther rt t) out.
Proof.
  intros Wf Hc. pose proof Wf as [_ W]. destruct (home_bucket rt (hashPeer rt t)) as [b Hb]; [apply W|].
  destruct (NearestPeers_unfold rt t count b Wf Hc Hb) as (cands & pds & -> & Hp & Hs & Hnd & _ & Hin & _).
  rewrite fmap_take. eexists. split; [done|]. split_and!.
  - rewrite length_take. lia.
  - apply (sublist_NoDup _ (pd_p <$> pds)); [by rewrite (pds_names _ _ _ Hp)|apply sublist_take].
  - intros p Hpin%elem_of_take_incl. rewrite (pds_names _ _ _ Hp) in Hpin.
    apply elem_of_Peers in Hpin as (e & He & <-). by apply Hin.
  - by eapply StronglySorted_take, ascending_names.
Qed.

Lemma NearestPeers_exact_aux rt t count b : wf rt -> (0 <= count <= Z.of_nat (length b))%Z ->
  Buckets rt !! home rt (hashPeer rt t) = Some b ->
  exists out, NearestPeers rt t count = Ok out /\ Z.of_nat (length out) = count /\
    (forall x y, x ∈ out -> y ∈ ListPeers rt -> y ∉ out -> farther rt t x y) /\
    (forall x, x ∈ out -> x ∈ Peers b) /\ StronglySorted (farther rt t) out.
Proof.
  intros Wf Hc Hb. pose proof Wf as [_ W].
  destruct (NearestPeers_unfold rt t count b Wf) as (cands & pds & -> & Hp & Hs & Hnd & _ & Hin & Hex); [lia|done|].
  specialize (Hex ltac:(lia)) as ->. rewrite fmap_take. eexists. split; [done|].
  assert (length (pd_p <$> pds) = length b) as Hlen by (rewrite (pds_names _ _ _ Hp); apply length_Peers).
  assert (forall x, x ∈ take (Z.to_nat count) (pd_p <$> pds) -> x ∈ Peers b) as Hxb.
  { intros x Hx%elem_of_take_incl. by rewrite (pds_names _ _ _ Hp) in Hx. }
  split_and!; [rewrite length_take, Hlen; lia| |done|by eapply StronglySorted_take, ascending_names].
  intros x y Hx Hy Hny. apply Hxb in Hx as Hx'.
  destruct (decide (y ∈ Peers b)) as [Hyb|Hyb].
  - eapply StronglySorted_take_drop; [by eapply ascending_names|exact Hx|].
    rewrite <-(pds_names _ _ _ Hp), <-(take_drop (Z.to_nat count) (pd_p <$> pds)), elem_of_app in Hyb.
    by destruct Hyb.
  - assert (home rt (hashPeer rt x) = home rt (hashPeer rt t)) as Hhx.
    { apply elem_of_Peers in Hx' as (e & He & <-). destruct (wb_entry _ W _ _ _ Hb He) as [<- ->]. done. }
    assert (home rt (hashPeer rt y) ≠ home rt (hashPeer rt t)) as Hhy.
    { intros E. apply Hyb. rewrite <-(ListPeers_home rt y b W); [done|]. by rewrite E. }
    apply closer_less; try apply hashPeer_ok; [by rewrite !length_hashPeer..|]. by apply home_closer.
Qed.

Lemma bytes_less_zeros n x : bytes_ok x -> length x = n ->
  bytes_less (replicate n 0%Z) x = false -> x = replicate n 0%Z.
Proof.
  intros Hx <-. induction Hx as [|b x Hb Hx IH]; [done|]. cbn [length replicate bytes_less]. unfold byte_ok in Hb.
  destruct (Z.eqb_spec 0 b) as [<-|Hn].
  - intros Hl. f_equal. auto.
  - intros Hl%Z.ltb_ge. lia.
Qed.

Lemma Find_aux rt p : wf rt ->
  (forall q, q ∈ ListPeers rt -> hashPeer rt q = hashPeer rt p -> q = p) ->
  Find rt p = Ok (if bool_decide (p ∈ ListPeers rt) then p else EmptyString).
Proof.
  intros Wf Hcf. pose proof Wf as [_ W]. unfold Find. case_bool_decide as Hp.
  - destruct (home_bucket rt (hashPeer rt p)) as [b Hb]; [apply W|].
    apply (ListPeers_home rt p b W Hb) in Hp as Hpb.
    assert (1 <= length b)%nat as Hlen by (destruct b; [set_solver|simpl; lia]).
    destruct (NearestPeers_exact_aux rt p 1 b Wf) as (out & -> & Hl & Hfar & Hin & Hs); [lia|done|].
    cbn [mbind outcome_bind]. destruct out as [|q [|]]; simpl in Hl; try lia.
    assert (q = p) as ->; [|by rewrite String.eqb_refl].
    destruct (decide (q = p)) as [|Hne]; [done|].
    apply Hcf; [apply elem_of_ListPeers; eexists _, b; split; [exact Hb|]; apply Hin; constructor|].
    specialize (Hfar q p ltac:(constructor) Hp ltac:(set_solver)). unfold farther in Hfar.
    rewrite dist_self_zero in Hfar. apply bytes_less_zeros in Hfar;
      [|apply dist_ok; apply hashPeer_ok|rewrite length_dist; by rewrite !length_hashPeer].
    rewrite <-dist_self_zero in Hfar. by apply dist_inj in Hfar; rewrite ?length_hashPeer.
  - destruct (NearestPeers_sound_aux rt p 1 Wf) as (out & -> & Hl & _ & Hin & _); [lia|].
    cbn [mbind outcome_bind]. destruct out as [|q out]; [done|].
    destruct (String.eqb_spec q p) as [->|]; [|done]. exfalso. apply Hp, Hin. constructor.
Qed.

End Nearest.

(** ** Reachable tables *)

Lemma NewRoutingTable_wf sha bs peer lat h : (1 <= bs)%Z -> wf (NewRoutingTable sha bs peer lat h).
Proof.
  intros Hbs. split; [done|]. split; simpl; try done.
  - apply Sum_size.
  - apply Sum_ok.
  - intros [|i] b e Hb He; simplify_eq/=; set_solver.
  - intros [|i] b Hb; simplify_eq/=. constructor.
  - intros [|i] b Hb; simplify_eq/=. lia.
Qed.

(** A run keeps the table well formed, bounded, and in step with a set that applies its events. *)
Lemma run_ops_spec os rt s : wf rt -> s = list_to_set (ListPeers rt) ->
  (length (Buckets rt) <= max_buckets rt)%nat ->
  exists rt' evs, run_ops rt os = Ok (rt', evs) /\ wf rt' /\ same_conf rt rt' /\
    foldl track s evs = list_to_set (ListPeers rt') /\ (length (Buckets rt') <= max_buckets rt)%nat.
Proof.
  revert rt s. induction os as [|o os IH]; intros rt s Wf Hs Hb; simpl.
  - exists rt, []. by split_and!.
  - assert (exists rt1 e1, run_op rt o = Ok (rt1, e1) /\ wf rt1 /\ same_conf rt rt1 /\
      foldl track s e1 = list_to_set (ListPeers rt1) /\ (length (Buckets rt1) <= max_buckets rt)%nat)
      as (rt1 & e1 & -> & Wf1 & SC & Ht & Hb1).
    { destruct o as [p|p]; simpl.
      - destruct (Update_spec rt p Wf) as ([[rt1 res] e1] & -> & Wf1 & SC & Hr & Hm). simpl in *.
        exists rt1, e1. split_and!; [done..| |lia]. subst s.
        inversion Hr; subst; simpl; match goal with Hp : _ ≡ₚ _ |- _ => by rewrite Hp end.
      - destruct (RemovePeer_spec rt p Wf) as (rt1 & e1 & -> & Wf1 & SC & Hlen & Hr).
        exists rt1, e1. split_and!; [done..| |lia]. subst s.
        destruct Hr as [(_ & -> & Hp & Hn)|(_ & -> & Hbs)]; simpl.
        + rewrite Hp. simpl. assert (p ∉@{gset string} list_to_set (ListPeers rt1)) by (by rewrite elem_of_list_to_set).
          apply leibniz_equiv. set_solver.
        + unfold ListPeers. by rewrite Hbs. }
    cbn [mbind outcome_bind]. destruct SC as [S1 S2 S3].
    assert (max_buckets rt1 = max_buckets rt) as Emb by (unfold max_buckets; by rewrite S1).
    destruct (IH rt1 _ Wf1 Ht) as (rt2 & e2 & -> & Wf2 & [T1 T2 T3] & Ht2 & Hb2); [lia|].
    exists rt2, (e1 ++ e2). rewrite foldl_app. split_and!; [done..|split; congruence|done|lia].
Qed.

(** ** The unguarded hash state

    [hashPeer] is called before the table lock is taken, on the one [hash.Hash] of the table.  Two
    goroutines that run [Reset; Write; Sum] on it interleave. *)

Inductive hcall := HReset | HWrite (p : bytes) | HSum.

(** The program of one [hashPeer] call. *)
Definition hashPeer_calls (p : string) : list hcall := [HReset; HWrite (string_bytes p); HSum].

(** Executing a schedule: [true] picks the first goroutine; the digests each one obtains. *)
Fixpoint hash_run (h : hash_Hash) (buf : bytes) (sched : list bool) (g1 g2 : list hcall)
    : list bytes * list bytes :=
  match sched with
  | [] => ([], [])
  | b :: sched' =>
      match (if b then g1 else g2) with
      | [] => hash_run h buf sched' g1 g2
      | c :: rest =>
          let g1' := if b then rest else g1 in
          let g2' := if b then g2 else rest in
          match c with
          | HReset => hash_run h [] sched' g1' g2'
          | HWrite p => hash_run h (buf ++ p) sched' g1' g2'
          | HSum =>
              let '(o1, o2) := hash_run h buf sched' g1' g2' in
              if b then (Sum h buf :: o1, o2) else (o1, Sum h buf :: o2)
          end
      end
  end.

(** ** A concrete table *)

(** A one-byte hash: the first byte of the name. *)
Definition hash1 : hash_Hash.
Proof.
  refine (mkHash (fun p => [default 0%Z (head p) mod 256]%Z) 1 _ _).
  - done.
  - intros p. constructor; [apply byte_ok_mod|constructor].
Defined.

Definition name (b : Z) : string := bytes_string [b].
Definition kad_ops : list op := [OpUpdate (name 128); OpUpdate (name 32); OpUpdate (name 16)].
Definition kad_new : RoutingTable := NewRoutingTable hash1 1 (name 0) 0 None.
Definition kad_table : RoutingTable :=
  with_buckets kad_new [[mkEntry (name 128) [128%Z]]; []; [mkEntry (name 32) [32%Z]]; [mkEntry (name 16) [16%Z]]].

Lemma kad_table_run : run_ops kad_new kad_ops =
  Ok (kad_table, [PeerAdded (name 128); PeerAdded (name 32); PeerAdded (name 16)]).
Proof. vm_compute. done. Qed.

Lemma kad_table_wf : wf kad_table.
Proof.
  destruct (run_ops_spec kad_ops kad_new ∅) as (rt & evs & Hrun & Wf & _).
  - by apply NewRoutingTable_wf.
  - done.
  - unfold max_buckets. simpl. lia.
  - rewrite kad_table_run in Hrun. by injection Hrun as <- _.
Qed.

(** ** Properties *)

(** C1: [Update] on a well-formed table returns (no panic, the unfolding of buckets ends), keeps
    the table well formed, and does exactly one of three things: a known peer moves to the front
    of its bucket; a new peer is added and announced; or it is rejected with
    [ErrPeerRejectedNoCapacity], the peers unchanged, and its bucket really is full. *)
Theorem Update_correct rt p : wf rt ->
  exists r, Update rt p = Ok r /\ wf (r.1.1) /\ update_result rt p r.
Proof. intros Wf. destruct (Update_spec rt p Wf) as (r & ? & ? & _ & ? & _). eauto. Qed.

Lemma Update_correct_witness :
  exists r, Update kad_table (name 130) = Ok r /\ wf (r.1.1) /\ update_result kad_table (name 130) r.
Proof. apply (Update_correct kad_table (name 130)). exact kad_table_wf. Defined.

(** [Remove] deletes exactly the given peer and announces it, or changes no bucket and
    announces nothing when the peer is unknown; the table stays well formed. *)
Theorem Remove_correct rt p : wf rt ->
  exists rt' evs, RemovePeer rt p = Ok (rt', evs) /\ wf rt' /\
    ((p ∈ ListPeers rt /\ evs = [PeerRemoved p] /\ ListPeers rt ≡ₚ p :: ListPeers rt' /\ p ∉ ListPeers rt') \/
     (p ∉ ListPeers rt /\ evs = [] /\ Buckets rt' = Buckets rt)).
Proof. intros Wf. destruct (RemovePeer_spec rt p Wf) as (rt' & evs & ? & ? & _ & _ & ?). eauto. Qed.

Lemma Remove_correct_witness :
  exists rt' evs, RemovePeer kad_table (name 32) = Ok (rt', evs) /\ wf rt' /\
    ((name 32 ∈ ListPeers kad_table /\ evs = [PeerRemoved (name 32)] /\
      ListPeers kad_table ≡ₚ name 32 :: ListPeers rt' /\ name 32 ∉ ListPeers rt') \/
     (name 32 ∉ ListPeers kad_table /\ evs = [] /\ Buckets rt' = Buckets kad_table)).
Proof. apply (Remove_correct kad_table (name 32)). exact kad_table_wf. Defined.

(** C2: any sequence of updates and removals on a new table with a positive bucket size runs to
    completion; the table is then well formed (every peer in the bucket of its shared prefix, every
    bucket within its size), lists no peer twice, its size is the number of listed peers, a
    subscriber of the two callbacks holds exactly the listed peers, and there are never more
    buckets than prefix lengths plus one. *)
Theorem reachable_table sha bs peer lat h os : (1 <= bs)%Z ->
  exists rt evs, run_ops (NewRoutingTable sha bs peer lat h) os = Ok (rt, evs) /\ wf rt /\
    NoDup (ListPeers rt) /\ TableSize rt = length (ListPeers rt) /\
    foldl track ∅ evs = list_to_set (ListPeers rt) /\
    (length (Buckets rt) <= 8 * Size (default sha h) + 2)%nat.
Proof.
  intros Hbs. destruct (run_ops_spec os (NewRoutingTable sha bs peer lat h) ∅)
    as (rt & evs & -> & Wf & _ & Ht & Hb).
  - by apply NewRoutingTable_wf.
  - done.
  - unfold max_buckets. simpl. lia.
  - exists rt, evs. split_and!; [done|done|apply ListPeers_NoDup, Wf|apply TableSize_length|done|].
    unfold max_buckets in Hb. simpl in Hb. by rewrite Sum_size in Hb.
Qed.

Lemma reachable_table_witness :
  exists rt evs, run_ops (NewRoutingTable hash1 1 (name 0) 0 None) kad_ops = Ok (rt, evs) /\ wf rt /\
    NoDup (ListPeers rt) /\ TableSize rt = length (ListPeers rt) /\
    foldl track ∅ evs = list_to_set (ListPeers rt) /\
    (length (Buckets rt) <= 8 * Size (default hash1 None) + 2)%nat.
Proof. apply (reachable_table hash1 1 (name 0) 0 None kad_ops). lia. Defined.

(** [NearestPeers] returns at most [count] distinct peers of the table, in ascending XOR
    distance from the target, whatever algorithm [sort.Sort] uses. *)
Theorem NearestPeers_sound `{GoSort} rt t count : wf rt -> (0 <= count)%Z ->
  exists out, NearestPeers rt t count = Ok out /\ (Z.of_nat (length out) <= count)%Z /\
    NoDup out /\ (forall p, p ∈ out -> p ∈ ListPeers rt) /\ StronglySorted (farther rt t) out.
Proof. apply NearestPeers_sound_aux. Qed.

Lemma NearestPeers_sound_witness :
  exists out, NearestPeers kad_table (name 64) 2 = Ok out /\ (Z.of_nat (length out) <= 2)%Z /\
    NoDup out /\ (forall p, p ∈ out -> p ∈ ListPeers kad_table) /\
    StronglySorted (farther kad_table (name 64)) out.
Proof. apply (NearestPeers_sound kad_table (name 64) 2); [exact kad_table_wf|lia]. Defined.

(** C36: When the bucket of the target holds at least [count] peers, the answer is exactly the
    [count] nearest peers of the whole table: that many different peers of the table, the nearest first, and no peer
    left out is nearer than one returned. *)
Theorem NearestPeers_exact `{GoSort} rt t count b : wf rt -> (0 <= count <= Z.of_nat (length b))%Z ->
  Buckets rt !! home rt (hashPeer rt t) = Some b ->
  exists out, NearestPeers rt t count = Ok out /\ Z.of_nat (length out) = count /\ NoDup out /\
    (forall x, x ∈ out -> x ∈ ListPeers rt) /\ StronglySorted (farther rt t) out /\
    (forall x y, x ∈ out -> y ∈ ListPeers rt -> y ∉ out -> farther rt t x y).
Proof.
  intros Wf Hc Hb. destruct (NearestPeers_exact_aux rt t count b Wf Hc Hb) as (out & Ho & Hl & Hf & _ & Hs).
  destruct (NearestPeers_sound_aux rt t count Wf ltac:(lia)) as (out' & Ho' & _ & Hnd & Hin & _). rewrite Ho in Ho'. injection Ho' as <-. eauto 10.
Qed.

Lemma NearestPeers_exact_witness :
  exists out, NearestPeers kad_table (name 33) 1 = Ok out /\ Z.of_nat (length out) = 1%Z /\ NoDup out /\
    (forall x, x ∈ out -> x ∈ ListPeers kad_table) /\ StronglySorted (farther kad_table (name 33)) out /\
    (forall x y, x ∈ out -> y ∈ ListPeers kad_table -> y ∉ out -> farther kad_table (name 33) x y).
Proof.
  apply (NearestPeers_exact kad_table (name 33) 1 [mkEntry (name 32) [32%Z]]);
    [exact kad_table_wf|simpl; lia|vm_compute; reflexivity].
Defined.

(** in general the answer is not the [count] closest peers the doc comment promises: only the
    two adjacent buckets are searched, so a reachable table can return a peer that is farther from
    the target than a peer it leaves out. *)
Theorem NearestPeers_not_always_closest :
  exists rt evs out x y, run_ops kad_new kad_ops = Ok (rt, evs) /\
    NearestPeers rt (name 64) 2 = Ok out /\ x ∈ out /\ y ∈ ListPeers rt /\ y ∉ out /\
    bytes_less (dist (hashPeer rt (name 64)) (hashPeer rt y)) (dist (hashPeer rt (name 64)) (hashPeer rt x)) = true.
Proof.
  exists kad_table, [PeerAdded (name 128); PeerAdded (name 32); PeerAdded (name 16)],
    [name 32; name 128], (name 128), (name 16).
  split_and!; [apply kad_table_run|vm_compute; done|set_solver| | |vm_compute; done].
  - by apply (bool_decide_unpack _).
  - by apply (bool_decide_unpack _).
Qed.

(** [Find] returns the peer itself exactly when it is in the table, provided no other peer of
    the table has the same hash, and the empty string otherwise. *)
Theorem Find_correct `{GoSort} rt p : wf rt ->
  (forall q, q ∈ ListPeers rt -> hashPeer rt q = hashPeer rt p -> q = p) ->
  Find rt p = Ok (if bool_decide (p ∈ ListPeers rt) then p else EmptyString).
Proof. apply Find_aux. Qed.

Lemma Find_correct_witness : Find kad_table (name 32) = Ok (name 32).
Proof.
  refine (eq_trans (Find_correct kad_table (name 32) kad_table_wf _) _); [|vm_compute; reflexivity].
  apply (Forall_forall (fun q => hashPeer kad_table q = hashPeer kad_table (name 32) -> q = name 32)).
  apply (bool_decide_unpack _). vm_compute. exact I.
Defined.

(** The loop of [MoveToFront] keeps walking after a match; it ends, with the entry at the front
    and the order of the others kept, when the ids of the bucket are distinct (which the table
    guarantees), and never ends when the id occurs twice. *)
Theorem MoveToFront_termination b1 e b2 :
  (NoDup (Peers (b1 ++ e :: b2)) -> MoveToFront (b1 ++ e :: b2) (eid e) = Ok (e :: b1 ++ b2)) /\
  (eid e ∈ Peers b2 -> forall fuel, move_loop fuel (eid e) (b1 ++ e :: b2) 0 = NoFuel).
Proof.
  split; [apply MoveToFront_unique|].
  intros Hin fuel. apply move_loop_diverges.
  - rewrite filter_app, length_app, filter_cons_True by done. simpl.
    apply elem_of_Peers in Hin as (e' & He' & Heq).
    assert (e' ∈ filter (fun e0 => eid e0 = eid e) b2) as Hf by (by apply list_elem_of_filter).
    destruct (filter (fun e0 => eid e0 = eid e) b2); [set_solver|simpl; lia].
  - exists (length b1), e. split_and!; [lia| |done]. by apply list_lookup_middle.
Qed.

Lemma MoveToFront_termination_witness :
  MoveToFront [mkEntry (name 1) [1%Z]; mkEntry (name 2) [2%Z]] (name 2) =
    Ok [mkEntry (name 2) [2%Z]; mkEntry (name 1) [1%Z]].
Proof.
  apply (proj1 (MoveToFront_termination [mkEntry (name 1) [1%Z]] (mkEntry (name 2) [2%Z]) [])).
  apply (bool_decide_unpack _). vm_compute. exact I.
Defined.

(** two concurrent [hashPeer] calls can give one goroutine the digest of the other's peer, since
    the hash state is shared and used outside the lock; run one after the other, each call gets
    the digest of its own peer. *)
Theorem hashPeer_race h p q buf :
  hash_run h buf [true; true; true; false; false; false] (hashPeer_calls p) (hashPeer_calls q) =
    ([Sum h (string_bytes p)], [Sum h (string_bytes q)]) /\
  hash_run h buf [true; true; false; false; true; false] (hashPeer_calls p) (hashPeer_calls q) =
    ([Sum h (string_bytes q)], [Sum h (string_bytes q)]).
Proof. done. Qed.
