(* ===== verification/ForkID.v ===== *)
(** * Fork identifiers (EIP-2124)

    [forkid/forkid.go]: cleaning a fork list in place, the table of running CRC32 checksums, the
    lookup of the identifier at a block and the validation of a remote identifier. *)

From stdpp Require Import base list gmap strings numbers sorting.
From S2P Require Import Prelude GoStd.
Local Open Scope Z_scope.

(** ** Data *)

Record ID := mkID { Hash : bytes; Next : Z }.

#[global] Instance ID_eq_dec : EqDecision ID.
Proof. solve_decision. Defined.

Definition ID_Equal (i ii : ID) : bool := negb (Next i =? Next ii) || bytes_equal (Hash i) (Hash ii).

Record checksum := mkChecksum { Number : Z; Checksum : bytes }.

(** [f.checksums[i]] with an [int] index: negative and too large indices panic. *)
Definition idxZ {A} (l : list A) (i : Z) : outcome A := if i <? 0 then Panic else idx l (Z.to_nat i).

(** ** crc32Checksum *)

Definition newCRC32 (genesis : bytes) : Z := ChecksumIEEE genesis.
Definition crc_Add (c : Z) (fork : Z) : Z := crc32_Update c (be_put 8 fork).
Definition crc_Hash (c : Z) : bytes := be_put 4 c.

(** ** cleanForks *)

(** The loop that keeps the first of each run, writing in place: [k] iterations are left. *)
Fixpoint dedup_loop (k i j : nat) (a : list Z) : outcome (list Z * nat) :=
  match k with
  | O => Ok (a, j)
  | S k' =>
      x ← idx a i;
      y ← idx a (i - 1);
      if x =? y then dedup_loop k' (S i) j a
      else _ ← idx a j; dedup_loop k' (S i) (S j) (<[j := x]> a)
  end.

(** [forks[0:j]]: a slice expression may extend up to the capacity, so the elements of the backing
    array beyond the length ([spare]) become visible; beyond the capacity it panics. *)
Definition reslice (a spare : list Z) (j : nat) : outcome (list Z) :=
  if (j <=? length (a ++ spare))%nat then Ok (take j (a ++ spare)) else Panic.

Fixpoint skip_zeros (a : list Z) : list Z :=
  match a with
  | [] => []
  | x :: a' => if x =? 0 then skip_zeros a' else a
  end.

Section ForkID.
Context `{GoSort}.

Definition cleanForks (forks spare : list Z) : outcome (list Z) :=
  let a := sort_Sort Z.ltb forks in
  '(a, j) ← dedup_loop (length a - 1) 1 1 a;
  a ← reslice a spare j;
  Ok (skip_zeros a).

(** ** NewForkID *)

(** [for _, fork := range forks { checksums.add(fork, builder.Add(fork).Hash()) }] *)
Fixpoint add_forks (builder : Z) (forks : list Z) (cs : list checksum) {struct forks} : Z * list checksum :=
  match forks with
  | [] => (builder, cs)
  | fork :: forks' =>
      add_forks (crc_Add builder fork) forks'
        (cs ++ [mkChecksum fork (crc_Hash (crc_Add builder fork))])
  end.

Definition NewForkID (genesis : bytes) (forks spare : list Z) : outcome (list checksum) :=
  forks ← cleanForks forks spare;
  let builder := newCRC32 genesis in
  let cs := [mkChecksum 0 (crc_Hash builder)] in
  let '(builder, cs) := add_forks builder forks cs in
  Ok (cs ++ [mkChecksum MaxUint64 (crc_Hash (crc_Add builder MaxUint64))]).

End ForkID.

(** ** Queries *)

Definition number_at (f : list checksum) (i : nat) : Z := default 0 (Number <$> f !! i).

Definition findForkAt (f : list checksum) (block : Z) : outcome Z :=
  indx ← sort_Search (length f) (fun i => block <? number_at f i); Ok (Z.of_nat indx - 1).

Definition At (f : list checksum) (block : Z) : outcome ID :=
  indx ← findForkAt f block;
  c ← idxZ f indx;
  n ← idxZ f (indx + 1);
  Ok (mkID (Checksum c) (Number n)).

Definition ErrRemoteStale : string := "stalled".
Definition ErrLocalIncompatibleOrStale : string := "incomptabible or stalled".

(** [for i := 0; i < indx; i++]: [Some r] is a return from inside the loop. *)
Fixpoint lower_loop (k i : nat) (f : list checksum) (remoteID : bytes) (remoteNext : Z)
    : outcome (option (option string)) :=
  match k with
  | O => Ok None
  | S k' =>
      c ← idx f i;
      if bytes_equal (Checksum c) remoteID then
        n ← idx f (S i);
        Ok (Some (if remoteNext =? Number n then None else Some ErrRemoteStale))
      else lower_loop k' (S i) f remoteID remoteNext
  end.

(** [for i := indx; i < len(f.checksums); i++] over the remaining checksums. *)
Fixpoint upper_loop (f : list checksum) (remoteID : bytes) : bool :=
  match f with
  | [] => false
  | c :: f' => if bytes_equal (Checksum c) remoteID then true else upper_loop f' remoteID
  end.

(** The returned error: [None] is nil. *)
Definition Validate (f : list checksum) (localHead : Z) (remoteID : bytes) (remoteNext : Z)
    : outcome (option string) :=
  indx ← findForkAt f localHead;
  localFork ← idxZ f indx;
  if bytes_equal (Checksum localFork) remoteID then
    if (0 <? remoteNext) && (remoteNext <=? localHead) then Ok (Some ErrLocalIncompatibleOrStale)
    else Ok None
  else
    r ← lower_loop (Z.to_nat indx) 0 f remoteID remoteNext;
    match r with
    | Some e => Ok e
    | None => if upper_loop (drop (Z.to_nat indx) f) remoteID then Ok None
              else Ok (Some ErrLocalIncompatibleOrStale)
    end.

(** ** Specification *)

(** The fork points of a configuration: its nonzero forks, each once, ascending. *)
Definition fork_points (forks fs : list Z) : Prop :=
  StronglySorted Z.lt fs /\ forall x, x ∈ fs <-> x ∈ forks /\ x ≠ 0.

(** The EIP-2124 hash of a genesis and the forks already passed: one CRC32 over the concatenation. *)
Definition fork_hash (genesis : bytes) (passed : list Z) : bytes :=
  be_put 4 (ChecksumIEEE (genesis ++ concat (be_put 8 <$> passed))).

(** The checksum table a configuration should have. *)
Definition forkid_table (genesis : bytes) (fs : list Z) : list checksum :=
  imap (fun i n => mkChecksum n (fork_hash genesis (take i (fs ++ [MaxUint64])))) (0 :: fs ++ [MaxUint64]).

(** ** Lemmas: cleanForks *)

Fixpoint dedup_from (prev : Z) (l : list Z) : list Z :=
  match l with
  | [] => []
  | x :: l' => if x =? prev then dedup_from x l' else x :: dedup_from x l'
  end.

Lemma dedup_loop_spec rest i j a prev :
  drop i a = rest -> (i <= length a)%nat -> a !! (i - 1)%nat = Some prev -> (1 <= j <= i)%nat ->
  exists a' j', dedup_loop (length rest) i j a = Ok (a', j') /\ length a' = length a /\
    (j' <= length a')%nat /\ take j' a' = take j a ++ dedup_from prev rest.
Proof.
  revert i j a prev. induction rest as [|x rest IH]; intros i j a prev Hr Hi Hp Hj; simpl.
  - exists a, j. rewrite app_nil_r. split_and!; [done..|lia|done].
  - assert (a !! i = Some x) as Hx.
    { rewrite <-(Nat.add_0_r i), <-lookup_drop, Hr. done. }
    assert (drop (S i) a = rest) as Hr'.
    { rewrite <-Nat.add_1_r, <-drop_drop, Hr. done. }
    pose proof (lookup_lt_Some _ _ _ Hx) as Hlt.
    rewrite (proj2 (idx_Ok _ _ x) Hx), (proj2 (idx_Ok _ _ prev) Hp). cbn [mbind outcome_bind].
    destruct (x =? prev) eqn:E.
    + apply (IH (S i) j a x); [done|lia|by rewrite Nat.sub_succ, Nat.sub_0_r|lia].
    + destruct (idx_lt a j) as (z & -> & _); [lia|]. cbn [mbind outcome_bind].
      destruct (IH (S i) (S j) (<[j := x]> a) x) as (a' & j' & -> & Hl & Hj' & Ht).
      * rewrite drop_insert_lt by lia. done.
      * rewrite length_insert. lia.
      * rewrite Nat.sub_succ, Nat.sub_0_r. destruct (decide (j = i)) as [->|].
        -- by apply list_lookup_insert_eq.
        -- by rewrite list_lookup_insert_ne by lia.
      * lia.
      * exists a', j'. rewrite length_insert in Hl. split_and!; [done..|]. rewrite Ht.
        rewrite (take_S_r _ _ x) by (apply list_lookup_insert_eq; lia).
        rewrite take_insert_ge by lia. by rewrite <-app_assoc.
Qed.

Lemma dedup_from_spec prev l : StronglySorted Z.le (prev :: l) ->
  StronglySorted Z.lt (prev :: dedup_from prev l) /\ forall x, x ∈ prev :: dedup_from prev l <-> x ∈ prev :: l.
Proof.
  revert prev. induction l as [|y l IH]; intros prev Hs; simpl; [by split; [repeat constructor|]|].
  inversion_clear Hs as [|?? Hs' Hall]. inversion_clear Hall as [|?? Hle Hall'].
  destruct (IH y Hs') as [IHs IHe]. inversion_clear IHs as [|?? IHs' IHall].
  destruct (y =? prev) eqn:E.
  - apply Z.eqb_eq in E as ->. split; [by constructor|]. intros x. rewrite IHe. set_solver.
  - split; [|intros x; specialize (IHe x); set_solver].
    constructor; [by constructor|]. constructor; [blia|].
    eapply Forall_impl; [exact IHall|]. simpl. intros. blia.
Qed.

Lemma skip_zeros_spec l : StronglySorted Z.lt l -> Forall (fun x => 0 <= x) l ->
  StronglySorted Z.lt (skip_zeros l) /\ forall x, x ∈ skip_zeros l <-> x ∈ l /\ x ≠ 0.
Proof.
  induction 1 as [|y l Hs IH Hall]; intros Hp; simpl; [split; [constructor|set_solver]|].
  inversion_clear Hp as [|?? Hy Hp']. destruct (IH Hp') as [IHs IHe]. destruct (y =? 0) eqn:E.
  - apply Z.eqb_eq in E as ->. split; [done|]. intros x. rewrite IHe. set_solver.
  - split; [by constructor|]. intros x. split; [|naive_solver].
    intros Hx. split; [done|]. apply elem_of_cons in Hx as [->|Hx]; [blia|].
    rewrite Forall_forall in Hall. specialize (Hall x Hx). blia.
Qed.

Section CleanForks.
Context `{GoSort}.

Lemma sorted_forks forks : StronglySorted Z.le (sort_Sort Z.ltb forks).
Proof.
  pose proof (sort_ascending Z.ltb forks (Zlt_strict_weak id)) as Hs. unfold ascending in Hs.
  induction Hs as [|x l Hs IH Hall]; constructor; [done|].
  eapply Forall_impl; [exact Hall|]. simpl. intros. blia.
Qed.

Lemma cleanForks_spec forks spare : forks ≠ [] -> Forall (fun x => 0 <= x) forks ->
  exists fs, cleanForks forks spare = Ok fs /\ fork_points forks fs.
Proof.
  intros Hne Hpos. unfold cleanForks.
  pose proof (sort_perm Z.ltb forks) as Hperm. pose proof (sorted_forks forks) as Hs.
  destruct (sort_Sort Z.ltb forks) as [|x l] eqn:E.
  { apply Permutation_nil_l in Hperm. done. }
  cbn [length]. rewrite Nat.sub_succ, Nat.sub_0_r.
  destruct (dedup_loop_spec l 1 1 (x :: l) x) as (a & j & -> & Hl & Hj & Ht); [done|simpl; lia|done|lia|].
  cbn [mbind outcome_bind]. unfold reslice. rewrite (proj2 (Nat.leb_le _ _)) by (rewrite length_app; lia).
  cbn [mbind outcome_bind]. rewrite take_app_le by lia. rewrite Ht. simpl.
  destruct (dedup_from_spec x l Hs) as [Hss Hse].
  destruct (skip_zeros_spec (x :: dedup_from x l)) as [Hzs Hze]; [done| |].
  { apply Forall_forall. intros y Hy. apply Hse in Hy. rewrite Hperm in Hy.
    rewrite Forall_forall in Hpos. by apply Hpos. }
  eexists. split; [done|]. split; [done|]. intros y.
  change (x :: l) with ([x] ++ l) in Hse. simpl skip_zeros in Hze. rewrite Hze.
  rewrite (Hse y). simpl. by rewrite Hperm.
Qed.

End CleanForks.

(** ** Lemmas: the checksum table *)

#[global] Arguments crc32_Update : simpl never.
#[global] Arguments be_put : simpl never.
#[global] Arguments MaxUint64 : simpl never.

Lemma crc_Add_spec g pre fork :
  crc_Add (ChecksumIEEE (g ++ concat (be_put 8 <$> pre))) fork =
  ChecksumIEEE (g ++ concat (be_put 8 <$> (pre ++ [fork]))).
Proof.
  unfold crc_Add, ChecksumIEEE. rewrite crc32_Update_app, fmap_app, concat_app, <-app_assoc.
  cbn [fmap list_fmap concat]. by rewrite app_nil_r.
Qed.

Lemma add_forks_spec g fs pre cs :
  add_forks (ChecksumIEEE (g ++ concat (be_put 8 <$> pre))) fs cs =
  (ChecksumIEEE (g ++ concat (be_put 8 <$> (pre ++ fs))),
   cs ++ imap (fun i n => mkChecksum n (fork_hash g (pre ++ take (S i) fs))) fs).
Proof.
  revert pre cs. induction fs as [|f fs IH]; intros pre cs; cbn [add_forks].
  - by rewrite !app_nil_r.
  - rewrite crc_Add_spec, IH. rewrite <-!app_assoc. f_equal. rewrite imap_cons.
    cbn [app take]. do 2 f_equal. apply imap_ext. intros i x _. cbn [compose]. by rewrite <-app_assoc.
Qed.

Lemma forkid_table_length g fs : length (forkid_table g fs) = (length fs + 2)%nat.
Proof. unfold forkid_table. rewrite length_imap. simpl. rewrite length_app. simpl. lia. Qed.

Lemma forkid_table_lookup g fs i :
  forkid_table g fs !! i =
  (fun n => mkChecksum n (fork_hash g (take i (fs ++ [MaxUint64])))) <$> (0 :: fs ++ [MaxUint64]) !! i.
Proof. unfold forkid_table. by rewrite list_lookup_imap. Qed.

Lemma number_at_table g fs i : number_at (forkid_table g fs) i = default 0 ((0 :: fs ++ [MaxUint64]) !! i).
Proof. unfold number_at. rewrite forkid_table_lookup. by destruct (_ !! i). Qed.

Section NewForkIDSpec.
Context `{GoSort}.

Lemma NewForkID_of_clean g forks spare fs :
  cleanForks forks spare = Ok fs -> NewForkID g forks spare = Ok (forkid_table g fs).
Proof.
  intros E. unfold NewForkID. rewrite E. cbn [mbind outcome_bind].
  pose proof (add_forks_spec g fs [] [mkChecksum 0 (crc_Hash (newCRC32 g))]) as Ha.
  cbn [fmap list_fmap concat app] in Ha. rewrite app_nil_r in Ha. unfold newCRC32 in *. rewrite Ha.
  rewrite (crc_Add_spec g fs). f_equal. unfold forkid_table. rewrite imap_cons, imap_app.
  cbn [app]. f_equal; [by unfold fork_hash, crc_Hash; simpl; rewrite app_nil_r|].
  f_equal.
  - apply imap_ext. intros i x Hx%lookup_lt_Some. cbn [compose]. by rewrite take_app_le by lia.
  - rewrite imap_cons. cbn [imap compose]. rewrite Nat.add_0_r. do 2 f_equal. unfold fork_hash, crc_Hash.
    rewrite take_ge; [done|]. rewrite length_app. simpl. lia.
Qed.

Lemma NewForkID_spec g forks spare : forks ≠ [] -> Forall (fun x => 0 <= x) forks ->
  exists fs, NewForkID g forks spare = Ok (forkid_table g fs) /\ fork_points forks fs.
Proof.
  intros Hne Hpos. destruct (cleanForks_spec forks spare Hne Hpos) as (fs & E & Hfs).
  exists fs. split; [by apply NewForkID_of_clean|done].
Qed.

End NewForkIDSpec.

(** Strictly ascending numbers: the shape a table has when its forks are below [MaxUint64]. *)
Lemma fork_points_sorted forks fs : fork_points forks fs -> Forall (fun x => 0 <= x < MaxUint64) forks ->
  StronglySorted Z.lt (0 :: fs ++ [MaxUint64]).
Proof.
  intros [Hs He] Hb. assert (Forall (fun x => 0 < x < MaxUint64) fs) as Hr.
  { apply Forall_forall. intros x [Hx Hn]%He. rewrite Forall_forall in Hb. specialize (Hb x Hx). lia. }
  constructor.
  - clear He. induction Hs as [|x l Hs IH Hall]; [repeat constructor|]. simpl.
    inversion_clear Hr as [|?? Hx Hr']. constructor; [by apply IH|].
    apply Forall_app. split; [done|]. repeat constructor. lia.
  - apply Forall_app. split; [eapply Forall_impl; [exact Hr|]; simpl; lia|]. by repeat constructor.
Qed.

Lemma sorted_lookup_lt l i j x y : StronglySorted Z.lt l -> l !! i = Some x -> l !! j = Some y ->
  (i < j)%nat -> x < y.
Proof.
  intros Hs. revert i j. induction Hs as [|z l Hs IH Hall]; intros [|i] [|j] Hi Hj Hlt; simplify_eq/=; try lia.
  - rewrite Forall_forall in Hall. apply Hall. by eapply list_elem_of_lookup_2.
  - eapply IH; eauto. lia.
Qed.

(** The fork a block belongs to. *)
Definition in_fork (f : list checksum) (i : nat) (block : Z) : Prop :=
  (S i < length f)%nat /\ number_at f i <= block < number_at f (S i).

Lemma findForkAt_spec g fs block : StronglySorted Z.lt (0 :: fs ++ [MaxUint64]) ->
  0 <= block < MaxUint64 ->
  exists i, findForkAt (forkid_table g fs) block = Ok (Z.of_nat i) /\ in_fork (forkid_table g fs) i block.
Proof.
  intros Hs Hb. unfold findForkAt, in_fork. set (nums := 0 :: fs ++ [MaxUint64]) in *.
  assert (length nums = length fs + 2)%nat as Hlen by (simpl; rewrite length_app; simpl; lia).
  rewrite forkid_table_length, <-Hlen.
  destruct (sort_Search_correct (fun i => block <? number_at (forkid_table g fs) i) (length nums))
    as (r & -> & Hr & Hlo & Hhi).
  { intros a b Hab. rewrite !number_at_table. fold nums.
    destruct (lookup_lt_is_Some_2 nums a) as [x Hx]; [lia|]. destruct (lookup_lt_is_Some_2 nums b) as [y Hy]; [lia|].
    rewrite Hx, Hy. simpl. destruct (decide (a = b)) as [->|]; [congruence|].
    pose proof (sorted_lookup_lt nums a b x y Hs Hx Hy). intros; apply Z.ltb_lt; blia. }
  setoid_rewrite number_at_table in Hlo. setoid_rewrite number_at_table in Hhi. fold nums in Hlo, Hhi.
  assert (r ≠ 0)%nat as Hr0.
  { intros ->. specialize (Hhi 0%nat ltac:(lia)). simpl in Hhi. blia. }
  assert (nums !! (length nums - 1)%nat = Some MaxUint64) as Hlast.
  { rewrite Hlen. replace (length fs + 2 - 1)%nat with (S (length fs)) by lia. simpl. by apply list_lookup_middle. }
  assert (r ≠ length nums) as Hrn.
  { intros ->. specialize (Hlo (length nums - 1)%nat ltac:(lia)). rewrite Hlast in Hlo. simpl in Hlo. blia. }
  exists (r - 1)%nat. cbn [mbind outcome_bind]. split; [f_equal; lia|].
  rewrite !number_at_table. fold nums. replace (S (r - 1)) with r by lia.
  specialize (Hlo (r - 1)%nat ltac:(lia)). specialize (Hhi r ltac:(lia)). split; [lia|]. blia.
Qed.

Lemma idxZ_nat {A} (l : list A) i : idxZ l (Z.of_nat i) = idx l i.
Proof. unfold idxZ. rewrite (proj2 (Z.ltb_ge _ 0)) by lia. by rewrite Nat2Z.id. Qed.

Lemma in_fork_lookup g fs i block : in_fork (forkid_table g fs) i block ->
  idx (forkid_table g fs) i = Ok (mkChecksum (number_at (forkid_table g fs) i) (fork_hash g (take i (fs ++ [MaxUint64])))).
Proof.
  intros [Hl _]. apply idx_Ok. rewrite number_at_table, forkid_table_lookup.
  destruct (lookup_lt_is_Some_2 (0 :: fs ++ [MaxUint64]) i) as [x ->]; [|done].
  rewrite forkid_table_length in Hl. simpl. rewrite length_app. simpl. lia.
Qed.

(** The split of the fork points at a block. *)
Lemma in_fork_filter g fs i block : StronglySorted Z.lt (0 :: fs ++ [MaxUint64]) ->
  in_fork (forkid_table g fs) i block ->
  filter (fun x => x <= block) fs = take i fs /\ filter (fun x => block < x) fs = drop i fs.
Proof.
  intros Hs [Hl Hb]. rewrite forkid_table_length in Hl. rewrite !number_at_table in Hb.
  assert (forall k x, fs !! k = Some x -> ((k < i)%nat -> x <= block) /\ ((i <= k)%nat -> block < x)) as Hk.
  { intros k x Hx. assert ((0 :: fs ++ [MaxUint64]) !! S k = Some x) as Hx'.
    { simpl. rewrite lookup_app_l; [done|]. by eapply lookup_lt_Some. }
    destruct (lookup_lt_is_Some_2 (0 :: fs ++ [MaxUint64]) i) as [y Hy]; [simpl; rewrite length_app; simpl; lia|].
    destruct (lookup_lt_is_Some_2 (0 :: fs ++ [MaxUint64]) (S i)) as [z Hz]; [simpl; rewrite length_app; simpl; lia|].
    rewrite Hy, Hz in Hb. cbn [default from_option id] in Hb. split; intros Hki.
    - destruct (decide (S k = i)) as [<-|]; [|pose proof (sorted_lookup_lt _ (S k) i x y Hs Hx' Hy); lia].
      rewrite Hx' in Hy. injection Hy as ->. lia.
    - destruct (decide (k = i)) as [->|]; [rewrite Hx' in Hz; injection Hz as ->; lia|].
      pose proof (sorted_lookup_lt _ (S i) (S k) z x Hs Hz Hx'). lia. }
  assert (Forall (fun x => x <= block) (take i fs)) as Ht.
  { apply Forall_forall. intros x Hx. apply elem_of_take in Hx as (k & Hx & ?). by apply (Hk k x). }
  assert (Forall (fun x => block < x) (drop i fs)) as Hd.
  { apply Forall_lookup. intros k x Hx. rewrite lookup_drop in Hx. apply (Hk _ x Hx). lia. }
  split; rewrite <-(take_drop i fs) at 1; rewrite filter_app.
  - rewrite filter_all, filter_none; [by rewrite app_nil_r| |done].
    eapply Forall_impl; [exact Hd|]. simpl. lia.
  - rewrite filter_none, filter_all; [done..|].
    eapply Forall_impl; [exact Ht|]. simpl. lia.
Qed.

Lemma in_fork_next g fs i block : in_fork (forkid_table g fs) i block ->
  idx (forkid_table g fs) (S i) =
    Ok (mkChecksum (number_at (forkid_table g fs) (S i)) (fork_hash g (take (S i) (fs ++ [MaxUint64])))).
Proof.
  intros [Hl _]. apply idx_Ok. rewrite number_at_table, forkid_table_lookup.
  destruct (lookup_lt_is_Some_2 (0 :: fs ++ [MaxUint64]) (S i)) as [x ->]; [|done].
  rewrite forkid_table_length in Hl. simpl. rewrite length_app. simpl. lia.
Qed.

(** The identifier of the fork with index [i]. *)
Definition fork_id (f : list checksum) (i : nat) : ID :=
  mkID (default [] (Checksum <$> f !! i)) (number_at f (S i)).

Lemma in_fork_checksum g fs i block : in_fork (forkid_table g fs) i block ->
  fork_id (forkid_table g fs) i =
    mkID (fork_hash g (take i (fs ++ [MaxUint64]))) (number_at (forkid_table g fs) (S i)).
Proof.
  intros Hi. pose proof (in_fork_lookup _ _ _ _ Hi) as E. apply idx_Ok in E. unfold fork_id. by rewrite E.
Qed.

Lemma At_fork g fs block : StronglySorted Z.lt (0 :: fs ++ [MaxUint64]) -> 0 <= block < MaxUint64 ->
  exists i, in_fork (forkid_table g fs) i block /\
    findForkAt (forkid_table g fs) block = Ok (Z.of_nat i) /\
    At (forkid_table g fs) block = Ok (fork_id (forkid_table g fs) i).
Proof.
  intros Hs Hb. destruct (findForkAt_spec g fs block Hs Hb) as (i & E & Hi). exists i.
  split_and!; [done..|]. unfold At. rewrite E. cbn [mbind outcome_bind].
  replace (Z.of_nat i + 1) with (Z.of_nat (S i)) by lia. rewrite !idxZ_nat.
  rewrite (in_fork_lookup _ _ _ _ Hi), (in_fork_next _ _ _ _ Hi). cbn [mbind outcome_bind].
  by rewrite (in_fork_checksum _ _ _ _ Hi).
Qed.

(** ** Lemmas: validation *)

Lemma lower_loop_found k i f rid rn m c n : (i <= m < i + k)%nat ->
  f !! m = Some c -> Checksum c = rid -> f !! S m = Some n ->
  (forall a c', (i <= a < m)%nat -> f !! a = Some c' -> Checksum c' ≠ rid) ->
  lower_loop k i f rid rn = Ok (Some (if rn =? Number n then None else Some ErrRemoteStale)).
Proof.
  intros Hm Hc Hrid Hn Hne. revert i Hm Hne. induction k as [|k IH]; intros i Hm Hne; [lia|]. simpl.
  destruct (idx_lt f i) as (c' & -> & Hc'); [apply lookup_lt_Some in Hc; lia|]. cbn [mbind outcome_bind].
  destruct (decide (i = m)) as [->|Hi].
  - rewrite Hc in Hc'. injection Hc' as <-. unfold bytes_equal. rewrite bool_decide_true by done.
    by rewrite (proj2 (idx_Ok _ _ n) Hn).
  - unfold bytes_equal. rewrite bool_decide_false by (apply (Hne i); [lia|done]).
    apply IH; [lia|]. intros a c1 Ha. apply Hne. lia.
Qed.

Lemma lower_loop_none k i f rid rn : (i + k <= length f)%nat ->
  (forall a c, (i <= a < i + k)%nat -> f !! a = Some c -> Checksum c ≠ rid) ->
  lower_loop k i f rid rn = Ok None.
Proof.
  revert i. induction k as [|k IH]; intros i Hl Hne; [done|]. simpl.
  destruct (idx_lt f i) as (c' & -> & Hc'); [lia|]. cbn [mbind outcome_bind].
  unfold bytes_equal. rewrite bool_decide_false by (apply (Hne i); [lia|done]).
  apply IH; [lia|]. intros a c Ha. apply Hne. lia.
Qed.

Lemma upper_loop_spec f rid : upper_loop f rid = true <-> rid ∈ Checksum <$> f.
Proof.
  induction f as [|c f IH]; simpl; [set_solver|]. unfold bytes_equal. case_bool_decide; set_solver.
Qed.

Lemma checksum_inj (f : list checksum) a b ca cb : NoDup (Checksum <$> f) ->
  f !! a = Some ca -> f !! b = Some cb -> Checksum ca = Checksum cb -> a = b.
Proof.
  intros Hnd Ha Hb E. apply (NoDup_lookup _ a b (Checksum ca) Hnd); rewrite list_lookup_fmap.
  - by rewrite Ha.
  - rewrite Hb. simpl. by rewrite E.
Qed.

(** The outcome of [Validate] when the remote hash is the checksum of fork [m]: same fork, older
    fork, newer fork. *)
Lemma Validate_at g fs head i m c rn : StronglySorted Z.lt (0 :: fs ++ [MaxUint64]) ->
  NoDup (Checksum <$> forkid_table g fs) -> 0 <= head < MaxUint64 ->
  in_fork (forkid_table g fs) i head -> findForkAt (forkid_table g fs) head = Ok (Z.of_nat i) ->
  forkid_table g fs !! m = Some c ->
  Validate (forkid_table g fs) head (Checksum c) rn =
    Ok (if decide (m = i) then
          if (0 <? rn) && (rn <=? head) then Some ErrLocalIncompatibleOrStale else None
        else if decide (m < i)%nat then
          if rn =? number_at (forkid_table g fs) (S m) then None else Some ErrRemoteStale
        else None).
Proof.
  intros Hs Hnd Hh Hi Ef Hm. set (f := forkid_table g fs) in *. unfold Validate. rewrite Ef.
  cbn [mbind outcome_bind]. rewrite idxZ_nat, Nat2Z.id.
  destruct Hi as [Hl Hi]. destruct (idx_lt f i) as (ci & -> & Hci); [lia|]. cbn [mbind outcome_bind].
  unfold bytes_equal at 1. case_decide as Hmi.
  - subst m. rewrite Hci in Hm. injection Hm as <-. rewrite bool_decide_true by done. by case_if.
  - rewrite bool_decide_false by (intros E; apply Hmi; symmetry; by eapply checksum_inj).
    case_decide as Hlt.
    + destruct (lookup_lt_is_Some_2 f (S m)) as [n Hn]; [lia|].
      rewrite (lower_loop_found _ _ _ _ _ m c n); [| |done..|].
      * cbn [mbind outcome_bind]. unfold number_at. by rewrite Hn.
      * lia.
      * intros a c' Ha Hc' E. assert (a = m) by (by eapply checksum_inj). lia.
    + rewrite lower_loop_none; [| |].
      * cbn [mbind outcome_bind]. rewrite (proj2 (upper_loop_spec _ _)); [done|].
        apply list_elem_of_fmap_2. apply (list_elem_of_lookup_2 _ (m - i)). rewrite lookup_drop.
        by replace (i + (m - i))%nat with m by lia.
      * lia.
      * intros a c' Ha Hc' E. assert (a = m) by (by eapply checksum_inj). lia.
Qed.

Lemma Validate_unknown g fs head i rid rn : in_fork (forkid_table g fs) i head ->
  findForkAt (forkid_table g fs) head = Ok (Z.of_nat i) -> rid ∉ Checksum <$> forkid_table g fs ->
  Validate (forkid_table g fs) head rid rn = Ok (Some ErrLocalIncompatibleOrStale).
Proof.
  intros [Hl Hi] Ef Hn. set (f := forkid_table g fs) in *. unfold Validate. rewrite Ef.
  cbn [mbind outcome_bind]. rewrite idxZ_nat, Nat2Z.id.
  assert (forall a c, f !! a = Some c -> Checksum c ≠ rid) as Hne.
  { intros a c Hc <-. apply Hn, list_elem_of_fmap_2. by eapply list_elem_of_lookup_2. }
  destruct (idx_lt f i) as (ci & -> & Hci); [lia|]. cbn [mbind outcome_bind].
  unfold bytes_equal at 1. rewrite bool_decide_false by (by eapply Hne).
  rewrite lower_loop_none; [|lia|intros; by eapply Hne]. cbn [mbind outcome_bind].
  destruct (upper_loop (drop i f) rid) eqn:E; [|done]. apply upper_loop_spec in E.
  exfalso. apply Hn. rewrite fmap_drop in E. by eapply elem_of_drop_incl.
Qed.

(** ** A concrete chain: the main network of the test suite *)

Definition mainnet_genesis : bytes :=
  [212; 229; 103; 64; 248; 118; 174; 248; 192; 16; 184; 106; 64; 213; 245; 103; 69; 161; 24; 208;
   144; 106; 52; 230; 154; 236; 140; 13; 177; 203; 143; 163].
Definition mainnet_forks : list Z :=
  [1150000; 1920000; 2463000; 2675000; 4370000; 7280000; 9069000; 9200000; 12244000; 12965000;
   13773000; 15050000].
Definition mainnet : list checksum :=
  match NewForkID mainnet_genesis mainnet_forks [] with Ok f => f | _ => [] end.

Lemma mainnet_new : NewForkID mainnet_genesis mainnet_forks [] = Ok mainnet.
Proof. vm_compute. reflexivity. Qed.

(** The vectors of TestForkID_Create and TestForkID_Validate. *)
Example At_vectors :
  At mainnet 0 = Ok (mkID [252; 100; 236; 4] 1150000) /\
  At mainnet 1149999 = Ok (mkID [252; 100; 236; 4] 1150000) /\
  At mainnet 1150000 = Ok (mkID [151; 194; 195; 76] 1920000) /\
  At mainnet 7987396 = Ok (mkID [102; 141; 176; 175] 9069000).
Proof. by vm_compute. Qed.

Example Validate_vectors :
  Validate mainnet 7987396 [102; 141; 176; 175] 0 = Ok None /\
  Validate mainnet 7987396 [160; 11; 195; 36] 7280000 = Ok None /\
  Validate mainnet 7279999 [102; 141; 176; 175] 0 = Ok None /\
  Validate mainnet 7987396 [160; 11; 195; 36] 0 = Ok (Some ErrRemoteStale) /\
  Validate mainnet 7987396 [92; 221; 192; 225] 0 = Ok (Some ErrLocalIncompatibleOrStale) /\
  Validate mainnet 7279999 [160; 11; 195; 36] 7279999 = Ok (Some ErrLocalIncompatibleOrStale).
Proof. by vm_compute. Qed.

(** ** Properties *)

(** [cleanForks] on a nonempty list returns the nonzero forks, each once, in ascending order,
    for any sorting algorithm and whatever lies beyond the slice in its backing array. *)
Theorem cleanForks_correct `{GoSort} forks spare : forks ≠ [] -> Forall (fun x => 0 <= x) forks ->
  exists fs, cleanForks forks spare = Ok fs /\ fork_points forks fs.
Proof. apply cleanForks_spec. Qed.

Lemma cleanForks_correct_witness :
  exists fs, cleanForks [7; 0; 3; 7] [9] = Ok fs /\ fork_points [7; 0; 3; 7] fs.
Proof. apply (cleanForks_correct [7; 0; 3; 7] [9]); [discriminate|repeat constructor; lia]. Defined.

(** On an empty fork list [cleanForks] reslices to length one: with no spare capacity
    [NewForkID] panics, with spare capacity a stale element of the backing array becomes a fork. *)
Theorem NewForkID_no_forks `{GoSort} g x spare : 0 < x ->
  NewForkID g [] [] = Panic /\ NewForkID g [] (x :: spare) = Ok (forkid_table g [x]).
Proof.
  intros Hx. assert (sort_Sort Z.ltb [] = []) as E by (apply Permutation_nil_r, sort_perm).
  split; [unfold NewForkID, cleanForks; by rewrite E|].
  apply NewForkID_of_clean. unfold cleanForks. rewrite E. simpl.
  by rewrite (proj2 (Z.eqb_neq x 0)) by lia.
Qed.

Lemma NewForkID_no_forks_witness :
  NewForkID [1] [] [] = Panic /\ NewForkID [1] [] [5] = Ok (forkid_table [1] [5]).
Proof. apply (NewForkID_no_forks [1] 5 []). lia. Defined.

(** C21: the identifier at a block below [MaxUint64] is the CRC32 of the genesis hash followed by
    the big-endian numbers of the forks passed, and the next fork.  When none is left [Next] is [MaxUint64], and
    not 0 as the comment of the type says.  The incremental checksums and the binary search compute exactly that. *)
Theorem At_correct `{GoSort} g forks spare block :
  forks ≠ [] -> Forall (fun x => 0 <= x < MaxUint64) forks -> 0 <= block < MaxUint64 ->
  exists f fs, NewForkID g forks spare = Ok f /\ fork_points forks fs /\
    At f block = Ok (mkID (fork_hash g (filter (fun x => x <= block) fs))
                          (default MaxUint64 (head (filter (fun x => block < x) fs)))).
Proof.
  intros Hne Hf Hb. destruct (NewForkID_spec g forks spare Hne) as (fs & E & Hfs).
  { eapply Forall_impl; [exact Hf|]. simpl. lia. }
  exists (forkid_table g fs), fs. split_and!; [done..|].
  pose proof (fork_points_sorted _ _ Hfs Hf) as Hs.
  destruct (At_fork g fs block Hs Hb) as (i & Hi & _ & ->).
  rewrite (in_fork_checksum _ _ _ _ Hi), number_at_table.
  destruct (in_fork_filter _ _ _ _ Hs Hi) as [-> ->]. destruct Hi as [Hl _].
  rewrite forkid_table_length in Hl. rewrite take_app_le by lia. do 2 f_equal. simpl.
  destruct (decide (i = length fs)) as [->|].
  - by rewrite list_lookup_middle, drop_all by done.
  - destruct (lookup_lt_is_Some_2 fs i) as [x Hx]; [lia|]. rewrite lookup_app_l, Hx by lia.
    by rewrite (drop_S _ _ _ Hx).
Qed.

Lemma At_correct_witness :
  exists f fs, NewForkID mainnet_genesis mainnet_forks [] = Ok f /\ fork_points mainnet_forks fs /\
    At f 7987396 = Ok (mkID (fork_hash mainnet_genesis (filter (fun x => x <= 7987396) fs))
                            (default MaxUint64 (head (filter (fun x => 7987396 < x) fs)))).
Proof.
  apply (At_correct mainnet_genesis mainnet_forks [] 7987396);
    [discriminate|repeat constructor; by vm_compute|by vm_compute].
Defined.

(** C22: two nodes with the same configuration accept each other at any two heads: the identifier
    one advertises at [h2] validates at the other's head [h1], if the checksums do not collide. *)
Theorem Validate_same_chain `{GoSort} g forks spare f h1 h2 :
  forks ≠ [] -> Forall (fun x => 0 <= x < MaxUint64) forks -> NewForkID g forks spare = Ok f ->
  NoDup (Checksum <$> f) -> 0 <= h1 < MaxUint64 -> 0 <= h2 < MaxUint64 ->
  exists id, At f h2 = Ok id /\ Validate f h1 (Hash id) (Next id) = Ok None.
Proof.
  intros Hne Hf Ef Hnd H1 H2. destruct (NewForkID_spec g forks spare Hne) as (fs & E & Hfs).
  { eapply Forall_impl; [exact Hf|]. simpl. lia. }
  rewrite E in Ef. injection Ef as <-. pose proof (fork_points_sorted _ _ Hfs Hf) as Hs.
  destruct (At_fork g fs h1 Hs H1) as (i & Hi & Efi & _).
  destruct (At_fork g fs h2 Hs H2) as (m & Hm & _ & ->).
  eexists. split; [done|]. unfold fork_id. simpl.
  destruct (lookup_lt_is_Some_2 (forkid_table g fs) m) as [c Hc]; [destruct Hm; lia|]. rewrite Hc. simpl.
  rewrite (Validate_at g fs h1 i m c) by done. case_decide as Hmi; [|case_decide; [by rewrite Z.eqb_refl|done]].
  subst m. destruct Hi as [_ [_ Hn]]. by rewrite (proj2 (Z.leb_gt _ h1)), andb_false_r by done.
Qed.

Lemma Validate_same_chain_witness :
  exists id, At mainnet 4369999 = Ok id /\ Validate mainnet 7987396 (Hash id) (Next id) = Ok None.
Proof.
  apply (Validate_same_chain mainnet_genesis mainnet_forks [] mainnet 7987396 4369999);
    [discriminate|repeat constructor; by vm_compute|exact mainnet_new
    |apply (bool_decide_unpack _); vm_compute; exact I|by vm_compute|by vm_compute].
Defined.

(** [Validate] rejects: a hash of no known fork is incompatible; a remote on an older fork that
    does not announce the fork that followed it is stale; a remote on the same fork that announces
    a fork the local head has already passed is incompatible. *)
Theorem Validate_rejects `{GoSort} g forks spare f head :
  forks ≠ [] -> Forall (fun x => 0 <= x < MaxUint64) forks -> NewForkID g forks spare = Ok f ->
  NoDup (Checksum <$> f) -> 0 <= head < MaxUint64 ->
  (forall rid rn, rid ∉ Checksum <$> f -> Validate f head rid rn = Ok (Some ErrLocalIncompatibleOrStale)) /\
  (exists i, in_fork f i head /\
    (forall m c rn, (m < i)%nat -> f !! m = Some c -> rn ≠ number_at f (S m) ->
       Validate f head (Checksum c) rn = Ok (Some ErrRemoteStale)) /\
    (forall c rn, f !! i = Some c -> 0 < rn <= head ->
       Validate f head (Checksum c) rn = Ok (Some ErrLocalIncompatibleOrStale))).
Proof.
  intros Hne Hf Ef Hnd Hh. destruct (NewForkID_spec g forks spare Hne) as (fs & E & Hfs).
  { eapply Forall_impl; [exact Hf|]. simpl. lia. }
  rewrite E in Ef. injection Ef as <-. pose proof (fork_points_sorted _ _ Hfs Hf) as Hs.
  destruct (At_fork g fs head Hs Hh) as (i & Hi & Efi & _). split.
  - intros rid rn Hr. by apply (Validate_unknown g fs head i).
  - exists i. split_and!; [done| |].
    + intros m c rn Hlt Hc Hn. rewrite (Validate_at g fs head i m c) by done.
      rewrite decide_False, decide_True by lia. by rewrite (proj2 (Z.eqb_neq _ _)).
    + intros c rn Hc Hr. rewrite (Validate_at g fs head i i c) by done.
      rewrite decide_True by done. by rewrite (proj2 (Z.ltb_lt 0 rn)), (proj2 (Z.leb_le rn head)) by lia.
Qed.

Lemma Validate_rejects_witness :
  Validate mainnet 7987396 [1; 2; 3; 4] 0 = Ok (Some ErrLocalIncompatibleOrStale).
Proof.
  apply (proj1 (Validate_rejects mainnet_genesis mainnet_forks [] mainnet 7987396
    ltac:(discriminate) ltac:(repeat constructor; by vm_compute) mainnet_new
    ltac:(apply (bool_decide_unpack _); vm_compute; exact I) ltac:(by vm_compute)) [1; 2; 3; 4] 0).
  apply (bool_decide_unpack _). vm_compute. exact I.
Defined.

(** [ID.Equal] compares the wrong way round: identifiers with different next forks are always
    reported equal, whatever their hashes; only with the same next fork does the hash count. *)
Theorem ID_Equal_inverted a b :
  ID_Equal a b = true <-> Next a ≠ Next b \/ Hash a = Hash b.
Proof.
  unfold ID_Equal, bytes_equal. rewrite orb_true_iff, negb_true_iff, Z.eqb_neq, bool_decide_eq_true. done.
Qed.

(** [At] panics at block [MaxUint64]: the table has no entry after the sentinel. *)
Theorem At_max_block `{GoSort} g forks spare f :
  forks ≠ [] -> Forall (fun x => 0 <= x < MaxUint64) forks -> NewForkID g forks spare = Ok f ->
  At f MaxUint64 = Panic.
Proof.
  intros Hne Hf Ef. destruct (NewForkID_spec g forks spare Hne) as (fs & E & Hfs).
  { eapply Forall_impl; [exact Hf|]. simpl. lia. }
  rewrite E in Ef. injection Ef as <-. pose proof (fork_points_sorted _ _ Hfs Hf) as Hs.
  set (nums := 0 :: fs ++ [MaxUint64]) in *.
  assert (forall a, number_at (forkid_table g fs) a <= MaxUint64) as Hle.
  { intros a. rewrite number_at_table. fold nums. destruct (nums !! a) as [x|] eqn:Hx; [|done]. simpl.
    assert (nums !! S (length fs) = Some MaxUint64) as Hlast by (simpl; by apply list_lookup_middle).
    pose proof (lookup_lt_Some _ _ _ Hx) as Hlt. unfold nums in Hlt. simpl in Hlt.
    rewrite length_app in Hlt. simpl in Hlt.
    destruct (decide (a = S (length fs))) as [->|]; [rewrite Hlast in Hx; injection Hx as <-; done|].
    pose proof (sorted_lookup_lt _ a (S (length fs)) x _ Hs Hx Hlast). lia. }
  unfold At, findForkAt.
  destruct (sort_Search_correct (fun i => MaxUint64 <? number_at (forkid_table g fs) i) (length (forkid_table g fs)))
    as (r & -> & Hr & Hlo & Hhi).
  { intros a b _ Ha. specialize (Hle a). blia. }
  assert (r = length (forkid_table g fs)) as ->.
  { destruct (decide (r = length (forkid_table g fs))); [done|].
    specialize (Hhi r ltac:(lia)). specialize (Hle r). blia. }
  cbn [mbind outcome_bind]. rewrite forkid_table_length.
  replace (Z.of_nat (length fs + 2) - 1) with (Z.of_nat (S (length fs))) by lia.
  replace (Z.of_nat (S (length fs)) + 1) with (Z.of_nat (S (S (length fs)))) by lia. rewrite !idxZ_nat.
  destruct (idx_lt (forkid_table g fs) (S (length fs))) as (c & -> & _); [rewrite forkid_table_length; lia|].
  cbn [mbind outcome_bind]. rewrite (proj2 (idx_Panic _ _)); [done|]. rewrite forkid_table_length. lia.
Qed.

Lemma At_max_block_witness : At mainnet MaxUint64 = Panic.
Proof.
  apply (At_max_block mainnet_genesis mainnet_forks [] mainnet);
    [discriminate|repeat constructor; by vm_compute|exact mainnet_new].
Defined.
