(* ===== verification/PeriodicHeap.v ===== *)
(** * The periodic heap

    The lower half of [periodic.go]: [periodicHeapImp] (the [heap.Interface] of the dispatcher),
    [periodicHeap] (heap plus index by id) and the algorithms of [container/heap] they run on.
    Jobs are heap-allocated and shared: the slice and the index map hold pointers to the same
    [periodicpJob], whose [index] field [Swap] keeps up to date.  The store of these objects is
    explicit; a pointer is a location. *)

From stdpp Require Import base list gmap strings numbers sorting.
From S2P Require Import Prelude GoStd.

(** A [Job] is known by its [ID()]. *)
Record pJob := mkPJob { job : string; period : Z }.

(** [time.Time] in nanoseconds since the zero time. *)
Definition IsZero (t : Z) : bool := (t =? 0)%Z.

Abbreviation loc := nat.

Record periodicpJob := mkPP { pp_id : string; pp_value : pJob; pp_next : Z; pp_index : Z }.

#[global] Instance pJob_eq_dec : EqDecision pJob.
Proof. solve_decision. Defined.
#[global] Instance periodicpJob_eq_dec : EqDecision periodicpJob.
Proof. solve_decision. Defined.

(** The slice of pointers and the store they point into. *)
Record hst := mkHst { hp : list loc; ob : gmap loc periodicpJob }.

Definition deref (st : hst) (l : loc) : outcome periodicpJob :=
  match ob st !! l with Some o => Ok o | None => Panic end.

Definition set_index (o : periodicpJob) (i : Z) : periodicpJob := mkPP (pp_id o) (pp_value o) (pp_next o) i.
Definition set_next (o : periodicpJob) (id : string) (next : Z) : periodicpJob := mkPP id (pp_value o) next (pp_index o).

(** ** periodicHeapImp *)

Definition h_Len (st : hst) : nat := length (hp st).

Definition less_time (a b : Z) : bool :=
  if IsZero a && IsZero b then false
  else if IsZero a then false
  else if IsZero b then true
  else (a <? b)%Z.

Definition h_Less (st : hst) (i j : nat) : outcome bool :=
  a ← idx (hp st) i; b ← idx (hp st) j;
  oa ← deref st a; ob' ← deref st b;
  Ok (less_time (pp_next oa) (pp_next ob')).

(** [h[i], h[j] = h[j], h[i]; h[i].index = i; h[j].index = j] *)
Definition h_Swap (st : hst) (i j : nat) : outcome hst :=
  a ← idx (hp st) i; b ← idx (hp st) j;
  oi ← deref st b;
  let ob1 := <[b := set_index oi (Z.of_nat i)]> (ob st) in
  match ob1 !! a with
  | None => Panic
  | Some oj => Ok (mkHst (<[j := a]> (<[i := b]> (hp st))) (<[a := set_index oj (Z.of_nat j)]> ob1))
  end.

Definition h_Push (st : hst) (x : loc) : outcome hst :=
  o ← deref st x;
  Ok (mkHst (hp st ++ [x]) (<[x := set_index o (Z.of_nat (length (hp st)))]> (ob st))).

Definition h_Pop (st : hst) : outcome (hst * loc) :=
  match last (hp st) with
  | None => Panic
  | Some x => o ← deref st x; Ok (mkHst (removelast (hp st)) (<[x := set_index o (-1)]> (ob st)), x)
  end.

(** ** container/heap *)

Fixpoint up (fuel : nat) (st : hst) (j : nat) : outcome hst :=
  match fuel with
  | O => NoFuel
  | S k =>
      let i := Nat.div2 (j - 1) in
      if (i =? j)%nat then Ok st else
      b ← h_Less st j i;
      if negb b then Ok st else st' ← h_Swap st i j; up k st' i
  end.

(** Returns the final position as well: the caller tests [i > i0]. *)
Fixpoint down (fuel : nat) (st : hst) (i n : nat) : outcome (hst * nat) :=
  match fuel with
  | O => NoFuel
  | S k =>
      let j1 := (2 * i + 1)%nat in
      if (n <=? j1)%nat then Ok (st, i) else
      j ← (if (S j1 <? n)%nat then b ← h_Less st (S j1) j1; Ok (if b : bool then S j1 else j1) else Ok j1);
      b ← h_Less st j i;
      if negb b then Ok (st, i) else st' ← h_Swap st i j; down k st' j n
  end.

Definition heap_up (st : hst) (j : nat) : outcome hst := up (S j) st j.
Definition heap_down (st : hst) (i0 n : nat) : outcome (hst * bool) :=
  '(st', i) ← down (S n) st i0 n; Ok (st', (i0 <? i)%nat).

Definition heap_Push (st : hst) (x : loc) : outcome hst :=
  st ← h_Push st x; heap_up st (h_Len st - 1).

Definition heap_Fix (st : hst) (i : nat) : outcome hst :=
  '(st, moved) ← heap_down st i (h_Len st);
  if moved : bool then Ok st else heap_up st i.

Definition heap_Pop (st : hst) : outcome (hst * loc) :=
  let n := (h_Len st - 1)%nat in
  st ← h_Swap st 0 n;
  '(st, _) ← heap_down st 0 n;
  h_Pop st.

Definition heap_Remove (st : hst) (i : nat) : outcome (hst * loc) :=
  let n := (h_Len st - 1)%nat in
  st ← (if (n =? i)%nat then Ok st
        else st ← h_Swap st i n;
             '(st, moved) ← heap_down st i n;
             if moved : bool then Ok st else heap_up st i);
  h_Pop st.

(** [heap.Fix(&p.heap, ppJob.index)] with an [int] index: a negative one panics. *)
Definition at_index {A} (i : Z) (f : nat -> outcome A) : outcome A :=
  if (i <? 0)%Z then Panic else f (Z.to_nat i).

(** ** periodicHeap *)

Record periodicHeap := mkPH { hst_of : hst; index : gmap string loc; fresh : loc }.

Definition newPeriodicHeap : periodicHeap := mkPH (mkHst [] ∅) ∅ 0%nat.

Definition ph_Push (p : periodicHeap) (pj : pJob) (next : Z) : outcome (periodicHeap * option string) :=
  match index p !! job pj with
  | Some _ => Ok (p, Some ("job (" ++ job pj ++ ") already exists")%string)
  | None =>
      let x := fresh p in
      let st := mkHst (hp (hst_of p)) (<[x := mkPP (job pj) pj next 0]> (ob (hst_of p))) in
      st ← heap_Push st x;
      Ok (mkPH st (<[job pj := x]> (index p)) (S x), None)
  end.

Definition ph_Pop (p : periodicHeap) : outcome (periodicHeap * option loc) :=
  if (length (hp (hst_of p)) =? 0)%nat then Ok (p, None) else
  '(st, x) ← heap_Pop (hst_of p);
  o ← deref st x;
  Ok (mkPH st (delete (pp_id o) (index p)) (fresh p), Some x).

Definition ph_Peek (p : periodicHeap) : option loc := head (hp (hst_of p)).

Definition ph_Contains (p : periodicHeap) (id : string) : bool := bool_decide (is_Some (index p !! id)).

Definition not_contained (id : string) : string := "heap doesn't contain pJob (" ++ id ++ ")".

Definition ph_Update (p : periodicHeap) (id : string) (next : Z) : outcome (periodicHeap * option string) :=
  match index p !! id with
  | Some x =>
      o ← deref (hst_of p) x;
      let st := mkHst (hp (hst_of p)) (<[x := set_next o id next]> (ob (hst_of p))) in
      st ← at_index (pp_index o) (heap_Fix st);
      Ok (mkPH st (index p) (fresh p), None)
  | None => Ok (p, Some (not_contained id))
  end.

Definition ph_Remove (p : periodicHeap) (id : string) : outcome (periodicHeap * option string) :=
  match index p !! id with
  | Some x =>
      o ← deref (hst_of p) x;
      '(st, _) ← at_index (pp_index o) (heap_Remove (hst_of p));
      Ok (mkPH st (delete id (index p)) (fresh p), None)
  | None => Ok (p, Some (not_contained id))
  end.

Definition ph_Length (p : periodicHeap) : nat := length (hp (hst_of p)).

(** ** The heap order *)

Definition parent (c : nat) : nat := Nat.div2 (c - 1).

Lemma parent_spec c : (1 <= c)%nat -> c = (2 * parent c + 1)%nat \/ c = (2 * parent c + 2)%nat.
Proof. unfold parent. rewrite Nat.div2_div. pose proof (Nat.div_mod_eq (c - 1) 2). pose proof (Nat.mod_upper_bound (c - 1) 2). lia. Qed.

Lemma parent_0 : parent 0 = 0%nat.
Proof. done. Qed.

Definition swapped (l : list loc) (i j : nat) : list loc := <[j := l !!! i]> (<[i := l !!! j]> l).

Lemma length_swapped l i j : length (swapped l i j) = length l.
Proof. unfold swapped. by rewrite !length_insert. Qed.

Lemma lookup_swapped l i j k : (i < length l)%nat -> (j < length l)%nat ->
  swapped l i j !!! k = if decide (k = j) then l !!! i else if decide (k = i) then l !!! j else l !!! k.
Proof.
  intros Hi Hj. unfold swapped. repeat case_decide; subst.
  - rewrite list_lookup_total_insert_eq; [done|]. by rewrite length_insert.
  - rewrite list_lookup_total_insert_ne by done. by rewrite list_lookup_total_insert_eq.
  - rewrite !list_lookup_total_insert_ne by done. done.
Qed.

Lemma swapped_perm l i j : (i < length l)%nat -> (j < length l)%nat -> swapped l i j ≡ₚ l.
Proof.
  intros Hi Hj. destruct (lookup_lt_is_Some_2 l i Hi) as [a Ha]. destruct (lookup_lt_is_Some_2 l j Hj) as [b Hb].
  unfold swapped. rewrite (list_lookup_total_correct _ _ _ Ha), (list_lookup_total_correct _ _ _ Hb).
  destruct (decide (i = j)) as [->|Hne].
  - rewrite Ha in Hb. injection Hb as ->. by rewrite list_insert_insert_eq, list_insert_id.
  - symmetry. apply Permutation_inj. split; [by rewrite !length_insert|].
    exists (fun k => if decide (k = i) then j else if decide (k = j) then i else k). split.
    + intros x y. repeat case_decide; lia.
    + intros k. repeat case_decide; subst.
      * rewrite list_lookup_insert_eq; [done|by rewrite length_insert].
      * rewrite list_lookup_insert_ne, list_lookup_insert_eq; done.
      * by rewrite !list_lookup_insert_ne.
Qed.

Section Order.
Context (lt : loc -> loc -> bool) (W : strict_weak lt).

Definition le (a b : loc) : Prop := lt b a = false.

Lemma le_trans a b c : le a b -> le b c -> le a c.
Proof. unfold le. intros. eapply sw_negtrans; eauto. Qed.

Lemma lt_le a b : lt a b = true -> le a b.
Proof.
  unfold le. intros H. destruct (lt b a) eqn:E; [|done].
  pose proof (sw_trans _ W _ _ _ H E) as F. by rewrite (sw_irrefl _ W) in F.
Qed.

Definition edge (l : list loc) (c : nat) : Prop := le (l !!! parent c) (l !!! c).

(** Every node is no later than its children, among the first [n] positions. *)
Definition heap (l : list loc) (n : nat) : Prop := forall c, (1 <= c < n)%nat -> edge l c.

(** [up] may run: only the edge into [j] can be violated. *)
Definition up_pre (l : list loc) (n j : nat) : Prop :=
  (forall c, (1 <= c < n)%nat -> c ≠ j -> edge l c) /\
  (forall c, (1 <= c < n)%nat -> (1 <= j)%nat -> parent c = j -> le (l !!! parent j) (l !!! c)).

(** [down] may run: only edges out of [i] can be violated. *)
Definition down_pre (l : list loc) (n i : nat) : Prop :=
  (forall c, (1 <= c < n)%nat -> parent c ≠ i -> edge l c) /\
  (forall c, (1 <= c < n)%nat -> (1 <= i)%nat -> parent c = i -> le (l !!! parent i) (l !!! c)).

(** Position [i] was overwritten: edges at [i] in both directions can be violated. *)
Definition fix_pre (l : list loc) (n i : nat) : Prop :=
  (forall c, (1 <= c < n)%nat -> parent c ≠ i -> c ≠ i -> edge l c) /\
  (forall c, (1 <= c < n)%nat -> (1 <= i)%nat -> parent c = i -> le (l !!! parent i) (l !!! c)).

Lemma up_step l n j : (n <= length l)%nat -> (j < n)%nat -> (1 <= j)%nat -> up_pre l n j ->
  lt (l !!! j) (l !!! parent j) = true -> up_pre (swapped l (parent j) j) n (parent j).
Proof.
  intros Hn Hj Hj1 [Ha Hb] Hlt. pose proof (parent_spec j Hj1) as Hp.
  assert (le (l !!! j) (l !!! parent j)) as Hle by (by apply lt_le).
  split.
  - intros c Hc Hne. unfold edge. rewrite !lookup_swapped by lia. pose proof (parent_spec c ltac:(lia)).
    rewrite (decide_False (P := c = parent j)) by done.
    destruct (decide (c = j)) as [->|Hcj].
    + rewrite (decide_False (P := parent j = j)) by lia. rewrite decide_True by done. done.
    + destruct (decide (parent c = j)) as [Hpc|Hpc]; [apply Hb; [lia..|done]|].
      destruct (decide (parent c = parent j)) as [Hpp|Hpp]; [|by apply Ha].
      eapply le_trans; [exact Hle|]. rewrite <-Hpp. by apply Ha.
  - intros c Hc Hpj Hpc. rewrite !lookup_swapped by lia. pose proof (parent_spec (parent j) Hpj).
    rewrite (decide_False (P := parent (parent j) = j)), (decide_False (P := parent (parent j) = parent j)) by lia.
    assert (edge l (parent j)) as Hpe by (apply Ha; lia).
    destruct (decide (c = j)) as [->|Hcj]; [exact Hpe|].
    pose proof (parent_spec c ltac:(lia)). rewrite (decide_False (P := c = parent j)) by lia.
    eapply le_trans; [exact Hpe|]. rewrite <-Hpc. by apply Ha.
Qed.

Lemma up_stop l n j : up_pre l n j -> (j = 0%nat \/ lt (l !!! j) (l !!! parent j) = false) -> heap l n.
Proof.
  intros [Ha Hb] Hs c Hc. destruct (decide (c = j)) as [->|]; [|by apply Ha].
  destruct Hs as [->|Hs]; [lia|]. exact Hs.
Qed.

(** The smaller child, and one step of [down] towards it. *)
Lemma down_step l n i j : (n <= length l)%nat -> (j < n)%nat -> (1 <= j)%nat -> parent j = i ->
  fix_pre l n i -> lt (l !!! j) (l !!! i) = true ->
  (forall c, (1 <= c < n)%nat -> parent c = i -> le (l !!! j) (l !!! c)) ->
  down_pre (swapped l i j) n j.
Proof.
  intros Hn Hj Hj1 Hpj [Ha Hb] Hlt Hmin. pose proof (parent_spec j Hj1) as Hp. rewrite Hpj in Hp.
  assert (le (l !!! j) (l !!! i)) as Hle by (by apply lt_le).
  split.
  - intros c Hc Hne. unfold edge. rewrite !lookup_swapped by lia. pose proof (parent_spec c ltac:(lia)).
    rewrite (decide_False (P := parent c = j)) by done.
    destruct (decide (c = j)) as [->|Hcj]; [by rewrite decide_True by done|].
    destruct (decide (parent c = i)) as [Hpc|Hpc].
    + rewrite (decide_False (P := c = i)) by lia. by apply Hmin.
    + destruct (decide (c = i)) as [->|Hci]; [|by apply Ha]. apply Hb; [lia|lia|done].
  - intros c Hc _ Hpc. rewrite !lookup_swapped by lia. pose proof (parent_spec c ltac:(lia)).
    rewrite Hpj, (decide_False (P := i = j)) by lia. rewrite decide_True by done.
    rewrite (decide_False (P := c = j)), (decide_False (P := c = i)) by lia.
    rewrite <-Hpc. apply Ha; lia.
Qed.

Lemma down_pre_fix l n i : down_pre l n i -> fix_pre l n i.
Proof. intros [Ha Hb]. split; [intros c Hc Hp _; by apply Ha|done]. Qed.

Lemma down_stop l n i : down_pre l n i ->
  (forall c, (1 <= c < n)%nat -> parent c = i -> le (l !!! i) (l !!! c)) -> heap l n.
Proof.
  intros [Ha Hb] Hs c Hc. destruct (decide (parent c = i)) as [Hp|]; [|by apply Ha].
  unfold edge. rewrite Hp. by apply Hs.
Qed.

Lemma heap_min l n i : heap l n -> (i < n)%nat -> le (l !!! 0%nat) (l !!! i).
Proof.
  intros Hh. induction i as [i IH] using lt_wf_ind. intros Hi.
  destruct (decide (i = 0%nat)) as [->|Hne]; [unfold le; apply (sw_irrefl _ W)|].
  pose proof (parent_spec i ltac:(lia)). eapply le_trans; [apply (IH (parent i)); lia|].
  apply Hh. lia.
Qed.

End Order.

(** ** The algorithms on the store *)

(** Distinct pointers, each to an object whose [index] field is its position. *)
Definition synced (st : hst) : Prop :=
  NoDup (hp st) /\ forall i l, hp st !! i = Some l -> exists o, ob st !! l = Some o /\ pp_index o = Z.of_nat i.

Definition core (o : periodicpJob) : string * pJob * Z := (pp_id o, pp_value o, pp_next o).

(** Two stores that differ in [index] fields only. *)
Definition same_core (st st' : hst) : Prop := forall l, core <$> ob st' !! l = core <$> ob st !! l.

Definition next_of (st : hst) (l : loc) : Z := default 0%Z (pp_next <$> ob st !! l).
Definition lt_of (st : hst) (a b : loc) : bool := less_time (next_of st a) (next_of st b).

Lemma less_time_strict_weak {A} (f : A -> Z) : strict_weak (fun a b => less_time (f a) (f b)).
Proof. unfold less_time, IsZero. split; intros; repeat case_if; simpl in *; try done; blia. Qed.

Lemma lt_of_strict_weak st : strict_weak (lt_of st).
Proof. apply less_time_strict_weak. Qed.

Lemma same_core_next st st' l : same_core st st' -> next_of st' l = next_of st l.
Proof.
  intros H. specialize (H l). unfold next_of.
  destruct (ob st' !! l), (ob st !! l); simpl in *; try done. unfold core in H. congruence.
Qed.

Lemma same_core_lt st st' : same_core st st' -> forall a b, lt_of st' a b = lt_of st a b.
Proof. intros H a b. unfold lt_of. by rewrite !(same_core_next st st'). Qed.

Lemma same_core_refl st : same_core st st.
Proof. done. Qed.

Lemma same_core_trans a b c : same_core a b -> same_core b c -> same_core a c.
Proof. intros H1 H2 l. by rewrite H2, H1. Qed.

Lemma synced_lookup st i : synced st -> (i < length (hp st))%nat ->
  exists o, hp st !! i = Some (hp st !!! i) /\ ob st !! (hp st !!! i) = Some o /\ pp_index o = Z.of_nat i.
Proof.
  intros [_ H] Hi. destruct (lookup_lt_is_Some_2 _ _ Hi) as [l Hl].
  destruct (H i l Hl) as (o & Ho & Hidx). exists o. by rewrite (list_lookup_total_correct _ _ _ Hl).
Qed.

Lemma h_Less_eval st i j : synced st -> (i < length (hp st))%nat -> (j < length (hp st))%nat ->
  h_Less st i j = Ok (lt_of st (hp st !!! i) (hp st !!! j)).
Proof.
  intros S Hi Hj. destruct (synced_lookup st i S Hi) as (oi & Ei & Oi & _).
  destruct (synced_lookup st j S Hj) as (oj & Ej & Oj & _).
  unfold h_Less, deref. rewrite (proj2 (idx_Ok _ _ _) Ei), (proj2 (idx_Ok _ _ _) Ej). cbn [mbind outcome_bind].
  unfold lt_of, next_of. by rewrite Oi, Oj.
Qed.

Lemma h_Swap_eval st i j : synced st -> (i < length (hp st))%nat -> (j < length (hp st))%nat ->
  exists st', h_Swap st i j = Ok st' /\ hp st' = swapped (hp st) i j /\ synced st' /\ same_core st st'.
Proof.
  intros S Hi Hj. destruct (synced_lookup st i S Hi) as (oi & Ei & Oi & Xi).
  destruct (synced_lookup st j S Hj) as (oj & Ej & Oj & Xj).
  destruct S as [Hnd S].
  set (a := hp st !!! i) in *. set (b := hp st !!! j) in *.
  unfold h_Swap, deref. rewrite (proj2 (idx_Ok _ _ _) Ei), (proj2 (idx_Ok _ _ _) Ej). cbn [mbind outcome_bind].
  rewrite Oj. cbn [mbind outcome_bind].
  assert (exists o, <[b := set_index oj (Z.of_nat i)]> (ob st) !! a = Some o /\ core o = core oi) as (o & -> & Hcore).
  { destruct (decide (a = b)) as [Eab|].
    - rewrite <-Eab, lookup_insert_eq. eexists. split; [done|]. rewrite <-Eab in Oj. by simplify_eq.
    - rewrite lookup_insert_ne by done. eauto. }
  eexists. split; [done|]. simpl. split_and!; [done| |].
  - split; simpl.
    + change (NoDup (swapped (hp st) i j)). by rewrite swapped_perm by done.
    + intros k l Hk.
      assert (length (swapped (hp st) i j) = length (hp st)) as Hlen by apply length_swapped.
      assert (k < length (hp st))%nat as Hkl by (apply lookup_lt_Some in Hk; unfold a, b in Hk; fold (swapped (hp st) i j) in Hk; lia).
      assert (l = swapped (hp st) i j !!! k) as ->
        by (symmetry; by apply list_lookup_total_correct).
      rewrite lookup_swapped by done. fold a b.
      destruct (decide (k = j)) as [->|Hkj].
      * rewrite lookup_insert_eq. eauto.
      * destruct (decide (k = i)) as [->|Hki].
        -- assert (a ≠ b) by (intros E; apply Hkj; apply (NoDup_lookup (hp st) i j a Hnd); [done|by rewrite E]).
           rewrite lookup_insert_ne, lookup_insert_eq by done. eauto.
        -- destruct (lookup_lt_is_Some_2 (hp st) k) as [c Hc]; [lia|].
           rewrite (list_lookup_total_correct _ _ _ Hc).
           assert (c ≠ a) by (intros ->; apply Hki; by apply (NoDup_lookup (hp st) k i a Hnd)).
           assert (c ≠ b) by (intros ->; apply Hkj; by apply (NoDup_lookup (hp st) k j b Hnd)).
           rewrite !lookup_insert_ne by done. by apply S.
  - intros l. simpl. destruct (decide (l = a)) as [->|].
    + rewrite lookup_insert_eq, Oi. simpl. f_equal. exact Hcore.
    + rewrite lookup_insert_ne by done. destruct (decide (l = b)) as [->|].
      * by rewrite lookup_insert_eq, Oj.
      * by rewrite lookup_insert_ne.
Qed.

(** What every run of [up] and [down] preserves. *)
Record steps_to (st st' : hst) : Prop := {
  st_synced : synced st';
  st_core : same_core st st';
  st_perm : hp st' ≡ₚ hp st;
}.

Lemma steps_to_length st st' : steps_to st st' -> length (hp st') = length (hp st).
Proof. intros [_ _ Hp]. by rewrite Hp. Qed.

Lemma steps_to_trans a b c : steps_to a b -> steps_to b c -> steps_to a c.
Proof. intros [] []. split; [done|by eapply same_core_trans|by etrans]. Qed.

(** Heap-order predicates only depend on the order, which index updates do not change. *)
Lemma heap_ext lt lt' l n : (forall a b, lt' a b = lt a b) -> heap lt l n -> heap lt' l n.
Proof. intros E H c Hc. unfold edge, le. rewrite E. by apply H. Qed.

Lemma up_pre_ext lt lt' l n j : (forall a b, lt' a b = lt a b) -> up_pre lt l n j -> up_pre lt' l n j.
Proof. intros E [Ha Hb]. split; intros; unfold edge, le in *; rewrite E; auto. Qed.

Lemma down_pre_ext lt lt' l n j : (forall a b, lt' a b = lt a b) -> down_pre lt l n j -> down_pre lt' l n j.
Proof. intros E [Ha Hb]. split; intros; unfold edge, le in *; rewrite E; auto. Qed.

Lemma up_ok fuel st n j : synced st -> (n <= length (hp st))%nat -> (j < n)%nat -> (j < fuel)%nat ->
  up_pre (lt_of st) (hp st) n j ->
  exists st', up fuel st j = Ok st' /\ steps_to st st' /\ heap (lt_of st) (hp st') n /\
    (forall k, (n <= k)%nat -> hp st' !! k = hp st !! k).
Proof.
  revert st j. induction fuel as [|k IH]; intros st j S Hn Hj Hf Hpre; [lia|]. cbn [up].
  destruct (Nat.div2 (j - 1) =? j)%nat eqn:E0.
  { assert (j = 0%nat) as ->.
    { apply Nat.eqb_eq in E0. destruct j; [done|]. pose proof (parent_spec (Datatypes.S j) ltac:(lia)) as Hp.
      unfold parent in Hp. lia. }
    exists st. split_and!; [done|by split|by eapply up_stop; eauto|done]. }
  assert (1 <= j)%nat as Hj1 by (destruct j; [discriminate E0|lia]).
  pose proof (parent_spec j Hj1) as Hp. change (Nat.div2 (j - 1)) with (parent j).
  rewrite h_Less_eval by (done || lia). cbn [mbind outcome_bind].
  destruct (lt_of st (hp st !!! j) (hp st !!! parent j)) eqn:E; cbn [negb].
  - destruct (h_Swap_eval st (parent j) j S) as (st1 & -> & Hhp & S1 & C1); [lia..|]. cbn [mbind outcome_bind].
    assert (length (hp st1) = length (hp st)) as Hlen by (by rewrite Hhp, length_swapped).
    destruct (IH st1 (parent j)) as (st2 & -> & T & Hh & Hrest); [done|lia..| |].
    { apply (up_pre_ext (lt_of st)); [by apply same_core_lt|]. rewrite Hhp.
      apply up_step; [apply lt_of_strict_weak|lia|lia|done..]. }
    exists st2. split_and!; [done| | |].
    + apply (steps_to_trans st st1); [|done]. split; [done..|]. rewrite Hhp. apply swapped_perm; lia.
    + eapply heap_ext; [|exact Hh]. intros. symmetry. by apply same_core_lt.
    + intros m Hm. rewrite Hrest by done. rewrite Hhp. unfold swapped. rewrite !list_lookup_insert_ne by lia. done.
  - exists st. split_and!; [done|by split|by eapply up_stop; eauto|done].
Qed.

(** The child [down] compares with: an existing child that is no later than the other. *)
Lemma smaller_child st i n : synced st -> (n <= length (hp st))%nat -> (2 * i + 1 < n)%nat ->
  exists j, (if (S (2 * i + 1) <? n)%nat
             then b ← h_Less st (S (2 * i + 1)) (2 * i + 1); Ok (if b : bool then S (2 * i + 1) else 2 * i + 1)%nat
             else Ok (2 * i + 1)%nat) = Ok j /\ (i < j < n)%nat /\ parent j = i /\
    forall c, (1 <= c < n)%nat -> parent c = i -> le (lt_of st) (hp st !!! j) (hp st !!! c).
Proof.
  intros S Hn Hi. pose proof (lt_of_strict_weak st) as W.
  assert (forall c, (1 <= c)%nat -> parent c = i -> c = (2 * i + 1)%nat \/ c = (2 * i + 2)%nat) as Hch
    by (intros c Hc <-; by apply parent_spec).
  assert (parent (2 * i + 1) = i /\ parent (2 * i + 2) = i) as [P1 P2].
  { pose proof (parent_spec (2 * i + 1)). pose proof (parent_spec (2 * i + 2)). lia. }
  replace (Datatypes.S (2 * i + 1)) with (2 * i + 2)%nat by lia.
  assert (forall a, le (lt_of st) a a) as Hrefl by (intros; apply (sw_irrefl _ W)).
  destruct (2 * i + 2 <? n)%nat eqn:E.
  - apply Nat.ltb_lt in E. rewrite h_Less_eval by (done || lia). cbn [mbind outcome_bind].
    destruct (lt_of st (hp st !!! (2 * i + 2)%nat) (hp st !!! (2 * i + 1)%nat)) eqn:El.
    + exists (2 * i + 2)%nat. split_and!; [done|lia|lia|done|].
      intros c Hc [->| ->]%Hch; [by apply lt_le|done|lia].
    + exists (2 * i + 1)%nat. split_and!; [done|lia|lia|done|].
      intros c Hc [->| ->]%Hch; [done|exact El|lia].
  - apply Nat.ltb_ge in E. exists (2 * i + 1)%nat. split_and!; [done|lia|lia|done|].
    intros c Hc [->| ->]%Hch; [done|lia|lia].
Qed.

Lemma down_ok fuel st i n : synced st -> (n <= length (hp st))%nat -> (n - i < fuel)%nat ->
  down_pre (lt_of st) (hp st) n i ->
  exists st' i', down fuel st i n = Ok (st', i') /\ (i <= i')%nat /\ steps_to st st' /\
    heap (lt_of st) (hp st') n /\ (forall k, (n <= k)%nat -> hp st' !! k = hp st !! k).
Proof.
  revert st i. induction fuel as [|k IH]; intros st i S Hn Hf Hpre; [lia|]. cbn [down].
  pose proof (lt_of_strict_weak st) as W.
  destruct (n <=? 2 * i + 1)%nat eqn:E0.
  { exists st, i. split_and!; [done|lia|by split| |done]. eapply down_stop; [done|].
    intros c Hc Hp. pose proof (parent_spec c). blia. }
  apply Nat.leb_gt in E0. destruct (smaller_child st i n S Hn E0) as (j & -> & Hj & Hpj & Hmin).
  cbn [mbind outcome_bind]. rewrite h_Less_eval by (done || lia). cbn [mbind outcome_bind].
  destruct (lt_of st (hp st !!! j) (hp st !!! i)) eqn:E; cbn [negb].
  - destruct (h_Swap_eval st i j S) as (st1 & -> & Hhp & S1 & C1); [lia..|]. cbn [mbind outcome_bind].
    assert (length (hp st1) = length (hp st)) as Hlen by (by rewrite Hhp, length_swapped).
    destruct (IH st1 j) as (st2 & i2 & -> & Hi2 & T & Hh & Hrest); [done|lia..| |].
    { apply (down_pre_ext (lt_of st)); [by apply same_core_lt|]. rewrite Hhp.
      apply down_step; [done|lia|lia|lia|done|by apply down_pre_fix|done|done]. }
    exists st2, i2. split_and!; [done|lia| | |].
    + apply (steps_to_trans st st1); [|done]. split; [done..|]. rewrite Hhp. apply swapped_perm; lia.
    + eapply heap_ext; [|exact Hh]. intros. symmetry. by apply same_core_lt.
    + intros m Hm. rewrite Hrest by done. rewrite Hhp. unfold swapped. rewrite !list_lookup_insert_ne by lia. done.
  - exists st, i. split_and!; [done|lia|by split| |done]. eapply down_stop; [done|].
    intros c Hc Hp. eapply le_trans; [done|exact E|by apply Hmin].
Qed.

(** [down] then, if nothing moved, [up]: restores the heap after position [i] was overwritten. *)
Lemma fix_ok st i n : synced st -> (n <= length (hp st))%nat -> (i < n)%nat ->
  fix_pre (lt_of st) (hp st) n i ->
  exists st', ('(st1, moved) ← heap_down st i n; if moved : bool then Ok st1 else heap_up st1 i) = Ok st' /\
    steps_to st st' /\ heap (lt_of st) (hp st') n /\ (forall k, (n <= k)%nat -> hp st' !! k = hp st !! k).
Proof.
  intros S Hn Hi Hpre. pose proof (lt_of_strict_weak st) as W. unfold heap_down. cbn [down].
  assert (forall st1, st1 = st -> (forall c, (1 <= c < n)%nat -> parent c = i -> le (lt_of st) (hp st !!! i) (hp st !!! c)) ->
    exists st', heap_up st1 i = Ok st' /\ steps_to st st' /\ heap (lt_of st) (hp st') n /\
      (forall k, (n <= k)%nat -> hp st' !! k = hp st !! k)) as Hup.
  { intros st1 -> Hout. apply up_ok; [done..|lia|]. destruct Hpre as [Ha Hb]. split; [|done].
    intros c Hc Hne. destruct (decide (parent c = i)) as [Hp|]; [|by apply Ha].
    unfold edge. rewrite Hp. by apply Hout. }
  destruct (n <=? 2 * i + 1)%nat eqn:E0.
  { cbn [mbind outcome_bind]. rewrite Nat.ltb_irrefl. apply Hup; [done|].
    intros c Hc Hp. pose proof (parent_spec c). blia. }
  apply Nat.leb_gt in E0. destruct (smaller_child st i n S Hn E0) as (j & -> & Hj & Hpj & Hmin).
  cbn [mbind outcome_bind]. rewrite h_Less_eval by (done || lia). cbn [mbind outcome_bind].
  destruct (lt_of st (hp st !!! j) (hp st !!! i)) eqn:E; cbn [negb].
  - destruct (h_Swap_eval st i j S) as (st1 & -> & Hhp & S1 & C1); [lia..|]. cbn [mbind outcome_bind].
    assert (length (hp st1) = length (hp st)) as Hlen by (by rewrite Hhp, length_swapped).
    destruct (down_ok n st1 j n) as (st2 & i2 & -> & Hi2 & T & Hh & Hrest); [done|lia..| |].
    { apply (down_pre_ext (lt_of st)); [by apply same_core_lt|]. rewrite Hhp.
      apply down_step; [done|lia|lia|lia|done..]. }
    cbn [mbind outcome_bind]. rewrite (proj2 (Nat.ltb_lt i i2)) by lia.
    exists st2. split_and!; [done| | |].
    + apply (steps_to_trans st st1); [|done]. split; [done..|]. rewrite Hhp. apply swapped_perm; lia.
    + eapply heap_ext; [|exact Hh]. intros. symmetry. by apply same_core_lt.
    + intros m Hm. rewrite Hrest by done. rewrite Hhp. unfold swapped. rewrite !list_lookup_insert_ne by lia. done.
  - cbn [mbind outcome_bind]. rewrite Nat.ltb_irrefl. apply Hup; [done|].
    intros c Hc Hp. eapply le_trans; [done|exact E|by apply Hmin].
Qed.

(** ** [heap.Push], [heap.Fix], [heap.Remove] and [heap.Pop] *)

(** A store whose pointers are in sync and whose slice is a heap. *)
Definition heaped (st : hst) : Prop := synced st /\ heap (lt_of st) (hp st) (length (hp st)).

Lemma heaped_steps st st' : steps_to st st' -> heap (lt_of st) (hp st') (length (hp st)) -> heaped st'.
Proof.
  intros T H. pose proof (steps_to_length _ _ T). destruct T as [S C P]. split; [done|].
  rewrite H0. eapply heap_ext; [|exact H]. by apply same_core_lt.
Qed.

Lemma heap_Push_ok st x o : heaped st -> x ∉ hp st -> ob st !! x = Some o ->
  exists st', heap_Push st x = Ok st' /\ heaped st' /\ same_core st st' /\ hp st' ≡ₚ x :: hp st.
Proof.
  intros [Sy Hh] Hx Ho. unfold heap_Push, h_Push, deref. rewrite Ho. cbn [mbind outcome_bind].
  set (st1 := mkHst _ _).
  assert (same_core st st1) as C1.
  { intros l. simpl. destruct (decide (l = x)) as [->|]; [by rewrite lookup_insert_eq, Ho|by rewrite lookup_insert_ne]. }
  assert (length (hp st1) = S (length (hp st))) as Hl1 by (simpl; rewrite length_app; simpl; lia).
  assert (synced st1) as S1.
  { destruct Sy as [Hnd Sy]. split.
    - simpl. apply NoDup_app. split_and!; [done| |by apply NoDup_singleton].
      intros l Hl ->%list_elem_of_singleton. done.
    - simpl. intros i l [Hi|[Hge Hi]]%lookup_app_Some.
      + rewrite lookup_insert_ne; [by apply Sy|]. intros ->. apply Hx. by eapply list_elem_of_lookup_2.
      + destruct (i - length (hp st))%nat eqn:E; simpl in Hi; simplify_eq.
        rewrite lookup_insert_eq. eexists. split; [done|]. simpl. lia. }
  unfold heap_up, h_Len. rewrite Hl1. replace (S (length (hp st)) - 1)%nat with (length (hp st)) by lia.
  destruct (up_ok (S (length (hp st))) st1 (S (length (hp st))) (length (hp st)))
    as (st2 & E & T & H2 & _); [done|lia..| |].
  { assert (forall k, (k < length (hp st))%nat -> hp st1 !!! k = hp st !!! k) as Hlk.
    { intros k Hk. simpl. by rewrite lookup_total_app_l. }
    split.
    - intros c Hc Hne. pose proof (parent_spec c). unfold edge, le. rewrite !Hlk by lia.
      rewrite (same_core_lt st st1) by done. apply Hh. lia.
    - intros c Hc _ Hp. pose proof (parent_spec c). lia. }
  exists st2. split_and!; [exact E| | |].
  - eapply heaped_steps; [exact T|]. by rewrite Hl1.
  - eapply same_core_trans; [exact C1|apply T].
  - rewrite (st_perm _ _ T). simpl. by rewrite Permutation_app_comm.
Qed.

(** [h.Pop] after the moves: drops the last pointer. *)
Lemma h_Pop_ok st n : synced st -> length (hp st) = S n -> heap (lt_of st) (hp st) n ->
  exists st', h_Pop st = Ok (st', hp st !!! n) /\ heaped st' /\ same_core st st' /\ hp st ≡ₚ (hp st !!! n) :: hp st'.
Proof.
  intros Sy Hl Hh. destruct (synced_lookup st n Sy) as (o & E & Ho & _); [lia|].
  set (x := hp st !!! n) in *. destruct Sy as [Hnd Sy].
  assert (last (hp st) = Some x) as Elast by (rewrite last_lookup, Hl; exact E).
  assert (hp st = take n (hp st) ++ [x]) as Esplit.
  { rewrite <-(take_drop n (hp st)) at 1. f_equal. rewrite (drop_S _ x) by done. by rewrite drop_ge by lia. }
  assert (removelast (hp st) = take n (hp st)) as Erl by (rewrite Esplit at 1; apply removelast_last).
  unfold h_Pop, deref. rewrite Elast, Ho. cbn [mbind outcome_bind]. rewrite Erl.
  eexists. split_and!; [done| | |]; simpl.
  - assert (same_core st (mkHst (take n (hp st)) (<[x:=set_index o (-1)]> (ob st)))) as C.
    { intros l. simpl. destruct (decide (l = x)) as [->|]; [by rewrite lookup_insert_eq, Ho|by rewrite lookup_insert_ne]. }
    split.
    + split; simpl.
      * eapply sublist_NoDup; [exact Hnd|apply sublist_take].
      * intros i l Hi. apply lookup_take_Some in Hi as [Hi Hlt]. rewrite lookup_insert_ne; [by apply Sy|].
        intros <-. pose proof (NoDup_lookup _ _ _ _ Hnd E Hi). lia.
    + simpl. rewrite length_take. eapply heap_ext; [by apply same_core_lt|]. intros c Hc.
      pose proof (parent_spec c). unfold edge. rewrite !lookup_total_take, !decide_True by lia. apply Hh. lia.
  - intros l. simpl. destruct (decide (l = x)) as [->|]; [by rewrite lookup_insert_eq, Ho|by rewrite lookup_insert_ne].
  - rewrite Esplit at 1. by rewrite Permutation_app_comm.
Qed.

(** After the last element was moved to position [i], the rest may be out of order at [i] only. *)
Lemma swapped_fix_pre lt l i n : strict_weak lt -> length l = S n -> (i < n)%nat -> heap lt l (S n) ->
  fix_pre lt (swapped l i n) n i.
Proof.
  intros W Hl Hi Hh. split; intros c Hc.
  - intros Hp Hci. pose proof (parent_spec c). unfold edge. rewrite !lookup_swapped by lia.
    rewrite !decide_False by lia. apply Hh. lia.
  - intros Hi1 Hp. pose proof (parent_spec c). pose proof (parent_spec i). rewrite !lookup_swapped by lia.
    rewrite !decide_False by lia. eapply le_trans; [done|apply Hh; lia|]. rewrite <-Hp. apply Hh. lia.
Qed.

Lemma swapped_at_last l i n : length l = S n -> (i < n)%nat -> swapped l i n !!! n = l !!! i.
Proof. intros. rewrite lookup_swapped by lia. by rewrite decide_True. Qed.

Lemma heap_Remove_ok st i : heaped st -> (i < length (hp st))%nat ->
  exists st', heap_Remove st i = Ok (st', hp st !!! i) /\ heaped st' /\ same_core st st' /\
    hp st ≡ₚ (hp st !!! i) :: hp st'.
Proof.
  intros [Sy Hh] Hi. destruct (length (hp st)) as [|n] eqn:Hl; [lia|]. unfold heap_Remove, h_Len. rewrite Hl.
  replace (S n - 1)%nat with n by lia. destruct (Nat.eqb_spec n i) as [<-|Hne].
  - cbn [mbind outcome_bind]. apply h_Pop_ok; [done..|]. intros c Hc. apply Hh. lia.
  - destruct (h_Swap_eval st i n Sy) as (st1 & -> & Hhp & S1 & C1); [lia..|]. cbn [mbind outcome_bind].
    assert (length (hp st1) = S n) as Hl1 by (by rewrite Hhp, length_swapped).
    destruct (fix_ok st1 i n) as (st2 & -> & T & Hh2 & Hrest); [done|lia..| |].
    { rewrite Hhp. apply swapped_fix_pre; [apply lt_of_strict_weak|done|lia|].
      eapply heap_ext; [by apply same_core_lt|done]. }
    cbn [mbind outcome_bind]. pose proof (steps_to_length _ _ T) as Hl2.
    assert (hp st2 !!! n = hp st !!! i) as En.
    { rewrite <-(swapped_at_last (hp st) i n) by lia. rewrite <-Hhp, !list_lookup_total_alt. by rewrite Hrest. }
    destruct (h_Pop_ok st2 n) as (st3 & E & H3 & C3 & P3); [apply T|lia| |].
    { eapply heap_ext; [|exact Hh2]. apply same_core_lt, T. }
    rewrite En in E, P3. exists st3. split_and!; [exact E|done| |].
    + eapply same_core_trans; [exact C1|]. eapply same_core_trans; [apply T|exact C3].
    + rewrite <-P3, (st_perm _ _ T), Hhp. symmetry. apply swapped_perm; lia.
Qed.

(** [heap.Pop] takes the root out. *)
Lemma heap_Pop_ok st : heaped st -> (0 < length (hp st))%nat ->
  exists st', heap_Pop st = Ok (st', hp st !!! 0%nat) /\ heaped st' /\ same_core st st' /\
    hp st ≡ₚ (hp st !!! 0%nat) :: hp st'.
Proof.
  intros [Sy Hh] Hi. destruct (length (hp st)) as [|n] eqn:Hl; [lia|]. unfold heap_Pop, h_Len. rewrite Hl.
  replace (S n - 1)%nat with n by lia.
  destruct (h_Swap_eval st 0 n Sy) as (st1 & -> & Hhp & S1 & C1); [lia..|]. cbn [mbind outcome_bind].
  assert (length (hp st1) = S n) as Hl1 by (by rewrite Hhp, length_swapped).
  unfold heap_down. destruct (down_ok (S n) st1 0 n) as (st2 & i2 & -> & _ & T & Hh2 & Hrest); [done|lia..| |].
  { destruct (decide (n = 0%nat)) as [->|]; [split; intros; lia|].
    assert (fix_pre (lt_of st1) (hp st1) n 0) as [Ha Hb].
    { rewrite Hhp. apply swapped_fix_pre; [apply lt_of_strict_weak|done|lia|].
      eapply heap_ext; [by apply same_core_lt|done]. }
    split; [intros c Hc Hp; apply Ha; lia|done]. }
  cbn [mbind outcome_bind]. pose proof (steps_to_length _ _ T) as Hl2.
  assert (hp st2 !!! n = hp st !!! 0%nat) as En.
  { destruct (decide (n = 0%nat)) as [->|].
    - rewrite !list_lookup_total_alt, Hrest by done. rewrite <-!list_lookup_total_alt, Hhp.
      rewrite lookup_swapped by lia. by rewrite decide_True.
    - rewrite <-(swapped_at_last (hp st) 0 n) by lia. rewrite <-Hhp, !list_lookup_total_alt. by rewrite Hrest. }
  destruct (h_Pop_ok st2 n) as (st3 & E & H3 & C3 & P3); [apply T|lia| |].
  { eapply heap_ext; [|exact Hh2]. apply same_core_lt, T. }
  rewrite En in E, P3. exists st3. split_and!; [exact E|done| |].
  - eapply same_core_trans; [exact C1|]. eapply same_core_trans; [apply T|exact C3].
  - rewrite <-P3, (st_perm _ _ T), Hhp. symmetry. apply swapped_perm; lia.
Qed.

(** [heap.Fix] after the object at position [i] was given a new time. *)
Lemma heap_Fix_ok st i x o id next : heaped st -> hp st !! i = Some x -> ob st !! x = Some o ->
  let st1 := mkHst (hp st) (<[x := set_next o id next]> (ob st)) in
  exists st', heap_Fix st1 i = Ok st' /\ heaped st' /\ same_core st1 st' /\ hp st' ≡ₚ hp st.
Proof.
  intros [Sy Hh] Hi Ho st1. pose proof (lookup_lt_Some _ _ _ Hi) as Hlt. pose proof Sy as [Hnd Hsy].
  assert (synced st1) as S1.
  { split; [done|]. simpl. intros k l Hk. destruct (decide (l = x)) as [->|].
    - rewrite lookup_insert_eq. eexists. split; [done|]. simpl. destruct (Hsy k x Hk) as (o' & ? & ?). by simplify_eq.
    - rewrite lookup_insert_ne by done. by apply Hsy. }
  assert (forall a b, a ≠ x -> b ≠ x -> lt_of st1 a b = lt_of st a b) as Elt.
  { intros a b Ha Hb. unfold lt_of, next_of. simpl. by rewrite !lookup_insert_ne. }
  assert (forall k, (k < length (hp st))%nat -> k ≠ i -> hp st !!! k ≠ x) as Hne.
  { intros k Hk Hki E. destruct (synced_lookup st k Sy Hk) as (_ & Ek & _). rewrite E in Ek.
    apply Hki. exact (NoDup_lookup _ _ _ _ Hnd Ek Hi). }
  unfold heap_Fix, h_Len. simpl.
  destruct (fix_ok st1 i (length (hp st))) as (st' & E & T & H' & _); [done..| |].
  { split; intros c Hc; pose proof (parent_spec c); simpl.
    - intros Hp Hci. unfold edge, le. rewrite Elt by (apply Hne; lia). apply Hh. lia.
    - intros Hi1 Hp. pose proof (parent_spec i). unfold le. rewrite Elt by (apply Hne; lia).
      eapply (le_trans _ (lt_of_strict_weak st)); [apply Hh; lia|]. rewrite <-Hp. apply Hh. lia. }
  exists st'. split_and!; [exact E| |apply T|apply (st_perm _ _ T)].
  by eapply heaped_steps.
Qed.

(** ** periodicHeap refines a finite map *)

(** The invariant of [periodicHeap]: a heap in sync, whose index holds exactly its entries. *)
Record wf (p : periodicHeap) : Prop := {
  wf_heaped : heaped (hst_of p);
  wf_index : forall id l, index p !! id = Some l <->
    l ∈ hp (hst_of p) /\ exists o, ob (hst_of p) !! l = Some o /\ pp_id o = id;
  wf_fresh : forall l o, ob (hst_of p) !! l = Some o -> (l < fresh p)%nat;
}.

(** The promise of [periodicHeap]: the jobs by id, each with the time of its next launch. *)
Definition entry_of (st : hst) (l : loc) : option (pJob * Z) := (fun o => (pp_value o, pp_next o)) <$> ob st !! l.
Definition abs (p : periodicHeap) : gmap string (pJob * Z) := omap (entry_of (hst_of p)) (index p).

Lemma lookup_abs p id : abs p !! id = index p !! id ≫= entry_of (hst_of p).
Proof. unfold abs. by rewrite lookup_omap. Qed.

Lemma same_core_entry st st' l : same_core st st' -> entry_of st' l = entry_of st l.
Proof.
  intros H. specialize (H l). unfold entry_of.
  destruct (ob st' !! l), (ob st !! l); simpl in *; try done. unfold core in H. simplify_eq. congruence.
Qed.

Lemma same_core_id st st' l id : same_core st st' ->
  (exists o, ob st' !! l = Some o /\ pp_id o = id) <-> (exists o, ob st !! l = Some o /\ pp_id o = id).
Proof.
  intros H. specialize (H l). destruct (ob st' !! l) as [a|], (ob st !! l) as [b|]; simpl in H; try done.
  unfold core in H. simplify_eq. split; intros (? & ? & ?); simplify_eq; eexists; split; done || congruence.
Qed.

Lemma same_core_dom st st' l : same_core st st' -> is_Some (ob st' !! l) <-> is_Some (ob st !! l).
Proof. intros H. specialize (H l). rewrite <-!(fmap_is_Some core). by rewrite H. Qed.

Lemma wf_new : wf newPeriodicHeap.
Proof.
  split; simpl.
  - split; [split; simpl; [constructor|done]|]. intros c Hc. simpl in Hc. lia.
  - intros id l. split; [done|]. intros [H _]. by apply elem_of_nil in H.
  - done.
Qed.

(** Ids of the entries are unique: the index is a function. *)
Lemma wf_id_inj p a b oa ob' : wf p -> a ∈ hp (hst_of p) -> b ∈ hp (hst_of p) ->
  ob (hst_of p) !! a = Some oa -> ob (hst_of p) !! b = Some ob' -> pp_id oa = pp_id ob' -> a = b.
Proof.
  intros W Ha Hb Oa Ob E.
  pose proof (proj2 (wf_index _ W (pp_id oa) a)) as H1. pose proof (proj2 (wf_index _ W (pp_id oa) b)) as H2.
  rewrite H1 in H2 by eauto. symmetry in E. specialize (H2 ltac:(eauto)). congruence.
Qed.

Lemma wf_entry p id l : wf p -> index p !! id = Some l -> exists o i,
  ob (hst_of p) !! l = Some o /\ pp_id o = id /\ hp (hst_of p) !! i = Some l /\ pp_index o = Z.of_nat i.
Proof.
  intros W H. apply (wf_index _ W) in H as (Hin & o & Ho & Hid). apply list_elem_of_lookup in Hin as [i Hi].
  destruct (wf_heaped _ W) as [[_ Hs] _]. destruct (Hs i l Hi) as (o' & Ho' & Hidx). simplify_eq. eauto 8.
Qed.

(** ** The operations of [periodicHeap], on every branch *)

Lemma ph_Push_ok p pj next : wf p ->
  exists p' e, ph_Push p pj next = Ok (p', e) /\ wf p' /\
  match abs p !! job pj with
  | Some _ => p' = p /\ e = Some ("job (" ++ job pj ++ ") already exists")%string
  | None => abs p' = <[job pj := (pj, next)]> (abs p) /\ e = None
  end.
Proof.
  intros W. rewrite lookup_abs. unfold ph_Push. destruct (index p !! job pj) as [l|] eqn:Ei.
  { destruct (wf_entry p _ _ W Ei) as (o & i & Ho & _). exists p. eexists. split_and!; [done..|].
    simpl. unfold entry_of. by rewrite Ho. }
  set (x := fresh p). set (st := mkHst _ _). simpl.
  assert (forall l o, ob (hst_of p) !! l = Some o -> l ≠ x) as Hx
    by (intros l o Ho ->; pose proof (wf_fresh _ W _ _ Ho); unfold x in *; lia).
  destruct (wf_heaped _ W) as [[Hnd Hs] Hh].
  assert (forall l, l ∈ hp (hst_of p) -> l ≠ x) as Hhx.
  { intros l [i Hi]%list_elem_of_lookup. destruct (Hs _ _ Hi) as (o & Ho & _). by eapply Hx. }
  destruct (heap_Push_ok st x (mkPP (job pj) pj next 0)) as (st' & -> & H' & C & P).
  - split; [split; [done|]|].
    + simpl. intros i l Hi. rewrite lookup_insert_ne; [by apply Hs|]. symmetry. apply Hhx. by eapply list_elem_of_lookup_2.
    + intros c Hc. simpl in Hc. pose proof (parent_spec c). unfold edge, le, lt_of, next_of. simpl.
      rewrite !lookup_insert_ne; [by apply Hh| |]; symmetry; apply Hhx, list_elem_of_lookup_total_2; lia.
  - simpl. intros Hin. by apply (Hhx x).
  - simpl. apply lookup_insert_eq.
  - cbn [mbind outcome_bind]. eexists _, _. split_and!; [done| | |done].
    + split; simpl; [done| |].
      * intros id l. rewrite P, (same_core_id _ _ _ _ C). simpl. rewrite elem_of_cons.
        destruct (decide (id = job pj)) as [->|Hid].
        -- rewrite lookup_insert_eq. split.
           ++ intros [= <-]. split; [by left|]. eexists. by rewrite lookup_insert_eq.
           ++ intros [[->|Hin] (o & Ho & E)]; [done|]. rewrite lookup_insert_ne in Ho by (symmetry; by apply Hhx).
              assert (index p !! job pj = Some l) by (apply (wf_index _ W); eauto). congruence.
        -- rewrite lookup_insert_ne by done. rewrite (wf_index _ W). split.
           ++ intros [Hin (o & Ho & E)]. split; [by right|]. exists o.
              rewrite lookup_insert_ne by (symmetry; by apply Hhx). done.
           ++ intros [[->|Hin] (o & Ho & E)]; [rewrite lookup_insert_eq in Ho; by simplify_eq|].
              rewrite lookup_insert_ne in Ho by (symmetry; by apply Hhx). eauto.
      * intros l o Ho. assert (is_Some (ob st !! l)) as [o' Ho'] by (apply (same_core_dom _ _ _ C); eauto).
        simpl in Ho'. apply lookup_insert_Some in Ho' as [[<- _]|[_ Ho']]; [lia|].
        apply (wf_fresh _ W) in Ho'. unfold x. lia.
    + apply map_eq. intros id. rewrite lookup_abs. simpl.
      destruct (decide (id = job pj)) as [->|Hid].
      * rewrite !lookup_insert_eq. simpl. rewrite (same_core_entry _ _ _ C). unfold entry_of. simpl.
        by rewrite lookup_insert_eq.
      * rewrite !lookup_insert_ne by done. rewrite lookup_abs. destruct (index p !! id) as [l|] eqn:El; [|done].
        simpl. rewrite (same_core_entry _ _ _ C). unfold entry_of. simpl. rewrite lookup_insert_ne; [done|].
        destruct (wf_entry p _ _ W El) as (o & i & Ho & _). symmetry. by eapply Hx.
Qed.

(** Taking the entry at [l] out of heap and index, whatever the position it had. *)
Lemma wf_take p st' l o : wf p -> l ∈ hp (hst_of p) -> ob (hst_of p) !! l = Some o ->
  heaped st' -> same_core (hst_of p) st' -> hp (hst_of p) ≡ₚ l :: hp st' ->
  let p' := mkPH st' (delete (pp_id o) (index p)) (fresh p) in
  wf p' /\ abs p' = delete (pp_id o) (abs p).
Proof.
  intros W Hin Ho H' C P p'.
  assert (NoDup (l :: hp st')) as [Hl Hnd']%NoDup_cons by (rewrite <-P; apply (wf_heaped _ W)).
  split.
  - split; [done| |]; unfold p'; simpl.
    + intros id m. rewrite (same_core_id _ _ _ _ C). destruct (decide (id = pp_id o)) as [->|Hid].
      * rewrite lookup_delete_eq. split; [done|]. intros [Hm (om & Hom & E)]. exfalso.
        assert (m = l) as ->; [|done]. eapply wf_id_inj; eauto. rewrite P. by right.
      * rewrite lookup_delete_ne by done. rewrite (wf_index _ W), P, elem_of_cons.
        split; [|by intros [Hm ?]; split; [right|]]. intros [[->|Hm] (om & Hom & E)]; [by simplify_eq|eauto].
    + intros m om Hm. assert (is_Some (ob (hst_of p) !! m)) as [om' Hm'] by (apply (same_core_dom _ _ _ C); eauto).
      by apply (wf_fresh _ W) in Hm'.
  - apply map_eq. intros id. rewrite lookup_abs. unfold p'. simpl. destruct (decide (id = pp_id o)) as [->|Hid].
    + by rewrite !lookup_delete_eq.
    + rewrite !lookup_delete_ne, lookup_abs by done. destruct (index p !! id); [|done].
      simpl. by apply same_core_entry.
Qed.

Lemma ph_Remove_ok p id : wf p ->
  exists p' e, ph_Remove p id = Ok (p', e) /\ wf p' /\ abs p' = delete id (abs p) /\
    e = match abs p !! id with Some _ => None | None => Some (not_contained id) end.
Proof.
  intros W. rewrite lookup_abs. unfold ph_Remove. destruct (index p !! id) as [l|] eqn:Ei; simpl.
  - destruct (wf_entry p _ _ W Ei) as (o & i & Ho & Hid & Hi & Hx). unfold deref at 1. rewrite Ho. cbn [mbind outcome_bind].
    unfold at_index. rewrite Hx, (proj2 (Z.ltb_ge _ _)) by lia. rewrite Nat2Z.id.
    destruct (heap_Remove_ok (hst_of p) i) as (st' & -> & H' & C & P); [apply W|by eapply lookup_lt_Some|].
    cbn [mbind outcome_bind]. rewrite (list_lookup_total_correct _ _ _ Hi) in P.
    assert (l ∈ hp (hst_of p)) as Hin by (by eapply list_elem_of_lookup_2).
    destruct (wf_take p st' l o W Hin Ho H' C P) as [W' Ha]. rewrite Hid in W', Ha.
    eexists _, _. split_and!; [done..|]. unfold entry_of. by rewrite Ho.
  - exists p. eexists. split_and!; [done..| |done]. rewrite delete_id; [done|]. by rewrite lookup_abs, Ei.
Qed.

Lemma ph_Update_ok p id next : wf p ->
  exists p' e, ph_Update p id next = Ok (p', e) /\ wf p' /\
  match abs p !! id with
  | Some (pj, _) => abs p' = <[id := (pj, next)]> (abs p) /\ e = None
  | None => p' = p /\ e = Some (not_contained id)
  end.
Proof.
  intros W. rewrite lookup_abs. unfold ph_Update. destruct (index p !! id) as [l|] eqn:Ei; simpl;
    [|by exists p, (Some (not_contained id))].
  destruct (wf_entry p _ _ W Ei) as (o & i & Ho & Hid & Hi & Hx). unfold deref at 1. rewrite Ho. cbn [mbind outcome_bind].
  unfold at_index. rewrite Hx, (proj2 (Z.ltb_ge _ _)) by lia. rewrite Nat2Z.id.
  destruct (heap_Fix_ok (hst_of p) i l o id next) as (st' & E & H' & C & P); [apply W|done..|].
  rewrite E. cbn [mbind outcome_bind]. set (st1 := mkHst _ _) in *.
  assert (forall m, m ≠ l -> ob st1 !! m = ob (hst_of p) !! m) as Hm by (intros; simpl; by rewrite lookup_insert_ne).
  eexists _, _. split_and!; [done| |].
  - split; [done| |]; simpl.
    + intros k m. rewrite P, (same_core_id _ _ _ _ C), (wf_index _ W). apply and_iff_compat_l.
      destruct (decide (m = l)) as [->|]; [|by rewrite Hm]. simpl. rewrite lookup_insert_eq, Ho.
      split; intros (? & ? & ?); simplify_eq; eauto.
    + intros m om Hom. assert (is_Some (ob st1 !! m)) as [om' Hm'] by (apply (same_core_dom _ _ _ C); eauto).
      destruct (decide (m = l)) as [->|]; [by apply (wf_fresh _ W) in Ho|]. rewrite Hm in Hm' by done.
      by apply (wf_fresh _ W) in Hm'.
  - unfold entry_of at 1. rewrite Ho. simpl. split; [|done].
    apply map_eq. intros k. rewrite lookup_abs. simpl. destruct (decide (k = id)) as [->|Hk].
    + rewrite lookup_insert_eq, Ei. simpl. rewrite (same_core_entry _ _ _ C). unfold entry_of. simpl.
      by rewrite lookup_insert_eq.
    + rewrite lookup_insert_ne, lookup_abs by done. destruct (index p !! k) as [m|] eqn:Ek; [|done]. simpl.
      rewrite (same_core_entry _ _ _ C). unfold entry_of. rewrite Hm; [done|]. intros ->. apply Hk.
      destruct (wf_entry p _ _ W Ek) as (o' & ? & Ho' & <- & _). congruence.
Qed.

(** No job of the map is due strictly before [next]; the zero time is never due. *)
Definition earliest (m : gmap string (pJob * Z)) (next : Z) : Prop :=
  forall id pj t, m !! id = Some (pj, t) -> less_time t next = false.

Lemma ph_Peek_ok p : wf p ->
  match ph_Peek p with
  | None => abs p = ∅
  | Some l => exists o, ob (hst_of p) !! l = Some o /\ hp (hst_of p) !! 0%nat = Some l /\
      abs p !! pp_id o = Some (pp_value o, pp_next o) /\ earliest (abs p) (pp_next o)
  end.
Proof.
  intros W. unfold ph_Peek. pose proof (wf_heaped _ W) as [[Hnd Hs] Hh].
  destruct (hp (hst_of p)) as [|l r] eqn:E; simpl.
  - apply map_eq. intros id. rewrite lookup_abs, lookup_empty. destruct (index p !! id) as [l|] eqn:Ei; [|done].
    apply (wf_index _ W) in Ei as [Hin _]. rewrite E in Hin. by apply elem_of_nil in Hin.
  - destruct (Hs 0%nat l eq_refl) as (o & Ho & _). exists o. split_and!; [done..| |].
    + rewrite lookup_abs. rewrite (proj2 (wf_index _ W (pp_id o) l)); [|rewrite E; split; [by left|eauto]].
      simpl. unfold entry_of. by rewrite Ho.
    + intros id pj t Ht. rewrite lookup_abs in Ht. destruct (index p !! id) as [m|] eqn:Em; [|done].
      destruct (wf_entry p _ _ W Em) as (om & i & Hom & _ & Hi & _). simpl in Ht. unfold entry_of in Ht.
      rewrite Hom in Ht. simpl in Ht. simplify_eq. rewrite E in Hi.
      pose proof (heap_min _ (lt_of_strict_weak _) _ _ i Hh (lookup_lt_Some _ _ _ Hi)) as Hle.
      rewrite (list_lookup_total_correct _ _ _ Hi) in Hle. unfold le, lt_of, next_of in Hle. simpl in Hle.
      by rewrite Ho, Hom in Hle.
Qed.

Lemma ph_Pop_ok p : wf p ->
  match ph_Peek p with
  | None => ph_Pop p = Ok (p, None)
  | Some l => exists p' o o', ph_Pop p = Ok (p', Some l) /\ wf p' /\ ob (hst_of p) !! l = Some o /\
      ob (hst_of p') !! l = Some o' /\ core o' = core o /\ abs p' = delete (pp_id o) (abs p)
  end.
Proof.
  intros W. pose proof (ph_Peek_ok p W) as HP. unfold ph_Pop. destruct (ph_Peek p) as [l|] eqn:E.
  - destruct HP as (o & Ho & H0 & _). pose proof (lookup_lt_Some _ _ _ H0) as Hlen.
    rewrite (proj2 (Nat.eqb_neq _ _)) by lia.
    destruct (heap_Pop_ok (hst_of p)) as (st' & Ep & H' & C & P); [apply W|done|].
    rewrite (list_lookup_total_correct _ _ _ H0) in Ep, P. rewrite Ep. cbn [mbind outcome_bind].
    assert (l ∈ hp (hst_of p)) as Hin by (by eapply list_elem_of_lookup_2).
    destruct (wf_take p st' l o W Hin Ho H' C P) as [W' Ha].
    pose proof (C l) as Cl. rewrite Ho in Cl. destruct (ob st' !! l) as [o'|] eqn:Eo'; [|done]. simpl in Cl.
    unfold deref. rewrite Eo'. cbn [mbind outcome_bind]. injection Cl as E1 E2 E3. rewrite E1.
    eexists _, o, o'. split_and!; [done|exact W'|done|exact Eo'|unfold core; congruence|exact Ha].
  - unfold ph_Peek in E. by destruct (hp (hst_of p)).
Qed.

Lemma ph_Length_ok p : wf p -> ph_Length p = size (abs p).
Proof.
  intros W. unfold ph_Length. pose proof (wf_heaped _ W) as [[Hnd Hs] _].
  set (f := fun l => default ("")%string (pp_id <$> ob (hst_of p) !! l)).
  assert (NoDup (f <$> hp (hst_of p))) as Hnd'.
  { apply NoDup_fmap_2_strong; [|done]. intros a b Ha Hb E.
    apply list_elem_of_lookup in Ha as [i Hi]. apply list_elem_of_lookup in Hb as [j Hj].
    destruct (Hs _ _ Hi) as (oa & Oa & _), (Hs _ _ Hj) as (o' & Ob & _).
    eapply wf_id_inj; eauto; [by eapply list_elem_of_lookup_2..|]. unfold f in E. by rewrite Oa, Ob in E. }
  rewrite <-(length_fmap f (hp (hst_of p))), <-(size_list_to_set (C:=gset string)) by done.
  rewrite <-size_dom. f_equal. apply set_eq. intros id. rewrite elem_of_list_to_set, elem_of_dom, lookup_abs, list_elem_of_fmap.
  split.
  - intros (l & -> & [i Hi]%list_elem_of_lookup). destruct (Hs _ _ Hi) as (o & Ho & _). unfold f. rewrite Ho. simpl.
    rewrite (proj2 (wf_index _ W (pp_id o) l)); [simpl; unfold entry_of; rewrite Ho; by eexists|].
    split; [by eapply list_elem_of_lookup_2|eauto].
  - intros [e He]. destruct (index p !! id) as [l|] eqn:El; [|done].
    apply (wf_index _ W) in El as (Hin & o & Ho & Hid). exists l. split; [|done]. unfold f. by rewrite Ho.
Qed.
