(* ===== verification/Periodic.v ===== *)
(** * The dispatcher of periodic jobs

    The upper half of [periodic.go].  [Dispatcher] couples the map [tracked] with the
    [periodicHeap]; its operations run under the lock [l] and are functions on the state here.
    [run] is a goroutine: its program points are [loop_pc], and [dstep] interleaves any number of
    such loops with the calls of clients and the passing of time.  Channels are explicit: [eventCh]
    is a queue of capacity 10, [updateCh] a counter of capacity 1, and [cancelCh] a channel
    identity, since [SetEnabled] replaces the channel of the field and a loop waits on the one it
    read. *)

From stdpp Require Import base list gmap strings numbers.
From S2P Require Import Prelude GoStd PeriodicHeap.

(** ** The heap against its specification *)

Inductive hop := HPush (pj : pJob) (next : Z) | HPop | HPeek | HContains (id : string)
  | HUpdate (id : string) (next : Z) | HRemove (id : string) | HLength.

(** What a caller sees of a call. *)
Inductive hres := RErr (e : option string) | RJob (r : option (string * pJob * Z)) | RBool (b : bool) | RLen (n : nat).

Definition view (st : hst) (r : option loc) : option (string * pJob * Z) := r ≫= fun l => core <$> ob st !! l.

Definition hcall (p : periodicHeap) (o : hop) : outcome (periodicHeap * hres) :=
  match o with
  | HPush pj next => '(p', e) ← ph_Push p pj next; Ok (p', RErr e)
  | HPop => '(p', r) ← ph_Pop p; Ok (p', RJob (view (hst_of p') r))
  | HPeek => Ok (p, RJob (view (hst_of p) (ph_Peek p)))
  | HContains id => Ok (p, RBool (ph_Contains p id))
  | HUpdate id next => '(p', e) ← ph_Update p id next; Ok (p', RErr e)
  | HRemove id => '(p', e) ← ph_Remove p id; Ok (p', RErr e)
  | HLength => Ok (p, RLen (ph_Length p))
  end.

Fixpoint hcalls (p : periodicHeap) (os : list hop) : outcome (periodicHeap * list hres) :=
  match os with
  | [] => Ok (p, [])
  | o :: os => '(p, r) ← hcall p o; '(p, rs) ← hcalls p os; Ok (p, r :: rs)
  end.

(** The specification: a finite map from ids to a job and its next launch, from which [Peek] and
    [Pop] choose an entry that is due no later than any other. *)
Definition picked (m : gmap string (pJob * Z)) (r : option (string * pJob * Z)) : Prop :=
  match r with
  | None => m = ∅
  | Some (id, pj, t) => m !! id = Some (pj, t) /\ earliest m t
  end.

Inductive spec : gmap string (pJob * Z) -> hop -> hres -> gmap string (pJob * Z) -> Prop :=
  | spec_push m pj t : m !! job pj = None -> spec m (HPush pj t) (RErr None) (<[job pj := (pj, t)]> m)
  | spec_push_dup m pj t e : m !! job pj = Some e ->
      spec m (HPush pj t) (RErr (Some ("job (" ++ job pj ++ ") already exists")%string)) m
  | spec_pop m r : picked m r -> spec m HPop (RJob r) (match r with Some (id, _, _) => delete id m | None => m end)
  | spec_peek m r : picked m r -> spec m HPeek (RJob r) m
  | spec_contains m id : spec m (HContains id) (RBool (bool_decide (is_Some (m !! id)))) m
  | spec_update m id pj t t' : m !! id = Some (pj, t) -> spec m (HUpdate id t') (RErr None) (<[id := (pj, t')]> m)
  | spec_update_none m id t' : m !! id = None -> spec m (HUpdate id t') (RErr (Some (not_contained id))) m
  | spec_remove m id e : m !! id = Some e -> spec m (HRemove id) (RErr None) (delete id m)
  | spec_remove_none m id : m !! id = None -> spec m (HRemove id) (RErr (Some (not_contained id))) m
  | spec_length m : spec m HLength (RLen (size m)) m.

Inductive specs : gmap string (pJob * Z) -> list hop -> list hres -> gmap string (pJob * Z) -> Prop :=
  | specs_nil m : specs m [] [] m
  | specs_cons m o r m' os rs m'' : spec m o r m' -> specs m' os rs m'' -> specs m (o :: os) (r :: rs) m''.

Lemma ph_Contains_ok p id : wf p -> ph_Contains p id = bool_decide (is_Some (abs p !! id)).
Proof.
  intros W. unfold ph_Contains. apply bool_decide_ext. rewrite lookup_abs.
  destruct (index p !! id) as [l|] eqn:E; simpl; [|done].
  destruct (wf_entry p id l W E) as (o & i & Ho & _). unfold entry_of. rewrite Ho. simpl. by split; eexists.
Qed.

Lemma peek_picked p : wf p -> picked (abs p) (view (hst_of p) (ph_Peek p)).
Proof.
  intros W. pose proof (ph_Peek_ok p W) as H. destruct (ph_Peek p) as [l|]; simpl; [|done].
  destruct H as (o & Ho & _ & H1 & H2). by rewrite Ho.
Qed.

Lemma hcall_spec p o : wf p -> exists p' r, hcall p o = Ok (p', r) /\ wf p' /\ spec (abs p) o r (abs p').
Proof.
  intros W. destruct o as [pj t| | |id|id t|id|]; simpl.
  - destruct (ph_Push_ok p pj t W) as (p' & e & -> & W' & H). cbn [mbind outcome_bind]. exists p', (RErr e).
    split_and!; [done..|]. destruct (abs p !! job pj) eqn:E; destruct H as [H ->].
    + subst p'. by econstructor.
    + rewrite H. by econstructor.
  - pose proof (ph_Pop_ok p W) as H. pose proof (peek_picked p W) as HP. destruct (ph_Peek p) as [l|] eqn:E.
    + destruct H as (p' & o & o' & -> & W' & Ho & Ho' & C & Ha). cbn [mbind outcome_bind].
      exists p', (RJob (Some (core o))). simpl in HP |- *. rewrite Ho'. rewrite Ho in HP. simpl in HP |- *. rewrite C.
      split_and!; [done..|]. rewrite Ha. by apply (spec_pop (abs p) (Some (core o))).
    + rewrite H. cbn [mbind outcome_bind]. exists p, (RJob None). split_and!; [done..|].
      by apply (spec_pop (abs p) None).
  - eexists p, _. split_and!; [done..|]. constructor. by apply peek_picked.
  - eexists p, _. split_and!; [done..|]. rewrite ph_Contains_ok by done. constructor.
  - destruct (ph_Update_ok p id t W) as (p' & e & -> & W' & H). cbn [mbind outcome_bind]. exists p', (RErr e).
    split_and!; [done..|]. destruct (abs p !! id) as [[pj t']|] eqn:E; destruct H as [H ->].
    + rewrite H. by econstructor.
    + subst p'. by econstructor.
  - destruct (ph_Remove_ok p id W) as (p' & e & -> & W' & H & ->). cbn [mbind outcome_bind]. eexists p', _.
    split_and!; [done..|]. rewrite H. destruct (abs p !! id) as [?|] eqn:E; [by econstructor|].
    rewrite delete_id by done. by constructor.
  - eexists p, _. split_and!; [done..|]. rewrite ph_Length_ok by done. constructor.
Qed.

Lemma hcalls_spec os p : wf p -> exists p' rs, hcalls p os = Ok (p', rs) /\ wf p' /\ specs (abs p) os rs (abs p').
Proof.
  revert p. induction os as [|o os IH]; intros p W; simpl.
  - exists p, []. split_and!; [done..|constructor].
  - destruct (hcall_spec p o W) as (p1 & r & -> & W1 & H1). cbn [mbind outcome_bind].
    destruct (IH p1 W1) as (p2 & rs & -> & W2 & H2). cbn [mbind outcome_bind].
    exists p2, (r :: rs). split_and!; [done..|]. by econstructor.
Qed.

(** C19: [periodicHeap] implements a priority map.  Whatever calls are made on a new heap, in any
    order, none of them panics or fails to return, and every result is one the specification
    allows: [Push] refuses a known id, [Update] and [Remove] refuse an unknown one, and [Peek] and
    [Pop] yield an entry that is due no later than any other.  The pointer-based binary heap, its
    [index] fields and its index by id never get out of step. *)
Theorem periodicHeap_refines (os : list hop) :
  exists p rs, hcalls newPeriodicHeap os = Ok (p, rs) /\ specs ∅ os rs (abs p).
Proof. destruct (hcalls_spec os _ wf_new) as (p & rs & H1 & _ & H2). eauto. Qed.

(** ** The dispatcher *)

Record Dispatcher := mkD {
  dheap : periodicHeap;
  tracked : gmap string pJob;
  enabled : bool;
  eventCh : list string;       (* of capacity 10 *)
  updateCh : nat;              (* of capacity 1 *)
  cancelCh : option nat;       (* the channel of the field; nil at first *)
}.

Definition NewDispatcher : Dispatcher := mkD newPeriodicHeap ∅ false [] 0 None.

Definition set_heap (d : Dispatcher) (h : periodicHeap) : Dispatcher :=
  mkD h (tracked d) (enabled d) (eventCh d) (updateCh d) (cancelCh d).
Definition set_tracked (d : Dispatcher) (t : gmap string pJob) : Dispatcher :=
  mkD (dheap d) t (enabled d) (eventCh d) (updateCh d) (cancelCh d).

Definition Contains (d : Dispatcher) (id : string) : bool := bool_decide (is_Some (tracked d !! id)).

(** [select { case p.updateCh <- struct{}{}: default: }] *)
Definition signal_update (d : Dispatcher) : Dispatcher :=
  mkD (dheap d) (tracked d) (enabled d) (eventCh d) (Nat.min 1 (S (updateCh d))) (cancelCh d).

(** [now] is the value of [time.Now()]. *)
Definition Add (d : Dispatcher) (now : Z) (j : string) (period : Z) : outcome (Dispatcher * option string) :=
  let pj := mkPJob j period in
  let d := set_tracked d (<[job pj := pj]> (tracked d)) in
  '(h, e) ← ph_Push (dheap d) pj (now + PeriodicHeap.period pj)%Z;
  let d := set_heap d h in
  match e with Some e => Ok (d, Some e) | None => Ok (signal_update d, None) end.

Definition Remove (d : Dispatcher) (value : string) : outcome (Dispatcher * option string) :=
  match tracked d !! value with
  | None => Ok (d, None)
  | Some pj =>
      let d := set_tracked d (delete value (tracked d)) in
      '(h, e) ← ph_Remove (dheap d) (job pj);
      let d := set_heap d h in
      match e with
      | Some e => Ok (d, Some ("failed to remove tracked pJob (" ++ value ++ "): " ++ e)%string)
      | None => Ok (signal_update d, None)
      end
  end.

Definition Tracked (d : Dispatcher) : list string := job ∘ snd <$> map_to_list (tracked d).

(** [select { case p.eventCh <- pJob.job: default: }] *)
Definition emit (d : Dispatcher) (j : string) : Dispatcher :=
  mkD (dheap d) (tracked d) (enabled d)
    (if (length (eventCh d) <? 10)%nat then eventCh d ++ [j] else eventCh d) (updateCh d) (cancelCh d).

(** The error of [Update] is dropped. *)
Definition dispatch (d : Dispatcher) (pj : pJob) (launch : Z) : outcome Dispatcher :=
  '(h, _) ← ph_Update (dheap d) (job pj) (launch + period pj)%Z;
  Ok (emit (set_heap d h) (job pj)).

Definition nextLaunch (d : Dispatcher) : outcome (option pJob * Z) :=
  if (ph_Length (dheap d) =? 0)%nat then Ok (None, 0%Z) else
  match ph_Peek (dheap d) with
  | None => Ok (None, 0%Z)
  | Some l => o ← deref (hst_of (dheap d)) l; Ok (Some (pp_value o), pp_next o)
  end.

(** ** The goroutines *)

(** Where a loop of [run] is: about to call [nextLaunch]; with its result, about to read
    [p.cancelCh]; at the [select], waiting on the channel it read; about to call [dispatch]. *)
Inductive loop_pc :=
  | LTop
  | LHave (pj : option pJob) (launch : Z)
  | LWait (cancel : option nat) (pj : option pJob) (launch : Z)
  | LFire (pj : option pJob) (launch : Z).

(** The dispatcher, the closed channels, the next channel identity, the running loops, the clock. *)
Record sys := mkS { disp : Dispatcher; closed : gset nat; nextch : nat; loops : list loop_pc; clock : Z }.

Definition set_disp (s : sys) (d : Dispatcher) : sys := mkS d (closed s) (nextch s) (loops s) (clock s).
Definition set_loops (s : sys) (ls : list loop_pc) : sys := mkS (disp s) (closed s) (nextch s) ls (clock s).

(** [close] of a closed or nil channel panics. *)
Definition SetEnabled (s : sys) (en : bool) : outcome sys :=
  let d := disp s in
  let wasRunning := enabled d in
  let d' := fun c => mkD (dheap d) (tracked d) en (eventCh d) (updateCh d) c in
  if negb en && wasRunning then
    match cancelCh d with
    | None => Panic
    | Some c => if bool_decide (c ∈ closed s) then Panic
                else Ok (mkS (d' (cancelCh d)) ({[c]} ∪ closed s) (nextch s) (loops s) (clock s))
    end
  else if en && negb wasRunning then
    Ok (mkS (d' (Some (nextch s))) (closed s) (S (nextch s)) (loops s ++ [LTop]) (clock s))
  else Ok (set_disp s (d' (cancelCh d))).

Definition drain_update (d : Dispatcher) : Dispatcher :=
  mkD (dheap d) (tracked d) (enabled d) (eventCh d) (updateCh d - 1) (cancelCh d).
Definition drain_event (d : Dispatcher) : Dispatcher :=
  mkD (dheap d) (tracked d) (enabled d) (tail (eventCh d)) (updateCh d) (cancelCh d).

(** One step of the loop number [i] of [run]. *)
Inductive run_step (s : sys) (i : nat) : outcome sys -> Prop :=
  | run_next r : loops s !! i = Some LTop -> nextLaunch (disp s) = Ok r ->
      run_step s i (Ok (set_loops s (<[i := LHave r.1 r.2]> (loops s))))
  | run_select pj t : loops s !! i = Some (LHave pj t) ->
      run_step s i (Ok (set_loops s (<[i := LWait (cancelCh (disp s)) pj t]> (loops s))))
  | run_cancel c pj t : loops s !! i = Some (LWait (Some c) pj t) -> c ∈ closed s ->
      run_step s i (Ok (set_loops s (delete i (loops s))))
  | run_update c pj t : loops s !! i = Some (LWait c pj t) -> (0 < updateCh (disp s))%nat ->
      run_step s i (Ok (set_disp (set_loops s (<[i := LTop]> (loops s))) (drain_update (disp s))))
  | run_launch c pj t : loops s !! i = Some (LWait c pj t) -> IsZero t = false -> (t <= clock s)%Z ->
      run_step s i (Ok (set_loops s (<[i := LFire pj t]> (loops s))))
  | run_fire pj t r : loops s !! i = Some (LFire (Some pj) t) -> dispatch (disp s) pj t = r ->
      run_step s i (d ← r; Ok (set_disp (set_loops s (<[i := LTop]> (loops s))) d))
  | run_fire_nil t : loops s !! i = Some (LFire None t) -> run_step s i Panic
  | run_next_bad : loops s !! i = Some LTop -> nextLaunch (disp s) = Panic -> run_step s i Panic.

(** Clients, loops and the clock, interleaved. *)
Inductive dstep (s : sys) : outcome sys -> Prop :=
  | ds_add j per : (0 < clock s)%Z -> dstep s ('(d, _) ← Add (disp s) (clock s) j per; Ok (set_disp s d))
  | ds_remove id : dstep s ('(d, _) ← Remove (disp s) id; Ok (set_disp s d))
  | ds_enable en : dstep s (SetEnabled s en)
  | ds_run i r : run_step s i r -> dstep s r
  | ds_recv j js : eventCh (disp s) = j :: js -> dstep s (Ok (set_disp s (drain_event (disp s))))
  | ds_tick t : (clock s <= t)%Z -> dstep s (Ok (mkS (disp s) (closed s) (nextch s) (loops s) t)).

Definition sys0 (now : Z) : sys := mkS NewDispatcher ∅ 0 [] now.

Inductive reachable (now : Z) : sys -> Prop :=
  | reach_0 : reachable now (sys0 now)
  | reach_step s s' : reachable now s -> dstep s (Ok s') -> reachable now s'.

(** The interleavings as executable schedules. *)
Inductive act := AAdd (j : string) (per : Z) | ARemove (id : string) | AEnable (en : bool)
  | ANext (i : nat) | ASelect (i : nat) | ACancel (i : nat) | AUpdate (i : nat) | ALaunch (i : nat) | AFire (i : nat)
  | ARecv | ATick (t : Z).

Definition act_step (s : sys) (a : act) : option (outcome sys) :=
  match a with
  | AAdd j per => if (0 <? clock s)%Z then Some ('(d, _) ← Add (disp s) (clock s) j per; Ok (set_disp s d)) else None
  | ARemove id => Some ('(d, _) ← Remove (disp s) id; Ok (set_disp s d))
  | AEnable en => Some (SetEnabled s en)
  | ANext i =>
      match loops s !! i, nextLaunch (disp s) with
      | Some LTop, Ok r => Some (Ok (set_loops s (<[i := LHave r.1 r.2]> (loops s))))
      | _, _ => None
      end
  | ASelect i =>
      match loops s !! i with
      | Some (LHave pj t) => Some (Ok (set_loops s (<[i := LWait (cancelCh (disp s)) pj t]> (loops s))))
      | _ => None
      end
  | ACancel i =>
      match loops s !! i with
      | Some (LWait (Some c) pj t) =>
          if bool_decide (c ∈ closed s) then Some (Ok (set_loops s (delete i (loops s)))) else None
      | _ => None
      end
  | AUpdate i =>
      match loops s !! i with
      | Some (LWait c pj t) =>
          if (0 <? updateCh (disp s))%nat
          then Some (Ok (set_disp (set_loops s (<[i := LTop]> (loops s))) (drain_update (disp s)))) else None
      | _ => None
      end
  | ALaunch i =>
      match loops s !! i with
      | Some (LWait c pj t) =>
          if negb (IsZero t) && (t <=? clock s)%Z then Some (Ok (set_loops s (<[i := LFire pj t]> (loops s)))) else None
      | _ => None
      end
  | AFire i =>
      match loops s !! i with
      | Some (LFire (Some pj) t) =>
          Some (d ← dispatch (disp s) pj t; Ok (set_disp (set_loops s (<[i := LTop]> (loops s))) d))
      | _ => None
      end
  | ARecv => match eventCh (disp s) with [] => None | _ :: _ => Some (Ok (set_disp s (drain_event (disp s)))) end
  | ATick t => if (clock s <=? t)%Z then Some (Ok (mkS (disp s) (closed s) (nextch s) (loops s) t)) else None
  end.

Fixpoint schedule (s : sys) (acts : list act) : option sys :=
  match acts with
  | [] => Some s
  | a :: acts => match act_step s a with Some (Ok s') => schedule s' acts | _ => None end
  end.

Lemma act_step_sound s a r : act_step s a = Some r -> dstep s r.
Proof.
  destruct a; simpl; intros H; repeat case_match; simplify_eq; try apply Z.ltb_lt in H0;
    try (econstructor; by eauto); try (eapply ds_run; econstructor; by eauto).
  - eapply ds_run. econstructor; [done|]. by case_bool_decide.
  - eapply ds_run. econstructor; [done|]. by apply Nat.ltb_lt.
  - apply andb_true_iff in H2 as [H2 H3]. eapply ds_run. eapply run_launch; [done| |blia].
    by destruct (IsZero launch).
  - constructor. blia.
Qed.

Lemma schedule_reachable now s acts s' : reachable now s -> schedule s acts = Some s' -> reachable now s'.
Proof.
  revert s. induction acts as [|a acts IH]; intros s R H; simpl in H; simplify_eq; [done|].
  destruct (act_step s a) as [[s1| | |]|] eqn:E; try done.
  eapply IH; [|exact H]. eapply reach_step; [exact R|]. by apply (act_step_sound s a).
Qed.

(** ** The invariant *)

Definition loop_ok (s : sys) (l : loop_pc) : Prop :=
  match l with
  | LTop => True
  | LHave pj t | LWait _ pj t => IsZero t = false -> is_Some pj
  | LFire pj t => is_Some pj /\ (t <= clock s)%Z
  end.

Record dinv (d : Dispatcher) : Prop := {
  inv_wf : wf (dheap d);
  inv_dom : forall id, is_Some (tracked d !! id) <-> is_Some (abs (dheap d) !! id);
  inv_job : forall id pj, tracked d !! id = Some pj -> job pj = id;
  inv_entry : forall id pj t, abs (dheap d) !! id = Some (pj, t) -> job pj = id;
  inv_event : (length (eventCh d) <= 10)%nat;
  inv_update : (updateCh d <= 1)%nat;
}.

Record sinv (s : sys) : Prop := {
  sinv_d : dinv (disp s);
  sinv_cancel : enabled (disp s) = true -> exists c, cancelCh (disp s) = Some c /\ c ∉ closed s /\ (c < nextch s)%nat;
  sinv_closed : forall c, c ∈ closed s -> (c < nextch s)%nat;
  sinv_loops : forall l, l ∈ loops s -> loop_ok s l;
}.

(** [Add] on every branch. *)
Lemma Add_ok d now j per : dinv d ->
  exists d' e, Add d now j per = Ok (d', e) /\ dinv d' /\ enabled d' = enabled d /\ cancelCh d' = cancelCh d /\
    eventCh d' = eventCh d /\ tracked d' = <[j := mkPJob j per]> (tracked d) /\
    match tracked d !! j with
    | None => abs (dheap d') = <[j := (mkPJob j per, now + per)%Z]> (abs (dheap d)) /\ updateCh d' = 1%nat /\ e = None
    | Some _ => dheap d' = dheap d /\ updateCh d' = updateCh d /\ e = Some ("job (" ++ j ++ ") already exists")%string
    end.
Proof.
  intros I. unfold Add. simpl. destruct (ph_Push_ok (dheap d) (mkPJob j per) (now + per)%Z (inv_wf _ I)) as (p' & e & -> & W' & H).
  cbn [mbind outcome_bind job] in *. pose proof (inv_dom _ I j) as Hj.
  assert (forall pj id, <[j:=mkPJob j per]> (tracked d) !! id = Some pj -> job pj = id) as Hjob.
  { intros pj id. rewrite lookup_insert_Some. intros [[<- <-]|[_ ?]]; [done|]. by eapply inv_job. }
  destruct (abs (dheap d) !! j) as [x|] eqn:Ea, (tracked d !! j) as [y|] eqn:Et;
    try (exfalso; destruct Hj as [H1 H2]; (destruct H1; [by eexists|done]) || (destruct H2; [by eexists|done])).
  - destruct H as [-> ->]. eexists _, _. split_and!; [done| |done..]. split; simpl; [apply I| |eauto|apply I..].
    intros id. destruct (decide (id = j)) as [->|].
    + rewrite lookup_insert_eq, Ea. by split; eexists.
    + rewrite lookup_insert_ne by done. apply I.
  - destruct H as [Hab ->]. eexists _, _. split_and!; [done| |done..| |done|done]; [|done].
    split; simpl; [done| |eauto| |apply I|lia].
    + intros id. rewrite Hab. destruct (decide (id = j)) as [->|].
      * rewrite !lookup_insert_eq. by split; eexists.
      * rewrite !lookup_insert_ne by done. apply I.
    + intros id pj t. rewrite Hab, lookup_insert_Some. intros [[<- [= <- <-]]|[_ ?]]; [done|]. by eapply inv_entry.
Qed.

(** [Remove] on every branch; its error never occurs. *)
Lemma Remove_ok d id : dinv d ->
  exists d', Remove d id = Ok (d', None) /\ dinv d' /\ enabled d' = enabled d /\ cancelCh d' = cancelCh d /\
    eventCh d' = eventCh d /\ tracked d' = delete id (tracked d) /\ abs (dheap d') = delete id (abs (dheap d)) /\
    updateCh d' = (if tracked d !! id then 1 else updateCh d)%nat.
Proof.
  intros I. unfold Remove. pose proof (inv_dom _ I id) as Hd. destruct (tracked d !! id) as [pj|] eqn:Et; simpl.
  - rewrite (inv_job _ I _ _ Et). destruct (ph_Remove_ok (dheap d) id (inv_wf _ I)) as (p' & e & -> & W' & Ha & ->).
    cbn [mbind outcome_bind]. destruct (proj1 Hd) as [x ->]; [by eexists|]. eexists. split_and!; try done.
    split; simpl; [done| | | |apply I|lia].
    + intros k. rewrite Ha. destruct (decide (k = id)) as [->|].
      * by rewrite !lookup_delete_eq.
      * rewrite !lookup_delete_ne by done. apply I.
    + intros k q. rewrite lookup_delete_Some. intros [_ ?]. by eapply inv_job.
    + intros k q t. rewrite Ha, lookup_delete_Some. intros [_ ?]. by eapply inv_entry.
  - exists d. split_and!; try done.
    + by rewrite delete_id.
    + rewrite delete_id; [done|]. apply eq_None_not_Some. intros H. apply Hd in H. by destruct H.
Qed.

Lemma dispatch_ok d pj t : dinv d ->
  exists d', dispatch d pj t = Ok d' /\ dinv d' /\ enabled d' = enabled d /\ cancelCh d' = cancelCh d /\
    tracked d' = tracked d /\ updateCh d' = updateCh d /\
    eventCh d' = (if (length (eventCh d) <? 10)%nat then eventCh d ++ [job pj] else eventCh d) /\
    abs (dheap d') = alter (fun e => (e.1, t + period pj)%Z) (job pj) (abs (dheap d)).
Proof.
  intros I. unfold dispatch. destruct (ph_Update_ok (dheap d) (job pj) (t + period pj)%Z (inv_wf _ I)) as (p' & e & -> & W' & H).
  cbn [mbind outcome_bind]. eexists. split; [done|].
  assert (abs p' = alter (fun e => (e.1, t + period pj)%Z) (job pj) (abs (dheap d))) as Ha.
  { apply map_eq. intros k. destruct (decide (k = job pj)) as [->|Hk].
    - rewrite lookup_alter_eq. destruct (abs (dheap d) !! job pj) as [[q u]|] eqn:E; destruct H as [H _].
      + by rewrite H, lookup_insert_eq.
      + by rewrite H, E.
    - rewrite lookup_alter_ne by done. destruct (abs (dheap d) !! job pj) as [[q u]|] eqn:E; destruct H as [H _].
      + by rewrite H, lookup_insert_ne.
      + by rewrite H. }
  split_and!; try done. split; simpl; [done| |apply I| | |apply I].
  - intros k. rewrite (inv_dom _ I k), Ha. destruct (decide (k = job pj)) as [->|Hk].
    + rewrite lookup_alter_eq. by rewrite fmap_is_Some.
    + by rewrite lookup_alter_ne.
  - intros k q u. rewrite Ha, lookup_alter_Some. intros [(_ & [q' u'] & E & [= -> _])|[_ E]]; by eapply inv_entry.
  - pose proof (inv_event _ I). destruct (Nat.ltb_spec (length (eventCh d)) 10); [|done]. rewrite length_app. simpl. lia.
Qed.

Lemma nextLaunch_ok d : dinv d -> exists pj t, nextLaunch d = Ok (pj, t) /\ (IsZero t = false -> is_Some pj) /\
  match pj with
  | Some pj => abs (dheap d) !! job pj = Some (pj, t) /\ earliest (abs (dheap d)) t
  | None => abs (dheap d) = ∅ /\ IsZero t = true
  end.
Proof.
  intros I. unfold nextLaunch. pose proof (ph_Peek_ok _ (inv_wf _ I)) as HP. rewrite (ph_Length_ok _ (inv_wf _ I)).
  destruct (Nat.eqb_spec (size (abs (dheap d))) 0) as [E|E].
  - apply map_size_empty_inv in E. eexists _, _. split_and!; [done..|]. by rewrite E.
  - destruct (ph_Peek (dheap d)) as [l|].
    + destruct HP as (o & Ho & _ & Ha & He). unfold deref. rewrite Ho. eexists _, _. split_and!; [done|by eexists|].
      split; [by rewrite (inv_entry _ I _ _ _ Ha)|done].
    + rewrite HP in E. done.
Qed.

Lemma loops_insert s l i x y : (forall l, l ∈ loops s -> loop_ok s l) -> loop_ok s x -> loops s !! i = Some y ->
  l ∈ <[i := x]> (loops s) -> loop_ok s l.
Proof.
  intros H Hx Hi [j Hj]%list_elem_of_lookup. destruct (decide (i = j)) as [->|].
  - rewrite list_lookup_insert_eq in Hj by (by eapply lookup_lt_Some). by simplify_eq.
  - rewrite list_lookup_insert_ne in Hj by done. apply H. by eapply list_elem_of_lookup_2.
Qed.

Lemma sinv_set_loops s ls : sinv s -> (forall l, l ∈ ls -> loop_ok s l) -> sinv (set_loops s ls).
Proof. intros [] H. by split. Qed.

Lemma sinv_set_disp s d : sinv s -> dinv d -> enabled d = enabled (disp s) -> cancelCh d = cancelCh (disp s) ->
  sinv (set_disp s d).
Proof. intros I Hd He Hc. split; simpl; [done| |apply I|apply I]. rewrite He, Hc. apply I. Qed.

Lemma dinv_drain d u es : dinv d -> (length es <= 10)%nat -> (u <= 1)%nat ->
  dinv (mkD (dheap d) (tracked d) (enabled d) es u (cancelCh d)).
Proof. intros [] He Hu. by split. Qed.

Lemma run_step_inv s i r : sinv s -> run_step s i r -> exists s', r = Ok s' /\ sinv s'.
Proof.
  intros I H. pose proof (sinv_loops _ I) as Hl. pose proof (sinv_d _ I) as Id.
  assert (forall l, loops s !! i = Some l -> loop_ok s l) as Hli by (intros; eapply Hl, list_elem_of_lookup_2; eauto).
  destruct H as [[pj t] Hi Hn|pj t Hi|c pj t Hi Hc|c pj t Hi Hu|c pj t Hi Hz Ht|pj t r Hi <-|t Hi|Hi Hn].
  - destruct (nextLaunch_ok _ Id) as (pj' & t' & E & Hs & _). rewrite E in Hn. simplify_eq.
    eexists. split; [done|]. apply sinv_set_loops; [done|]. intros l. by eapply loops_insert.
  - eexists. split; [done|]. apply sinv_set_loops; [done|]. intros l. eapply loops_insert; [done| |done].
    exact (Hli _ Hi).
  - eexists. split; [done|]. apply sinv_set_loops; [done|]. intros l [j Hj]%list_elem_of_lookup. apply Hl.
    rewrite list_lookup_delete in Hj. case_match; by eapply list_elem_of_lookup_2.
  - eexists. split; [done|]. apply sinv_set_disp; [|apply dinv_drain; [done|apply Id|pose proof (inv_update _ Id); lia]|done..].
    apply sinv_set_loops; [done|]. intros l. by eapply loops_insert.
  - eexists. split; [done|]. apply sinv_set_loops; [done|]. intros l. eapply loops_insert; [done| |done].
    split; [|done]. by apply (Hli _ Hi).
  - destruct (dispatch_ok (disp s) pj t Id) as (d' & -> & Id' & He & Hc & _). cbn [mbind outcome_bind].
    eexists. split; [done|]. apply sinv_set_disp; [|done..].
    apply sinv_set_loops; [done|]. intros l. by eapply loops_insert.
  - exfalso. destruct (Hli _ Hi) as [[? ?] _]. done.
  - exfalso. destruct (nextLaunch_ok _ Id) as (pj' & t' & E & _). by rewrite E in Hn.
Qed.

Lemma SetEnabled_inv s en : sinv s -> exists s', SetEnabled s en = Ok s' /\ sinv s'.
Proof.
  intros I. pose proof (sinv_d _ I) as Id. unfold SetEnabled.
  assert (forall c, dinv (mkD (dheap (disp s)) (tracked (disp s)) en (eventCh (disp s)) (updateCh (disp s)) c)) as Hd
    by (intros c; destruct Id; by split).
  destruct en, (enabled (disp s)) eqn:E; simpl.
  - eexists. split; [done|]. split; simpl; [done| |apply I|apply I]. intros _. by apply I.
  - eexists. split; [done|]. split; simpl; [done| | |].
    + intros _. eexists. split_and!; [done| |lia]. intros Hc%(sinv_closed _ I). lia.
    + intros c Hc%(sinv_closed _ I). lia.
    + intros l [Hl| ->%list_elem_of_singleton]%elem_of_app; [by apply (sinv_loops _ I)|done].
  - destruct (sinv_cancel _ I E) as (c & -> & Hc & Hlt). rewrite bool_decide_eq_false_2 by done.
    eexists. split; [done|]. split; simpl; [done|done| |apply I].
    intros c' [->%elem_of_singleton|?%(sinv_closed _ I)]%elem_of_union; done.
  - eexists. split; [done|]. split; simpl; [done|done|apply I|apply I].
Qed.

Lemma dstep_inv s r : sinv s -> dstep s r -> exists s', r = Ok s' /\ sinv s'.
Proof.
  intros I H. pose proof (sinv_d _ I) as Id. destruct H as [j per Hc|id|en|i r Hr|j js He|t Ht].
  - destruct (Add_ok (disp s) (clock s) j per Id) as (d' & e & -> & Id' & He & Hcc & _). cbn [mbind outcome_bind].
    eexists. split; [done|]. by apply sinv_set_disp.
  - destruct (Remove_ok (disp s) id Id) as (d' & -> & Id' & He & Hcc & _). cbn [mbind outcome_bind].
    eexists. split; [done|]. by apply sinv_set_disp.
  - by apply SetEnabled_inv.
  - by eapply run_step_inv.
  - eexists. split; [done|]. apply sinv_set_disp; [done| |done..]. apply dinv_drain; [done| |apply Id].
    pose proof (inv_event _ Id) as Hl. rewrite He in *. simpl in *. lia.
  - eexists. split; [done|]. split; simpl; [done|apply I|apply I|].
    intros l Hl%(sinv_loops _ I). destruct l; simpl in *; try done. destruct Hl. split; [done|lia].
Qed.

Lemma reachable_inv now s : reachable now s -> sinv s.
Proof.
  induction 1 as [|s s' R IH H].
  - split; simpl; [|done|set_solver|by intros l ?%elem_of_nil]. split; simpl; [apply wf_new| |done| |lia|lia].
    + intros id. rewrite lookup_abs. simpl. rewrite !lookup_empty. simpl. by split; intros [? ?].
    + intros id pj t. rewrite lookup_abs. simpl. by rewrite lookup_empty.
  - destruct (dstep_inv s _ IH H) as (s1 & [= <-] & ?). done.
Qed.

(** ** Properties of the dispatcher *)

(** C20: safety of the dispatcher under every interleaving of clients ([Add], [Remove],
    [SetEnabled], receives), loops of [run] and the clock.  In every reachable state the ids of
    [tracked] are exactly the ids in the heap, the heap is well formed, no more than 10 events are
    queued, a loop fires a job not before the launch time that it peeked (which may be stale by then), and
    no step panics: neither a nil job, nor a close of a closed channel, nor an index out of range. *)
Theorem dispatcher_safe now s : reachable now s ->
  wf (dheap (disp s)) /\ dom (tracked (disp s)) = dom (abs (dheap (disp s))) /\
  (length (eventCh (disp s)) <= 10)%nat /\
  (forall pj t, LFire pj t ∈ loops s -> is_Some pj /\ (t <= clock s)%Z) /\
  forall r, dstep s r -> exists s', r = Ok s'.
Proof.
  intros R. pose proof (reachable_inv _ _ R) as I. pose proof (sinv_d _ I) as Id. split_and!.
  - apply Id.
  - apply set_eq. intros id. rewrite !elem_of_dom. apply Id.
  - apply Id.
  - intros pj t H. exact (sinv_loops _ I _ H).
  - intros r H. destruct (dstep_inv s r I H) as (s' & -> & _). eauto.
Qed.

(** what [Add] does on every branch.  A new id enters [tracked] and the heap, due one period
    from now, and the loop is signalled.  For an id that is already there the comment says
    "Add or update": [tracked] takes the new job, but the heap keeps the old one with its old
    period, no signal is sent and the call fails. *)
Theorem Add_correct now s j per : reachable now s ->
  exists d' e, Add (disp s) (clock s) j per = Ok (d', e) /\
    tracked d' = <[j := mkPJob j per]> (tracked (disp s)) /\
    match tracked (disp s) !! j with
    | None => abs (dheap d') = <[j := (mkPJob j per, clock s + per)%Z]> (abs (dheap (disp s))) /\
              updateCh d' = 1%nat /\ e = None
    | Some _ => abs (dheap d') = abs (dheap (disp s)) /\ updateCh d' = updateCh (disp s) /\
              e = Some ("job (" ++ j ++ ") already exists")%string
    end.
Proof.
  intros R. pose proof (sinv_d _ (reachable_inv _ _ R)) as I.
  destruct (Add_ok (disp s) (clock s) j per I) as (d' & e & H1 & _ & _ & _ & _ & H2 & H3).
  exists d', e. split_and!; [done..|]. destruct (tracked (disp s) !! j); [|done]. destruct H3 as (-> & ? & ?). done.
Qed.

(** A job that was removed can still be dispatched.  A loop whose timer fired for [j] before
    [Remove] took [j] out sends the event all the same: [dispatch] drops the error of [Update]. *)
Theorem dispatch_after_remove : exists s s' j,
  reachable 1 s /\ Contains (disp s) j = false /\ eventCh (disp s) = [] /\
  dstep s (Ok s') /\ eventCh (disp s') = [j].
Proof.
  destruct (schedule (sys0 1) [AAdd "a" 5; AEnable true; ANext 0; ASelect 0; ATick 6; ALaunch 0; ARemove "a"])
    as [s|] eqn:E; [|by vm_compute in E].
  destruct (act_step s (AFire 0)) as [[s'| | |]|] eqn:E'; try (vm_compute in E; simplify_eq; by vm_compute in E').
  exists s, s', "a". split_and!.
  - by eapply schedule_reachable; [constructor|].
  - vm_compute in E. by simplify_eq.
  - vm_compute in E. by simplify_eq.
  - by eapply act_step_sound.
  - vm_compute in E. simplify_eq. vm_compute in E'. by simplify_eq.
Qed.

(** disabling and enabling again can leave two loops running for good.  A loop that is inside
    [dispatch] when [SetEnabled(false)] closes its channel reads the field again afterwards and
    waits on the channel of the next [SetEnabled(true)], next to the loop that call started. *)
Theorem two_loops_after_restart : exists s c, reachable 1 s /\
  cancelCh (disp s) = Some c /\ c ∉ closed s /\ length (loops s) = 2%nat /\
  Forall (fun l => exists pj t, l = LWait (Some c) pj t) (loops s).
Proof.
  destruct (schedule (sys0 1)
    [AAdd "a" 5; AEnable true; ANext 0; ASelect 0; ATick 6; ALaunch 0; AEnable false; AEnable true;
     AFire 0; ANext 0; ASelect 0; ANext 1; ASelect 1]) as [s|] eqn:E; [|by vm_compute in E].
  exists s, 1%nat. split; [by eapply schedule_reachable; [constructor|]|].
  assert (bool_decide (1%nat ∉ closed s) = true) as Hc by (vm_compute in E; by simplify_eq).
  apply bool_decide_eq_true_1 in Hc. vm_compute in E. simplify_eq. split_and!; [done..|].
  repeat constructor; eauto.
Qed.

(** A job can fire before it is due.  The loop waits for the launch time it peeked; if the job is removed and added
    again with a longer period meanwhile, the old timer and the signal are both ready, and the [select] may
    take the timer: the job of period 5 fires at 6, while the job in the heap is due at 101. *)
Theorem early_fire : exists s pj, reachable 1 s /\ LFire (Some pj) 6 ∈ loops s /\ clock s = 6%Z /\
  abs (dheap (disp s)) !! ("a")%string = Some (mkPJob "a" 100, 101%Z).
Proof.
  destruct (schedule (sys0 1) [AAdd "a" 5; AEnable true; ANext 0; ASelect 0; ARemove "a"; AAdd "a" 100; ATick 6; ALaunch 0]) as [s|] eqn:E; [|by vm_compute in E].
  exists s, (mkPJob "a" 5). split; [by eapply schedule_reachable; [constructor|]|]. vm_compute in E. simplify_eq. split_and!; [by left|done|vm_compute; done].
Qed.

(** The state after adding the job [a] with period 5 at time 1. *)
Lemma dispatcher_safe_witness : exists s, reachable 1 s /\ dom (tracked (disp s)) = {["a"]} /\
  wf (dheap (disp s)) /\ dom (tracked (disp s)) = dom (abs (dheap (disp s))).
Proof.
  destruct (schedule (sys0 1) [AAdd "a" 5; AEnable true; ANext 0; ASelect 0; ATick 6; ALaunch 0]) as [s|] eqn:E; [|by vm_compute in E].
  assert (reachable 1 s) as R by (by eapply schedule_reachable; [constructor|]).
  exists s. split_and!.
  - exact R.
  - vm_compute in E. by simplify_eq.
  - exact (proj1 (dispatcher_safe 1 s R)).
  - exact (proj1 (proj2 (dispatcher_safe 1 s R))).
Defined.

Lemma Add_correct_witness : exists s d' e, reachable 1 s /\ Add (disp s) (clock s) "a" 7 = Ok (d', e) /\
  e = Some ("job (a) already exists")%string.
Proof.
  destruct (schedule (sys0 1) [AAdd "a" 5]) as [s|] eqn:E; [|by vm_compute in E].
  assert (reachable 1 s) as R by (by eapply schedule_reachable; [constructor|]).
  destruct (Add_correct 1 s "a" 7 R) as (d' & e & HA & _ & H).
  exists s, d', e. split_and!; [exact R|exact HA|].
  assert (tracked (disp s) !! ("a")%string = Some (mkPJob "a" 5)) as Et by (vm_compute in E; by simplify_eq).
  rewrite Et in H. by destruct H as (_ & _ & ->).
Defined.
