(* ===== verification/Rlp.v ===== *)
(** * The RLP library as an interface

    Every message of the program is encoded with [github.com/umbracle/fastrlp], which is not part
    of the repository.  [FastRLP] lists the operations the sources call, with the documented laws
    their correctness rests on; the codecs of the messages and their round trips are proved against
    it.  [reference_rlp] shows that the laws can hold: the RLP encoding of byte strings and lists,
    written out and proved to satisfy them. *)

From stdpp Require Import base strings numbers list.
From S2P Require Import Prelude GoStd.
Local Open Scope Z_scope.

(** ** The interface *)

(** A length that fits Go's [int]. *)
Definition len_ok (b : bytes) : Prop := Z.of_nat (length b) < 2 ^ 63.

Class FastRLP := {
  Value : Type;
  NewUint : Z -> Value;                     (* Arena.NewUint *)
  NewBytes : bytes -> Value;                (* Arena.NewBytes, NewCopyBytes; NewString through its bytes *)
  NewBool : bool -> Value;                  (* Arena.NewBool *)
  NewBigInt : Z -> Value;                   (* Arena.NewBigInt of a non-nil, nonnegative integer *)
  NewArray : list Value -> Value;           (* Arena.NewArray followed by Set of each element; NewNullArray *)
  MarshalTo : Value -> bytes;               (* Value.MarshalTo(nil) *)
  Parse : bytes -> option Value;            (* Parser.Parse; bytes after the first value are ignored *)
  GetElems : Value -> option (list Value);  (* error unless an array *)
  GetUint64 : Value -> option Z;            (* error unless at most 8 bytes *)
  GetBytes : Value -> option nat -> option bytes;  (* GetBytes, GetString; the length is checked if given *)
  GetBool : Value -> option bool;           (* error unless 0x01 or the empty string *)
  GetBigInt : Value -> option Z;            (* big-endian *)
  TypeBytes : Value -> bool;                (* v.Type() == fastrlp.TypeBytes *)
  Raw : Value -> bytes;                     (* v.Raw() *)
  valid : Value -> Prop;                    (* made of machine bytes and 64-bit integers *)
  valid_uint n : u64_ok n -> valid (NewUint n);
  valid_bytes b : bytes_ok b -> valid (NewBytes b);
  valid_bool b : valid (NewBool b);
  valid_bigint n : 0 <= n -> valid (NewBigInt n);
  valid_array l : Forall valid l -> valid (NewArray l);
  MarshalTo_ok v : valid v -> bytes_ok (MarshalTo v);
  Parse_MarshalTo v rest : valid v -> len_ok (MarshalTo v) -> Parse (MarshalTo v ++ rest) = Some v;
  MarshalTo_small n : 0 < n < 128 -> MarshalTo (NewUint n) = [n];
  MarshalTo_zero : MarshalTo (NewUint 0) = [128];
  MarshalTo_big n : 128 <= n < 2 ^ 64 -> exists k r, MarshalTo (NewUint n) = (128 + k) :: r /\
    1 <= k <= 8 /\ k = Z.of_nat (length r);
  MarshalTo_array l : (length (concat (map MarshalTo l)) < 56)%nat ->
    MarshalTo (NewArray l) = (192 + Z.of_nat (length (concat (map MarshalTo l)))) :: concat (map MarshalTo l);
  MarshalTo_len_bytes b : (length b <= length (MarshalTo (NewBytes b)) <= length b + 9)%nat;
  MarshalTo_len_uint n : (1 <= length (MarshalTo (NewUint n)) <= 9)%nat;
  MarshalTo_len_array l : (length (concat (map MarshalTo l)) <= length (MarshalTo (NewArray l)) <=
                           length (concat (map MarshalTo l)) + 9)%nat;
  GetElems_array l : GetElems (NewArray l) = Some l;
  GetElems_bytes b : GetElems (NewBytes b) = None;
  GetElems_uint n : GetElems (NewUint n) = None;
  GetUint64_uint n : u64_ok n -> GetUint64 (NewUint n) = Some n;
  GetBytes_bytes b n : GetBytes (NewBytes b) n =
    match n with Some n => if (length b =? n)%nat then Some b else None | None => Some b end;
  GetBytes_uint n : exists b, GetBytes (NewUint n) None = Some b /\ (length b <= 8)%nat;
  GetBool_bool b : GetBool (NewBool b) = Some b;
  GetBigInt_bigint n : 0 <= n -> GetBigInt (NewBigInt n) = Some n;
  GetUint64_range v n : GetUint64 v = Some n -> u64_ok n;
  GetBigInt_range v n : GetBigInt v = Some n -> 0 <= n;
  GetBytes_length v n b : GetBytes v (Some n) = Some b -> length b = n;
  GetBytes_array l n : GetBytes (NewArray l) n = None;
  TypeBytes_bytes b : TypeBytes (NewBytes b) = true;
  Raw_bytes b : Raw (NewBytes b) = b;
}.

#[export] Hint Resolve valid_uint valid_bytes valid_bool valid_bigint valid_array MarshalTo_ok string_bytes_ok : devp2p.

Section Derived.
Context `{FastRLP}.

(** [a.NewString(s)] and [v.GetString()]. *)
Definition NewString (s : string) : Value := NewBytes (string_bytes s).
Definition GetString (v : Value) : option string := bytes_string <$> GetBytes v None.

(** [v.GetHash(dst)]: 32 bytes; [v.Bytes()]: any length. *)
Definition GetHash (v : Value) : option bytes := GetBytes v (Some 32%nat).
Definition Value_Bytes (v : Value) : option bytes := GetBytes v None.

Lemma GetString_string s : GetString (NewString s) = Some s.
Proof. unfold GetString, NewString. rewrite GetBytes_bytes. simpl. by rewrite bytes_string_bytes. Qed.

Lemma valid_string s : valid (NewString s).
Proof. apply valid_bytes, string_bytes_ok. Qed.

Lemma Parse_MarshalTo' v : valid v -> len_ok (MarshalTo v) -> Parse (MarshalTo v) = Some v.
Proof. intros. rewrite <-(app_nil_r (MarshalTo v)). by apply Parse_MarshalTo. Qed.

Lemma GetBytes_exact b n : length b = n -> GetBytes (NewBytes b) (Some n) = Some b.
Proof. intros <-. by rewrite GetBytes_bytes, Nat.eqb_refl. Qed.

Lemma GetHash_bytes b : length b = 32%nat -> GetHash (NewBytes b) = Some b.
Proof. apply GetBytes_exact. Qed.

End Derived.

#[export] Hint Resolve valid_string : devp2p.

(** Evaluate the getters on freshly made values. *)
Ltac rlp_get :=
  repeat first
    [ rewrite Parse_MarshalTo' by (auto with devp2p) | rewrite GetElems_array | rewrite GetElems_bytes
    | rewrite GetElems_uint | rewrite GetUint64_uint by (auto with devp2p) | rewrite GetString_string
    | rewrite GetBool_bool | rewrite GetBigInt_bigint by (auto with devp2p) | rewrite GetHash_bytes by (auto with devp2p)
    | rewrite GetBytes_exact by (auto with devp2p) | rewrite GetBytes_bytes | rewrite TypeBytes_bytes | rewrite Raw_bytes
    | progress cbn [mbind outcome_bind of_option length Nat.ltb Nat.leb Nat.eqb idx lookup list_lookup negb option_bind] ].

(** ** RLP, written out *)

Module RefRLP.

Inductive item := Str (b : bytes) | Arr (l : list item).

(** An integer without leading zeros; zero is the empty string. *)
Fixpoint strip0 (b : bytes) : bytes :=
  match b with 0 :: b' => strip0 b' | _ => b end.
Definition be_min (n : Z) : bytes := strip0 (be_put 8 n).

Definition header (off : Z) (n : nat) : bytes :=
  if (n <? 56)%nat then [off + Z.of_nat n]
  else let lb := be_min (Z.of_nat n) in (off + 55 + Z.of_nat (length lb)) :: lb.

Definition enc_str (b : bytes) : bytes :=
  match b with
  | [x] => if x <? 128 then [x] else header 128 1 ++ b
  | _ => header 128 (length b) ++ b
  end.

Fixpoint enc (v : item) : bytes :=
  match v with
  | Str b => enc_str b
  | Arr l => let p := concat (map enc l) in header 192 (length p) ++ p
  end.

(** The payload announced by the first byte [x], for the offset [off]. *)
Definition payload (off x : Z) (r : bytes) : option (bytes * bytes) :=
  if x <? off + 56 then
    let n := Z.to_nat (x - off) in
    if (n <=? length r)%nat then Some (take n r, drop n r) else None
  else
    let k := Z.to_nat (x - (off + 55)) in
    if (k <=? length r)%nat then
      let n := be_get (take k r) in
      if n <=? Z.of_nat (length (drop k r)) then Some (take (Z.to_nat n) (drop k r), drop (Z.to_nat n) (drop k r)) else None
    else None.

Fixpoint dec (fuel : nat) (b : bytes) {struct fuel} : option (item * bytes) :=
  match fuel with
  | O => None
  | S f =>
      match b with
      | [] => None
      | x :: r =>
          if x <? 128 then Some (Str [x], r)
          else if x <? 192 then '(p, r) ← payload 128 x r; Some (Str p, r)
          else '(p, r) ← payload 192 x r; l ← dec_list f p; Some (Arr l, r)
      end
  end
with dec_list (fuel : nat) (b : bytes) {struct fuel} : option (list item) :=
  match fuel with
  | O => None
  | S f =>
      match b with
      | [] => Some []
      | _ => '(v, r) ← dec f b; l ← dec_list f r; Some (v :: l)
      end
  end.

Definition parse (b : bytes) : option item := fst <$> dec (2 * length b + 1) b.

Fixpoint item_ok (v : item) : Prop :=
  match v with
  | Str b => bytes_ok b
  | Arr l => fold_right (fun v P => item_ok v /\ P) True l
  end.

Lemma item_ind' (P : item -> Prop) :
  (forall b, P (Str b)) -> (forall l, Forall P l -> P (Arr l)) -> forall v, P v.
Proof.
  intros HS HA. fix IH 1. intros [b|l]; [apply HS|]. apply HA. induction l; constructor; [apply IH|done].
Qed.

Lemma item_ok_arr l : item_ok (Arr l) <-> Forall item_ok l.
Proof.
  simpl. induction l as [|v l IH]; simpl; [by split; constructor|]. split.
  - intros [? ?]. constructor; [done|by apply IH].
  - intros [? ?]%Forall_cons. split; [done|by apply IH].
Qed.

(** *** Round trip *)

Lemma be_get_strip0 b : be_get (strip0 b) = be_get b.
Proof. induction b as [|x b IH]; [done|]. destruct x; [|done..]. simpl. by rewrite IH. Qed.

Lemma strip0_length b : (length (strip0 b) <= length b)%nat.
Proof. induction b as [|x b IH]; [done|]. simpl. destruct x; simpl; lia. Qed.

Lemma strip0_ok b : bytes_ok b -> bytes_ok (strip0 b).
Proof. induction 1 as [|x b Hx Hb IH]; [constructor|]. simpl. destruct x; [done|by constructor..]. Qed.

Lemma be_min_get n : u64_ok n -> be_get (be_min n) = n.
Proof. intros H. unfold be_min. rewrite be_get_strip0. by apply be_put_get. Qed.

Lemma be_min_length n : (length (be_min n) <= 8)%nat.
Proof. unfold be_min. etrans; [apply strip0_length|]. by rewrite length_be_put. Qed.

Lemma be_min_ok n : bytes_ok (be_min n).
Proof. apply strip0_ok, be_put_ok. Qed.

Lemma be_min_pos n : u64_ok n -> 0 < n -> (1 <= length (be_min n))%nat.
Proof. intros H Hn. pose proof (be_min_get n H). destruct (be_min n); simpl in *; [|lia]. unfold be_get in H0. simpl in H0. lia. Qed.

(** A nonnegative integer of any size, with as many bytes as it needs. *)
Definition be_big (n : Z) : bytes := strip0 (be_put (Z.to_nat (Z.log2 n / 8 + 1)) n).

Lemma be_big_get n : 0 <= n -> be_get (be_big n) = n.
Proof.
  intros Hn. unfold be_big. rewrite be_get_strip0. apply be_put_get. split; [done|].
  pose proof (Z.log2_nonneg n). pose proof (Z.div_mod (Z.log2 n) 8 ltac:(done)). pose proof (Z.mod_pos_bound (Z.log2 n) 8 ltac:(done)).
  assert (0 <= Z.log2 n / 8) by (apply Z.div_pos; lia).
  rewrite Z2Nat.id by lia. destruct (decide (n = 0)) as [->|]; [by apply Z.pow_pos_nonneg|].
  apply Z.log2_lt_pow2; lia.
Qed.

Lemma header_ok off n : (off = 128 \/ off = 192) -> bytes_ok (header off n).
Proof.
  intros Ho. unfold header. pose proof (be_min_length (Z.of_nat n)).
  destruct (Nat.ltb_spec n 56); constructor; unfold byte_ok; try lia; [constructor|apply be_min_ok].
Qed.

(** The payload is found after its header. *)
Lemma payload_header off p rest : Z.of_nat (length p) < 2 ^ 63 ->
  exists x h, header off (length p) = x :: h /\ off <= x <= off + 63 /\ payload off x (h ++ p ++ rest) = Some (p, rest).
Proof.
  intros Hp. unfold header. destruct (Nat.ltb_spec (length p) 56) as [Hs|Hs].
  - eexists _, []. split_and!; [done|lia|lia|]. unfold payload. rewrite (proj2 (Z.ltb_lt _ _)) by lia.
    replace (Z.to_nat (off + Z.of_nat (length p) - off)) with (length p) by lia. simpl.
    rewrite (proj2 (Nat.leb_le _ _)) by (rewrite length_app; lia). by rewrite take_app_length, drop_app_length.
  - assert (u64_ok (Z.of_nat (length p))) as Hu by (unfold u64_ok; lia).
    pose proof (be_min_length (Z.of_nat (length p))). pose proof (be_min_pos _ Hu ltac:(lia)).
    eexists _, _. split_and!; [done|lia|lia|]. unfold payload. rewrite (proj2 (Z.ltb_ge _ _)) by lia.
    set (lb := be_min _) in *.
    replace (Z.to_nat (off + 55 + Z.of_nat (length lb) - (off + 55))) with (length lb) by lia.
    rewrite (proj2 (Nat.leb_le _ _)) by (rewrite length_app; lia). rewrite take_app_length, drop_app_length.
    unfold lb. rewrite be_min_get by done. rewrite (proj2 (Z.leb_le _ _)) by (rewrite length_app; lia).
    rewrite Nat2Z.id. by rewrite take_app_length, drop_app_length.
Qed.

(** The fuel a value needs. *)
Fixpoint cost (v : item) : nat :=
  match v with
  | Str _ => 1
  | Arr l => S (fold_right (fun v n => S (Nat.max (cost v) n)) 1%nat l)
  end.
Definition cost_list (l : list item) : nat := fold_right (fun v n => S (Nat.max (cost v) n)) 1%nat l.

Lemma header_length off n : (1 <= length (header off n) <= 9)%nat.
Proof. unfold header. pose proof (be_min_length (Z.of_nat n)). destruct (n <? 56)%nat; cbn [length]; lia. Qed.

Lemma enc_str_length b : (1 <= length (enc_str b) /\ length b <= length (enc_str b) <= length b + 9)%nat.
Proof.
  assert (forall n, 1 <= length (header 128 n ++ b) /\ length b <= length (header 128 n ++ b) <= length b + 9)%nat as Hh.
  { intros n. rewrite length_app. pose proof (header_length 128 n). lia. }
  unfold enc_str. destruct b as [|x [|y b]]; [apply Hh| |apply Hh].
  destruct (x <? 128); [cbn [length]; lia|apply Hh].
Qed.

Lemma enc_nonempty v : (1 <= length (enc v))%nat.
Proof.
  destruct v as [b|l]; [apply enc_str_length|]. cbn [enc]. rewrite length_app.
  pose proof (header_length 192 (length (concat (map enc l)))). lia.
Qed.

Lemma cost_bound v : (cost v <= 2 * length (enc v))%nat.
Proof.
  induction v as [b|l IH] using item_ind'.
  - pose proof (enc_nonempty (Str b)). cbn [cost enc] in *. lia.
  - assert (cost_list l <= 1 + 2 * length (concat (map enc l)))%nat as Hl.
    { induction IH as [|v l Hv _ IHl]; simpl; [lia|]. rewrite length_app. pose proof (enc_nonempty v).
      fold (cost_list l). lia. }
    cbn [cost enc]. fold (cost_list l). rewrite length_app.
    pose proof (header_length 192 (length (concat (map enc l)))). lia.
Qed.

Lemma dec_str f b rest : bytes_ok b -> Z.of_nat (length b) < 2 ^ 63 -> dec (S f) (enc_str b ++ rest) = Some (Str b, rest).
Proof.
  intros Hb Hl. assert (forall b, Z.of_nat (length b) < 2 ^ 63 -> dec (S f) ((header 128 (length b) ++ b) ++ rest) = Some (Str b, rest)) as Hd.
  { clear. intros b Hl. destruct (payload_header 128 b rest Hl) as (x & h & -> & Hx & Hp).
    rewrite <-app_assoc. simpl. rewrite (proj2 (Z.ltb_ge _ _)), (proj2 (Z.ltb_lt _ _)) by lia. by rewrite Hp. }
  unfold enc_str. destruct b as [|x [|y b]]; [by apply Hd| |by apply Hd].
  destruct (Z.ltb_spec x 128) as [Hx|Hx]; [|by apply (Hd [x])].
  simpl. by rewrite (proj2 (Z.ltb_lt _ _)) by lia.
Qed.

Lemma enc_sub_length l : (length (concat (map enc l)) <= length (enc (Arr l)))%nat.
Proof. cbn [enc]. rewrite length_app. lia. Qed.

Lemma dec_enc v : forall f rest, item_ok v -> Z.of_nat (length (enc v)) < 2 ^ 63 -> (cost v <= f)%nat ->
  dec f (enc v ++ rest) = Some (v, rest).
Proof.
  induction v as [b|l IH] using item_ind'; intros f rest Hok Hlen Hf.
  - destruct f; [simpl in Hf; lia|]. cbn [enc] in *. apply dec_str; [done|].
    pose proof (enc_str_length b). lia.
  - apply item_ok_arr in Hok. destruct f as [|f]; [simpl in Hf; lia|]. cbn [cost] in Hf. fold (cost_list l) in Hf.
    pose proof (enc_sub_length l) as Hsub.
    assert (dec_list f (concat (map enc l)) = Some l) as Hlist.
    { assert (Z.of_nat (length (concat (map enc l))) < 2 ^ 63) as Hp by lia. clear Hlen Hsub.
      assert (cost_list l <= f)%nat as Hf' by lia. clear Hf. revert f Hf'. induction IH as [|v l Hv _ IHl]; intros f Hf.
      - destruct f; [simpl in Hf; lia|done].
      - simpl in Hf. fold (cost_list l) in Hf. destruct f as [|f]; [lia|]. apply Forall_cons in Hok as [Hv' Hl'].
        simpl in Hp. rewrite length_app in Hp. simpl.
        pose proof (enc_nonempty v). destruct (enc v ++ concat (map enc l)) as [|z q] eqn:E.
        { apply (f_equal length) in E. rewrite length_app in E. simpl in E. lia. }
        rewrite <-E. rewrite Hv by (done || lia). simpl. rewrite IHl by (done || lia). done. }
    cbn [enc]. destruct (payload_header 192 (concat (map enc l)) rest) as (x & h & -> & Hx & Hp); [lia|].
    rewrite <-app_assoc. simpl. rewrite (proj2 (Z.ltb_ge _ _)), (proj2 (Z.ltb_ge _ _)) by lia. by rewrite Hp; simpl; rewrite Hlist.
Qed.

Lemma parse_enc v rest : item_ok v -> len_ok (enc v) -> parse (enc v ++ rest) = Some v.
Proof.
  intros Hok Hl. unfold parse. rewrite dec_enc; [done|done|done|].
  etrans; [apply cost_bound|]. rewrite length_app. lia.
Qed.

Lemma enc_ok v : item_ok v -> bytes_ok (enc v).
Proof.
  induction v as [b|l IH] using item_ind'; intros Hok.
  - cbn [enc]. unfold enc_str. destruct b as [|x [|y b]].
    + rewrite app_nil_r. apply header_ok. auto.
    + destruct (x <? 128); [done|]. apply Forall_app. split; [apply header_ok; auto|done].
    + apply Forall_app. split; [apply header_ok; auto|done].
  - apply item_ok_arr in Hok. cbn [enc]. apply Forall_app. split; [apply header_ok; auto|].
    clear -IH Hok. induction IH as [|v l Hv _ IHl]; simpl; [constructor|].
    apply Forall_cons in Hok as [? ?]. apply Forall_app. auto.
Qed.

(** A number of [k+1] significant bytes starts with a nonzero byte. *)
Lemma be_min_small n : 0 < n < 128 -> be_min n = [n].
Proof.
  intros H. pose proof (byte_cases (fun n => negb ((0 <? n) && (n <? 128)) || bool_decide (be_min n = [n])) eq_refl n) as E.
  cbv beta in E. rewrite (proj2 (Z.ltb_lt 0 n)), (proj2 (Z.ltb_lt n 128)) in E by lia. cbn [andb negb orb] in E.
  specialize (E ltac:(unfold byte_ok; lia)). by apply bool_decide_eq_true_1 in E.
Qed.

Definition get_uint (v : item) : option Z :=
  match v with
  | Str b => if (length b <=? 8)%nat && (0 <=? be_get b) && (be_get b <? 2 ^ 64) then Some (be_get b) else None
  | Arr _ => None
  end.
Definition get_bytes (v : item) (n : option nat) : option bytes :=
  match v with
  | Str b => match n with Some n => if (length b =? n)%nat then Some b else None | None => Some b end
  | Arr _ => None
  end.

Definition get_bool (v : item) : option bool :=
  match v with Str [] => Some false | Str [1] => Some true | _ => None end.
Definition get_bigint (v : item) : option Z :=
  match v with Str b => if 0 <=? be_get b then Some (be_get b) else None | Arr _ => None end.

Lemma enc_uint_big n : 128 <= n < 2 ^ 64 -> exists k r, enc (Str (be_min n)) = (128 + k) :: r /\
  1 <= k <= 8 /\ k = Z.of_nat (length r).
Proof.
  intros H. cbn [enc]. pose proof (be_min_length n) as Hl. pose proof (be_min_get n ltac:(unfold u64_ok; lia)) as Hg.
  unfold enc_str. destruct (be_min n) as [|x [|y b]] eqn:E.
  - unfold be_get in Hg. simpl in Hg. lia.
  - change (be_get [x]) with (Z.lor (Z.shiftl 0 8) x) in Hg. rewrite Z.shiftl_0_l, Z.lor_0_l in Hg. subst x. rewrite (proj2 (Z.ltb_ge _ _)) by lia.
    exists 1. eexists. split; [reflexivity|done].
  - unfold header. rewrite (proj2 (Nat.ltb_lt _ _)) by lia.
    eexists _, _. split; [reflexivity|]. cbn [length app] in *. lia.
Qed.

Lemma enc_uint_length n : (1 <= length (enc (Str (be_min n))) <= 9)%nat.
Proof.
  cbn [enc]. pose proof (be_min_length n). unfold enc_str. destruct (be_min n) as [|x [|y b]]; [cbn; lia| |].
  - destruct (x <? 128); cbn; lia.
  - unfold header. rewrite (proj2 (Nat.ltb_lt _ _)) by lia. cbn [length app] in *. lia.
Qed.

End RefRLP.
Import RefRLP.

(** The laws hold of RLP. *)
#[global] Program Instance reference_rlp : FastRLP := {
  Value := item;
  NewUint n := Str (be_min n);
  NewBytes b := Str b;
  NewBool b := Str (if b then [1] else []);
  NewBigInt n := Str (be_big n);
  NewArray l := Arr l;
  MarshalTo := enc;
  Parse := parse;
  GetElems v := match v with Arr l => Some l | Str _ => None end;
  GetUint64 := get_uint;
  GetBytes := get_bytes;
  GetBool := get_bool;
  GetBigInt := get_bigint;
  TypeBytes v := match v with Str _ => true | Arr _ => false end;
  Raw v := match v with Str b => b | Arr _ => [] end;
  valid := item_ok;
}.
Next Obligation. intros n Hn. apply be_min_ok. Qed.
Next Obligation. done. Qed.
Next Obligation. intros []; repeat constructor; done. Qed.
Next Obligation. intros n Hn. apply strip0_ok, be_put_ok. Qed.
Next Obligation. intros l Hl. by apply item_ok_arr. Qed.
Next Obligation. apply enc_ok. Qed.
Next Obligation. apply parse_enc. Qed.
Next Obligation. intros n Hn. cbn [enc]. rewrite be_min_small by done. simpl. by rewrite (proj2 (Z.ltb_lt _ _)) by lia. Qed.
Next Obligation. done. Qed.
Next Obligation. apply enc_uint_big. Qed.
Next Obligation. intros l Hl. cbn [enc]. unfold header. by rewrite (proj2 (Nat.ltb_lt _ _)). Qed.
Next Obligation. intros b. apply enc_str_length. Qed.
Next Obligation. apply enc_uint_length. Qed.
Next Obligation. intros l. cbn [enc]. rewrite length_app. pose proof (header_length 192 (length (concat (map enc l)))). lia. Qed.
Next Obligation. done. Qed.
Next Obligation. done. Qed.
Next Obligation. done. Qed.
Next Obligation.
  intros n Hn. unfold get_uint. rewrite (proj2 (Nat.leb_le _ _)) by apply be_min_length. rewrite be_min_get by done.
  unfold u64_ok in Hn. by rewrite (proj2 (Z.leb_le _ _)), (proj2 (Z.ltb_lt _ _)) by lia.
Qed.
Next Obligation. done. Qed.
Next Obligation. intros n. eexists. split; [done|apply be_min_length]. Qed.
Next Obligation. by intros []. Qed.
Next Obligation. intros n Hn. unfold get_bigint. rewrite be_big_get by done. by rewrite (proj2 (Z.leb_le _ _)). Qed.
Next Obligation.
  intros [b|l] n; cbn [get_uint]; [|done]. case_if; [|done]. intros [= <-]. unfold u64_ok. blia.
Qed.
Next Obligation. intros [b|l] n; cbn [get_bigint]; [|done]. case_if; [|done]. intros [= <-]. blia. Qed.
Next Obligation. intros [b|l] n c; cbn [get_bytes]; [|done]. case_if; [|done]. intros [= <-]. blia. Qed.
Next Obligation. done. Qed.
Next Obligation. done. Qed.
Next Obligation. done. Qed.

(** The vector of [forkid_test.go]: a list of two 4-byte strings. *)
Example rlp_vector :
  MarshalTo (NewArray [NewBytes [0xde; 0xad; 0xbe; 0xef]; NewBytes [0xba; 0xdd; 0xca; 0xfe]]) =
  [0xca; 0x84; 0xde; 0xad; 0xbe; 0xef; 0x84; 0xba; 0xdd; 0xca; 0xfe].
Proof. reflexivity. Qed.
