(* ===== verification/Crypto.v ===== *)
(** * Keys, signatures and hashes

    [crypto/crypto.go] and the key conversions of [enode/enode.go].  The curve ([btcec])
    and the Keccak permutation ([x/crypto/sha3]) are third-party code: [Curve] and [Keccak] list
    what the sources call with the documented laws the program rests on.  Points are
    pairs of coordinates, [elliptic.Marshal] and [Unmarshal] are those of the Go library. *)

From stdpp Require Import base strings numbers list.
From S2P Require Import Prelude GoStd.
Local Open Scope Z_scope.

(** ** The interfaces *)

(** [ecdsa.PublicKey] on the curve [S256]. *)
Record PublicKey := mkPub { pub_X : Z; pub_Y : Z }.

#[global] Instance PublicKey_eq_dec : EqDecision PublicKey.
Proof. solve_decision. Defined.

Definition coord_ok (c : Z) : Prop := 0 <= c < 2 ^ 256.

Class Curve := {
  PrivateKey : Type;
  pub_of : PrivateKey -> PublicKey;                      (* prv.PublicKey *)
  curve_P : Z;                                           (* the order of the field *)
  IsOnCurve : Z -> Z -> bool;
  SignCompact : PrivateKey -> bytes -> option bytes;     (* btcec.SignCompact(S256, prv, hash, false) *)
  RecoverCompact : bytes -> bytes -> option PublicKey;   (* btcec.RecoverCompact(S256, sig, hash) *)
  curve_P_bound : curve_P <= 2 ^ 256;
  pub_on_curve k : IsOnCurve (pub_X (pub_of k)) (pub_Y (pub_of k)) = true;
  pub_in_field k : 0 <= pub_X (pub_of k) < curve_P /\ 0 <= pub_Y (pub_of k) < curve_P;
  sign_compact k h : length h = 32%nat -> exists v r,
    SignCompact k h = Some (v :: r) /\ (v = 27 \/ v = 28) /\ length r = 64%nat /\ bytes_ok r /\
    RecoverCompact (v :: r) h = Some (pub_of k);
  recover_on_curve sig h p : RecoverCompact sig h = Some p ->
    IsOnCurve (pub_X p) (pub_Y p) = true /\ 0 <= pub_X p < curve_P /\ 0 <= pub_Y p < curve_P;
}.

(** Private keys as bytes: [btcec.PrivKeyFromBytes] takes any number, [Serialize] pads it to 32 bytes. *)
Class PrivateKeys `{Curve} := {
  key_D : PrivateKey -> Z;                               (* prv.D *)
  PrivKeyFromBytes : bytes -> PrivateKey;
  Serialize : PrivateKey -> bytes;
  from_bytes_D b : bytes_ok b -> key_D (PrivKeyFromBytes b) = be_get b;
  serialize_D k : 0 <= key_D k < 2 ^ 256 -> Serialize k = be_put 32 (key_D k);
  key_D_inj k k' : key_D k = key_D k' -> k = k';
}.

(** [sha3.NewLegacyKeccak256]: the digest of everything written. *)
Class Keccak := {
  keccak : bytes -> bytes;
  keccak_length b : length (keccak b) = 32%nat;
  keccak_ok b : bytes_ok (keccak b);
}.

(** A running [hash.Hash]: its state is what has been written to it; [Sum(nil)] does not change it. *)
Abbreviation hash_Hash := bytes.
Definition hash_Write (h : hash_Hash) (b : bytes) : hash_Hash := h ++ b.
Definition hash_Sum `{Keccak} (h : hash_Hash) : bytes := keccak h.

(** ** [crypto/elliptic] *)

Definition elliptic_Marshal (p : PublicKey) : bytes := 4 :: be_put 32 (pub_X p) ++ be_put 32 (pub_Y p).

Definition elliptic_Unmarshal `{Curve} (b : bytes) : option PublicKey :=
  if negb (length b =? 65)%nat then None
  else if negb (default 0 (b !! 0%nat) =? 4) then None
  else
    let x := be_get (take 32 (drop 1 b)) in
    let y := be_get (drop 33 b) in
    if (curve_P <=? x) || (curve_P <=? y) then None
    else if negb (IsOnCurve x y) then None
    else Some (mkPub x y).

(** ** crypto.go *)

(** No buffer is refused. *)
Definition ParsePrivateKey `{PrivateKeys} (buf : bytes) : outcome PrivateKey := Ok (PrivKeyFromBytes buf).
Definition MarshallPrivateKey `{PrivateKeys} (priv : PrivateKey) : outcome bytes := Ok (Serialize priv).

Definition ParsePublicKey `{Curve} (buf : bytes) : outcome PublicKey :=
  of_option "cannot unmarshall" (elliptic_Unmarshal buf).

Definition MarshallPublicKey (pub : PublicKey) : bytes := elliptic_Marshal pub.

(** [signature[size-1]] and [signature[:size-1]] panic on an empty signature. *)
Definition RecoverPubkey `{Curve} (signature hash : bytes) : outcome PublicKey :=
  let size := length signature in
  match last signature with
  | None => Panic
  | Some v =>
      let term := if v =? 1 then 28 else 27 in
      let sig := [term] ++ take (size - 1) signature in
      of_option "invalid signature" (RecoverCompact sig hash)
  end.

Definition Ecrecover `{Curve} (hash sig : bytes) : outcome bytes :=
  pub ← RecoverPubkey sig hash; Ok (MarshallPublicKey pub).

Definition Sign `{Curve} (priv : PrivateKey) (hash : bytes) : outcome bytes :=
  sig ← of_option "failed to sign" (SignCompact priv hash);
  s0 ← idx sig 0;
  let term := if s0 =? 28 then 1 else 0 in
  Ok (drop 1 (sig ++ [term])).

Definition Keccak256 `{Keccak} (v : list bytes) : bytes := hash_Sum (foldl hash_Write [] v).

(** ** enode.go: identifiers *)

Definition nodeIDBytes : nat := 64.

Definition NodeIDToPubKey `{Curve} (buf : bytes) : outcome PublicKey :=
  if negb (length buf =? nodeIDBytes)%nat then
    Err ("not enough length: expected " ++ fmt_d (Z.of_nat nodeIDBytes) ++ " but found " ++ fmt_d (Z.of_nat (length buf)))%string
  else
    let half := (length buf / 2)%nat in
    let x := be_get (take half buf) in
    let y := be_get (drop half buf) in
    if negb (IsOnCurve x y) then Err "id is invalid secp256k1 curve point"
    else Ok (mkPub x y).

Definition zero_ID : bytes := replicate nodeIDBytes 0.

(** A nil key is dereferenced: [pub.X]. *)
Definition PubkeyToEnode (pub : option PublicKey) : outcome bytes :=
  match pub with
  | None => Panic
  | Some p => Ok (copy zero_ID (drop 1 (MarshallPublicKey p)))
  end.

Definition ID_String (id : bytes) : string := hex_EncodeToString id.

(** ** Lemmas *)

Lemma elliptic_Marshal_length p : length (elliptic_Marshal p) = 65%nat.
Proof. unfold elliptic_Marshal. cbn [length]. by rewrite length_app, !length_be_put. Qed.

Lemma elliptic_Marshal_ok p : bytes_ok (elliptic_Marshal p).
Proof. unfold elliptic_Marshal. constructor; [unfold byte_ok; lia|]. apply Forall_app. split; apply be_put_ok. Qed.

Lemma be32_get x : coord_ok x -> be_get (be_put 32 x) = x.
Proof. intros. apply be_put_get. exact H. Qed.

Section CurveLemmas.
Context `{Curve}.

Definition on_curve (p : PublicKey) : Prop :=
  IsOnCurve (pub_X p) (pub_Y p) = true /\ 0 <= pub_X p < curve_P /\ 0 <= pub_Y p < curve_P.

Lemma on_curve_pub k : on_curve (pub_of k).
Proof. split; [apply pub_on_curve|apply pub_in_field]. Qed.

Lemma on_curve_coords p : on_curve p -> coord_ok (pub_X p) /\ coord_ok (pub_Y p).
Proof. pose proof curve_P_bound. intros (_ & ? & ?). unfold coord_ok. lia. Qed.

Lemma ParsePublicKey_Marshall p : on_curve p -> ParsePublicKey (MarshallPublicKey p) = Ok p.
Proof.
  intros Hp. destruct (on_curve_coords p Hp) as [Hx Hy]. destruct Hp as (Hc & Hx' & Hy').
  unfold ParsePublicKey, MarshallPublicKey, elliptic_Unmarshal. rewrite elliptic_Marshal_length. cbn [Nat.eqb negb].
  unfold elliptic_Marshal. change (negb (default 0 ((4 :: _) !! 0%nat) =? 4)) with false. cbv iota.
  change (drop 1 (4 :: ?l)) with l. change (drop 33 (4 :: ?l)) with (drop 32 l).
  rewrite take_app_le by (by rewrite length_be_put). rewrite take_ge by (by rewrite length_be_put).
  rewrite drop_app_ge by (by rewrite length_be_put). rewrite length_be_put. change (32 - 32)%nat with 0%nat. rewrite drop_0.
  rewrite !be32_get by done. rewrite (proj2 (Z.leb_gt _ _)), (proj2 (Z.leb_gt _ _)) by lia. cbn [orb].
  rewrite Hc. cbn [negb of_option]. by destruct p.
Qed.

(** The id of a key determines the key. *)
Lemma NodeIDToPubKey_id p : on_curve p -> NodeIDToPubKey (drop 1 (MarshallPublicKey p)) = Ok p.
Proof.
  intros Hp. destruct (on_curve_coords p Hp) as [Hx Hy]. destruct Hp as (Hc & _).
  unfold NodeIDToPubKey, MarshallPublicKey, elliptic_Marshal. change (drop 1 (4 :: ?l)) with l.
  rewrite length_app, !length_be_put. cbn [Nat.add Nat.eqb nodeIDBytes negb].
  change (64 / 2)%nat with 32%nat.
  rewrite take_app_le by (by rewrite length_be_put). rewrite take_ge by (by rewrite length_be_put).
  rewrite drop_app_ge by (by rewrite length_be_put). rewrite length_be_put. change (32 - 32)%nat with 0%nat. rewrite drop_0.
  rewrite !be32_get by done. rewrite Hc. cbn [negb]. by destruct p.
Qed.

Lemma PubkeyToEnode_eq p : PubkeyToEnode (Some p) = Ok (drop 1 (MarshallPublicKey p)).
Proof.
  unfold PubkeyToEnode. rewrite copy_full; [done|]. unfold zero_ID. rewrite length_replicate, length_drop.
  unfold MarshallPublicKey. by rewrite elliptic_Marshal_length.
Qed.

(** A signature recovers the key that made it. *)
Lemma Sign_RecoverPubkey k h : length h = 32%nat ->
  exists sig, Sign k h = Ok sig /\ length sig = 65%nat /\ bytes_ok sig /\ RecoverPubkey sig h = Ok (pub_of k).
Proof.
  intros Hh. destruct (sign_compact k h Hh) as (v & r & Hs & Hv & Hl & Hb & Hr).
  unfold Sign. rewrite Hs. cbn [of_option mbind outcome_bind idx lookup list_lookup].
  exists (r ++ [if v =? 28 then 1 else 0]). split_and!.
  - done.
  - rewrite length_app, Hl. done.
  - apply Forall_app. split; [done|]. repeat constructor; destruct (v =? 28); unfold byte_ok; lia.
  - unfold RecoverPubkey. rewrite last_snoc, length_app, Hl. cbn [length]. change (64 + 1 - 1)%nat with 64%nat.
    rewrite take_app_le by lia. rewrite take_ge by lia.
    replace (if (if v =? 28 then 1 else 0) =? 1 then 28 else 27) with v; [simpl; by rewrite Hr|].
    by destruct Hv as [-> | ->].
Qed.

Lemma Keccak256_concat `{Keccak} v : Keccak256 v = keccak (concat v).
Proof.
  unfold Keccak256, hash_Sum. f_equal. unfold hash_Write.
  assert (forall acc, foldl (fun h b => h ++ b) acc v = acc ++ concat v) as Hf; [|by rewrite Hf].
  induction v as [|b v IH]; intros acc; simpl; [by rewrite app_nil_r|]. by rewrite IH, app_assoc.
Qed.

End CurveLemmas.

(** ** Concrete instances for evaluation

    A curve on which every point with ordinate 0 lies, whose signatures name the signer, and a
    digest that folds its input: they satisfy the laws and compute. *)

Definition toy_pub (d : N) : PublicKey := mkPub (Z.of_N d mod 2 ^ 128) 0.

#[global] Program Instance toy_curve : Curve := {
  PrivateKey := N;
  pub_of := toy_pub;
  curve_P := 2 ^ 256;
  IsOnCurve x y := y =? 0;
  SignCompact d h := Some (27 :: be_put 32 (pub_X (toy_pub d)) ++ replicate 32 0);
  RecoverCompact sig h :=
    if (length sig =? 65)%nat && forallb (fun b => (0 <=? b) && (b <? 256)) sig
    then Some (mkPub (be_get (take 32 (drop 1 sig)) mod 2 ^ 128) 0) else None;
}.
Next Obligation. lia. Qed.
Next Obligation. done. Qed.
Next Obligation. intros k. simpl. pose proof (Z.mod_pos_bound (Z.of_N k) (2 ^ 128)). lia. Qed.
Next Obligation.
  intros k h _. pose proof (Z.mod_pos_bound (Z.of_N k) (2 ^ 128) ltac:(lia)) as Hb. eexists _, _. split; [done|].
  assert (bytes_ok (be_put 32 (pub_X (toy_pub k)) ++ replicate 32 0)) as Hok.
  { apply Forall_app. split; [apply be_put_ok|apply Forall_byte_replicate; unfold byte_ok; lia]. }
  assert (length (be_put 32 (pub_X (toy_pub k)) ++ replicate 32 0) = 64%nat) as Hlen by (by rewrite length_app, length_be_put, length_replicate).
  split_and!; [by left|done|done|].
  cbn [length]. rewrite Hlen. cbn [Nat.eqb andb].
  rewrite (proj2 (forallb_forall _ _)).
  - change (drop 1 (27 :: ?l)) with l. rewrite take_app_le by (by rewrite length_be_put). rewrite take_ge by (by rewrite length_be_put).
    rewrite be32_get by (unfold coord_ok; simpl; lia). unfold toy_pub. cbn [pub_X]. by rewrite Z.mod_mod by lia.
  - intros b Hin%list_elem_of_In. assert (byte_ok b) as Hb'.
    { apply elem_of_cons in Hin as [->|Hin]; [unfold byte_ok; lia|]. rewrite Forall_forall in Hok. by apply Hok. }
    unfold byte_ok in Hb'. apply andb_true_iff. split; [apply Z.leb_le|apply Z.ltb_lt]; lia.
Qed.
Next Obligation.
  intros sig h p. simpl. case_match; [|done]. intros [= <-]. simpl.
  pose proof (Z.mod_pos_bound (be_get (take 32 (drop 1 sig))) (2 ^ 128)). split; [done|lia].
Qed.

#[global] Program Instance toy_private : PrivateKeys := {
  key_D := Z.of_N;
  PrivKeyFromBytes b := Z.to_N (be_get b);
  Serialize k := be_put 32 (Z.of_N k);
}.
Next Obligation. intros b Hb. simpl. apply Z2N.id, be_get_bound, Hb. Qed.
Next Obligation. done. Qed.
Next Obligation. intros k k'. simpl. apply N2Z.inj. Qed.

(** Private keys survive being written and read.  A key below 2^256 is written as 32 bytes, from which it is
    read again; up to 32 bytes, read as a key, are written back as they were, filled up with zeros in
    front. *)
Theorem private_key_roundtrip `{PrivateKeys} :
  (forall k, 0 <= key_D k < 2 ^ 256 -> exists b, MarshallPrivateKey k = Ok b /\ length b = 32%nat /\ ParsePrivateKey b = Ok k) /\
  (forall b, bytes_ok b -> (length b <= 32)%nat -> exists k, ParsePrivateKey b = Ok k /\ MarshallPrivateKey k = Ok (replicate (32 - length b) 0 ++ b)).
Proof.
  unfold MarshallPrivateKey, ParsePrivateKey. split.
  - intros k Hk. rewrite (serialize_D k Hk). eexists. split_and!; [done|apply length_be_put|]. f_equal. apply key_D_inj.
    rewrite from_bytes_D by apply be_put_ok. by apply be_put_get.
  - intros b Hb Hl. eexists. split; [done|]. assert (bytes_ok (replicate (32 - length b) 0 ++ b)) as Hp.
    { apply Forall_app. split; [apply Forall_byte_replicate; unfold byte_ok; lia|done]. }
    assert (length (replicate (32 - length b) 0 ++ b) = 32%nat) as Hlen by (rewrite length_app, length_replicate; lia).
    pose proof (be_get_bound _ Hp) as Hr. rewrite Hlen, be_get_zeros in Hr.
    rewrite serialize_D; rewrite from_bytes_D by done; [|exact Hr]. by rewrite <-(be_get_put _ Hp), Hlen, be_get_zeros at 1.
Qed.

Definition toy_digest (b : bytes) : Z := foldl (fun acc x => (acc * 131 + x + 1) mod 2 ^ 256) 7 b.

#[global] Program Instance toy_keccak : Keccak := { keccak b := be_put 32 (toy_digest b) }.
Next Obligation. intros. apply length_be_put. Qed.
Next Obligation. intros. apply be_put_ok. Qed.
