(* ===== verification/RlpxMsg.v ===== *)
(** * The messages of the RLPx session

    [rlpx/common.go] (disconnect reasons, capabilities, the [Info] message) and
    [rlpx/handshake_messages.go] (the two messages of the encryption handshake, in RLP and in the
    plain layout of old clients).  The text of errors that come from the RLP library is not
    specified; it is the constant [rlp_error]. *)

From stdpp Require Import base strings numbers list.
From S2P Require Import Prelude GoStd Rlp Crypto.
Local Open Scope Z_scope.

Definition rlp_error : string := "rlp".

(** ** Constants and disconnect reasons *)

Definition BaseProtocolVersion : Z := 5.
Definition BaseProtocolLength : Z := 16.
Definition baseProtocolMaxMsgSize : Z := 2 * 1024.
Definition snappyProtocolVersion : Z := 5.

Definition handshakeMsg : Z := 0.
Definition discMsg : Z := 1.
Definition pingMsg : Z := 2.
Definition pongMsg : Z := 3.

Definition DiscRequested : Z := 0.
Definition DiscProtocolError : Z := 2.
Definition DiscTooManyPeers : Z := 4.
Definition DiscInvalidIdentity : Z := 7.
Definition DiscQuitting : Z := 8.
Definition DiscSubprotocolError : Z := 16.
Definition DiscUnknown : Z := 256.

Definition DiscReason_String (d : Z) : string :=
  if d =? 0 then "disconnect requested"
  else if d =? 1 then "network error"
  else if d =? 2 then "breach of protocol"
  else if d =? 3 then "useless peer"
  else if d =? 4 then "too many peers"
  else if d =? 5 then "already connected"
  else if d =? 6 then "incompatible p2p protocol version"
  else if d =? 7 then "invalid node identity"
  else if d =? 8 then "client quitting"
  else if d =? 9 then "unexpected identity"
  else if d =? 10 then "connected to self"
  else if d =? 11 then "read timeout"
  else if d =? 16 then "subprotocol error"
  else "unknown disconnect reason: " ++ fmt_d d.

(** ** Data *)

Record Cap := mkCap { cap_Name : string; cap_Version : Z }.

Record Info := mkInfo {
  info_Version : Z;
  info_Name : string;
  info_Caps : list Cap;
  info_ListenPort : Z;
  info_ID : bytes;       (* enode.ID, an array of 64 bytes *)
}.

#[global] Instance Cap_eq_dec : EqDecision Cap.
Proof. solve_decision. Defined.
#[global] Instance Info_eq_dec : EqDecision Info.
Proof. solve_decision. Defined.

Definition zero_Info : Info := mkInfo 0 "" [] 0 zero_ID.

Record authMsgV4 := mkAuth {
  am_gotPlain : bool;
  am_Signature : bytes;
  am_InitiatorPubkey : bytes;
  am_Nonce : bytes;
  am_Version : Z;
}.

Record authRespV4 := mkResp { ar_RandomPubkey : bytes; ar_Nonce : bytes; ar_Version : Z }.

Definition sigLen : nat := 65.
Definition pubLen : nat := 64.
Definition shaLen : nat := 32.
Definition authMsgLen : nat := sigLen + shaLen + pubLen + shaLen + 1.
Definition authRespLen : nat := pubLen + shaLen + 1.

(** [new(authMsgV4)]: nil slices. *)
Definition new_authMsg : authMsgV4 := mkAuth false [] [] [] 0.
Definition new_authResp : authRespV4 := mkResp [] [] 0.

Definition Cap_less (c cc : Cap) : bool :=
  let a := string_bytes (cap_Name c) in let b := string_bytes (cap_Name cc) in
  if bytes_equal a b then cap_Version c <? cap_Version cc else bytes_less a b.

Section Codecs.
Context `{FastRLP}.

(** A value and a non-nil error can both be returned: the reason is [DiscUnknown] on errors. *)
Definition decodeDiscMsg (buf : bytes) : Z * option string :=
  match Parse buf with
  | None => (DiscUnknown, Some rlp_error)
  | Some v =>
      let num elem :=
        match GetUint64 elem with
        | None => (DiscUnknown, Some ("failed to decode disc reason uint64: " ++ rlp_error)%string)
        | Some n => (n, None)
        end in
      match GetElems v with
      | Some [elem] => num elem
      | Some _ => (DiscUnknown, Some ("expected one item")%string)
      | None => num v
      end
  end.

Definition Cap_unmarshalRLP (v : Value) : outcome Cap :=
  fields ← of_option rlp_error (GetElems v);
  if negb (length fields =? 2)%nat then Err "bad parsing" else
  f0 ← idx fields 0; name ← of_option rlp_error (GetString f0);
  f1 ← idx fields 1; version ← of_option rlp_error (GetUint64 f1);
  Ok (mkCap name version).

Definition Info_fields (i : Info) : list Value :=
  [ NewUint (info_Version i);
    NewString (info_Name i);
    NewArray ((fun cap => NewArray [NewString (cap_Name cap); NewUint (cap_Version cap)]) <$> info_Caps i);
    NewUint (info_ListenPort i);
    NewBytes (info_ID i) ].

Definition Info_MarshalRLP (i : Info) (dst : bytes) : bytes := dst ++ MarshalTo (NewArray (Info_fields i)).

(** The receiver [i] keeps the capabilities it has. *)
Definition Info_UnmarshalRLP (i : Info) (b : bytes) : outcome Info :=
  v ← of_option rlp_error (Parse b);
  elems ← of_option rlp_error (GetElems v);
  if (length elems <? 5)%nat then Err "bad length cc" else
  e0 ← idx elems 0; version ← of_option rlp_error (GetUint64 e0);
  e1 ← idx elems 1; name ← of_option rlp_error (GetString e1);
  e2 ← idx elems 2; caps ← of_option rlp_error (GetElems e2);
  caps ← mapO Cap_unmarshalRLP caps;
  e3 ← idx elems 3; port ← of_option rlp_error (GetUint64 e3);
  e4 ← idx elems 4;
  if negb (TypeBytes e4) then Err "bad" else
  if negb (length (Raw e4) =? nodeIDBytes)%nat then Err "bad.2" else
  Ok (mkInfo version name (info_Caps i ++ caps) port (copy (info_ID i) (Raw e4))).

(** ** The handshake messages *)

Definition authMsg_UnmarshalRLP (a : authMsgV4) (b : bytes) : outcome authMsgV4 :=
  v ← of_option rlp_error (Parse b);
  elems ← of_option rlp_error (GetElems v);
  if (length elems <? 4)%nat then Err "bad" else
  e0 ← idx elems 0; sig ← of_option rlp_error (GetBytes e0 (Some sigLen));
  e1 ← idx elems 1; pub ← of_option rlp_error (GetBytes e1 (Some pubLen));
  e2 ← idx elems 2; nonce ← of_option rlp_error (GetBytes e2 (Some shaLen));
  e3 ← idx elems 3; version ← of_option rlp_error (GetUint64 e3);
  Ok (mkAuth (am_gotPlain a) sig pub nonce version).

Definition authMsg_fields (a : authMsgV4) : list Value :=
  [NewBytes (am_Signature a); NewBytes (am_InitiatorPubkey a); NewBytes (am_Nonce a); NewUint (am_Version a)].

Definition authMsg_MarshalRLP (a : authMsgV4) (dst : bytes) : bytes := dst ++ MarshalTo (NewArray (authMsg_fields a)).

Definition authResp_UnmarshalRLP (a : authRespV4) (b : bytes) : outcome authRespV4 :=
  v ← of_option rlp_error (Parse b);
  elems ← of_option rlp_error (GetElems v);
  if (length elems <? 3)%nat then Err "bad.1" else
  e0 ← idx elems 0; pub ← of_option ("failed to decode randompub: " ++ rlp_error) (GetBytes e0 (Some pubLen));
  e1 ← idx elems 1; nonce ← of_option ("failed to decode nonce: " ++ rlp_error) (GetBytes e1 (Some shaLen));
  e2 ← idx elems 2; version ← of_option ("failed to decode version: " ++ rlp_error) (GetUint64 e2);
  Ok (mkResp pub nonce version).

Definition authResp_fields (a : authRespV4) : list Value :=
  [NewBytes (ar_RandomPubkey a); NewBytes (ar_Nonce a); NewUint (ar_Version a)].

Definition authResp_MarshalRLP (a : authRespV4) (dst : bytes) : bytes := dst ++ MarshalTo (NewArray (authResp_fields a)).

End Codecs.

(** The number [copy] returns. *)
Definition copy_n (dst src : bytes) : nat := Nat.min (length dst) (length src).

(** [input[n:]] panics when [n] is past the end. *)
Definition slice_from (b : bytes) (n : nat) : outcome bytes := if (n <=? length b)%nat then Ok (drop n b) else Panic.

(** [copy(buf[n:], src)] in a buffer that is long enough. *)
Definition copy_at (buf : bytes) (n : nat) (src : bytes) : bytes := take n buf ++ copy (drop n buf) src.

(** The plain layout, before encryption: signature, a hash left zero, key, nonce, a zero byte. *)
Definition authMsg_plain (m : authMsgV4) : bytes :=
  let buf := replicate authMsgLen 0 in
  let n := copy_n buf (am_Signature m) in
  let buf := copy buf (am_Signature m) in
  let n := (n + shaLen)%nat in
  let k := copy_n (drop n buf) (am_InitiatorPubkey m) in
  let buf := copy_at buf n (am_InitiatorPubkey m) in
  copy_at buf (n + k) (am_Nonce m).

Definition authMsg_decodePlain (m : authMsgV4) (input : bytes) : outcome authMsgV4 :=
  let n := copy_n (am_Signature m) input in
  let sig := copy (am_Signature m) input in
  let n := (n + shaLen)%nat in
  r ← slice_from input n;
  let k := copy_n (am_InitiatorPubkey m) r in
  let pub := copy (am_InitiatorPubkey m) r in
  r ← slice_from input (n + k);
  Ok (mkAuth true sig pub (copy (am_Nonce m) r) 4).

Definition authResp_plain (m : authRespV4) : bytes :=
  let buf := replicate authRespLen 0 in
  let n := copy_n buf (ar_RandomPubkey m) in
  copy_at (copy buf (ar_RandomPubkey m)) n (ar_Nonce m).

Definition authResp_decodePlain (m : authRespV4) (input : bytes) : outcome authRespV4 :=
  let n := copy_n (ar_RandomPubkey m) input in
  r ← slice_from input n;
  Ok (mkResp (copy (ar_RandomPubkey m) input) (copy (ar_Nonce m) r) 4).

(** ** Round trips *)

Definition info_ok (i : Info) : Prop :=
  u64_ok (info_Version i) /\ u64_ok (info_ListenPort i) /\ bytes_ok (info_ID i) /\ length (info_ID i) = nodeIDBytes /\
  Forall (fun c => u64_ok (cap_Version c)) (info_Caps i).

Definition auth_ok (a : authMsgV4) : Prop :=
  length (am_Signature a) = sigLen /\ bytes_ok (am_Signature a) /\
  length (am_InitiatorPubkey a) = pubLen /\ bytes_ok (am_InitiatorPubkey a) /\
  length (am_Nonce a) = shaLen /\ bytes_ok (am_Nonce a) /\ u64_ok (am_Version a).

Definition resp_ok (a : authRespV4) : Prop :=
  length (ar_RandomPubkey a) = pubLen /\ bytes_ok (ar_RandomPubkey a) /\
  length (ar_Nonce a) = shaLen /\ bytes_ok (ar_Nonce a) /\ u64_ok (ar_Version a).

Section RoundTrips.
Context `{FastRLP}.

Lemma Cap_roundtrip c : u64_ok (cap_Version c) ->
  Cap_unmarshalRLP (NewArray [NewString (cap_Name c); NewUint (cap_Version c)]) = Ok c.
Proof.
  intros Hc. unfold Cap_unmarshalRLP. rewrite GetElems_array. simpl.
  rewrite GetString_string, GetUint64_uint by done. simpl. by destruct c.
Qed.

Lemma Info_valid i extra : info_ok i -> Forall valid extra -> valid (NewArray (Info_fields i ++ extra)).
Proof.
  intros (Hv & Hp & Hb & Hl & Hc) He. apply valid_array. apply Forall_app. split; [|done].
  repeat constructor; auto with devp2p. apply valid_array, Forall_fmap.
  eapply Forall_impl; [exact Hc|]. intros c Hcv. simpl. apply valid_array. repeat constructor; auto with devp2p.
Qed.

(** Decoding an [Info] gives it back, whatever follows it and whatever fields come after the fifth. *)
Lemma Info_decode i j extra rest : info_ok i -> length (info_ID j) = nodeIDBytes -> Forall valid extra ->
  len_ok (MarshalTo (NewArray (Info_fields i ++ extra))) ->
  Info_UnmarshalRLP j (MarshalTo (NewArray (Info_fields i ++ extra)) ++ rest) =
  Ok (mkInfo (info_Version i) (info_Name i) (info_Caps j ++ info_Caps i) (info_ListenPort i) (info_ID i)).
Proof.
  intros Hi Hj He Hlen. unfold Info_UnmarshalRLP. rewrite Parse_MarshalTo by (auto using Info_valid).
  destruct Hi as (Hv & Hp & Hb & Hl & Hc). cbn [of_option mbind outcome_bind]. rewrite GetElems_array.
  cbn [of_option mbind outcome_bind Info_fields app length Nat.ltb Nat.leb idx lookup list_lookup].
  rewrite GetUint64_uint by done. cbn [of_option mbind outcome_bind].
  rewrite GetString_string. cbn [of_option mbind outcome_bind].
  rewrite GetElems_array. cbn [of_option mbind outcome_bind].
  assert (mapO Cap_unmarshalRLP ((fun cap => NewArray [NewString (cap_Name cap); NewUint (cap_Version cap)]) <$> info_Caps i)
    = Ok (info_Caps i)) as ->.
  { rewrite mapO_Ok. rewrite Forall2_fmap_l. apply Forall_Forall2_diag. eapply Forall_impl; [exact Hc|].
    intros c. apply Cap_roundtrip. }
  cbn [of_option mbind outcome_bind]. rewrite GetUint64_uint by done. cbn [of_option mbind outcome_bind].
  rewrite TypeBytes_bytes, Raw_bytes, Hl, Nat.eqb_refl. cbn [negb]. rewrite copy_full by congruence. done.
Qed.

Lemma authMsg_decode a b rest : auth_ok a -> len_ok (authMsg_MarshalRLP a []) ->
  authMsg_UnmarshalRLP b (authMsg_MarshalRLP a [] ++ rest) =
  Ok (mkAuth (am_gotPlain b) (am_Signature a) (am_InitiatorPubkey a) (am_Nonce a) (am_Version a)).
Proof.
  intros (Hs & Hs' & Hp & Hp' & Hn & Hn' & Hv) Hlen. unfold authMsg_UnmarshalRLP, authMsg_MarshalRLP. cbn [app].
  rewrite Parse_MarshalTo; [|apply valid_array; repeat constructor; auto with devp2p|done].
  cbn [of_option mbind outcome_bind]. rewrite GetElems_array.
  cbn [of_option mbind outcome_bind authMsg_fields length Nat.ltb Nat.leb idx lookup list_lookup].
  rewrite !GetBytes_exact by done. cbn [of_option mbind outcome_bind]. by rewrite GetUint64_uint.
Qed.

Lemma authResp_decode a b rest : resp_ok a -> len_ok (authResp_MarshalRLP a []) ->
  authResp_UnmarshalRLP b (authResp_MarshalRLP a [] ++ rest) = Ok a.
Proof.
  intros (Hp & Hp' & Hn & Hn' & Hv) Hlen. unfold authResp_UnmarshalRLP, authResp_MarshalRLP. cbn [app].
  rewrite Parse_MarshalTo; [|apply valid_array; repeat constructor; auto with devp2p|done].
  cbn [of_option mbind outcome_bind]. rewrite GetElems_array.
  cbn [of_option mbind outcome_bind authResp_fields length Nat.ltb Nat.leb idx lookup list_lookup].
  rewrite !GetBytes_exact by done. cbn [of_option mbind outcome_bind]. rewrite GetUint64_uint by done. by destruct a.
Qed.

(** The reason [Disconnect] sends, as two raw bytes, is the reason the peer decodes. *)
Lemma decodeDiscMsg_sent r : 0 < r < 128 -> decodeDiscMsg [0xc1; r] = (r, None).
Proof.
  intros Hr. assert ([0xc1; r] = MarshalTo (NewArray [NewUint r])) as ->.
  { rewrite MarshalTo_array; simpl; rewrite MarshalTo_small by done; [done|simpl; lia]. }
  assert (valid (NewArray [NewUint r])) as Hval by (apply valid_array; repeat constructor; apply valid_uint; unfold u64_ok; lia).
  unfold decodeDiscMsg. rewrite Parse_MarshalTo'; [|done|].
  - rewrite GetElems_array, GetUint64_uint by (unfold u64_ok; lia). done.
  - unfold len_ok. rewrite MarshalTo_array; simpl; rewrite MarshalTo_small by done; simpl; lia.
Qed.

End RoundTrips.

(** ** Properties *)

(** the protocol handshake message round-trips.  Whatever [Info] a node encodes, a peer that
    decodes the bytes into a fresh [Info] gets the same version, name, capabilities in order, port
    and id; fields a newer version appends to the list, and bytes after the message, are ignored. *)
Theorem Info_roundtrip `{FastRLP} i extra rest : info_ok i -> Forall valid extra ->
  len_ok (MarshalTo (NewArray (Info_fields i ++ extra))) ->
  Info_UnmarshalRLP zero_Info (MarshalTo (NewArray (Info_fields i ++ extra)) ++ rest) = Ok i /\
  (extra = [] -> Info_MarshalRLP i [] = MarshalTo (NewArray (Info_fields i ++ extra))).
Proof.
  intros Hi He Hl. split; [|intros ->; unfold Info_MarshalRLP; by rewrite app_nil_r].
  rewrite Info_decode by done. by destruct i.
Qed.

Definition info0 : Info := mkInfo 5 "go-devp2p" [mkCap "eth" 65; mkCap "par" 2] 30303 (replicate 64 7).

Lemma Info_roundtrip_witness : info_ok info0 /\
  Info_UnmarshalRLP zero_Info (MarshalTo (NewArray (Info_fields info0 ++ [NewUint 1])) ++ [0; 0]) = Ok info0.
Proof.
  assert (info_ok info0) as Hi.
  { split_and!; unfold u64_ok; simpl; try lia; try done; repeat constructor; simpl; unfold byte_ok, u64_ok; lia. }
  split; [exact Hi|]. apply (Info_roundtrip info0 [NewUint 1] [0; 0] Hi).
  - constructor; [apply valid_uint; unfold u64_ok; lia|constructor].
  - vm_compute. reflexivity.
Defined.

(** The strings of [DiscReason] the disconnect handling compares. *)
Example disc_too_many : DiscReason_String DiscTooManyPeers = "too many peers".
Proof. reflexivity. Qed.
