(* ===== verification/Enode.v ===== *)
(** * Node URLs

    [enode/enode.go]: parsing and printing [enode://] URLs.  The syntax of URLs and addresses is that of
    [net/url] and [net]; [GoNet] lists what the code calls of them, with the documented facts that what
    the code prints is taken apart again.  The identifiers and their keys are in [Crypto]. *)

From stdpp Require Import base sets pretty strings numbers list.
From Stdlib Require Import Ascii.
From S2P Require Import Prelude GoStd GoEnc Crypto RlpxMsg.
Local Open Scope Z_scope.

(** ** Printed numbers are read back *)

Lemma isDigit_char n : (n < 10)%N -> isDigit (pretty_N_char n) = true /\ byte_of_ascii (pretty_N_char n) - 48 = Z.of_N n.
Proof.
  intros Hn. pose proof (digit_cases 10 (fun d => isDigit (pretty_N_char (Z.to_N d)) && (byte_of_ascii (pretty_N_char (Z.to_N d)) - 48 =? d))
    eq_refl (Z.of_N n) ltac:(lia)) as Hd.
  cbv beta in Hd. rewrite N2Z.id in Hd. apply andb_true_iff in Hd as [? ?%Z.eqb_eq]. done.
Qed.

Lemma pretty_N_go_digits x : forall s, exists l, chars (pretty_N_go x s) = l ++ chars s /\
  Forall (fun c => isDigit c = true) l /\ digits_value l = Z.of_N x /\ ((0 < x)%N -> l ≠ []).
Proof.
  induction (N.lt_wf_0 x) as [x _ IH]. intros s. destruct (decide (0 < x)%N) as [Hx|Hx].
  - rewrite pretty_N_go_step by done. destruct (IH (x / 10)%N ltac:(apply N.div_lt; lia) (String (pretty_N_char (x mod 10)) s)) as (l & E & Hl & Hv & _).
    destruct (isDigit_char (x mod 10)%N) as [Hd Hb]; [by apply N.mod_lt|].
    exists (l ++ [pretty_N_char (x mod 10)]). split_and!.
    + rewrite E. cbn [String.list_ascii_of_string]. by rewrite <-app_assoc.
    + apply Forall_app. split; [done|]. by repeat constructor.
    + unfold digits_value in *. rewrite foldl_app, Hv. cbn [foldl]. rewrite Hb.
      rewrite N2Z.inj_div, N2Z.inj_mod by lia. pose proof (Z.div_mod (Z.of_N x) 10 ltac:(lia)). lia.
    + intros _ [_ Hn]%app_eq_nil. done.
  - assert (x = 0%N) as -> by lia. exists []. rewrite pretty_N_go_0. split_and!; try done; lia.
Qed.

Lemma fmt_d_digits n : 0 <= n -> chars (fmt_d n) ≠ [] /\ Forall (fun c => isDigit c = true) (chars (fmt_d n)) /\ digits_value (chars (fmt_d n)) = n.
Proof.
  intros Hn. unfold fmt_d, pretty, pretty_N. case_decide as Hz.
  - assert (n = 0) as -> by lia. split_and!; [done|by repeat constructor|done].
  - destruct (pretty_N_go_digits (Z.to_N n) "") as (l & E & Hl & Hv & Hne).
    change (chars "") with (@nil ascii) in E. rewrite app_nil_r in E. rewrite E. split_and!; [apply Hne; lia|done|lia].
Qed.

(** ** URLs *)

Lemma append_nil (s : string) : (s ++ "")%string = s.
Proof. induction s as [|c s IH]; [done|]. change (String c (s ++ "")%string = String c s). by rewrite IH. Qed.

(** What [ParseURL] looks at of a [url.URL]: [u_User] is the text of [User], [None] for nil, and
    [u_discport] is [Query().Get("discport")]. *)
Record URL := mkURL { u_Scheme : string; u_User : option string; u_Host : string; u_discport : string }.

(** An address as [net.ParseIP] returns it. *)
Definition ip_ok (ip : bytes) : Prop := length ip = 16%nat /\ bytes_ok ip.

(** [strconv.Itoa] of a port, and [strconv.ParseUint(s, 10, 16)]. *)
Definition Itoa (n : Z) : string := fmt_d n.
Definition ParseUint16 (s : string) : option Z :=
  if bool_decide (chars s = []) || negb (forallb isDigit (chars s)) || (65535 <? digits_value (chars s))
  then None else Some (digits_value (chars s)).

Class GoNet := {
  url_Parse : string -> option URL;
  net_SplitHostPort : string -> option (string * string);
  net_ParseIP : string -> option bytes;
  TCPAddr_String : bytes -> Z -> string;       (* [(&net.TCPAddr{IP: ip, Port: port}).String()] *)
  url_Parse_enode id ip port : bytes_ok id -> ip_ok ip -> u16_ok port ->
    url_Parse ("enode://" ++ hex_EncodeToString id ++ "@" ++ TCPAddr_String ip port) =
    Some (mkURL "enode" (Some (hex_EncodeToString id)) (TCPAddr_String ip port) "");
  url_Parse_discport id ip port disc : bytes_ok id -> ip_ok ip -> u16_ok port -> u16_ok disc ->
    url_Parse ("enode://" ++ hex_EncodeToString id ++ "@" ++ TCPAddr_String ip port ++ "?discport=" ++ Itoa disc) =
    Some (mkURL "enode" (Some (hex_EncodeToString id)) (TCPAddr_String ip port) (Itoa disc));
  SplitHostPort_String ip port : ip_ok ip -> u16_ok port -> exists host,
    net_SplitHostPort (TCPAddr_String ip port) = Some (host, Itoa port) /\ net_ParseIP host = Some ip;
}.

Record Enode := mkEnode { en_ID : bytes; en_TCP : Z; en_UDP : Z; en_IP : bytes }.

#[global] Instance Enode_eq_dec : EqDecision Enode.
Proof. solve_decision. Defined.

Section Enode.
Context `{GoNet}.

(** The texts of the errors of the library are not specified. *)
Definition ParseURL (rawurl : string) : outcome Enode :=
  u ← of_option "parse" (url_Parse rawurl);
  if negb (bool_decide (u_Scheme u = "enode")) then Err "invalid URL scheme, expected 'enode'" else
  user ← match u_User u with Some s => Ok s | None => Panic end;
  h ← of_option "failed to decode id" (hex_DecodeString user);
  if negb (length h =? nodeIDBytes)%nat then Err "id not found" else
  let id := copy zero_ID h in
  '(host, port) ← of_option "invalid host" (net_SplitHostPort (u_Host u));
  ip ← of_option ("invalid IP address '" ++ host ++ "'") (net_ParseIP host);
  tcpPort ← of_option ("invalid tcp port '" ++ port ++ "'") (ParseUint16 port);
  udpPort ← (if bool_decide (u_discport u = "") then Ok tcpPort
             else of_option ("invalid udp port '" ++ u_discport u ++ "'") (ParseUint16 (u_discport u)));
  Ok (mkEnode id (uint16 tcpPort) (uint16 udpPort) ip).

Definition Enode_String (n : Enode) : string :=
  "enode://" ++ ID_String (en_ID n) ++ "@" ++ TCPAddr_String (en_IP n) (en_TCP n) ++
  (if en_TCP n =? en_UDP n then "" else "?discport=" ++ Itoa (en_UDP n)).

Definition Enode_PublicKey `{Curve} (n : Enode) : outcome PublicKey := NodeIDToPubKey (en_ID n).

Definition TCPAddr (n : Enode) : bytes * Z := (en_IP n, en_TCP n).

(** ** Theorems *)

Definition enode_ok (n : Enode) : Prop :=
  length (en_ID n) = nodeIDBytes /\ bytes_ok (en_ID n) /\ u16_ok (en_TCP n) /\ u16_ok (en_UDP n) /\ ip_ok (en_IP n).

Lemma ParseUint16_Itoa n : u16_ok n -> ParseUint16 (Itoa n) = Some n /\ Itoa n ≠ "".
Proof.
  intros Hn. unfold u16_ok in Hn. destruct (fmt_d_digits n) as (Hne & Hd & Hv); [lia|]. unfold ParseUint16, Itoa. split.
  - rewrite bool_decide_eq_false_2 by done. assert (forallb isDigit (chars (fmt_d n)) = true) as ->.
    { apply forallb_forall. rewrite Forall_forall in Hd. intros c Hc. by apply Hd, list_elem_of_In. }
    rewrite Hv. cbn [negb orb]. by rewrite (proj2 (Z.ltb_ge _ _)) by lia.
  - intros E. by rewrite E in Hne.
Qed.

Lemma ParseURL_parts raw id ip tcp disc udp : url_Parse raw = Some (mkURL "enode" (Some (hex_EncodeToString id)) (TCPAddr_String ip tcp) disc) ->
  length id = nodeIDBytes -> bytes_ok id -> ip_ok ip -> u16_ok tcp -> u16_ok udp ->
  (disc = "" /\ udp = tcp \/ disc = Itoa udp) -> ParseURL raw = Ok (mkEnode id tcp udp ip).
Proof.
  intros Hu Hl Hb Hi Ht Hp Hd. unfold ParseURL. rewrite Hu. cbn [of_option mbind outcome_bind u_Scheme u_User u_Host u_discport].
  rewrite (bool_decide_eq_true_2 ("enode" = "enode")) by done. cbn [negb mbind outcome_bind].
  rewrite hex_roundtrip by done. cbn [of_option mbind outcome_bind]. rewrite Hl, Nat.eqb_refl. cbn [negb].
  destruct (SplitHostPort_String ip tcp Hi Ht) as (host & -> & Hip). cbn [of_option mbind outcome_bind]. rewrite Hip. cbn [of_option mbind outcome_bind].
  rewrite (proj1 (ParseUint16_Itoa tcp Ht)). cbn [of_option mbind outcome_bind].
  rewrite copy_full by (unfold zero_ID; by rewrite length_replicate). unfold uint16, u16_ok in *.
  destruct Hd as [[-> ->]| ->].
  - rewrite bool_decide_eq_true_2 by done. cbn [mbind outcome_bind]. by rewrite Z.mod_small.
  - destruct (ParseUint16_Itoa udp Hp) as [E Hne]. rewrite bool_decide_eq_false_2 by done. rewrite E.
    cbn [of_option mbind outcome_bind]. by rewrite !Z.mod_small.
Qed.

(** A node URL is parsed back to the node it was printed from, with its discovery port. *)
Theorem Enode_roundtrip n : enode_ok n -> ParseURL (Enode_String n) = Ok n.
Proof.
  intros (Hl & Hb & Ht & Hu & Hi). destruct n as [id tcp udp ip]. cbn [en_ID en_TCP en_UDP en_IP] in *. unfold Enode_String, ID_String.
  cbn [en_ID en_TCP en_UDP en_IP]. destruct (Z.eqb_spec tcp udp) as [->|Hne].
  - eapply ParseURL_parts; [rewrite append_nil; by apply url_Parse_enode|done..|]. by left.
  - eapply ParseURL_parts; [by apply url_Parse_discport|done..|]. by right.
Qed.

(** A URL without the part before the at sign has no user: the method of a nil pointer is called. *)
Theorem ParseURL_no_id_panics raw host disc : url_Parse raw = Some (mkURL "enode" None host disc) -> ParseURL raw = Panic.
Proof. intros E. unfold ParseURL. by rewrite E. Qed.

End Enode.

(** ** A net package

    Addresses are printed in hexadecimal; URLs are taken apart at the at sign and the question mark. *)

Definition toy_String (ip : bytes) (port : Z) : string := hex_EncodeToString ip ++ ":" ++ Itoa port.
Definition toy_SplitHostPort (s : string) : option (string * string) :=
  match Split s ":" with [host; port] => Some (host, port) | _ => None end.
Definition toy_Parse (s : string) : option URL :=
  if negb (HasPrefix s "enode://") then None else
  match Split (str_drop 8 s) "@" with
  | [host] => Some (mkURL "enode" None host "")
  | [user; rest] =>
      match Split rest "?" with
      | [host] => Some (mkURL "enode" (Some user) host "")
      | [host; query] => if HasPrefix query "discport=" then Some (mkURL "enode" (Some user) host (str_drop 9 query)) else None
      | _ => None
      end
  | _ => None
  end.

Lemma hex_chars (p : ascii -> bool) b : forallb (fun d => p (hex_digit d)) (seqZ 0 16) = true -> bytes_ok b ->
  Forall (fun c => p c = true) (chars (hex_EncodeToString b)).
Proof.
  intros Hp. induction 1 as [|x b Hx _ IH]; [constructor|]. cbn [hex_EncodeToString String.list_ascii_of_string]. unfold byte_ok in Hx.
  repeat constructor; [apply (digit_cases 16 _ Hp)..|done].
  - rewrite Z.shiftr_div_pow2 by lia. change (2 ^ 4) with 16. split; [apply Z.div_pos; lia|apply Z.div_lt_upper_bound; lia].
  - change 15 with (Z.ones 4). rewrite Z.land_ones by lia. by apply Z.mod_pos_bound.
Qed.

Lemma Forall_not_elem (p : ascii -> bool) c l : p c = false -> Forall (fun c => p c = true) l -> c ∉ l.
Proof. intros Hc Hl Hin. rewrite Forall_forall in Hl. specialize (Hl c Hin). congruence. Qed.

Definition url_char (c : ascii) : bool := isDigit c || bool_decide (c ∈ chars "abcdef:").

Lemma hex_no_sep c b : url_char c = false \/ c = ":"%char -> bytes_ok b -> c ∉ chars (hex_EncodeToString b).
Proof.
  intros Hc Hb. apply (Forall_not_elem (fun c => url_char c && negb (bool_decide (c = ":"%char)))).
  - destruct Hc as [-> | ->]; done.
  - by apply hex_chars.
Qed.

Lemma Itoa_no_sep c n : isDigit c = false -> 0 <= n -> c ∉ chars (Itoa n).
Proof. intros Hc Hn. destruct (fmt_d_digits n Hn) as (_ & Hd & _). by apply (Forall_not_elem isDigit). Qed.

Lemma toy_String_no_sep c ip port : url_char c = false -> bytes_ok ip -> 0 <= port -> c ∉ chars (toy_String ip port).
Proof.
  intros Hc Hi Hp. unfold toy_String. rewrite !chars_app, !elem_of_app. intros [Hx|[Hx|Hx]]; revert Hx.
  - apply hex_no_sep; auto.
  - change (chars ":") with [":"%char]. rewrite list_elem_of_singleton. by intros ->.
  - apply Itoa_no_sep; [|done]. unfold url_char in Hc. by apply orb_false_iff in Hc as [? _].
Qed.

Lemma not_in_literal c s : negb (bool_decide (c ∈ chars s)) = true -> c ∉ chars s.
Proof. intros Hc%negb_true_iff. by apply bool_decide_eq_false in Hc. Qed.

Lemma Split_two c a b : c ∉ chars a -> c ∉ chars b -> Split (a ++ String c "" ++ b) c = [a; b].
Proof. intros Ha Hb. apply (Split_Join c [a; b]); [done|]. by repeat constructor. Qed.

Lemma Split_one c a : c ∉ chars a -> Split a c = [a].
Proof. intros Ha. apply (Split_Join c [a]); [done|]. by repeat constructor. Qed.

Lemma toy_Parse_user user rest : "@"%char ∉ chars user -> "@"%char ∉ chars rest ->
  toy_Parse ("enode://" ++ user ++ "@" ++ rest) =
  match Split rest "?" with
  | [host] => Some (mkURL "enode" (Some user) host "")
  | [host; query] => if HasPrefix query "discport=" then Some (mkURL "enode" (Some user) host (str_drop 9 query)) else None
  | _ => None
  end.
Proof.
  intros Hu Hr. unfold toy_Parse. rewrite HasPrefix_app. cbn [negb]. rewrite (str_drop_app "enode://"). by rewrite Split_two.
Qed.

#[refine] Definition toy_net : GoNet := {|
  url_Parse := toy_Parse; net_SplitHostPort := toy_SplitHostPort; net_ParseIP := hex_DecodeString; TCPAddr_String := toy_String |}.
Proof.
  - intros id ip port Hid [_ Hip] Hp. unfold u16_ok in Hp. rewrite toy_Parse_user.
    + rewrite Split_one; [done|]. apply toy_String_no_sep; [done|done|lia].
    + apply hex_no_sep; auto.
    + apply toy_String_no_sep; [done|done|lia].
  - intros id ip port disc Hid [_ Hip] Hp Hd. unfold u16_ok in Hp, Hd. rewrite toy_Parse_user.
    + change ("?discport=" ++ Itoa disc)%string with ("?" ++ ("discport=" ++ Itoa disc))%string.
      rewrite (Split_two "?" (toy_String ip port) ("discport=" ++ Itoa disc)).
      * by rewrite HasPrefix_app, (str_drop_app "discport=").
      * apply toy_String_no_sep; [done|done|lia].
      * rewrite chars_app, elem_of_app. intros [Hx|Hx]; revert Hx; [by apply not_in_literal|apply Itoa_no_sep; [done|lia]].
    + apply hex_no_sep; auto.
    + rewrite !chars_app, !elem_of_app. intros [Hx|[Hx|Hx]]; revert Hx.
      * apply toy_String_no_sep; [done|done|lia].
      * by apply not_in_literal.
      * apply Itoa_no_sep; [done|lia].
  - intros ip port [_ Hip] Hp. exists (hex_EncodeToString ip). split; [|by apply hex_roundtrip].
    unfold toy_SplitHostPort, toy_String. unfold u16_ok in Hp. rewrite Split_two; [done|apply hex_no_sep; auto|apply Itoa_no_sep; [done|lia]].
Defined.

Module Demo.
Definition node : Enode := mkEnode (replicate 64 7) 30303 30301 (replicate 10 0 ++ [255; 255; 127; 0; 0; 1]).

Lemma node_ok : enode_ok node.
Proof. unfold enode_ok, ip_ok, u16_ok. split_and!; try done; cbn; try lia; apply Forall_forall; intros x Hx; unfold byte_ok; set_solver by lia. Qed.

Lemma Enode_roundtrip_witness : @ParseURL toy_net (@Enode_String toy_net node) = Ok node.
Proof. apply (@Enode_roundtrip toy_net node). exact node_ok. Defined.

Example no_id : @ParseURL toy_net "enode://7f000001:30303" = Panic.
Proof. apply (@ParseURL_no_id_panics toy_net _ "7f000001:30303" ""). reflexivity. Qed.
End Demo.
