(* ===== verification/Handshake.v ===== *)
(** * The encryption handshake

    [rlpx/handshake.go] up to the derivation of the session secrets.  A connection is the segments
    that will arrive, in order, and the messages written; [conn.Read] returns at most one segment,
    as a stream socket may.  Randomness ([rand.Read], [ecies.GenerateKey], [mrand.Intn], the nonce
    of [ecies.Encrypt]) is an argument.  [Ecies] is the interface of [github.com/umbracle/ecies]. *)

From stdpp Require Import base strings numbers list.
From S2P Require Import Prelude GoStd Rlp Crypto RlpxMsg.
Local Open Scope Z_scope.

Definition eciesOverhead : nat := 65 + 16 + 32.
Definition encAuthMsgLen : nat := authMsgLen + eciesOverhead.
Definition encAuthRespLen : nat := authRespLen + eciesOverhead.

Class Ecies `{Curve} := {
  Encrypt : bytes -> PublicKey -> bytes -> bytes -> option bytes;    (* rand, key, message, s2; s1 is nil *)
  Decrypt : PrivateKey -> bytes -> bytes -> option bytes;            (* key, ciphertext, s2; s1 is nil *)
  GenerateShared : PrivateKey -> PublicKey -> option bytes;          (* with sskLen, sskLen *)
  encrypt_ok r k m s2 : bytes_ok m -> exists c, Encrypt r (pub_of k) m s2 = Some c /\
    length c = (length m + eciesOverhead)%nat /\ bytes_ok c /\ Decrypt k c s2 = Some m;
  shared_sym a b : GenerateShared a (pub_of b) = GenerateShared b (pub_of a);
  shared_ok a b : exists s, GenerateShared a (pub_of b) = Some s /\ length s = 32%nat /\ bytes_ok s;
}.

(** ** Connections *)

Record conn := mkConn { segs : list bytes; sent : list bytes; wopen : bool }.

(** What is left of the next segment goes before the others. *)
Definition cut (rest : bytes) (r : list bytes) : list bytes := if decide (rest = []) then r else rest :: r.

(** [conn.Read(buf)] with a buffer of [n] zero bytes: the buffer afterwards. *)
Definition conn_Read (c : conn) (n : nat) : outcome (conn * bytes) :=
  match segs c with
  | [] => Err "EOF"
  | s :: r => Ok (mkConn (cut (drop n s) r) (sent c) (wopen c), copy (replicate n 0) s)
  end.

Definition conn_Write (c : conn) (b : bytes) : outcome conn :=
  if wopen c then Ok (mkConn (segs c) (sent c ++ [b]) true) else Err "write: connection closed".

(** ** Data *)

(** What one side draws: nonce, ephemeral key, padding length, nonce of the encryption. *)
Record rnd `{Curve} := mkRnd { r_nonce : bytes; r_key : PrivateKey; r_pad : nat; r_enc : bytes }.
Arguments mkRnd {_} _ _ _ _.

Record Secrets := mkSecrets {
  RemoteID : option PublicKey;
  AES : bytes;
  MAC : bytes;
  EgressMAC : option hash_Hash;
  IngressMAC : option hash_Hash;
}.

(** [var s Secrets] *)
Definition zero_Secrets : Secrets := mkSecrets None [] [] None None.

Section Handshake.
Context `{Keccak} `{Curve} `{!Ecies} `{FastRLP}.

Record handshakeState := mkHS {
  hs_isClient : bool;
  hs_local : PrivateKey;
  hs_remote : option PublicKey;
  hs_initNonce : bytes;
  hs_respNonce : bytes;
  hs_randomPrivKey : option PrivateKey;
  hs_remoteRandomPub : option PublicKey;
}.

(** [one[i] ^ other[i]] for every index of [one]. *)
Fixpoint xor (one other : bytes) : outcome bytes :=
  match one, other with
  | [], _ => Ok []
  | _ :: _, [] => Panic
  | a :: one', b :: other' => r ← xor one' other'; Ok (Z.lxor a b :: r)
  end.

(** ** Reading and writing handshake packets *)

Definition readBytes (c : conn) (local : PrivateKey) (plainSize : nat) : outcome (conn * bytes * bytes * bool) :=
  '(c, buf) ← conn_Read c plainSize;
  match Decrypt local buf [] with
  | Some dec => Ok (c, buf, dec, true)
  | None =>
      let prefix := take 2 buf in
      let size := be_get prefix in
      if size <? Z.of_nat plainSize then Err ("size underflow, need at least " ++ fmt_d (Z.of_nat plainSize) ++ " bytes")%string
      else
        '(c, buf2) ← conn_Read c (Z.to_nat (uint16 (size - Z.of_nat plainSize + 2)));
        let buf := buf ++ buf2 in
        dec ← of_option "ecies" (Decrypt local (drop 2 buf) prefix);
        Ok (c, buf, dec, false)
  end.

(** [readMessage] for a message of plain size [plainSize] with its two decoders. *)
Definition readMessage {M} (plainSize : nat) (decodePlain : bytes -> outcome M) (UnmarshalRLP : bytes -> outcome M)
    (c : conn) (local : PrivateKey) : outcome (conn * bytes * M) :=
  '(c, buf, dec, plain) ← readBytes c local plainSize;
  m ← (if plain : bool then decodePlain dec else UnmarshalRLP dec);
  Ok (c, buf, m).

Definition writeMessage (c : conn) (remote : option PublicKey) (r : rnd) (msg : bytes) : outcome (conn * bytes) :=
  match remote with
  | None => Panic
  | Some remote =>
      let buf := msg ++ replicate (r_pad r) 0 in
      let prefix := be_put 2 (uint16 (Z.of_nat (length buf + eciesOverhead))) in
      enc ← of_option "ecies" (Encrypt (r_enc r) remote buf prefix);
      let enc := prefix ++ enc in
      c ← conn_Write c enc;
      Ok (c, enc)
  end.

(** The packets of the old format, which nothing sends: no size prefix, no padding. *)
Definition sealPlain (remote : option PublicKey) (r : rnd) (plain : bytes) : outcome bytes :=
  match remote with
  | None => Panic
  | Some remote => of_option "ecies" (Encrypt (r_enc r) remote plain [])
  end.

Definition authMsg_sealPlain (m : authMsgV4) (h : handshakeState) (r : rnd) : outcome bytes :=
  sealPlain (hs_remote h) r (authMsg_plain m).

Definition authResp_sealPlain (m : authRespV4) (h : handshakeState) (r : rnd) : outcome bytes :=
  sealPlain (hs_remote h) r (authResp_plain m).

(** ** The steps of the two sides *)

Definition staticSharedSecret (h : handshakeState) (prv : PrivateKey) : outcome bytes :=
  match hs_remote h with
  | None => Panic
  | Some remote => of_option "ecies" (GenerateShared prv remote)
  end.

Definition importPublicKey (pubKey : bytes) : outcome PublicKey :=
  if (length pubKey =? 64)%nat then ParsePublicKey (4 :: pubKey)
  else if (length pubKey =? 65)%nat then ParsePublicKey pubKey
  else Err ("invalid public key length " ++ fmt_d (Z.of_nat (length pubKey)) ++ " (expect 64/65)")%string.

Definition makeAuthMsg (h : handshakeState) (r : rnd) (prv : PrivateKey) : outcome (handshakeState * authMsgV4) :=
  let h := mkHS (hs_isClient h) (hs_local h) (hs_remote h) (r_nonce r) (hs_respNonce h) (Some (r_key r)) (hs_remoteRandomPub h) in
  token ← staticSharedSecret h prv;
  signed ← xor token (hs_initNonce h);
  signature ← Sign (r_key r) signed;
  Ok (h, mkAuth false signature (drop 1 (MarshallPublicKey (pub_of prv))) (hs_initNonce h) 4).

Definition handleAuthResp (h : handshakeState) (msg : authRespV4) : outcome handshakeState :=
  pub ← importPublicKey (ar_RandomPubkey msg);
  Ok (mkHS (hs_isClient h) (hs_local h) (hs_remote h) (hs_initNonce h) (ar_Nonce msg) (hs_randomPrivKey h) (Some pub)).

Definition handleAuthMsg (h : handshakeState) (r : rnd) (msg : authMsgV4) (prv : PrivateKey) : outcome handshakeState :=
  remotePub ← NodeIDToPubKey (am_InitiatorPubkey msg);
  let key := match hs_randomPrivKey h with Some k => k | None => r_key r end in
  let h := mkHS (hs_isClient h) (hs_local h) (Some remotePub) (am_Nonce msg) (hs_respNonce h) (Some key) (hs_remoteRandomPub h) in
  token ← staticSharedSecret h prv;
  signedMsg ← xor token (hs_initNonce h);
  remoteRandomPub ← RecoverPubkey (am_Signature msg) signedMsg;
  let pub := match importPublicKey (MarshallPublicKey remoteRandomPub) with Ok p => Some p | _ => None end in
  Ok (mkHS (hs_isClient h) (hs_local h) (hs_remote h) (hs_initNonce h) (hs_respNonce h) (hs_randomPrivKey h) pub).

Definition makeAuthResp (h : handshakeState) (r : rnd) : outcome (handshakeState * authRespV4) :=
  match hs_randomPrivKey h with
  | None => Panic
  | Some k =>
      Ok (mkHS (hs_isClient h) (hs_local h) (hs_remote h) (hs_initNonce h) (r_nonce r) (hs_randomPrivKey h) (hs_remoteRandomPub h),
          mkResp (drop 1 (MarshallPublicKey (pub_of k))) (r_nonce r) 4)
  end.

Definition hs_Secrets (h : handshakeState) (auth authResp : bytes) : outcome Secrets :=
  match hs_randomPrivKey h, hs_remoteRandomPub h, hs_remote h with
  | Some k, Some p, Some remote =>
      ecdheSecret ← of_option "ecies" (GenerateShared k p);
      let sharedSecret := Keccak256 [ecdheSecret; Keccak256 [hs_respNonce h; hs_initNonce h]] in
      let aesSecret := Keccak256 [ecdheSecret; sharedSecret] in
      let mac := Keccak256 [ecdheSecret; aesSecret] in
      x1 ← xor mac (hs_respNonce h);
      let mac1 := hash_Write (hash_Write [] x1) auth in
      x2 ← xor mac (hs_initNonce h);
      let mac2 := hash_Write (hash_Write [] x2) authResp in
      Ok (if hs_isClient h then mkSecrets (Some remote) aesSecret mac (Some mac1) (Some mac2)
          else mkSecrets (Some remote) aesSecret mac (Some mac2) (Some mac1))
  | _, _, _ => Panic
  end.

(** ** The two sides *)

(** [if err != nil { return s, nil }]: the error becomes zero secrets and no error. *)
Definition swallow {A} (c : conn) (m : outcome A) (k : A -> outcome (Secrets * conn)) : outcome (Secrets * conn) :=
  match m with
  | Err _ => Ok (zero_Secrets, c)
  | _ => m ≫= k
  end.

(** The secrets, and the connection: the packets that were written and what is left to read. *)
Definition handshakeServer (c : conn) (r : rnd) (prv : PrivateKey) : outcome (Secrets * conn) :=
  let state := mkHS false prv None [] [] None None in
  '(c, authPacket, authMsg) ← readMessage encAuthMsgLen (authMsg_decodePlain new_authMsg) (authMsg_UnmarshalRLP new_authMsg) c prv;
  swallow c (handleAuthMsg state r authMsg prv) (fun state =>
  swallow c (makeAuthResp state r) (fun '(state, authResp) =>
  swallow c (writeMessage c (hs_remote state) r (authResp_MarshalRLP authResp [])) (fun '(c, authRespPacket) =>
  s ← hs_Secrets state authPacket authRespPacket; Ok (s, c)))).

Definition handshakeClient (c : conn) (r : rnd) (prv : PrivateKey) (remoteID : PublicKey) : outcome (Secrets * conn) :=
  let state := mkHS true prv (Some remoteID) [] [] None None in
  '(state, authMsg) ← makeAuthMsg state r prv;
  '(c, authPacket) ← writeMessage c (hs_remote state) r (authMsg_MarshalRLP authMsg []);
  '(c, authRespPacket, authRespMsg) ← readMessage encAuthRespLen (authResp_decodePlain new_authResp)
                                        (authResp_UnmarshalRLP new_authResp) c prv;
  state ← handleAuthResp state authRespMsg;
  s ← hs_Secrets state authPacket authRespPacket;
  Ok (s, c).

(** The start of [p2pHandshake]: the id of the remote node from the secrets. *)
Definition session_id (secrets : outcome (Secrets * conn)) : outcome string :=
  '(s, _) ← secrets;
  id ← PubkeyToEnode (RemoteID s);
  Ok (ID_String id).

(** ** A packet that was written is read back *)

(** An EIP-8 packet, or a part of it, is not taken for the plain format: without its two-byte
    prefix as shared data the ciphertext does not authenticate. *)
Definition eip8_not_plain (k : PrivateKey) : Prop := forall r p m s2 c n,
  length s2 = 2%nat -> Encrypt r p m s2 = Some c -> Decrypt k (take n (s2 ++ c)) [] = None.

Definition rnd_ok (r : rnd) : Prop :=
  length (r_nonce r) = shaLen /\ bytes_ok (r_nonce r) /\ (100 <= r_pad r < 300)%nat.

Lemma xor_ok a b : length a = length b -> bytes_ok a -> bytes_ok b ->
  exists x, xor a b = Ok x /\ length x = length a /\ bytes_ok x.
Proof.
  revert b. induction a as [|u a IH]; intros [|v b] Hl Ha Hb; simplify_eq/=; [by eexists|].
  apply Forall_cons in Ha as [Hu Ha]. apply Forall_cons in Hb as [Hv Hb].
  destruct (IH b Hl Ha Hb) as (x & -> & Hx & Hxb). eexists. split_and!; [done|simpl; by rewrite Hx|].
  constructor; [|done]. by apply lxor_byte_ok.
Qed.

(** A read of less than the next segment, and of exactly it. *)
Lemma conn_Read_part c n s r : segs c = s :: r -> (n < length s)%nat ->
  conn_Read c n = Ok (mkConn (drop n s :: r) (sent c) (wopen c), take n s).
Proof.
  intros Hs Hn. unfold conn_Read, cut. rewrite Hs. rewrite decide_False.
  - unfold copy. rewrite length_replicate, Nat.min_l by lia. rewrite (drop_ge (replicate n 0)) by (rewrite length_replicate; lia).
    by rewrite app_nil_r.
  - intros E. apply (f_equal length) in E. rewrite length_drop in E. simpl in E. lia.
Qed.

Lemma conn_Read_all c s t r : segs c = (s ++ t) :: r ->
  conn_Read c (length s) = Ok (mkConn (cut t r) (sent c) (wopen c), s).
Proof.
  intros Hs. unfold conn_Read. rewrite Hs, drop_app_length. do 2 f_equal. unfold copy.
  rewrite length_replicate, Nat.min_l by (rewrite length_app; lia). rewrite take_app_length, drop_ge by (by rewrite length_replicate).
  apply app_nil_r.
Qed.

(** [writeMessage] then [readMessage] by the key's owner, when the packet arrives in one segment, perhaps
    with bytes [t] that follow it. *)
Lemma write_read {M} c r k (msg : bytes) plainSize (dp um : bytes -> outcome M) (m : M) :
  eip8_not_plain k -> wopen c = true -> bytes_ok msg -> (r_pad r < 300)%nat -> (2 <= plainSize)%nat ->
  (plainSize <= length msg + r_pad r + eciesOverhead)%nat -> Z.of_nat (length msg) < 2 ^ 15 ->
  (forall pad, um (msg ++ pad) = Ok m) ->
  exists pkt, writeMessage c (Some (pub_of k)) r msg = Ok (mkConn (segs c) (sent c ++ [pkt]) true, pkt) /\
    forall c' t segs', segs c' = (pkt ++ t) :: segs' ->
      readMessage plainSize dp um c' k = Ok (mkConn (cut t segs') (sent c') (wopen c'), pkt, m).
Proof.
  intros Hnp Hw Hm Hpad Hps Hlen Hmax Hum. unfold writeMessage.
  set (buf := msg ++ replicate (r_pad r) 0). set (prefix := be_put 2 _).
  assert (length buf = length msg + r_pad r)%nat as Hbl by (unfold buf; by rewrite length_app, length_replicate).
  assert (bytes_ok buf) as Hbuf by (apply Forall_app; split; [done|apply Forall_byte_replicate; unfold byte_ok; lia]).
  assert (length prefix = 2%nat) as Hpl by apply length_be_put.
  destruct (encrypt_ok (r_enc r) k buf prefix Hbuf) as (e & He & Hel & Heb & Hdec).
  rewrite He. cbn [of_option mbind outcome_bind]. unfold conn_Write. rewrite Hw. cbn [mbind outcome_bind].
  exists (prefix ++ e). split; [done|]. intros c' t segs' Hseg.
  assert (length (prefix ++ e) = 2 + (length buf + eciesOverhead))%nat as Hpkt by (rewrite length_app; lia).
  assert (be_get prefix = Z.of_nat (length buf + eciesOverhead)) as Hsz.
  { unfold prefix. unfold eciesOverhead in *. unfold uint16. rewrite Z.mod_small by lia. apply be_put_get. lia. }
  unfold readMessage, readBytes. rewrite (conn_Read_part c' plainSize _ _ Hseg) by (rewrite length_app; lia).
  rewrite take_app_le, drop_app_le by lia. cbn [mbind outcome_bind].
  rewrite (Hnp _ _ _ _ _ _ Hpl He).
  assert (take 2 (take plainSize (prefix ++ e)) = prefix) as Hpre.
  { rewrite take_take, Nat.min_l by lia. rewrite <-Hpl. apply take_app_length. }
  rewrite Hpre, Hsz. rewrite (proj2 (Z.ltb_ge _ _)) by (unfold eciesOverhead in *; lia).
  assert (Z.to_nat (uint16 (Z.of_nat (length buf + eciesOverhead) - Z.of_nat plainSize + 2)) = length (drop plainSize (prefix ++ e))) as ->.
  { rewrite length_drop. unfold uint16, eciesOverhead in *. rewrite Z.mod_small by lia. lia. }
  erewrite conn_Read_all by done. cbn [mbind outcome_bind sent wopen]. rewrite take_drop.
  replace (drop 2 (prefix ++ e)) with e by (rewrite <-Hpl; symmetry; apply drop_app_length).
  rewrite Hdec. cbn [of_option mbind outcome_bind]. unfold buf. by rewrite Hum.
Qed.

Lemma authMsg_wire a : auth_ok a ->
  bytes_ok (authMsg_MarshalRLP a []) /\ (161 <= length (authMsg_MarshalRLP a []) <= 300)%nat.
Proof.
  intros (Hs & Hs' & Hp & Hp' & Hn & Hn' & Hv). unfold authMsg_MarshalRLP. cbn [app]. split.
  - apply MarshalTo_ok, valid_array. repeat constructor; auto with devp2p.
  - pose proof (MarshalTo_len_array (authMsg_fields a)) as HA. cbn [authMsg_fields map concat] in HA.
    rewrite !length_app in HA. cbn [length] in HA. pose proof (MarshalTo_len_bytes (am_Signature a)).
    pose proof (MarshalTo_len_bytes (am_InitiatorPubkey a)). pose proof (MarshalTo_len_bytes (am_Nonce a)).
    pose proof (MarshalTo_len_uint (am_Version a)). unfold authMsg_fields, sigLen, pubLen, shaLen in *. lia.
Qed.

Lemma authResp_wire a : resp_ok a ->
  bytes_ok (authResp_MarshalRLP a []) /\ (96 <= length (authResp_MarshalRLP a []) <= 300)%nat.
Proof.
  intros (Hp & Hp' & Hn & Hn' & Hv). unfold authResp_MarshalRLP. cbn [app]. split.
  - apply MarshalTo_ok, valid_array. repeat constructor; auto with devp2p.
  - pose proof (MarshalTo_len_array (authResp_fields a)) as HA. cbn [authResp_fields map concat] in HA.
    rewrite !length_app in HA. cbn [length] in HA. pose proof (MarshalTo_len_bytes (ar_RandomPubkey a)).
    pose proof (MarshalTo_len_bytes (ar_Nonce a)).
    pose proof (MarshalTo_len_uint (ar_Version a)). unfold authResp_fields, pubLen, shaLen in *. lia.
Qed.

Lemma key_bytes_ok p : length (drop 1 (MarshallPublicKey p)) = pubLen /\ bytes_ok (drop 1 (MarshallPublicKey p)).
Proof.
  split; [unfold MarshallPublicKey; by rewrite length_drop, elliptic_Marshal_length|].
  apply bytes_ok_drop, elliptic_Marshal_ok.
Qed.

Lemma importPublicKey_65 p : on_curve p -> importPublicKey (MarshallPublicKey p) = Ok p.
Proof.
  intros Hp. unfold importPublicKey. unfold MarshallPublicKey at 1 2. rewrite elliptic_Marshal_length. cbn [Nat.eqb].
  by apply ParsePublicKey_Marshall.
Qed.

Lemma importPublicKey_64 p : on_curve p -> importPublicKey (drop 1 (MarshallPublicKey p)) = Ok p.
Proof.
  intros Hp. unfold importPublicKey. rewrite (proj1 (key_bytes_ok p)). cbn [pubLen Nat.eqb].
  change (4 :: drop 1 (MarshallPublicKey p)) with (MarshallPublicKey p). by apply ParsePublicKey_Marshall.
Qed.

(** Both sides derive the same keys, and each side's outgoing MAC state is the other's incoming one. *)
Record secrets_match (sc ss : Secrets) (pc ps : PublicKey) : Prop := {
  match_aes : AES sc = AES ss;
  match_mac : MAC sc = MAC ss;
  match_cs : EgressMAC sc = IngressMAC ss /\ is_Some (EgressMAC sc);
  match_sc : IngressMAC sc = EgressMAC ss /\ is_Some (IngressMAC sc);
  match_ids : RemoteID sc = Some ps /\ RemoteID ss = Some pc;
  match_len : length (AES sc) = 32%nat /\ length (MAC sc) = 32%nat;
}.

(** The initiator's message, and what the recipient makes of it. *)
Lemma authMsg_exchange rc rs kc ks : rnd_ok rc ->
  let state := mkHS true kc (Some (pub_of ks)) [] [] None None in
  exists msg, makeAuthMsg state rc kc = Ok (mkHS true kc (Some (pub_of ks)) (r_nonce rc) [] (Some (r_key rc)) None, msg) /\
    auth_ok msg /\ am_gotPlain msg = false /\
    handleAuthMsg (mkHS false ks None [] [] None None) rs msg ks =
      Ok (mkHS false ks (Some (pub_of kc)) (r_nonce rc) [] (Some (r_key rs)) (Some (pub_of (r_key rc)))).
Proof.
  intros (Hn & Hnb & _) state. destruct (shared_ok kc ks) as (t & Ht & Htl & Htb).
  destruct (xor_ok t (r_nonce rc)) as (x & Hx & Hxl & Hxb); [by rewrite Htl, Hn|done..|].
  destruct (Sign_RecoverPubkey (r_key rc) x) as (sig & Hsig & Hsl & Hsb & Hrec); [by rewrite Hxl|].
  unfold makeAuthMsg, staticSharedSecret. cbn [hs_remote hs_initNonce state].
  rewrite Ht. cbn [of_option mbind outcome_bind]. rewrite Hx. cbn [mbind outcome_bind]. rewrite Hsig. cbn [mbind outcome_bind].
  exists (mkAuth false sig (drop 1 (MarshallPublicKey (pub_of kc))) (r_nonce rc) 4). split; [done|].
  split_and!; [|done|].
  { pose proof (key_bytes_ok (pub_of kc)) as [? ?]. by split_and!. }
  unfold handleAuthMsg, staticSharedSecret. cbn [am_InitiatorPubkey am_Nonce am_Signature].
  rewrite NodeIDToPubKey_id by apply on_curve_pub. cbn [mbind outcome_bind hs_remote hs_initNonce hs_randomPrivKey hs_isClient hs_local hs_respNonce].
  rewrite <-shared_sym, Ht. cbn [of_option mbind outcome_bind]. rewrite Hx. cbn [mbind outcome_bind].
  rewrite Hrec. cbn [mbind outcome_bind]. by rewrite importPublicKey_65 by apply on_curve_pub.
Qed.

Lemma Keccak256_length v : length (Keccak256 v) = 32%nat.
Proof. apply keccak_length. Qed.

Lemma xor_keccak v n : length n = 32%nat -> bytes_ok n -> exists x, xor (Keccak256 v) n = Ok x.
Proof.
  intros Hl Hb. destruct (xor_ok (Keccak256 v) n) as (x & Hx & _); [by rewrite Keccak256_length|apply keccak_ok|done|].
  eauto.
Qed.

(** The secrets of a client and a server that hold each other's ephemeral key. *)
Lemma Secrets_match kc ks ec es ni nr A B :
  length ni = 32%nat -> bytes_ok ni -> length nr = 32%nat -> bytes_ok nr ->
  exists sc ss,
    hs_Secrets (mkHS true kc (Some (pub_of ks)) ni nr (Some ec) (Some (pub_of es))) A B = Ok sc /\
    hs_Secrets (mkHS false ks (Some (pub_of kc)) ni nr (Some es) (Some (pub_of ec))) A B = Ok ss /\
    secrets_match sc ss (pub_of kc) (pub_of ks).
Proof.
  intros Hi Hib Hr Hrb. destruct (shared_ok ec es) as (t & Ht & Htl & Htb). unfold hs_Secrets.
  cbn [hs_randomPrivKey hs_remoteRandomPub hs_remote hs_respNonce hs_initNonce hs_isClient].
  rewrite <-(shared_sym ec es), Ht. cbn [of_option mbind outcome_bind].
  edestruct xor_keccak as [x1 Hx1]; [exact Hr|exact Hrb|]. edestruct xor_keccak as [x2 Hx2]; [exact Hi|exact Hib|].
  rewrite Hx1. cbn [mbind outcome_bind]. rewrite Hx2. cbn [mbind outcome_bind].
  eexists _, _. split_and!; [done..|]. split; simpl; try done; split; try done; try (by eexists); apply Keccak256_length.
Qed.

(** Client and server, with the packets that pass between them, [A] and [B]. *)
Lemma handshake_run rc rs kc ks : rnd_ok rc -> rnd_ok rs -> eip8_not_plain kc -> eip8_not_plain ks ->
  exists A B sc ss, secrets_match sc ss (pub_of kc) (pub_of ks) /\ forall t l t' l',
    handshakeServer (mkConn ((A ++ t) :: l) [] true) rs ks = Ok (ss, mkConn (cut t l) [B] true) /\
    handshakeClient (mkConn ((B ++ t') :: l') [] true) rc kc (pub_of ks) = Ok (sc, mkConn (cut t' l') [A] true).
Proof.
  intros Hrc Hrs Hpc Hps. destruct (authMsg_exchange rc rs kc ks Hrc) as (msg & Hmk & Hok & Hgp & Hh).
  destruct (authMsg_wire msg Hok) as [Hwb Hwl].
  pose proof (key_bytes_ok (pub_of (r_key rs))) as [Hkl Hkb].
  destruct Hrs as (Hnl & Hnb & Hpad). destruct Hrc as (Hcl & Hcb & Hcpad).
  set (resp := mkResp (drop 1 (MarshallPublicKey (pub_of (r_key rs)))) (r_nonce rs) 4).
  assert (resp_ok resp) as Hrok by (split_and!; done).
  destruct (authResp_wire resp Hrok) as [Hvb Hvl].
  destruct (write_read (mkConn [] [] true) rc ks (authMsg_MarshalRLP msg []) encAuthMsgLen (authMsg_decodePlain new_authMsg)
    (authMsg_UnmarshalRLP new_authMsg) msg) as (A & HA & HrA); try done; try (unfold encAuthMsgLen, authMsgLen, sigLen, shaLen, pubLen, eciesOverhead; lia).
  { intros pad. rewrite authMsg_decode; [|done|unfold len_ok; lia]. destruct msg. simpl in *. by subst. }
  destruct (write_read (mkConn [] [] true) rs kc (authResp_MarshalRLP resp []) encAuthRespLen (authResp_decodePlain new_authResp)
    (authResp_UnmarshalRLP new_authResp) resp) as (B & HB & HrB); try done; try (unfold encAuthRespLen, authRespLen, shaLen, pubLen, eciesOverhead; lia).
  { intros pad. rewrite authResp_decode; [done|done|unfold len_ok; lia]. }
  destruct (Secrets_match kc ks (r_key rc) (r_key rs) (r_nonce rc) (r_nonce rs) A B) as (sc & ss & Hsc & Hss & Hm); try done.
  exists A, B, sc, ss. split; [done|]. intros t l t' l'. split.
  - unfold handshakeServer. rewrite (HrA (mkConn ((A ++ t) :: l) [] true) t l) by done. cbn [mbind outcome_bind sent wopen].
    rewrite Hh. cbn [swallow mbind outcome_bind makeAuthResp hs_randomPrivKey hs_remote hs_isClient hs_local hs_initNonce hs_remoteRandomPub].
    fold resp. assert (writeMessage (mkConn (cut t l) [] true) (Some (pub_of kc)) rs (authResp_MarshalRLP resp []) = Ok (mkConn (cut t l) [B] true, B)) as ->.
    { revert HB. unfold writeMessage. destruct (Encrypt _ _ _ _); [|done]. cbn. intros [= <-]. done. }
    cbn [swallow mbind outcome_bind]. by rewrite Hss.
  - unfold handshakeClient. rewrite Hmk. cbn [mbind outcome_bind hs_remote].
    assert (writeMessage (mkConn ((B ++ t') :: l') [] true) (Some (pub_of ks)) rc (authMsg_MarshalRLP msg []) = Ok (mkConn ((B ++ t') :: l') [A] true, A)) as ->.
    { revert HA. unfold writeMessage. destruct (Encrypt _ _ _ _); [|done]. cbn. intros [= <-]. done. }
    cbn [mbind outcome_bind]. rewrite (HrB (mkConn ((B ++ t') :: l') [A] true) t' l') by done. cbn [mbind outcome_bind].
    unfold handleAuthResp. cbn [resp ar_RandomPubkey ar_Nonce]. rewrite importPublicKey_64 by apply on_curve_pub.
    cbn [mbind outcome_bind hs_isClient hs_local hs_remote hs_initNonce hs_randomPrivKey]. by rewrite Hsc.
Qed.

End Handshake.

(** ** A concrete ECIES for evaluation

    The ciphertext names the key, the length and the shared data it was made with. *)

Definition toy_head (p : PublicKey) : bytes := 4 :: be_put 32 (pub_X p mod 2 ^ 128).
Definition toy_tag (n : nat) (s2 : bytes) : bytes := be_put 32 (Z.of_nat n) ++ be_put 48 (Z.of_nat (length s2)).
Definition toy_Encrypt (p : PublicKey) (m s2 : bytes) : bytes := toy_head p ++ toy_tag (length m) s2 ++ m.
Definition toy_Decrypt (k : N) (c s2 : bytes) : option bytes :=
  if (eciesOverhead <=? length c)%nat && bool_decide (take 33 c = toy_head (toy_pub k)) &&
     bool_decide (take 80 (drop 33 c) = toy_tag (length c - eciesOverhead) s2)
  then Some (drop eciesOverhead c) else None.
Definition toy_shared (a : N) (p : PublicKey) : bytes := be_put 32 ((Z.of_N a mod 2 ^ 128 + pub_X p) mod 2 ^ 256).

Lemma toy_head_length p : length (toy_head p) = 33%nat.
Proof. unfold toy_head. cbn [length]. by rewrite length_be_put. Qed.

Lemma toy_tag_length n s2 : length (toy_tag n s2) = 80%nat.
Proof. unfold toy_tag. by rewrite length_app, !length_be_put. Qed.

Lemma toy_roundtrip k m s2 : toy_Decrypt k (toy_Encrypt (toy_pub k) m s2) s2 = Some m.
Proof.
  unfold toy_Decrypt, toy_Encrypt.
  assert (length (toy_head (toy_pub k) ++ toy_tag (length m) s2 ++ m) = eciesOverhead + length m)%nat as Hl.
  { rewrite !length_app, toy_head_length, toy_tag_length. unfold eciesOverhead. lia. }
  rewrite Hl. rewrite (proj2 (Nat.leb_le _ _)) by lia.
  replace (eciesOverhead + length m - eciesOverhead)%nat with (length m) by lia.
  rewrite (take_app_length' (toy_head (toy_pub k))) by (by rewrite toy_head_length).
  rewrite (drop_app_length' (toy_head (toy_pub k))) by (by rewrite toy_head_length).
  rewrite (take_app_length' (toy_tag _ _)) by (by rewrite toy_tag_length).
  rewrite !bool_decide_eq_true_2 by done. done.
Qed.

#[global] Program Instance toy_ecies : Ecies := {
  Encrypt r p m s2 := Some (toy_Encrypt p m s2);
  Decrypt := toy_Decrypt;
  GenerateShared a p := Some (toy_shared a p);
}.
Next Obligation.
  intros r k m s2 Hm. eexists. split_and!; [done| | |apply toy_roundtrip].
  - unfold toy_Encrypt. rewrite !length_app, toy_head_length, toy_tag_length. unfold eciesOverhead. lia.
  - unfold toy_Encrypt, toy_head, toy_tag. cbn [app]. constructor; [unfold byte_ok; lia|].
    repeat (apply Forall_app; split); try apply be_put_ok. done.
Qed.
Next Obligation. intros a b. unfold toy_shared. cbn [pub_of toy_curve toy_pub pub_X]. by rewrite Z.add_comm. Qed.
Next Obligation. intros a b. eexists. split_and!; [done|apply length_be_put|apply be_put_ok]. Qed.

(** The head of a key has zeros where a shifted head has its first byte. *)
Lemma toy_not_plain (k : N) : eip8_not_plain k.
Proof.
  intros r p m s2 c n Hs [= <-]. cbn [Decrypt toy_ecies]. unfold toy_Decrypt.
  destruct (bool_decide (take 33 (take n (s2 ++ toy_Encrypt p m s2)) = toy_head (toy_pub k))) eqn:E;
    [|by rewrite andb_false_r].
  apply bool_decide_eq_true_1 in E. exfalso. apply (f_equal (fun l => l !! 2%nat)) in E.
  assert (toy_head (toy_pub k) !! 2%nat = Some 0) as Hz.
  { unfold toy_head. cbn [toy_pub pub_X]. rewrite Z.mod_mod by lia. cbn [be_put lookup list_lookup]. f_equal.
    pose proof (Z.mod_pos_bound (Z.of_N k) (2 ^ 128)). rewrite Z.shiftr_div_pow2 by lia.
    rewrite Z.div_small; [done|]. split; [lia|]. eapply Z.lt_le_trans; [apply H; lia|]. apply Z.pow_le_mono_r; lia. }
  rewrite Hz, take_take in E. apply lookup_take_Some in E as [E _].
  destruct s2 as [|a [|b [|? ?]]]; try discriminate Hs. done.
Qed.

(** ** Properties *)

(** C4: the encryption handshake agrees.  For all keys and all random draws, the packet the
    initiator writes is accepted by the recipient, whose answer is accepted by the initiator, and
    both end with the same AES and MAC secrets, MAC states paired crosswise, and each other's
    identity: through ECIES, the EIP-8 envelope with its random padding, RLP, the signature over
    the masked nonce and the key derivation.  A packet arrives in one segment, alone or with the
    beginning of what follows, which is left to be read. *)
Theorem handshake_agrees `{Keccak} `{Curve} `{!Ecies} `{FastRLP} rc rs kc ks :
  rnd_ok rc -> rnd_ok rs -> eip8_not_plain kc -> eip8_not_plain ks ->
  exists A B sc ss, secrets_match sc ss (pub_of kc) (pub_of ks) /\ forall t l t' l',
    handshakeServer (mkConn ((A ++ t) :: l) [] true) rs ks = Ok (ss, mkConn (cut t l) [B] true) /\
    handshakeClient (mkConn ((B ++ t') :: l') [] true) rc kc (pub_of ks) = Ok (sc, mkConn (cut t' l') [A] true).
Proof. apply handshake_run. Qed.

(** a recipient that cannot handle the auth message goes down.  Whenever the message can be
    read but its key, its signature or its nonce is refused, [handshakeServer] returns zero secrets
    with a nil error, and [p2pHandshake], which takes them for a success, dereferences the nil
    [RemoteID]. *)
Theorem handshakeServer_refused_panics `{Keccak} `{Curve} `{!Ecies} `{FastRLP} c r prv c' pkt msg e :
  readMessage encAuthMsgLen (authMsg_decodePlain new_authMsg) (authMsg_UnmarshalRLP new_authMsg) c prv = Ok (c', pkt, msg) ->
  handleAuthMsg (mkHS false prv None [] [] None None) r msg prv = Err e ->
  handshakeServer c r prv = Ok (zero_Secrets, c') /\ session_id (handshakeServer c r prv) = Panic.
Proof.
  intros Hr Hh. assert (handshakeServer c r prv = Ok (zero_Secrets, c')) as E; [|by rewrite E].
  unfold handshakeServer. rewrite Hr. cbn [mbind outcome_bind]. by rewrite Hh.
Qed.

(** The plain format of old clients is never understood: its decoder copies into nil slices.
    Every packet that decrypts as a plain auth message, however well formed, makes the recipient
    panic. *)
Theorem plain_handshake_panics `{Keccak} `{Curve} `{!Ecies} `{FastRLP} c r prv s rest dec :
  segs c = s :: rest -> length s = encAuthMsgLen -> Decrypt prv s [] = Some dec ->
  session_id (handshakeServer c r prv) = Panic.
Proof.
  intros Hs Hl Hd. unfold handshakeServer, readMessage, readBytes. rewrite <-Hl, (conn_Read_all c s [] rest) by (by rewrite app_nil_r).
  cbn [mbind outcome_bind]. rewrite Hd. cbn [mbind outcome_bind].
  unfold authMsg_decodePlain, slice_from. cbn [new_authMsg am_Signature am_InitiatorPubkey am_Nonce copy_n length Nat.min Nat.add].
  destruct (shaLen <=? length dec)%nat; [|done]. cbn [mbind outcome_bind].
  rewrite Nat.add_0_r. destruct (shaLen <=? length dec)%nat; [|done]. by cbn.
Qed.

Definition toy_rnd (n : Z) (k : N) : rnd := mkRnd (replicate 32 n) k 150 [].

Lemma toy_rnd_ok n k : byte_ok n -> rnd_ok (toy_rnd n k).
Proof. intros Hn. split_and!; [apply length_replicate|by apply Forall_byte_replicate|simpl; lia|simpl; lia]. Qed.

Lemma handshake_agrees_witness : rnd_ok (toy_rnd 1 77) /\ rnd_ok (toy_rnd 2 88) /\ exists A B sc ss,
  secrets_match sc ss (pub_of 5%N) (pub_of 6%N) /\ forall t l t' l',
  handshakeServer (mkConn ((A ++ t) :: l) [] true) (toy_rnd 2 88) 6%N = Ok (ss, mkConn (cut t l) [B] true) /\
  handshakeClient (mkConn ((B ++ t') :: l') [] true) (toy_rnd 1 77) 5%N (pub_of 6%N) = Ok (sc, mkConn (cut t' l') [A] true).
Proof.
  assert (rnd_ok (toy_rnd 1 77)) as H1 by (apply toy_rnd_ok; unfold byte_ok; lia).
  assert (rnd_ok (toy_rnd 2 88)) as H2 by (apply toy_rnd_ok; unfold byte_ok; lia).
  split_and!; [exact H1|exact H2|].
  exact (handshake_agrees (toy_rnd 1 77) (toy_rnd 2 88) 5%N 6%N H1 H2 (toy_not_plain _) (toy_not_plain _)).
Defined.

(** An auth message whose signature is fine but whose key is not a point. *)
Definition bad_auth : authMsgV4 := mkAuth false (replicate 65 1) (replicate 64 9) (replicate 32 1) 4.
Definition bad_packet : bytes :=
  let buf := authMsg_MarshalRLP bad_auth [] ++ replicate 150 0 in
  let prefix := be_put 2 (Z.of_nat (length buf + eciesOverhead)) in
  prefix ++ toy_Encrypt (toy_pub 6) buf prefix.

Lemma handshakeServer_refused_panics_witness :
  session_id (handshakeServer (mkConn [bad_packet] [] true) (toy_rnd 2 88) 6%N) = Panic.
Proof.
  assert (readMessage encAuthMsgLen (authMsg_decodePlain new_authMsg) (authMsg_UnmarshalRLP new_authMsg)
    (mkConn [bad_packet] [] true) 6%N = Ok (mkConn [] [] true, bad_packet, bad_auth)) as Hr by (vm_compute; reflexivity).
  assert (handleAuthMsg (mkHS false 6%N None [] [] None None) (toy_rnd 2 88) bad_auth 6%N =
    Err "id is invalid secp256k1 curve point") as Hh.
  { unfold handleAuthMsg. assert (NodeIDToPubKey (am_InitiatorPubkey bad_auth) = Err "id is invalid secp256k1 curve point")
      as -> by (vm_compute; reflexivity). reflexivity. }
  exact (proj2 (handshakeServer_refused_panics _ _ _ _ _ _ _ Hr Hh)).
Defined.

(** A well-formed message of an old client. *)
Definition plain_packet : bytes :=
  toy_Encrypt (toy_pub 6) (authMsg_plain (mkAuth false (replicate 65 1) (drop 1 (MarshallPublicKey (toy_pub 5))) (replicate 32 1) 4)) [].

Lemma plain_handshake_panics_witness :
  session_id (handshakeServer (mkConn [plain_packet] [] true) (toy_rnd 2 88) 6%N) = Panic.
Proof. eapply plain_handshake_panics; vm_compute; reflexivity. Defined.
