(* ===== verification/RlpxFrame.v ===== *)
(** * RLPx frames

    [halfConn] of [rlpx/session.go]: one direction of a session.  Its state is the position in the
    CTR key stream, the running MAC and the 32-byte header buffer, which is reused from frame to
    frame.  [Block] is the block cipher behind [cipher.Block] (any length-preserving function
    serves), [Snappy] the interface of [github.com/golang/snappy].  A connection is the bytes that
    are still to be read, then the end of the stream, and the bytes written. *)

From stdpp Require Import base strings numbers list.
From S2P Require Import Prelude GoStd Rlp Crypto RlpxMsg.
Local Open Scope Z_scope.

(** ** Interfaces *)

(** [aes.NewCipher(key).Encrypt]: the key and a block of 16 bytes. *)
Class Block := {
  block_Encrypt : bytes -> bytes -> bytes;
  block_length k b : length (block_Encrypt k b) = 16%nat;
  block_ok k b : bytes_ok (block_Encrypt k b);
}.

Class Snappy := {
  snappy_Encode : bytes -> bytes;
  snappy_Decode : bytes -> option bytes;
  snappy_DecodedLen : bytes -> option Z;
  snappy_MaxEncodedLen : Z -> Z;                       (* negative when the input is too long *)
  snappy_roundtrip b : bytes_ok b -> 0 <= snappy_MaxEncodedLen (Z.of_nat (length b)) ->
    snappy_Decode (snappy_Encode b) = Some b /\ snappy_DecodedLen (snappy_Encode b) = Some (Z.of_nat (length b));
  snappy_ok b : bytes_ok b -> bytes_ok (snappy_Encode b);
  snappy_max n : 0 <= n < 2 ^ 24 -> 0 <= snappy_MaxEncodedLen n;
  snappy_len b : let n := Z.of_nat (length b) in n < 2 ^ 24 -> Z.of_nat (length (snappy_Encode b)) <= 32 + n + n / 6;
}.

(** ** [cipher.NewCTR] with a zero initial counter *)

Section Frame.
Context `{Keccak} `{Block} `{Snappy} `{FastRLP}.

Definition keystream (key : bytes) (pos : nat) : Z :=
  default 0 (block_Encrypt key (be_put 16 (Z.of_nat (pos / 16))) !! (pos mod 16)%nat).

(** [XORKeyStream(b, b)] from position [pos]. *)
Fixpoint XORKeyStream (key : bytes) (pos : nat) (b : bytes) : bytes :=
  match b with
  | [] => []
  | x :: b' => Z.lxor x (keystream key pos) :: XORKeyStream key (S pos) b'
  end.

(** ** halfConn *)

Record halfConn := mkHC {
  hc_snappy : bool;
  hc_header : bytes;       (* [32]byte *)
  hc_key : bytes;          (* of the stream cipher *)
  hc_pos : nat;            (* position of the stream *)
  hc_block : bytes;        (* the key of [block] *)
  hc_mac : hash_Hash;
}.

Definition set_header (s : halfConn) (h : bytes) : halfConn := mkHC (hc_snappy s) h (hc_key s) (hc_pos s) (hc_block s) (hc_mac s).
Definition set_mac (s : halfConn) (m : hash_Hash) : halfConn := mkHC (hc_snappy s) (hc_header s) (hc_key s) (hc_pos s) (hc_block s) m.

(** [s.stream.XORKeyStream(b, b)] advances the stream. *)
Definition stream_xor (s : halfConn) (b : bytes) : halfConn * bytes :=
  (mkHC (hc_snappy s) (hc_header s) (hc_key s) (hc_pos s + length b) (hc_block s) (hc_mac s), XORKeyStream (hc_key s) (hc_pos s) b).

(** The 16 bytes of [s.aes], xored with the seed, enter the MAC; the tag is a prefix of the digest. *)
Definition updateMacImpl (s : halfConn) (src seed : bytes) : halfConn * bytes :=
  let aes := zip_with Z.lxor (block_Encrypt (hc_block s) (take 16 src)) (take 16 seed) in
  let s := set_mac s (hash_Write (hc_mac s) aes) in
  (s, take 16 (hash_Sum (hc_mac s))).

Definition updateMacWithHeader (s : halfConn) : halfConn * bytes :=
  updateMacImpl s (hash_Sum (hc_mac s)) (take 16 (hc_header s)).

Definition updateMac (s : halfConn) : halfConn * bytes :=
  let src := hash_Sum (hc_mac s) in updateMacImpl s src src.

Definition maxUint24 : Z := 2 ^ 24 - 1.

(** *** Writing *)

(** A connection that takes every write until it is closed. *)
Record wconn := mkW { w_sent : bytes; w_open : bool }.

Definition w_Write (w : wconn) (b : bytes) : option wconn :=
  if w_open w then Some (mkW (w_sent w ++ b) true) else None.

Definition write_error : string := "write: connection closed".

(** [writeData]: encrypt, send, authenticate. *)
Definition writeData (s : halfConn) (w : wconn) (b : bytes) : halfConn * wconn * option string :=
  let '(s, b) := stream_xor s b in
  match w_Write w b with
  | None => (s, w, Some write_error)
  | Some w => (set_mac s (hash_Write (hc_mac s) b), w, None)
  end.

(** Sequencing of steps that may fail: [if err := ...; err != nil { return err }]. *)
Definition andthen (r : halfConn * wconn * option string) (k : halfConn -> wconn -> halfConn * wconn * option string)
    : halfConn * wconn * option string :=
  match r with (s, w, Some e) => (s, w, Some e) | (s, w, None) => k s w end.

Definition conn_send (s : halfConn) (w : wconn) (b : bytes) : halfConn * wconn * option string :=
  match w_Write w b with None => (s, w, Some write_error) | Some w => (s, w, None) end.

(** The code and the payload (compressed if enabled): the header, its tag, the data padded to
    blocks, the tag of the data.  A message too large for [snappy] panics in [extendByteSlice]. *)
Definition write (s : halfConn) (w : wconn) (code : Z) (buf : bytes) : outcome (halfConn * wconn * option string) :=
  let ptype := MarshalTo (NewUint code) in
  if hc_snappy s && (snappy_MaxEncodedLen (Z.of_nat (length buf)) <? 0) then Panic else
  let payload := if hc_snappy s then snappy_Encode buf else buf in
  let fullSize := Z.of_nat (length ptype + length payload) in
  if fullSize >? maxUint24 then Ok (s, w, Some ("message size overflows uint24")%string) else
  let header := be_put 3 fullSize ++ [0xC0; 0x80; 0x80] ++ drop 6 (hc_header s) in
  let '(s, h) := stream_xor s (take 16 header) in
  let s := set_header s (h ++ drop 16 header) in
  Ok (andthen (conn_send s w (take 16 (hc_header s))) (fun s w =>
      let '(s, tag) := updateMacWithHeader s in
      andthen (conn_send s w tag) (fun s w =>
      andthen (writeData s w ptype) (fun s w =>
      andthen (writeData s w payload) (fun s w =>
      let padding := fullSize mod 16 in
      andthen (if padding >? 0 then writeData s w (replicate (Z.to_nat (16 - padding)) 0) else (s, w, None)) (fun s w =>
      let '(s, tag) := updateMac s in
      conn_send s w tag)))))).

(** *** Reading *)

(** [io.ReadFull] of [n] bytes. *)
Definition ReadFull (c : bytes) (n : nat) : outcome (bytes * bytes) :=
  if (n <=? length c)%nat then Ok (drop n c, take n c)
  else Err (if (length c =? 0)%nat then "EOF" else "unexpected EOF").

(** [buf[0]] panics on an empty message. *)
Definition readCode (buf : bytes) : outcome (Z * bytes) :=
  cur ← idx buf 0;
  if cur <? 0x80 then Ok (cur, drop 1 buf)
  else if cur <? 0xB8 then
    let size := cur - 0x80 in
    if size >? Z.of_nat (length buf) then Err "incorrect length"
    else if size =? 0 then Ok (0, drop 1 buf)
    else Err "rlpx msg code is too big"
  else Err "rlpx msg code is too big".

(** The size (24 bits) in a decrypted header, and with the padding. *)
Definition header_size (h : bytes) : Z :=
  Z.lor (Z.lor (default 0 (h !! 2%nat)) (Z.shiftl (default 0 (h !! 1%nat)) 8)) (Z.shiftl (default 0 (h !! 0%nat)) 16).
Definition padded_size (size : Z) : Z := if size mod 16 >? 0 then uint32 (size + (16 - size mod 16)) else size.

(** The code and the decompressed content of decrypted data. *)
Definition deliver (s : halfConn) (c data : bytes) : outcome (halfConn * bytes * (Z * bytes)) :=
  '(code, content) ← readCode data;
  if hc_snappy s then
    _ ← of_option "snappy" (snappy_DecodedLen content);
    content ← of_option ("failed to decode snappy: snappy") (snappy_Decode content);
    Ok (s, c, (code, content))
  else Ok (s, c, (code, content)).

(** The state, what is left of the stream, the code and the payload. *)
Definition read (s : halfConn) (c : bytes) : outcome (halfConn * bytes * (Z * bytes)) :=
  '(c, h) ← ReadFull c 32;
  let s := set_header s h in
  let '(s, tag) := updateMacWithHeader s in
  if negb (bytes_equal tag (drop 16 (hc_header s))) then Err "incorrect header mac" else
  let '(s, h16) := stream_xor s (take 16 (hc_header s)) in
  let s := set_header s (h16 ++ drop 16 (hc_header s)) in
  let size := header_size (hc_header s) in
  '(c, buf) ← ReadFull c (Z.to_nat (padded_size size));
  let s := set_mac s (hash_Write (hc_mac s) buf) in
  '(c, mac) ← ReadFull c 16;
  let s := set_header s (mac ++ drop 16 (hc_header s)) in
  let '(s, tag) := updateMac s in
  if negb (bytes_equal tag (take 16 (hc_header s))) then Err "incorrect payload mac" else
  let '(s, buf) := stream_xor s buf in
  deliver s c (take (Z.to_nat size) buf).

(** ** The key stream *)

Lemma XORKeyStream_length k p b : length (XORKeyStream k p b) = length b.
Proof. revert p. induction b as [|x b IH]; intros p; simpl; [done|by rewrite IH]. Qed.

Lemma XORKeyStream_app k p a b : XORKeyStream k p (a ++ b) = XORKeyStream k p a ++ XORKeyStream k (p + length a) b.
Proof.
  revert p. induction a as [|x a IH]; intros p; simpl; [by rewrite Nat.add_0_r|]. rewrite IH. do 3 f_equal. lia.
Qed.

Lemma keystream_ok k p : byte_ok (keystream k p).
Proof.
  unfold keystream. destruct (_ !! _) as [x|] eqn:E; simpl; [|unfold byte_ok; lia].
  eapply Forall_lookup_1; [apply block_ok|exact E].
Qed.

Lemma XORKeyStream_ok k p b : bytes_ok b -> bytes_ok (XORKeyStream k p b).
Proof.
  intros Hb. revert p. induction Hb as [|x b Hx Hb IH]; intros p; simpl; constructor; [|done].
  apply lxor_byte_ok; [done|apply keystream_ok].
Qed.

(** Decryption with the same position inverts encryption. *)
Lemma XORKeyStream_involutive k p b : XORKeyStream k p (XORKeyStream k p b) = b.
Proof.
  revert p. induction b as [|x b IH]; intros p; simpl; [done|]. rewrite IH, Z.lxor_assoc, Z.lxor_nilpotent, Z.lxor_0_r. done.
Qed.

(** ** One frame *)

(** The two ends of a direction agree on everything but the scratch header. *)
Record sync (s r : halfConn) : Prop := {
  sync_snappy : hc_snappy r = hc_snappy s;
  sync_key : hc_key r = hc_key s;
  sync_pos : hc_pos r = hc_pos s;
  sync_block : hc_block r = hc_block s;
  sync_mac : hc_mac r = hc_mac s;
}.

(** The tag of [updateMacImpl] and the bytes it feeds to the MAC. *)
Definition mac_seed (bk : bytes) (src seed : bytes) : bytes := zip_with Z.lxor (block_Encrypt bk (take 16 src)) (take 16 seed).
Definition tag_of (m : hash_Hash) : bytes := take 16 (hash_Sum m).

Lemma updateMacImpl_eq s src seed : updateMacImpl s src seed =
  (set_mac s (hc_mac s ++ mac_seed (hc_block s) src seed), tag_of (hc_mac s ++ mac_seed (hc_block s) src seed)).
Proof. done. Qed.

Lemma tag_length m : length (tag_of m) = 16%nat.
Proof. unfold tag_of, hash_Sum. rewrite length_take, keccak_length. done. Qed.

(** What is compressed and sent for a message. *)
Definition payload_of (snappy : bool) (buf : bytes) : bytes := if snappy then snappy_Encode buf else buf.
Definition ptype_of (code : Z) : bytes := MarshalTo (NewUint code).
Definition pad_of (n : nat) : bytes := if (Z.of_nat n mod 16 >? 0) then replicate (Z.to_nat (16 - Z.of_nat n mod 16)) 0 else [].

(** The wire format: encrypted header and its tag, encrypted padded data and its tag. *)
Definition header_plain (n : nat) (old : bytes) : bytes := be_put 3 (Z.of_nat n) ++ [0xC0; 0x80; 0x80] ++ take 10 (drop 6 old).

Definition frame (s : halfConn) (data old : bytes) : bytes * hash_Hash :=
  let h := XORKeyStream (hc_key s) (hc_pos s) (header_plain (length data) old) in
  let m1 := hc_mac s ++ mac_seed (hc_block s) (hash_Sum (hc_mac s)) h in
  let d := XORKeyStream (hc_key s) (hc_pos s + 16) (data ++ pad_of (length data)) in
  let m2 := m1 ++ d in
  let m3 := m2 ++ mac_seed (hc_block s) (hash_Sum m2) (hash_Sum m2) in
  (h ++ tag_of m1 ++ d ++ tag_of m3, m3).

Lemma header_plain_length n old : length old = 32%nat -> length (header_plain n old) = 16%nat.
Proof. intros Hl. unfold header_plain. rewrite !length_app, length_be_put, length_take, length_drop, Hl. done. Qed.

Lemma pad_length n : Z.of_nat (n + length (pad_of n)) = (if Z.of_nat n mod 16 >? 0 then Z.of_nat n + (16 - Z.of_nat n mod 16) else Z.of_nat n).
Proof.
  unfold pad_of. pose proof (Z.mod_pos_bound (Z.of_nat n) 16). destruct (Z.gtb_spec (Z.of_nat n mod 16) 0).
  - rewrite length_replicate. lia.
  - simpl. lia.
Qed.

(** The state after a frame of [data] was sent or received. *)
Definition after (s : halfConn) (data old h : bytes) : halfConn :=
  mkHC (hc_snappy s) h (hc_key s) (hc_pos s + 16 + length (data ++ pad_of (length data))) (hc_block s) (snd (frame s data old)).

Lemma write_frame s w code buf :
  let data := ptype_of code ++ payload_of (hc_snappy s) buf in
  w_open w = true -> length (hc_header s) = 32%nat ->
  (hc_snappy s = true -> 0 <= snappy_MaxEncodedLen (Z.of_nat (length buf))) -> Z.of_nat (length data) <= maxUint24 ->
  exists h, length h = 32%nat /\
  write s w code buf = Ok (after s data (hc_header s) h, mkW (w_sent w ++ fst (frame s data (hc_header s))) true, None).
Proof.
  intros data Hw Hh Hsn Hmax. destruct s as [sn hdr key pos bk mac], w as [ws wo].
  cbn [hc_snappy hc_header w_open w_sent] in *. subst wo. unfold write.
  cbn [hc_snappy hc_header hc_key hc_pos hc_block hc_mac stream_xor].
  replace (sn && _) with false by (destruct sn; [symmetry; apply Z.ltb_ge; auto|done]).
  fold (ptype_of code). fold (payload_of sn buf). set (payload := payload_of sn buf) in *.
  assert (length data = (length (ptype_of code) + length payload)%nat) as Hlen by (unfold data; apply length_app).
  rewrite <-Hlen. rewrite Z.gtb_ltb, (proj2 (Z.ltb_ge _ _)) by lia.
  assert (take 16 (be_put 3 (Z.of_nat (length data)) ++ [192; 128; 128] ++ drop 6 hdr) = header_plain (length data) hdr) as Eh.
  { unfold header_plain. rewrite take_app_ge by (rewrite length_be_put; lia). f_equal. }
  rewrite Eh. cbn [stream_xor].
  pose proof (header_plain_length (length data) hdr Hh) as Hpl.
  set (e := XORKeyStream key pos (header_plain (length data) hdr)).
  assert (length e = 16%nat) as He by (unfold e; by rewrite XORKeyStream_length).
  set (hd := e ++ drop 16 _).
  assert (take 16 hd = e) as Ehd by (unfold hd; by apply take_app_length').
  exists hd. split.
  { unfold hd. rewrite !length_app, length_drop, !length_app, length_drop, length_be_put, He, Hh. done. }
  rewrite Hpl.
  cbv beta iota zeta delta [conn_send w_Write andthen updateMacWithHeader writeData updateMac updateMacImpl
    set_header set_mac stream_xor hc_header hc_mac hc_block hc_key hc_pos hc_snappy w_open w_sent].
  rewrite Ehd. unfold after, frame, pad_of, mac_seed, tag_of.
  cbv beta iota zeta delta [fst snd hc_header hc_mac hc_block hc_key hc_pos hc_snappy]. fold e. rewrite (take_ge e) by lia.
  unfold hash_Write. destruct (Z.of_nat (length data) mod 16 >? 0).
  - unfold data. rewrite !XORKeyStream_app, !length_app, <-!app_assoc, !Nat.add_assoc. done.
  - rewrite app_nil_r. unfold data. rewrite !XORKeyStream_app, !length_app, <-!app_assoc, !Nat.add_assoc. done.
Qed.

Lemma ReadFull_app a b n : length a = n -> ReadFull (a ++ b) n = Ok (b, a).
Proof.
  intros <-. unfold ReadFull. rewrite (proj2 (Nat.leb_le _ _)) by (rewrite length_app; lia).
  by rewrite take_app_length, drop_app_length.
Qed.

(** The size is found in the header. *)
Lemma header_size_plain n old rest : Z.of_nat n <= maxUint24 -> header_size (header_plain n old ++ rest) = Z.of_nat n.
Proof.
  intros Hn. pose proof (be_put_get 3 (Z.of_nat n)) as Hg. unfold header_plain, header_size.
  destruct (be_put 3 (Z.of_nat n)) as [|a [|b [|c [|? ?]]]] eqn:E; try (by apply (f_equal length) in E; rewrite length_be_put in E).
  etrans; [|apply Hg; unfold maxUint24 in Hn; lia]. cbn [app lookup list_lookup default]. change (default 0 (Some ?x)) with x.
  unfold be_get. cbn [foldl]. rewrite Z.shiftl_0_l, Z.lor_0_l.
  rewrite Z.shiftl_lor, Z.shiftl_shiftl by lia. change (8 + 8) with 16.
  rewrite (Z.lor_comm c), (Z.lor_comm _ (Z.shiftl a 16)), Z.lor_assoc. done.
Qed.

Lemma padded_size_ok n : Z.of_nat n <= maxUint24 -> Z.to_nat (padded_size (Z.of_nat n)) = (n + length (pad_of n))%nat.
Proof.
  intros Hn. pose proof (pad_length n) as Hp. unfold padded_size, maxUint24 in *.
  pose proof (Z.mod_pos_bound (Z.of_nat n) 16). destruct (Z.of_nat n mod 16 >? 0); [|lia].
  unfold uint32. rewrite Z.mod_small by lia. lia.
Qed.

Lemma bytes_equal_refl b : bytes_equal b b = true.
Proof. unfold bytes_equal. by rewrite bool_decide_eq_true_2. Qed.

(** An authentic frame reaches [deliver]. *)
Lemma read_frame r data old : length old = 32%nat -> Z.of_nat (length data) <= maxUint24 ->
  exists h, forall rest, read r (fst (frame r data old) ++ rest) = deliver (after r data old h) rest data.
Proof.
  intros Ho Hmax. destruct r as [sn hdr key pos bk mac]. unfold frame, after.
  cbn [hc_snappy hc_header hc_key hc_pos hc_block hc_mac fst].
  pose proof (header_plain_length (length data) old Ho) as Hpl.
  set (e := XORKeyStream key pos (header_plain (length data) old)).
  assert (length e = 16%nat) as He by (unfold e; by rewrite XORKeyStream_length).
  set (m1 := mac ++ mac_seed bk (hash_Sum mac) e).
  set (d := XORKeyStream key (pos + 16) (data ++ pad_of (length data))).
  set (m2 := m1 ++ d). set (m3 := m2 ++ mac_seed bk (hash_Sum m2) (hash_Sum m2)).
  assert (length (e ++ tag_of m1) = 32%nat) as Hh by (rewrite length_app, He, tag_length; done).
  eexists. intros rest. unfold read. rewrite <-!app_assoc, (app_assoc e (tag_of m1)).
  rewrite (ReadFull_app _ _ _ Hh). cbn [mbind outcome_bind]. unfold updateMacWithHeader. rewrite updateMacImpl_eq.
  cbv beta iota zeta delta [stream_xor set_header set_mac hc_snappy hc_header hc_key hc_pos hc_block hc_mac].
  rewrite (take_app_length' e), (drop_app_length' e) by done. fold m1. rewrite bytes_equal_refl. cbn [negb].
  assert (XORKeyStream key pos e = header_plain (length data) old) as -> by apply XORKeyStream_involutive. rewrite header_size_plain by done. rewrite padded_size_ok by done.
  assert (length d = length data + length (pad_of (length data)))%nat as Hd by (unfold d; by rewrite XORKeyStream_length, length_app).
  rewrite (ReadFull_app d) by done. cbn [mbind outcome_bind]. rewrite (ReadFull_app (tag_of m3)) by apply tag_length.
  cbn [mbind outcome_bind]. unfold updateMac. rewrite updateMacImpl_eq.
  cbv beta iota zeta delta [stream_xor set_header set_mac hc_snappy hc_header hc_key hc_pos hc_block hc_mac].
  unfold hash_Write. fold m2. fold m3. rewrite (take_app_length' (tag_of m3)) by (by rewrite tag_length).
  rewrite bytes_equal_refl. cbn [negb]. rewrite He. rewrite Nat2Z.id.
  assert (XORKeyStream key (pos + 16) d = data ++ pad_of (length data)) as -> by apply XORKeyStream_involutive. rewrite take_app_length.
  unfold d. rewrite XORKeyStream_length. done.
Qed.

(** ** Messages *)

Definition snappy_fits (buf : bytes) : Prop := 0 <= snappy_MaxEncodedLen (Z.of_nat (length buf)).

(** A message [write] accepts and whose code fits one byte. *)
Definition msg_ok (sn : bool) (m : Z * bytes) : Prop :=
  0 <= m.1 < 128 /\ bytes_ok m.2 /\ (sn = true -> snappy_fits m.2) /\
  Z.of_nat (length (ptype_of m.1 ++ payload_of sn m.2)) <= maxUint24.

(** Half of the limit is enough for a payload, compressed or not. *)
Lemma payload_short sn code buf : 0 <= code < 2 ^ 64 -> Z.of_nat (length buf) < 2 ^ 23 ->
  Z.of_nat (length (ptype_of code ++ payload_of sn buf)) <= maxUint24.
Proof.
  intros Hc Hl. rewrite length_app. pose proof (MarshalTo_len_uint code). unfold ptype_of, maxUint24.
  assert (Z.of_nat (length buf) / 6 <= 2 ^ 21) by (apply Z.div_le_upper_bound; lia).
  assert (Z.of_nat (length (payload_of sn buf)) <= 32 + Z.of_nat (length buf) + Z.of_nat (length buf) / 6); [|lia].
  destruct sn; cbn [payload_of]; [apply snappy_len; lia|]. assert (0 <= Z.of_nat (length buf) / 6) by (apply Z.div_pos; lia). lia.
Qed.

Lemma msg_ok_short sn m : 0 <= m.1 < 128 -> bytes_ok m.2 -> Z.of_nat (length m.2) < 2 ^ 23 -> msg_ok sn m.
Proof. intros Hc Hb Hl. split_and!; try done; try lia; [|apply payload_short; lia]. intros _. apply snappy_max. lia. Qed.

Lemma readCode_ptype code payload : 0 <= code < 128 -> readCode (ptype_of code ++ payload) = Ok (code, payload).
Proof.
  intros Hc. unfold ptype_of, readCode. destruct (decide (code = 0)) as [->|Hne].
  - rewrite MarshalTo_zero. cbn. done.
  - rewrite MarshalTo_small by lia. cbn [app idx lookup list_lookup mbind outcome_bind].
    by rewrite (proj2 (Z.ltb_lt _ _)) by lia.
Qed.

Lemma deliver_msg r rest sn m : hc_snappy r = sn -> msg_ok sn m ->
  deliver r rest (ptype_of m.1 ++ payload_of sn m.2) = Ok (r, rest, m).
Proof.
  intros Hs (Hc & Hb & Hsn & _). unfold deliver. rewrite readCode_ptype by done. cbn [mbind outcome_bind]. rewrite Hs.
  destruct sn; simpl; [|by destruct m].
  destruct (snappy_roundtrip m.2 Hb (Hsn eq_refl)) as [-> ->]. cbn. by destruct m.
Qed.

Lemma frame_sync s r data old : sync s r -> frame r data old = frame s data old.
Proof. intros [H1' H2' H3 H4 H5]. unfold frame. by rewrite H2', H3, H4, H5. Qed.

Lemma after_sync s r data old h h' : sync s r -> sync (after s data old h) (after r data old h').
Proof. intros Hs. pose proof (frame_sync s r data old Hs) as Hf. destruct Hs. split; simpl; congruence. Qed.

(** One message from one end to the other. *)
Lemma write_read_msg s r w m : sync s r -> length (hc_header s) = 32%nat -> w_open w = true -> msg_ok (hc_snappy s) m ->
  exists s' r' wire, write s w m.1 m.2 = Ok (s', mkW (w_sent w ++ wire) true, None) /\
    (forall rest, read r (wire ++ rest) = Ok (r', rest, m)) /\ sync s' r' /\ length (hc_header s') = 32%nat /\ hc_snappy s' = hc_snappy s.
Proof.
  intros Hs Hh Hw Hm. pose proof Hm as (Hc & Hb & Hsn & Hmax).
  destruct (write_frame s w m.1 m.2 Hw Hh Hsn Hmax) as (h & Hhl & HW). set (data := ptype_of m.1 ++ payload_of (hc_snappy s) m.2) in *.
  destruct (read_frame r data (hc_header s) Hh Hmax) as (h' & HR). rewrite (frame_sync s r) in HR by done.
  eexists _, _, _. split; [exact HW|]. split_and!.
  - intros rest. rewrite HR. apply deliver_msg; [|done]. by rewrite <-(sync_snappy _ _ Hs).
  - by apply after_sync.
  - done.
  - done.
Qed.

Fixpoint writes (s : halfConn) (w : wconn) (ms : list (Z * bytes)) : outcome (halfConn * wconn) :=
  match ms with
  | [] => Ok (s, w)
  | m :: ms =>
      '(s, w, e) ← write s w m.1 m.2;
      match e with Some e => Err e | None => writes s w ms end
  end.

Fixpoint reads (s : halfConn) (c : bytes) (n : nat) : outcome (halfConn * bytes * list (Z * bytes)) :=
  match n with
  | O => Ok (s, c, [])
  | S n => '(s, c, m) ← read s c; '(s, c, ms) ← reads s c n; Ok (s, c, m :: ms)
  end.

Lemma writes_reads ms : forall s r w, sync s r -> length (hc_header s) = 32%nat -> w_open w = true ->
  Forall (msg_ok (hc_snappy s)) ms ->
  exists s' r' wire, writes s w ms = Ok (s', mkW (w_sent w ++ wire) true) /\
    (forall rest, reads r (wire ++ rest) (length ms) = Ok (r', rest, ms)) /\ sync s' r'.
Proof.
  induction ms as [|m ms IH]; intros s r w Hs Hh Hw Hms.
  - exists s, r, []. destruct w as [ws wo]. simpl in *. subst. by rewrite app_nil_r.
  - apply Forall_cons in Hms as [Hm Hms].
    destruct (write_read_msg s r w m Hs Hh Hw Hm) as (s1 & r1 & wire & HW & HR & Hs1 & Hh1 & Hsn).
    destruct (IH s1 r1 (mkW (w_sent w ++ wire) true)) as (s2 & r2 & wire2 & HW2 & HR2 & Hs2); [done|done|done|by rewrite Hsn|].
    exists s2, r2, (wire ++ wire2). simpl. rewrite HW. cbn [mbind outcome_bind]. split_and!; [|intros rest|done].
    + rewrite HW2. simpl. by rewrite app_assoc.
    + rewrite <-app_assoc, HR. cbn [mbind outcome_bind]. by rewrite HR2.
Qed.

(** ** What the reader accepts *)

(** A header and data as they come off the wire, with the two tags the reader's MAC state asks for. *)
Definition mac_header (r : halfConn) (h : bytes) : hash_Hash := hc_mac r ++ mac_seed (hc_block r) (hash_Sum (hc_mac r)) h.
Definition mac_data (r : halfConn) (h d : bytes) : hash_Hash :=
  let m2 := mac_header r h ++ d in m2 ++ mac_seed (hc_block r) (hash_Sum m2) (hash_Sum m2).
Definition sealed (r : halfConn) (h d : bytes) : bytes := h ++ tag_of (mac_header r h) ++ d ++ tag_of (mac_data r h d).

Lemma ReadFull_Ok c n c' b : ReadFull c n = Ok (c', b) -> c = b ++ c' /\ length b = n.
Proof.
  unfold ReadFull. destruct (Nat.leb_spec n (length c)); [|done]. intros [= <- <-].
  by rewrite take_drop, length_take, Nat.min_l.
Qed.

Lemma deliver_Ok s c data s' c' m : deliver s c data = Ok (s', c', m) -> s' = s /\ c' = c.
Proof.
  unfold deliver. intros H'. destruct (readCode data) as [[code content]| | |]; try discriminate H'. cbn [mbind outcome_bind] in H'.
  destruct (hc_snappy s); [|by injection H' as <- <- _].
  destruct (snappy_DecodedLen content); [|discriminate H']. cbn [of_option mbind outcome_bind] in H'.
  destruct (snappy_Decode content); [|discriminate H']. cbn [of_option mbind outcome_bind] in H'. by injection H' as <- <- _.
Qed.

Lemma read_sealed r c r' rest m : read r c = Ok (r', rest, m) ->
  exists h d, length h = 16%nat /\ c = sealed r h d ++ rest /\ hc_mac r' = mac_data r h d /\
    hc_pos r' = (hc_pos r + 16 + length d)%nat.
Proof.
  unfold read. intros H'. destruct (ReadFull c 32) as [[c1 hh]| | |] eqn:E1; try discriminate H'. cbn [mbind outcome_bind] in H'.
  apply ReadFull_Ok in E1 as [-> Hhh]. unfold updateMacWithHeader in H'. rewrite updateMacImpl_eq in H'.
  destruct r as [sn hdr key pos bk mac].
  cbv beta iota zeta delta [stream_xor set_header set_mac hc_snappy hc_header hc_key hc_pos hc_block hc_mac] in H'.
  set (h := take 16 hh) in *. assert (length h = 16%nat) as Hh by (unfold h; rewrite length_take; lia).
  destruct (bytes_equal (tag_of _) (drop 16 hh)) eqn:Et1; [|discriminate H']. cbn [negb] in H'.
  unfold bytes_equal in Et1. apply bool_decide_eq_true_1 in Et1.
  destruct (ReadFull c1 _) as [[c2 d]| | |] eqn:E2; try discriminate H'. cbn [mbind outcome_bind] in H'.
  destruct (ReadFull c2 16) as [[c3 t]| | |] eqn:E3; try discriminate H'. cbn [mbind outcome_bind] in H'.
  apply ReadFull_Ok in E2 as [-> Hd]. apply ReadFull_Ok in E3 as [-> Ht].
  unfold updateMac in H'. rewrite updateMacImpl_eq in H'.
  cbv beta iota zeta delta [stream_xor set_header set_mac hc_snappy hc_header hc_key hc_pos hc_block hc_mac hash_Write] in H'.
  rewrite take_app_length' in H' by done.
  destruct (bytes_equal (tag_of _) t) eqn:Et2; [|discriminate H']. cbn [negb] in H'.
  unfold bytes_equal in Et2. apply bool_decide_eq_true_1 in Et2. apply deliver_Ok in H' as [-> ->].
  exists h, d. split_and!; [done| |done|].
  - unfold sealed, mac_data, mac_header. cbn [hc_mac hc_block]. rewrite Et2, Et1. unfold h at 1.
    rewrite (app_assoc (take 16 hh)), take_drop. rewrite <-!app_assoc. done.
  - cbn [hc_pos]. rewrite Hh. lia.
Qed.

End Frame.

(** ** Concrete ciphers for evaluation *)

#[global] Program Instance toy_block : Block := { block_Encrypt k b := be_put 16 (toy_digest (k ++ b)) }.
Next Obligation. intros. apply length_be_put. Qed.
Next Obligation. intros. apply be_put_ok. Qed.

(** Stored blocks only: no compression, a length limit of 2^32. *)
#[global] Program Instance stored_snappy : Snappy := {
  snappy_Encode b := b;
  snappy_Decode b := Some b;
  snappy_DecodedLen b := Some (Z.of_nat (length b));
  snappy_MaxEncodedLen n := if n <? 2 ^ 32 then 32 + n + n / 6 else -1;
}.
Next Obligation. done. Qed.
Next Obligation. done. Qed.
Next Obligation. intros n Hn. simpl. rewrite (proj2 (Z.ltb_lt _ _)) by lia. assert (0 <= n / 6) by (apply Z.div_pos; lia). lia. Qed.
Next Obligation. intros b n Hn. simpl. assert (0 <= n / 6) by (apply Z.div_pos; lia). lia. Qed.

(** ** Properties *)

(** C3: a session direction is a reliable channel of messages.  If the writer's and the reader's
    keys, stream positions and MAC states agree, then any sequence of messages with one-byte codes
    and sizes below 2^24 (after compression, if it is on) is written without error, and the reader
    gets exactly these messages, in order, consumes exactly their bytes whatever follows, and ends in
    agreement with the writer again.  The writer's header buffer, reused between frames, may hold
    anything. *)
Theorem frames_roundtrip `{Keccak} `{Block} `{Snappy} `{FastRLP} (s r : halfConn) (w : wconn) ms :
  sync s r -> length (hc_header s) = 32%nat -> w_open w = true -> Forall (msg_ok (hc_snappy s)) ms ->
  exists s' r' wire, writes s w ms = Ok (s', mkW (w_sent w ++ wire) true) /\
    (forall rest, reads r (wire ++ rest) (length ms) = Ok (r', rest, ms)) /\ sync s' r'.
Proof. apply writes_reads. Qed.

(** C38: the reader accepts nothing that is not authenticated.  Whatever arrives, a message is
    returned only if the bytes consumed are a header and data followed each by the tag that the
    reader's own MAC state demands, which covers everything read before; the MAC state and the
    stream position then advance over exactly these bytes. *)
Theorem read_authentic `{Keccak} `{Block} `{Snappy} `{FastRLP} (r r' : halfConn) c rest m :
  read r c = Ok (r', rest, m) ->
  exists h d, length h = 16%nat /\ c = sealed r h d ++ rest /\ hc_mac r' = mac_data r h d /\
    hc_pos r' = (hc_pos r + 16 + length d)%nat.
Proof. apply read_sealed. Qed.

(** The error paths of [write].  A message whose code and payload exceed 2^24-1 bytes is refused
    with the state untouched and nothing sent; on a closed connection the error is returned and
    nothing is sent either. *)
Theorem write_errors `{Keccak} `{Block} `{Snappy} `{FastRLP} (s : halfConn) (w : wconn) code buf :
  (hc_snappy s = true -> snappy_fits buf) ->
  (maxUint24 < Z.of_nat (length (ptype_of code ++ payload_of (hc_snappy s) buf)) ->
     write s w code buf = Ok (s, w, Some ("message size overflows uint24")%string)) /\
  (Z.of_nat (length (ptype_of code ++ payload_of (hc_snappy s) buf)) <= maxUint24 -> w_open w = false ->
     exists s', write s w code buf = Ok (s', w, Some write_error)).
Proof.
  intros Hsn. unfold write. fold (ptype_of code). fold (payload_of (hc_snappy s) buf).
  replace (hc_snappy s && _) with false by (destruct (hc_snappy s); [symmetry; apply Z.ltb_ge; apply Hsn; done|done]).
  rewrite <-length_app. split; intros Hlen.
  - by rewrite Z.gtb_ltb, (proj2 (Z.ltb_lt _ _)).
  - intros Hw. rewrite Z.gtb_ltb, (proj2 (Z.ltb_ge _ _)) by done. cbn [stream_xor]. eexists.
    unfold conn_send, w_Write, andthen. by rewrite Hw.
Qed.

(** Message codes from 128 on cannot be received.  [write] sends such a code without complaint, as
    a string of several bytes, and [read] answers the authentic frame with an error, which ends the
    session. *)
Theorem big_code_unreadable `{Keccak} `{Block} `{Snappy} `{FastRLP} (s r : halfConn) (w : wconn) code buf :
  sync s r -> length (hc_header s) = 32%nat -> w_open w = true -> 128 <= code < 2 ^ 64 ->
  (hc_snappy s = true -> snappy_fits buf) ->
  Z.of_nat (length (ptype_of code ++ payload_of (hc_snappy s) buf)) <= maxUint24 ->
  exists s' wire, write s w code buf = Ok (s', mkW (w_sent w ++ wire) true, None) /\
    forall rest, read r (wire ++ rest) = Err "rlpx msg code is too big".
Proof.
  intros Hs Hh Hw Hc Hsn Hmax. destruct (write_frame s w code buf Hw Hh Hsn Hmax) as (h & _ & HW).
  set (data := ptype_of code ++ payload_of (hc_snappy s) buf) in *.
  destruct (read_frame r data (hc_header s) Hh Hmax) as (h' & HR). rewrite (frame_sync s r) in HR by done.
  eexists _, _. split; [exact HW|]. intros rest. rewrite HR. unfold deliver, readCode, data, ptype_of.
  destruct (MarshalTo_big code Hc) as (k & q & -> & Hk & Hkq). cbn [app idx lookup list_lookup mbind outcome_bind length].
  rewrite (proj2 (Z.ltb_ge _ _)), (proj2 (Z.ltb_lt _ _)) by lia. rewrite length_app.
  rewrite Z.gtb_ltb, (proj2 (Z.ltb_ge _ _)) by lia. by rewrite (proj2 (Z.eqb_neq _ _)) by lia.
Qed.

(** an authentic frame of size zero makes the reader panic.  A peer that holds the session keys
    can send one at any time: [readCode] reads the first byte of an empty slice. *)
Theorem empty_frame_panics `{Keccak} `{Block} `{Snappy} `{FastRLP} (r : halfConn) old rest : length old = 32%nat ->
  read r (fst (frame r [] old) ++ rest) = Panic.
Proof.
  intros Ho. destruct (read_frame r [] old Ho) as (h & HR); [unfold maxUint24; simpl; lia|]. by rewrite HR.
Qed.

Definition hc0 (sn : bool) : halfConn := mkHC sn (replicate 32 0) [1; 2; 3] 0 [4; 5] [9].

Lemma hc0_sync sn : sync (hc0 sn) (hc0 sn).
Proof. by split. Qed.

(** A ping and a disconnect. *)
Definition msgs0 : list (Z * bytes) := [(2, [0xC0]); (1, [0xC1; 8]); (0, [1; 2; 3])].

Lemma frames_roundtrip_witness : exists s' r' wire,
  writes (hc0 true) (mkW [] true) msgs0 = Ok (s', mkW ([] ++ wire) true) /\
  (forall rest, reads (hc0 true) (wire ++ rest) 3 = Ok (r', rest, msgs0)) /\ sync s' r'.
Proof.
  apply (frames_roundtrip (hc0 true) (hc0 true) (mkW [] true) msgs0).
  - apply hc0_sync.
  - reflexivity.
  - reflexivity.
  - repeat constructor; simpl; unfold byte_ok, snappy_fits; simpl; lia || (intros; vm_compute; discriminate).
Defined.

Lemma read_authentic_witness : exists r' h d, length h = 16%nat /\
  fst (frame (hc0 false) [2; 0xC0] (replicate 32 0)) ++ [7] = sealed (hc0 false) h d ++ [7] /\ hc_mac r' = mac_data (hc0 false) h d.
Proof.
  destruct (read_frame (hc0 false) [2; 0xC0] (replicate 32 0) eq_refl ltac:(vm_compute; discriminate)) as (h0 & HR).
  specialize (HR [7]). set (r' := after (hc0 false) [2; 0xC0] (replicate 32 0) h0) in HR.
  change (deliver r' [7] [2; 0xC0]) with (Ok (r', [7], (2, [0xC0]))) in HR.
  destruct (read_authentic _ _ _ _ _ HR) as (h & d & Hh & Hc & Hm & _). exists r', h, d. split_and!; [exact Hh|exact Hc|exact Hm].
Defined.

Lemma write_errors_witness : exists s', write (hc0 false) (mkW [] false) 2 [0xC0] = Ok (s', mkW [] false, Some write_error).
Proof.
  apply (proj2 (write_errors (hc0 false) (mkW [] false) 2 [0xC0] ltac:(discriminate))); [vm_compute; discriminate|reflexivity].
Defined.

Lemma big_code_unreadable_witness : exists s' wire, write (hc0 false) (mkW [] true) 200 [0xC0] = Ok (s', mkW ([] ++ wire) true, None) /\
  forall rest, read (hc0 false) (wire ++ rest) = Err "rlpx msg code is too big".
Proof.
  apply (big_code_unreadable (hc0 false) (hc0 false) (mkW [] true) 200 [0xC0]);
    [apply hc0_sync|reflexivity|reflexivity|lia|discriminate|vm_compute; discriminate].
Defined.

Lemma empty_frame_panics_witness : read (hc0 true) (fst (frame (hc0 true) [] (replicate 32 7)) ++ [1; 2]) = Panic.
Proof. apply (empty_frame_panics (hc0 true) (replicate 32 7) [1; 2]). reflexivity. Defined.
