(* ===== verification/RlpxStream.v ===== *)
(** * Streams

    [rlpx/stream.go]: the per-protocol byte buffer between the receive loop of a session, which
    appends framed messages ([readData]), and the protocol handler, which takes them out again
    ([ReadMsg]).  A read that finds nothing blocks; [SBlock] says so.  The read deadline of a stream
    is stored once, as the zero time, so the timeout branch is never taken. *)

From stdpp Require Import base strings numbers list.
From S2P Require Import Prelude GoStd.
Local Open Scope Z_scope.

(** ** The header: a 16-bit code and a 32-bit length *)

Definition HeaderSize : nat := 2 + 4.

(** [binary.BigEndian.Uint16(h[0:2])] and so on; the slices panic on a short header. *)
Definition Header_MsgType (h : bytes) : outcome Z := if (2 <=? length h)%nat then Ok (be_get (take 2 h)) else Panic.
Definition Header_Length (h : bytes) : outcome Z := if (6 <=? length h)%nat then Ok (be_get (take 4 (drop 2 h))) else Panic.
Definition Header_Encode (h : bytes) (msgType len : Z) : outcome bytes :=
  if (6 <=? length h)%nat then Ok (be_put 2 msgType ++ be_put 4 len ++ drop 6 h) else Panic.

Lemma Header_roundtrip t n : u16_ok t -> u32_ok n ->
  Header_MsgType (be_put 2 t ++ be_put 4 n) = Ok t /\ Header_Length (be_put 2 t ++ be_put 4 n) = Ok n.
Proof.
  intros Ht Hn. unfold Header_MsgType, Header_Length. rewrite length_app, !length_be_put. cbn [Nat.add Nat.leb].
  rewrite (take_app_length' (be_put 2 t)), (drop_app_length' (be_put 2 t)) by (by rewrite length_be_put).
  rewrite take_ge by (by rewrite length_be_put). by rewrite !be_put_get.
Qed.

(** ** The stream *)

Record ProtocolSpec := mkSpec { spec_Name : string; spec_Version : Z; spec_Length : Z }.

#[global] Instance ProtocolSpec_eq_dec : EqDecision ProtocolSpec.
Proof. solve_decision. Defined.

Record Stream := mkStream {
  st_offset : Z;
  st_length : Z;
  st_recvBuf : option bytes;      (* nil until the first message *)
  st_notify : bool;               (* recvNotifyCh, of capacity 1 *)
  st_error : option string;       (* errorCh, of capacity 1 *)
  st_header : option bytes;       (* the header [Write] waits to complete *)
  st_protocol : ProtocolSpec;
}.

Definition NewStream (offset len : Z) (spec : ProtocolSpec) : Stream := mkStream offset len None false None None spec.

Definition set_buf (s : Stream) (b : option bytes) (n : bool) (e : option string) : Stream :=
  mkStream (st_offset s) (st_length s) b n e (st_header s) (st_protocol s).

(** Returns an error only if [bytes.Buffer.Write] does, which never happens. *)
Definition readData (s : Stream) (code : Z) (buf : bytes) : outcome Stream :=
  let size := Z.of_nat (length buf) in
  let recvBuf := default [] (st_recvBuf s) in
  h ← Header_Encode (replicate HeaderSize 0) (uint16 (uint64 (code - st_offset s))) (uint32 size);
  Ok (set_buf s (Some (recvBuf ++ h ++ buf)) true (st_error s)).

Inductive sres (A : Type) := SOk (a : A) | SErr (e : string) | SBlock.
Arguments SOk {A} a.
Arguments SErr {A} e.
Arguments SBlock {A}.

(** [s.read(b)] with a buffer of [n] bytes: the bytes read.  The deferred [asyncNotify] sets the
    notification on every return but the first; a pending notification without data is consumed
    before blocking. *)
Definition stream_read (s : Stream) (n : nat) : Stream * sres bytes :=
  if (n =? 0)%nat then (s, SOk []) else
  match default [] (st_recvBuf s) with
  | [] =>
      match st_error s with
      | Some e => (set_buf s (st_recvBuf s) true None, SErr e)
      | None => (set_buf s (st_recvBuf s) false None, SBlock)
      end
  | b => (set_buf s (Some (drop n b)) true (st_error s), SOk (take n b))
  end.

(** The other branch of the [select] of a reader that found the buffer empty and waits: if an error is there
    it may be taken, though a message may have come in meanwhile. *)
Definition read_wait (s : Stream) : option (Stream * string) :=
  match st_error s with Some e => Some (set_buf s (st_recvBuf s) true None, e) | None => None end.

(** The payload and the code of the next message; on [SBlock] the stream as the waiting reader leaves it. *)
Definition ReadMsg (s : Stream) : outcome (Stream * sres (bytes * Z)) :=
  match stream_read s HeaderSize with
  | (s, SErr e) => Ok (s, SErr e)
  | (s, SBlock) => Ok (s, SBlock)
  | (s, SOk b) =>
      let header := copy (replicate HeaderSize 0) b in
      len ← Header_Length header;
      match stream_read s (Z.to_nat len) with
      | (s, SErr e) => Ok (s, SErr e)
      | (s, SBlock) => Ok (s, SBlock)
      | (s, SOk b) =>
          t ← Header_MsgType header;
          Ok (s, SOk (copy (replicate (Z.to_nat len) 0) b, t))
      end
  end.

(** [Write]: first the header, then a body of the length it announces, or nothing if that is zero.
    The result is the message to send, with its code and what [Write] will return if that succeeds. *)
Inductive wres := WDone (n : nat) | WErr (e : string) | WSend (code : Z) (b : bytes) (n : nat).

Definition set_hdr (s : Stream) (h : option bytes) : Stream :=
  mkStream (st_offset s) (st_length s) (st_recvBuf s) (st_notify s) (st_error s) h (st_protocol s).

Definition Write_body (s : Stream) (h b : bytes) : outcome (Stream * wres) :=
  size ← Header_Length h; code ← Header_MsgType h;
  let s := set_hdr s None in
  if negb (Z.of_nat (length b) =? size) then
    Ok (s, WErr ("expected message of length " ++ fmt_d size ++ " but found " ++ fmt_d (Z.of_nat (length b))))
  else Ok (s, WSend (uint64 (code + st_offset s)) b (length b)).

Definition Write (s : Stream) (b : bytes) : outcome (Stream * wres) :=
  match st_header s with
  | None =>
      if negb (length b =? HeaderSize)%nat then Ok (s, WErr "bad length, expected the header")
      else
        let h := copy (replicate HeaderSize 0) b in
        let s := set_hdr s (Some h) in
        len ← Header_Length h;
        if len =? 0 then Write_body s h [] else Ok (s, WDone (length b))
  | Some h => Write_body s h b
  end.

(** ** Refinement: a stream is a queue of messages *)

Definition smsg : Type := Z * bytes.

Definition smsg_ok (m : smsg) : Prop := u16_ok m.1 /\ Z.of_nat (length m.2) < 2 ^ 32.

Definition enc_msg (m : smsg) : bytes := be_put 2 m.1 ++ be_put 4 (Z.of_nat (length m.2)) ++ m.2.

(** The buffer holds whole messages. *)
Definition holds (s : Stream) (q : list smsg) : Prop := default [] (st_recvBuf s) = concat (enc_msg <$> q) /\ Forall smsg_ok q.

Lemma enc_msg_split m : enc_msg m = (be_put 2 m.1 ++ be_put 4 (Z.of_nat (length m.2))) ++ m.2.
Proof. unfold enc_msg. by rewrite app_assoc. Qed.

Lemma hdr_length m : length (be_put 2 m.1 ++ be_put 4 (Z.of_nat (length (m : smsg).2))) = 6%nat.
Proof. by rewrite length_app, !length_be_put. Qed.

Lemma readData_ok s code buf q : holds s q -> Z.of_nat (length buf) < 2 ^ 32 ->
  exists s', readData s code buf = Ok s' /\ holds s' (q ++ [(uint16 (uint64 (code - st_offset s)), buf)]) /\
    st_error s' = st_error s /\ st_offset s' = st_offset s /\ st_length s' = st_length s /\ st_notify s' = true /\ st_protocol s' = st_protocol s.
Proof.
  intros [Hq Hok] Hl. unfold readData, Header_Encode. rewrite length_replicate. cbn [HeaderSize Nat.add Nat.leb mbind outcome_bind].
  eexists. split; [done|]. split_and!; try done. split.
  - cbn [set_buf st_recvBuf default from_option id]. rewrite Hq, fmap_app, concat_app. f_equal.
    cbn [fmap list_fmap concat app]. rewrite app_nil_r. unfold enc_msg. cbn [fst snd].
    unfold uint32. rewrite Z.mod_small by lia. cbn [replicate drop]. by rewrite app_nil_r, app_assoc.
  - apply Forall_app. split; [done|]. constructor; [|constructor]. split; [apply Z.mod_pos_bound; lia|done].
Qed.

Lemma stream_read_app s a b : a ≠ [] -> default [] (st_recvBuf s) = a ++ b ->
  stream_read s (length a) = (set_buf s (Some b) true (st_error s), SOk a).
Proof.
  intros Hne Hb. unfold stream_read. rewrite Hb. destruct a as [|x a]; [done|].
  cbn [length Nat.eqb app]. change (x :: a ++ b) with ((x :: a) ++ b).
  change (S (length a)) with (length (x :: a)). by rewrite take_app_length, drop_app_length.
Qed.

(** [ReadMsg] takes the oldest message. *)
Lemma ReadMsg_cons s m q : holds s (m :: q) ->
  exists s', ReadMsg s = Ok (s', SOk (m.2, m.1)) /\ holds s' q /\ st_error s' = st_error s /\ st_offset s' = st_offset s /\ st_length s' = st_length s.
Proof.
  intros [Hq Hok]. apply Forall_cons in Hok as [[Ht Hl] Hok]. cbn [fmap list_fmap concat] in Hq.
  rewrite enc_msg_split, <-app_assoc in Hq. unfold ReadMsg.
  set (h := be_put 2 m.1 ++ be_put 4 (Z.of_nat (length m.2))) in *.
  assert (length h = 6%nat) as Hh by apply hdr_length.
  change HeaderSize with 6%nat. rewrite <-Hh. rewrite (stream_read_app s h _) by (done || (intros E; by rewrite E in Hh)).
  rewrite (copy_full (replicate (length h) 0) h) by apply length_replicate.
  destruct (Header_roundtrip m.1 (Z.of_nat (length m.2)) Ht) as [E1 E2]; [unfold u32_ok; lia|]. fold h in E1, E2.
  rewrite E2. cbn [mbind outcome_bind]. rewrite Nat2Z.id. set (s1 := set_buf s _ true _).
  destruct (decide (m.2 = [])) as [Hm|Hm].
  - rewrite Hm. cbn [length stream_read Nat.eqb]. rewrite E1. exists s1. split_and!; try done.
    split; [|done]. cbn. by rewrite Hm.
  - rewrite (stream_read_app s1 m.2 (concat (enc_msg <$> q))) by done. rewrite E1. cbn [mbind outcome_bind].
    rewrite (copy_full (replicate (length m.2) 0) m.2) by apply length_replicate. eexists. split_and!; done.
Qed.

(** Without a message it reports the session's error, once, or waits. *)
Lemma ReadMsg_nil s : holds s [] ->
  ReadMsg s = Ok (match st_error s with
                  | Some e => (set_buf s (st_recvBuf s) true None, SErr e)
                  | None => (set_buf s (st_recvBuf s) false None, SBlock)
                  end).
Proof. intros [Hq _]. unfold ReadMsg, stream_read. cbn [HeaderSize Nat.add Nat.eqb]. rewrite Hq. simpl. by destruct (st_error s). Qed.

(** *** Calls in any order *)

Inductive sop := OpData (code : Z) (buf : bytes) | OpRead | OpFail (e : string).

(** [select { case i.errorCh <- err: default: }] *)
Definition notify_error (s : Stream) (e : string) : Stream :=
  set_buf s (st_recvBuf s) (st_notify s) (match st_error s with Some e' => Some e' | None => Some e end).

Fixpoint sops (s : Stream) (os : list sop) : outcome (Stream * list (sres (bytes * Z))) :=
  match os with
  | [] => Ok (s, [])
  | OpData code buf :: os => s ← readData s code buf; sops s os
  | OpRead :: os => '(s, r) ← ReadMsg s; '(s, rs) ← sops s os; Ok (s, r :: rs)
  | OpFail e :: os => sops (notify_error s e) os
  end.

(** The specification: a queue and at most one pending error. *)
Fixpoint qops (q : list smsg) (err : option string) (off : Z) (os : list sop) : list smsg * list (sres (bytes * Z)) :=
  match os with
  | [] => (q, [])
  | OpData code buf :: os => qops (q ++ [(uint16 (uint64 (code - off)), buf)]) err off os
  | OpRead :: os =>
      match q with
      | m :: q => let '(q, rs) := qops q err off os in (q, SOk (m.2, m.1) :: rs)
      | [] => let '(q, rs) := qops [] None off os in
              (q, (match err with Some e => SErr e | None => SBlock end) :: rs)
      end
  | OpFail e :: os => qops q (match err with Some e' => Some e' | None => Some e end) off os
  end.

Definition sop_ok (o : sop) : Prop := match o with OpData _ buf => Z.of_nat (length buf) < 2 ^ 32 | _ => True end.

Lemma sops_spec os : forall s q, holds s q -> Forall sop_ok os ->
  exists s', sops s os = Ok (s', (qops q (st_error s) (st_offset s) os).2) /\ holds s' (qops q (st_error s) (st_offset s) os).1.
Proof.
  induction os as [|o os IH]; intros s q Hq Hok; [by exists s|]. apply Forall_cons in Hok as [Ho Hok].
  destruct o as [code buf| |e]; cbn [sops qops].
  - destruct (readData_ok s code buf q Hq Ho) as (s1 & -> & H1 & He & Hof & _). cbn [mbind outcome_bind].
    destruct (IH s1 _ H1 Hok) as (s' & HS & Hh). rewrite He, Hof in *. eauto.
  - destruct q as [|m q].
    + rewrite ReadMsg_nil by done. cbn [mbind outcome_bind].
      assert (forall n, exists s', sops (set_buf s (st_recvBuf s) n None) os = Ok (s', (qops [] None (st_offset s) os).2) /\
        holds s' (qops [] None (st_offset s) os).1) as Hn by (intros n; apply (IH (set_buf s (st_recvBuf s) n None) []); [exact Hq|done]).
      destruct (st_error s) as [e|]; [destruct (Hn true) as (s' & -> & Hh)|destruct (Hn false) as (s' & -> & Hh)];
        cbn [mbind outcome_bind]; exists s'; destruct (qops [] None (st_offset s) os); done.
    + destruct (ReadMsg_cons s m q Hq) as (s1 & -> & H1 & He & Hof & _). cbn [mbind outcome_bind].
      destruct (IH s1 q H1 Hok) as (s' & HS & Hh). rewrite He, Hof in *. rewrite HS. cbn [mbind outcome_bind]. exists s'.
      by destruct (qops q (st_error s) (st_offset s) os).
  - apply (IH (notify_error s e) q); done.
Qed.

(** ** Properties *)

(** A message can be overtaken by the error that follows it.  If a reader waits when a message and then an error
    come in, its [select] may take the error, and the message stays in the buffer. *)
Theorem error_overtakes s code buf e s1 : holds s [] -> st_error s = None -> Z.of_nat (length buf) < 2 ^ 32 ->
  (exists s0, ReadMsg s = Ok (s0, SBlock)) /\ (readData s code buf = Ok s1 -> exists s2, read_wait (notify_error s1 e) = Some (s2, e) /\
    holds s2 [(uint16 (uint64 (code - st_offset s)), buf)]).
Proof.
  intros Hs He Hl. split; [eexists; rewrite ReadMsg_nil by done; by rewrite He|]. intros Hd.
  destruct (readData_ok s code buf [] Hs Hl) as (s' & Hd' & Hh & He' & _). rewrite Hd in Hd'. injection Hd' as <-.
  unfold read_wait, notify_error. cbn [set_buf st_error]. rewrite He', He. eexists. split; [reflexivity|]. exact Hh.
Qed.

Lemma error_overtakes_witness : exists s1 s2, readData (NewStream 16 8 (mkSpec "eth" 65 8)) 18 [1; 2; 3] = Ok s1 /\
  read_wait (notify_error s1 "x") = Some (s2, "x") /\ holds s2 [(2, [1; 2; 3])].
Proof.
  destruct (error_overtakes (NewStream 16 8 (mkSpec "eth" 65 8)) 18 [1; 2; 3] "x"
    (set_buf (NewStream 16 8 (mkSpec "eth" 65 8)) (Some [0; 2; 0; 0; 0; 3; 1; 2; 3]) true None)) as [_ Hs]; [by split|reflexivity|simpl; lia|].
  destruct (Hs eq_refl) as (s2 & H1 & H2). eexists _, s2. split_and!; [reflexivity|exact H1|exact H2].
Defined.

(** C18: a stream is a queue of messages.  Whatever the order in which the receive loop delivers
    messages, the handler reads and the session fails, the reads, each as one step, return the messages delivered so
    far, whole, in order and once each, with the code relative to the stream's offset; the error of
    the session is reported after them, exactly once, and a read with nothing to report waits. *)
Theorem stream_refines_queue offset len spec os : Forall sop_ok os ->
  exists s', sops (NewStream offset len spec) os = Ok (s', (qops [] None offset os).2) /\ holds s' (qops [] None offset os).1.
Proof. intros Hos. apply (sops_spec os (NewStream offset len spec) []); [by split|done]. Qed.

Lemma stream_refines_queue_witness : exists s',
  sops (NewStream 16 8 (mkSpec "eth" 65 8)) [OpData 18 [1; 2; 3]; OpRead; OpFail "x"; OpData 16 []; OpRead; OpRead; OpRead] =
  Ok (s', [SOk ([1; 2; 3], 2); SOk ([], 0); SErr "x"; SBlock]).
Proof.
  destruct (stream_refines_queue 16 8 (mkSpec "eth" 65 8)
    [OpData 18 [1; 2; 3]; OpRead; OpFail "x"; OpData 16 []; OpRead; OpRead; OpRead]) as (s' & H & _).
  - repeat constructor; simpl; lia.
  - exists s'. exact H.
Defined.
