(* ===== verification/RlpxSession.v ===== *)
(** * Sessions

    The rest of [rlpx/session.go] and the protocol handshake of [rlpx/handshake.go]: protocol
    negotiation, dispatch of received messages to streams, keepalive and shutdown.  A session is its
    streams, its shutdown flags and its two directions; the goroutines [recv] and [keepalive] and the
    clients of the session are interleaved by [sess_step], with [exitErr] and [Disconnect] in the pieces between
    which others can run.  The bytes the peer has sent are an
    argument of the reads. *)

From stdpp Require Import base strings numbers list.
From S2P Require Import Prelude GoStd Rlp Crypto RlpxMsg RlpxFrame RlpxStream.
Local Open Scope Z_scope.

Definition ErrStreamClosed : string := "session closed".
Definition emptyRlp : bytes := [0xC0].

Section Session.
Context `{Keccak} `{Block} `{Snappy} `{FastRLP}.

Record Session := mkSess {
  ss_streams : list Stream;
  ss_shutdown : bool;
  ss_shutdownErr : option string;
  ss_chClosed : bool;             (* shutdownCh is closed *)
  ss_closed : bool;               (* state == sessionClosed *)
  ss_in : halfConn;
  ss_out : halfConn;
  ss_conn : wconn;
}.

Definition set_streams (s : Session) (l : list Stream) : Session :=
  mkSess l (ss_shutdown s) (ss_shutdownErr s) (ss_chClosed s) (ss_closed s) (ss_in s) (ss_out s) (ss_conn s).
Definition set_out (s : Session) (o : halfConn) (w : wconn) : Session :=
  mkSess (ss_streams s) (ss_shutdown s) (ss_shutdownErr s) (ss_chClosed s) (ss_closed s) (ss_in s) o w.
Definition set_in (s : Session) (i : halfConn) : Session :=
  mkSess (ss_streams s) (ss_shutdown s) (ss_shutdownErr s) (ss_chClosed s) (ss_closed s) i (ss_out s) (ss_conn s).
Definition set_err (s : Session) (e : string) : Session :=
  mkSess (ss_streams s) (ss_shutdown s) (match ss_shutdownErr s with Some e' => Some e' | None => Some e end)
    (ss_chClosed s) (ss_closed s) (ss_in s) (ss_out s) (ss_conn s).

(** ** Writing and reading messages *)

Definition WriteRawMsg (s : Session) (code : Z) (buf : bytes) : outcome (Session * option string) :=
  if ss_closed s then Ok (s, Some ErrStreamClosed) else
  '(o, w, e) ← write (ss_out s) (ss_conn s) code buf;
  Ok (set_out s o w, e).

Definition writeCode (s : Session) (code : Z) : outcome (Session * option string) := WriteRawMsg s code emptyRlp.

(** [Stream.WriteMsg] on the stream number [i]. *)
Definition stream_WriteMsg (s : Session) (st : Stream) (code : Z) (b : bytes) : outcome (Session * option string) :=
  WriteRawMsg s (uint64 (code + st_offset st)) b.

(** [ReadMsg] from the bytes [c] that have arrived. *)
Definition Session_ReadMsg (s : Session) (c : bytes) : outcome (Session * bytes * (Z * bytes)) :=
  '(i, c, m) ← read (ss_in s) c; Ok (set_in s i, c, m).

Definition set_snappy (h : halfConn) : halfConn := mkHC true (hc_header h) (hc_key h) (hc_pos h) (hc_block h) (hc_mac h).
Definition SetSnappy (s : Session) : Session :=
  mkSess (ss_streams s) (ss_shutdown s) (ss_shutdownErr s) (ss_chClosed s) (ss_closed s)
    (set_snappy (ss_in s)) (set_snappy (ss_out s)) (ss_conn s).

(** ** Shutdown *)

(** [Disconnect] holds [shutdownLock] from its start to its end, and goes through these points meanwhile. *)
Inductive phase := DWrite (reason : Z) | DState | DChan | DConn.

(** Up to the disconnect message: nothing is done if another call came first. *)
Definition Disconnect_start (s : Session) (reason : Z) : Session * option phase :=
  if ss_shutdown s then (s, None) else
  let s := set_err s (DiscReason_String reason) in
  (mkSess (ss_streams s) true (ss_shutdownErr s) (ss_chClosed s) (ss_closed s) (ss_in s) (ss_out s) (ss_conn s), Some (DWrite reason)).

(** The disconnect message ([byte(reason)] truncates, the error is ignored), the state, the channel, the connection. *)
Definition Disconnect_step (s : Session) (d : phase) : outcome (Session * option phase) :=
  match d with
  | DWrite reason => '(s, _) ← WriteRawMsg s discMsg [0xc1; uint8 reason]; Ok (s, Some DState)
  | DState => Ok (mkSess (ss_streams s) (ss_shutdown s) (ss_shutdownErr s) (ss_chClosed s) true (ss_in s) (ss_out s) (ss_conn s), Some DChan)
  | DChan =>
      if ss_chClosed s then Panic else
      Ok (mkSess (ss_streams s) true (ss_shutdownErr s) true (ss_closed s) (ss_in s) (ss_out s) (ss_conn s), Some DConn)
  | DConn => Ok (mkSess (ss_streams s) (ss_shutdown s) (ss_shutdownErr s) (ss_chClosed s) (ss_closed s) (ss_in s) (ss_out s) (mkW (w_sent (ss_conn s)) false), None)
  end.

(** The whole call, when nothing else runs meanwhile. *)
Definition Disconnect (s : Session) (reason : Z) : outcome Session :=
  match Disconnect_start s reason with
  | (s, None) => Ok s
  | (s, Some d) =>
      '(s, _) ← Disconnect_step s d; '(s, _) ← Disconnect_step s DState; '(s, _) ← Disconnect_step s DChan; '(s, _) ← Disconnect_step s DConn; Ok s
  end.

Definition Session_Close (s : Session) : outcome Session := Disconnect s DiscQuitting.
Definition IsClosed (s : Session) : bool := ss_chClosed s.

(** [exitErr] up to the call of [Close]: the error, under [shutdownLock], and the notification of the streams. *)
Definition exit_notify (s : Session) (e : string) : Session := set_streams s ((fun st => notify_error st e) <$> ss_streams s).
Definition exit_mark (s : Session) (e : string) : Session := exit_notify (set_err s e) e.

Definition exitErr (s : Session) (e : string) : outcome Session := Session_Close (exit_mark s e).

(** ** Streams *)

Definition OpenStream (s : Session) (offset len : Z) (spec : ProtocolSpec) : Session :=
  set_streams s (ss_streams s ++ [NewStream offset len spec]).

(** The protocols the node was configured with. *)
Definition getProtocol (backends : list ProtocolSpec) (name : string) (version : Z) : option ProtocolSpec :=
  List.find (fun p => bool_decide (spec_Name p = name) && (spec_Version p =? version)) backends.

Fixpoint open_streams (backends : list ProtocolSpec) (caps : list Cap) (offset : Z) (s : Session) : Session :=
  match caps with
  | [] => s
  | i :: caps =>
      match getProtocol backends (cap_Name i) (cap_Version i) with
      | Some b => open_streams backends caps (uint64 (offset + spec_Length b)) (OpenStream s offset (spec_Length b) b)
      | None => open_streams backends caps offset s
      end
  end.

Definition negotiateProtocols (backends : list ProtocolSpec) (remote : Info) (s : Session) : Session * option string :=
  let s := open_streams backends (info_Caps remote) BaseProtocolLength s in
  if (length (ss_streams s) =? 0)%nat then (s, Some ("no matching protocols")%string) else (s, None).

Definition in_stream (code : Z) (st : Stream) : bool :=
  (st_offset st <=? code) && (code <? uint64 (st_offset st + st_length st)).

(** The number of the stream: streams are shared objects. *)
Definition getStream (s : Session) (code : Z) : option nat :=
  fst <$> list_find (fun st => in_stream code st = true) (ss_streams s).

(** A nil stream is dereferenced. *)
Definition handleStreamMessage (s : Session) (code : Z) (buf : bytes) : outcome Session :=
  match getStream s code with
  | None => Panic
  | Some i =>
      st ← idx (ss_streams s) i;
      st ← readData st code buf;
      Ok (set_streams s (<[i := st]> (ss_streams s)))
  end.

(** The body of [recvLoop] after [ReadMsg]: [Some] error ends the loop. *)
Definition recv_msg (s : Session) (code : Z) (buf : bytes) : outcome (Session * option string) :=
  if code =? pingMsg then writeCode s pongMsg
  else if code =? pongMsg then Ok (s, None)
  else if code =? discMsg then Ok (s, Some (DiscReason_String (decodeDiscMsg buf).1))
  else s ← handleStreamMessage s code buf; Ok (s, None).

(** ** The protocol handshake *)

Definition readProtocolHandshake (s : Session) (remote : PublicKey) (c : bytes) : outcome (Session * bytes * Info) :=
  '(s, c, (code, buf)) ← Session_ReadMsg s c;
  if Z.of_nat (length buf) >? baseProtocolMaxMsgSize then Err "message too big"
  else if code =? discMsg then
    let '(msg, err) := decodeDiscMsg buf in
    match err with Some e => Err e | None => Err ("disconnected: " ++ DiscReason_String msg) end
  else if negb (code =? handshakeMsg) then Err ("expected handshake, got " ++ fmt_x code)
  else
    match Info_UnmarshalRLP zero_Info buf with
    | Ok info =>
        if bool_decide (info_ID info = zero_ID) then Err (DiscReason_String DiscInvalidIdentity) else
        id ← PubkeyToEnode (Some remote);
        if negb (bytes_equal id (info_ID info)) then Err "node ID does not match" else Ok (s, c, info)
    | _ => Panic
    end.

(** The writing and the reading goroutine run concurrently; the first error received is returned,
    and either goroutine may be the first ([write_first]).  The timeout is not taken here. *)
Definition doProtocolHandshake (s : Session) (remote : PublicKey) (nodeInfo : Info) (c : bytes) (write_first : bool)
    : outcome (Session * bytes * Info) :=
  '(s1, e) ← WriteRawMsg s handshakeMsg (Info_MarshalRLP nodeInfo []);
  let r := readProtocolHandshake s1 remote c in
  match e with
  | Some e => match r with Err e' => Err (if write_first then e else e') | Panic => Panic | _ => Err e end
  | None => '(s, c, info) ← r; Ok (if info_Version info >=? snappyProtocolVersion then SetSnappy s else s, c, info)
  end.

(** ** The goroutines of a running session *)

(** Where a goroutine is: looping; with an error for [exitErr], which is recorded, then given to the streams;
    about to call [Close]; in [Disconnect], with the lock; returned. *)
Inductive pc := PRun | PExit (e : string) | PNotify (e : string) | PClose | PDisc | PDone.

(** The session, its two goroutines, and the call of [Disconnect] that holds [shutdownLock]. *)
Record running := mkRun { rn_sess : Session; rn_recv : pc; rn_keep : pc; rn_lock : option phase }.

Inductive who := Recv | Keep.
Definition pc_at (r : running) (w : who) : pc := match w with Recv => rn_recv r | Keep => rn_keep r end.

(** The goroutine [w] goes on to [p]. *)
Definition goto (r : running) (w : who) (s : Session) (p : pc) (d : option phase) : running :=
  match w with Recv => mkRun s p (rn_keep r) d | Keep => mkRun s (rn_recv r) p d end.

Definition pc_of (o : option string) : pc := match o with Some e => PExit e | None => PRun end.
Definition pc_disc (d : option phase) : pc := match d with Some _ => PDisc | None => PDone end.
(** A goroutine whose [Disconnect] returns. *)
Definition pc_end (d : option phase) (p : pc) : pc := match d, p with None, PDisc => PDone | _, _ => p end.

Inductive label :=
  | LRecv (c : bytes)               (* recvLoop reads a message from the bytes [c] *)
  | LReadErr (e : string)           (* recvLoop's read fails *)
  | LPing                           (* keepalive's ping interval *)
  | LPongTimeout                    (* keepalive's pong timer *)
  | LStop                           (* keepalive sees shutdownCh closed *)
  | LExit (w : who) | LNotify (w : who) | LClose (w : who)    (* the steps of exitErr *)
  | LDisconnect (reason : Z)        (* a client calls Disconnect *)
  | LLock                           (* the call of Disconnect that holds the lock goes on *)
  | LWrite (i : nat) (code : Z) (b : bytes)
  | LRead (i : nat)
  | LWait (i : nat).                (* a reader that waits on a stream takes the error *)

Definition update_stream (s : Session) (i : nat) (st : Stream) : Session := set_streams s (<[i := st]> (ss_streams s)).

(** One step of one goroutine.  A [WriteRawMsg] is one step: it holds [stateLock] throughout.  What a failed
    read leaves of the incoming direction is not used again. *)
Definition sess_step (r : running) (l : label) : option (outcome running) :=
  let s := rn_sess r in let d := rn_lock r in
  match l with
  | LRecv c =>
      match rn_recv r with
      | PRun => Some (match Session_ReadMsg s c with
                      | Ok (s, _, (code, buf)) => '(s, e) ← recv_msg s code buf; Ok (goto r Recv s (pc_of e) d)
                      | Err e => Ok (goto r Recv s (PExit e) d)
                      | Panic => Panic
                      | NoFuel => NoFuel
                      end)
      | _ => None
      end
  | LReadErr e => match rn_recv r with PRun => Some (Ok (goto r Recv s (PExit e) d)) | _ => None end
  | LPing => match rn_keep r with PRun => Some ('(s, e) ← writeCode s pingMsg; Ok (goto r Keep s (pc_of e) d)) | _ => None end
  | LPongTimeout => match rn_keep r with PRun => Some (Ok (goto r Keep s (PExit (DiscReason_String DiscProtocolError)) d)) | _ => None end
  | LStop => match rn_keep r with PRun => if IsClosed s then Some (Ok (goto r Keep s PDone d)) else None | _ => None end
  | LExit w => match pc_at r w, d with PExit e, None => Some (Ok (goto r w (set_err s e) (PNotify e) d)) | _, _ => None end
  | LNotify w => match pc_at r w with PNotify e => Some (Ok (goto r w (exit_notify s e) PClose d)) | _ => None end
  | LClose w =>
      match pc_at r w, d with
      | PClose, None => let '(s, d) := Disconnect_start s DiscQuitting in Some (Ok (goto r w s (pc_disc d) d))
      | _, _ => None
      end
  | LDisconnect reason =>
      match d with None => let '(s, d) := Disconnect_start s reason in Some (Ok (mkRun s (rn_recv r) (rn_keep r) d)) | Some _ => None end
  | LLock =>
      match d with
      | Some d => Some ('(s, d) ← Disconnect_step s d; Ok (mkRun s (pc_end d (rn_recv r)) (pc_end d (rn_keep r)) d))
      | None => None
      end
  | LWrite i code b =>
      match ss_streams s !! i with
      | Some st => Some ('(s, _) ← stream_WriteMsg s st code b; Ok (mkRun s (rn_recv r) (rn_keep r) d))
      | None => None
      end
  | LRead i =>
      match ss_streams s !! i with
      | Some st => Some ('(st, _) ← ReadMsg st; Ok (mkRun (update_stream s i st) (rn_recv r) (rn_keep r) d))
      | None => None
      end
  | LWait i =>
      match ss_streams s !! i with
      | Some st => match read_wait st with Some (st, _) => Some (Ok (mkRun (update_stream s i st) (rn_recv r) (rn_keep r) d)) | None => None end
      | None => None
      end
  end.

(** ** Negotiation *)

(** The protocols both sides have, in the order the remote announced them. *)
Definition matched (backends : list ProtocolSpec) (caps : list Cap) : list ProtocolSpec :=
  omap (fun i => getProtocol backends (cap_Name i) (cap_Version i)) caps.

(** Consecutive code ranges from [off] on. *)
Fixpoint layout (off : Z) (l : list ProtocolSpec) : list Stream :=
  match l with
  | [] => []
  | p :: l => NewStream off (spec_Length p) p :: layout (off + spec_Length p) l
  end.

Definition total (l : list ProtocolSpec) : Z := foldr (fun p n => spec_Length p + n) 0 l.

Lemma total_nonneg l : Forall (fun p => 0 <= spec_Length p) l -> 0 <= total l.
Proof. induction 1; simpl; lia. Qed.

Lemma open_streams_layout backends caps : forall off s,
  Forall (fun p => 0 <= spec_Length p) (matched backends caps) -> 0 <= off -> off + total (matched backends caps) < 2 ^ 64 ->
  open_streams backends caps off s = set_streams s (ss_streams s ++ layout off (matched backends caps)).
Proof.
  induction caps as [|c caps IH]; intros off s; cbn [open_streams].
  - intros _ _ _. cbn [matched omap list_omap layout]. rewrite app_nil_r. by destruct s.
  - change (matched backends (c :: caps)) with
      (match getProtocol backends (cap_Name c) (cap_Version c) with Some p => p :: matched backends caps | None => matched backends caps end).
    destruct (getProtocol backends (cap_Name c) (cap_Version c)) as [b|]; [|apply IH].
    change (total (b :: ?l)) with (spec_Length b + total l). intros [Hb Hl]%Forall_cons Ho Ht. pose proof (total_nonneg _ Hl).
    unfold uint64. rewrite Z.mod_small by lia. rewrite IH by (done || lia). unfold OpenStream. simpl. by rewrite <-app_assoc.
Qed.

Lemma layout_bounds l : forall off i st, Forall (fun p => 0 <= spec_Length p) l -> layout off l !! i = Some st ->
  off <= st_offset st /\ st_offset st + st_length st <= off + total l /\ 0 <= st_length st /\ st_recvBuf st = None /\ st_error st = None.
Proof.
  induction l as [|p l IH]; intros off i st Hl Hi; [done|]. apply Forall_cons in Hl as [Hp Hl]. pose proof (total_nonneg _ Hl).
  destruct i as [|i]; simpl in Hi.
  - simplify_eq. simpl. split_and!; (lia || done).
  - apply IH in Hi; [|done]. simpl. destruct Hi as (? & ? & ? & ? & ?). split_and!; (lia || done).
Qed.

(** A later stream starts after an earlier one ends. *)
Lemma layout_disjoint l : forall off i j a b, Forall (fun p => 0 <= spec_Length p) l -> (i < j)%nat ->
  layout off l !! i = Some a -> layout off l !! j = Some b -> st_offset a + st_length a <= st_offset b.
Proof.
  induction l as [|p l IH]; intros off i j a b Hl Hij Ha Hb; [done|]. apply Forall_cons in Hl as [Hp Hl].
  destruct j as [|j]; [lia|]. simpl in Hb. destruct i as [|i]; simpl in Ha.
  - simplify_eq. simpl. by apply (layout_bounds l _ j) in Hb as (? & _).
  - eapply (IH _ i j); eauto. lia.
Qed.

(** Streams with ranges that do not wrap around and do not overlap. *)
Definition separated (l : list Stream) : Prop :=
  (forall i st, l !! i = Some st -> 0 <= st_offset st /\ 0 <= st_length st /\ st_offset st + st_length st < 2 ^ 64) /\
  forall i j a b, (i < j)%nat -> l !! i = Some a -> l !! j = Some b -> st_offset a + st_length a <= st_offset b.

Lemma layout_separated off l : Forall (fun p => 0 <= spec_Length p) l -> 0 <= off -> off + total l < 2 ^ 64 -> separated (layout off l).
Proof.
  intros Hl Ho Ht. split.
  - intros i st Hi. apply layout_bounds in Hi as (? & ? & ? & _); [|done]. lia.
  - intros i j a b Hij Ha Hb. by eapply layout_disjoint.
Qed.

Lemma in_stream_iff code st : 0 <= st_offset st + st_length st < 2 ^ 64 ->
  in_stream code st = true <-> st_offset st <= code < st_offset st + st_length st.
Proof. intros Hw. unfold in_stream, uint64. rewrite Z.mod_small by lia. rewrite andb_true_iff, Z.leb_le, Z.ltb_lt. lia. Qed.

(** The dispatch finds the stream whose range holds the code, and only that one. *)
Lemma getStream_iff s code i st : separated (ss_streams s) -> ss_streams s !! i = Some st ->
  getStream s code = Some i <-> st_offset st <= code < st_offset st + st_length st.
Proof.
  intros [Hb Hd] Hi. unfold getStream. pose proof (Hb i st Hi) as Hbi. split.
  - intros H'. apply fmap_Some in H' as ([j st'] & Hf & ->). apply list_find_Some in Hf as (Hj & Hin & _). simpl in *.
    simplify_eq. rewrite in_stream_iff in Hin by lia. done.
  - intros Hc. destruct (list_find (fun st => in_stream code st = true) (ss_streams s)) as [[j st']|] eqn:E.
    + apply list_find_Some in E as (Hj & Hin & Hfirst). simpl. f_equal. pose proof (Hb j st' Hj).
      rewrite in_stream_iff in Hin by lia. destruct (lt_eq_lt_dec i j) as [[Hlt| ->]|Hlt]; [|done|].
      * exfalso. apply (Hfirst i st Hi Hlt). rewrite in_stream_iff by lia. done.
      * exfalso. pose proof (Hd j i st' st Hlt Hj Hi). lia.
    + exfalso. apply list_find_None in E. rewrite Forall_lookup in E. apply (E i st Hi). rewrite in_stream_iff by lia. done.
Qed.

Lemma getStream_Some s code i : getStream s code = Some i -> exists st, ss_streams s !! i = Some st.
Proof. unfold getStream. intros ([j st] & Hf & ->)%fmap_Some. apply list_find_Some in Hf as (Hj & _). eauto. Qed.

(** ** The invariant of a running session *)

(** Outside of [Disconnect], shutdown is a whole: flag, channel, state and connection together. *)
Record sinv (s : Session) : Prop := {
  si_ch : ss_chClosed s = ss_shutdown s;
  si_closed : ss_closed s = ss_shutdown s;
  si_conn : w_open (ss_conn s) = negb (ss_shutdown s);
  si_err : ss_shutdown s = true -> is_Some (ss_shutdownErr s);
  si_header : length (hc_header (ss_out s)) = 32%nat;
  si_streams : Forall (fun st => exists q, holds st q) (ss_streams s);
  si_sep : separated (ss_streams s);
}.

Definition fits (s : Session) (code : Z) (buf : bytes) : Prop := hc_snappy (ss_out s) = true -> snappy_fits buf.

(** The header buffer keeps its length and the connection stays open, whatever is written. *)
Lemma write_inv o w code buf : length (hc_header o) = 32%nat -> (hc_snappy o = true -> snappy_fits buf) -> w_open w = true ->
  exists o' w' e, write o w code buf = Ok (o', w', e) /\ length (hc_header o') = 32%nat /\ hc_snappy o' = hc_snappy o /\ w_open w' = true.
Proof.
  intros Hh Hsn Hw. destruct (decide (Z.of_nat (length (ptype_of code ++ payload_of (hc_snappy o) buf)) <= maxUint24)) as [Hl|Hl].
  - destruct (write_frame o w code buf Hw Hh Hsn Hl) as (h & Hhl & ->). eexists _, _, _. split; [done|]. done.
  - unfold write. fold (ptype_of code). fold (payload_of (hc_snappy o) buf).
    replace (hc_snappy o && _) with false by (destruct (hc_snappy o); [symmetry; apply Z.ltb_ge; apply Hsn; done|done]).
    rewrite <-length_app. rewrite Z.gtb_ltb, (proj2 (Z.ltb_lt _ _)) by lia. eexists _, _, _. done.
Qed.

Lemma sinv_set_out s o w : sinv s -> w_open w = w_open (ss_conn s) -> length (hc_header o) = 32%nat -> sinv (set_out s o w).
Proof. intros [] Hw Hh. split; simpl; congruence || done. Qed.

Lemma sinv_set_err s e : sinv s -> sinv (set_err s e).
Proof. intros []. split; simpl; try done. intros Hs. destruct (ss_shutdownErr s); by eexists. Qed.

Lemma fits_short s code buf : Z.of_nat (length buf) < 2 ^ 24 -> fits s code buf.
Proof. intros Hl _. unfold snappy_fits. apply snappy_max. lia. Qed.

Lemma WriteRawMsg_open s code buf : length (hc_header (ss_out s)) = 32%nat -> ss_closed s = false -> w_open (ss_conn s) = true -> fits s code buf ->
  exists o w e, WriteRawMsg s code buf = Ok (set_out s o w, e) /\ length (hc_header o) = 32%nat /\ w_open w = true.
Proof.
  intros Hh Hc Hw Hf. unfold WriteRawMsg. rewrite Hc. destruct (write_inv (ss_out s) (ss_conn s) code buf Hh Hf Hw) as (o & w & e & -> & Hh' & _ & Hw').
  cbn [mbind outcome_bind]. by exists o, w, e.
Qed.

Lemma Disconnect_inv s reason : sinv s -> exists s', Disconnect s reason = Ok s' /\ sinv s' /\ ss_shutdown s' = true /\
  ss_streams s' = ss_streams s /\ (ss_shutdown s = true -> s' = s).
Proof.
  intros I. unfold Disconnect, Disconnect_start. destruct (ss_shutdown s) eqn:E; [by exists s|]. destruct I as [Hch Hcl Hco He Hh Hst Hsep]. rewrite E in *. cbn [Disconnect_step].
  match goal with |- context [WriteRawMsg ?s1 ?c ?b] => destruct (WriteRawMsg_open s1 c b) as (o & w & e & -> & Hh' & Hw') end;
    [done|done|done|apply fits_short; simpl; lia|].
  cbn. rewrite Hch. cbn. eexists. split; [done|]. split_and!; [|done..]. split; cbn; try done. intros _. destruct (ss_shutdownErr s); by eexists.
Qed.

Lemma sinv_set_streams s l : sinv s -> Forall (fun st => exists q, holds st q) l -> separated l -> sinv (set_streams s l).
Proof. intros [] Hl Hs. by split. Qed.

(** The ranges of the streams never change. *)
Definition same_ranges (l l' : list Stream) : Prop :=
  Forall2 (fun a b => st_offset a = st_offset b /\ st_length a = st_length b) l l'.

Lemma separated_ranges l l' : same_ranges l l' -> separated l -> separated l'.
Proof.
  intros Hr [Hb Hd]. split.
  - intros i st Hi. destruct (Forall2_lookup_r _ _ _ _ _ Hr Hi) as (a & Ha & Ho & Hl'). rewrite <-Ho, <-Hl'. by eapply Hb.
  - intros i j a b Hij Ha Hb'. destruct (Forall2_lookup_r _ _ _ _ _ Hr Ha) as (a0 & Ha0 & Ho & Hl').
    destruct (Forall2_lookup_r _ _ _ _ _ Hr Hb') as (b0 & Hb0 & Ho' & _). rewrite <-Ho, <-Hl', <-Ho'. by eapply Hd.
Qed.

Lemma same_ranges_insert l i st st' : l !! i = Some st -> st_offset st' = st_offset st -> st_length st' = st_length st ->
  same_ranges l (<[i := st']> l).
Proof.
  intros Hi Ho Hl. apply Forall2_same_length_lookup_2; [by rewrite length_insert|]. intros k x y Hx Hy.
  destruct (decide (i = k)) as [->|]; [|rewrite list_lookup_insert_ne in Hy by done; simplify_eq; done].
  rewrite list_lookup_insert_eq in Hy by (by eapply lookup_lt_Some). simplify_eq. done.
Qed.

Lemma sinv_update_stream s i st st' : sinv s -> ss_streams s !! i = Some st -> (exists q, holds st' q) ->
  st_offset st' = st_offset st -> st_length st' = st_length st -> sinv (set_streams s (<[i := st']> (ss_streams s))).
Proof.
  intros I Hi Hq Ho Hl. apply sinv_set_streams; [done| |].
  - apply Forall_insert; [apply I|done].
  - eapply separated_ranges; [by eapply same_ranges_insert|apply I].
Qed.

Lemma exit_mark_inv s e : sinv s -> sinv (exit_mark s e).
Proof.
  intros I. unfold exit_mark. apply sinv_set_streams; [by apply sinv_set_err| |].
  - apply Forall_fmap. eapply Forall_impl; [apply I|]. intros st [q Hq]. by exists q.
  - eapply separated_ranges; [|apply I]. unfold same_ranges. rewrite Forall2_fmap_r. by apply Forall_Forall2_diag, Forall_true.
Qed.

Lemma holds_readable st : (exists q, holds st q) -> exists st' r, ReadMsg st = Ok (st', r) /\ (exists q, holds st' q) /\
  st_offset st' = st_offset st /\ st_length st' = st_length st.
Proof.
  intros [q Hq]. destruct q as [|m q].
  - rewrite (ReadMsg_nil st Hq). destruct (st_error st); eexists _, _; (split; [done|]); split_and!; try done; by exists [].
  - destruct (ReadMsg_cons st m q Hq) as (st' & -> & Hq' & _ & Ho & Hl). eexists _, _. split; [done|]. split_and!; [by exists q|done..].
Qed.

(** A received code the session knows what to do with. *)
Definition known (s : Session) (code : Z) : Prop :=
  code = pingMsg \/ code = pongMsg \/ code = discMsg \/ is_Some (getStream s code).

(** ** Every interleaving *)

(** What holds of a session at every point. *)
Record score (s : Session) : Prop := {
  sc_header : length (hc_header (ss_out s)) = 32%nat;
  sc_streams : Forall (fun st => exists q, holds st q) (ss_streams s);
  sc_sep : separated (ss_streams s);
}.

(** The shutdown flags, by where [Disconnect] is. *)
Definition flags (d : option phase) (s : Session) : Prop :=
  (ss_shutdown s = true -> is_Some (ss_shutdownErr s)) /\
  match d with
  | None => ss_chClosed s = ss_shutdown s /\ ss_closed s = ss_shutdown s /\ w_open (ss_conn s) = negb (ss_shutdown s)
  | Some d => ss_shutdown s = true /\ w_open (ss_conn s) = true /\
      ss_closed s = (match d with DWrite _ | DState => false | _ => true end) /\ ss_chClosed s = (match d with DConn => true | _ => false end)
  end.

Lemma sinv_flags s : sinv s <-> score s /\ flags None s.
Proof. split; [intros []; split; [by split|]; unfold flags; by split_and!|]. intros [[] (? & ? & ? & ?)]. by split. Qed.

Record rinv (r : running) : Prop := {
  ri_core : score (rn_sess r);
  ri_flags : flags (rn_lock r) (rn_sess r);
  ri_disc w : pc_at r w = PDisc -> is_Some (rn_lock r);
}.

Lemma rinv_start s : sinv s -> rinv (mkRun s PRun PRun None).
Proof. intros [C F]%sinv_flags. split; [done|done|by intros []]. Qed.

(** What a step outside of [Disconnect] leaves as it is. *)
Record keeps (s s' : Session) : Prop := {
  kp_flags : ss_shutdown s' = ss_shutdown s /\ ss_chClosed s' = ss_chClosed s /\ ss_closed s' = ss_closed s /\ w_open (ss_conn s') = w_open (ss_conn s);
  kp_err : is_Some (ss_shutdownErr s) -> ss_shutdownErr s' = ss_shutdownErr s;
  kp_conn : ss_closed s = true -> ss_conn s' = ss_conn s;
}.

Lemma keeps_refl s : keeps s s.
Proof. by split. Qed.

Lemma keeps_trans a b c : keeps a b -> keeps b c -> keeps a c.
Proof.
  intros [(F1 & F2 & F3 & F4) E C] [(F1' & F2' & F3' & F4') E' C']. split; [by rewrite F1', F2', F3', F4'| |].
  - intros Ha. pose proof (E Ha) as Hb. rewrite E'; [done|by rewrite Hb].
  - intros Ha. rewrite C', C; congruence.
Qed.

Lemma flags_keeps d s s' : keeps s s' -> flags d s -> flags d s'.
Proof.
  intros [(F1 & F2 & F3 & F4) E _] [He Hd]. split; [rewrite F1; intros Hs; rewrite E; auto|]. by destruct d; rewrite F1, F2, F3, F4.
Qed.

Lemma score_sinv s s' : score s -> ss_out s' = ss_out s -> ss_streams s' = ss_streams s -> score s'.
Proof. intros [] Ho Hs. by split; rewrite ?Ho, ?Hs. Qed.

(** The state is only open while the connection is. *)
Lemma flags_open d s : flags d s -> ss_closed s = false -> w_open (ss_conn s) = true.
Proof. intros [_ Hd] Hc. destruct d as [d|]; [tauto|]. destruct Hd as (_ & Hcl & ->). by rewrite <-Hcl, Hc. Qed.

Lemma WriteRawMsg_keeps d s code buf : score s -> flags d s -> (ss_closed s = false -> fits s code buf) ->
  exists s' e, WriteRawMsg s code buf = Ok (s', e) /\ score s' /\ keeps s s' /\ (ss_closed s = true -> s' = s).
Proof.
  intros [Hh Hst Hsep] Hf Hfit. destruct (ss_closed s) eqn:Hc; [unfold WriteRawMsg; rewrite Hc; by eexists _, _|].
  pose proof (flags_open _ _ Hf Hc) as Hw. destruct (WriteRawMsg_open s code buf Hh Hc Hw (Hfit eq_refl)) as (o & w & e & -> & Hh' & Hw').
  eexists _, _. split; [done|]. split_and!; [by split| |done]. split; [cbn; by rewrite Hw, Hw'|done|by rewrite Hc].
Qed.

Lemma score_update s i st st' : score s -> ss_streams s !! i = Some st -> (exists q, holds st' q) ->
  st_offset st' = st_offset st -> st_length st' = st_length st -> score (update_stream s i st') /\ keeps s (update_stream s i st').
Proof.
  intros [Hh Hst Hsep] Hi Hq Ho Hl. split; [|by split]. split; cbn [update_stream set_streams ss_streams ss_out]; [done|by apply Forall_insert|].
  eapply separated_ranges; [by eapply same_ranges_insert|done].
Qed.

(** A message that is delivered. *)
Lemma recv_msg_keeps d s code buf : score s -> flags d s -> known s code -> Z.of_nat (length buf) < 2 ^ 32 ->
  exists s' e, recv_msg s code buf = Ok (s', e) /\ score s' /\ keeps s s'.
Proof.
  intros Hc Hf Hk Hb. unfold recv_msg. destruct (code =? pingMsg) eqn:E1.
  { destruct (WriteRawMsg_keeps d s pongMsg emptyRlp Hc Hf) as (s' & e & HW & ? & ? & _); [intros _; apply fits_short; simpl; lia|]. by exists s', e. }
  destruct (code =? pongMsg) eqn:E2; [eexists _, _; split_and!; [done|done|apply keeps_refl]|].
  destruct (code =? discMsg) eqn:E3; [eexists _, _; split_and!; [done|done|apply keeps_refl]|].
  destruct Hk as [->|[->|[->|[i Hi]]]]; try done. unfold handleStreamMessage. rewrite Hi. destruct (getStream_Some _ _ _ Hi) as [st Hst].
  rewrite (proj2 (idx_Ok _ _ _) Hst). cbn [mbind outcome_bind]. pose proof (sc_streams _ Hc) as HF. rewrite Forall_lookup in HF. destruct (HF i st Hst) as [q Hq].
  destruct (readData_ok st code buf q Hq Hb) as (st' & -> & Hq' & _ & Ho & Hl & _). cbn [mbind outcome_bind]. fold (update_stream s i st').
  eexists _, _. split; [reflexivity|]. eapply score_update; eauto.
Qed.

Lemma recv_msg_unknown s code buf : ~ known s code -> recv_msg s code buf = Panic.
Proof.
  intros Hk. unfold known in Hk. unfold recv_msg. rewrite !(proj2 (Z.eqb_neq _ _)) by tauto. unfold handleStreamMessage.
  destruct (getStream s code) eqn:E; [|done]. exfalso. apply Hk. right; right; right. by eexists.
Qed.

#[global] Instance known_dec s code : Decision (known s code).
Proof. unfold known. apply _. Defined.

(** [read] always returns, or panics. *)
Lemma bind_returns {A B} (m : outcome A) (k : A -> outcome B) : m ≠ NoFuel -> (forall a, k a ≠ NoFuel) -> m ≫= k ≠ NoFuel.
Proof. intros Hm Hk. destruct m; [apply Hk|done|done|by elim Hm]. Qed.

Lemma read_returns h c : read h c ≠ NoFuel.
Proof.
  assert (forall b n, ReadFull b n ≠ NoFuel) as Hf by (intros b n; unfold ReadFull; by destruct (_ <=? _)%nat).
  assert (forall s b d, deliver s b d ≠ NoFuel) as Hd.
  { intros s b d. apply bind_returns; [|intros [code content]; destruct (hc_snappy s); [|done]; destruct (snappy_DecodedLen content), (snappy_Decode content); done].
    apply bind_returns; [unfold idx; by destruct (d !! 0%nat)|]. intros cur. destruct (_ <? _); [done|]. destruct (_ <? _); [|done]. cbv zeta. destruct (_ >? _); [done|]. by destruct (_ =? _). }
  unfold read. apply bind_returns; [apply Hf|]. intros [c1 h1]. destruct (updateMacWithHeader _) as [h2 t2]. destruct (negb _); [done|].
  destruct (stream_xor h2 _) as [h3 b3]. apply bind_returns; [apply Hf|]. intros [c4 b4]. apply bind_returns; [apply Hf|]. intros [c5 m5].
  destruct (updateMac _) as [h6 t6]. destruct (negb _); [done|]. by destruct (stream_xor h6 b4).
Qed.

(** The steps that crash the program: a frame on which [read] panics, a code in no stream's range, and a message
    of the client's that is too long to be compressed. *)
Definition crashes (r : running) (l : label) : Prop :=
  let s := rn_sess r in
  match l with
  | LRecv c => rn_recv r = PRun /\ (Session_ReadMsg s c = Panic \/ exists s' rest code buf, Session_ReadMsg s c = Ok (s', rest, (code, buf)) /\ ~ known s code)
  | LWrite i code b => is_Some (ss_streams s !! i) /\ ss_closed s = false /\ hc_snappy (ss_out s) = true /\ snappy_MaxEncodedLen (Z.of_nat (length b)) < 0
  | _ => False
  end.

(** A received payload is shorter than 2^32: frames have at most 2^24 bytes, and what they decompress to has its length in 32 bits. *)
Definition label_ok (r : running) (l : label) : Prop :=
  match l with LRecv c => forall s rest m, Session_ReadMsg (rn_sess r) c = Ok (s, rest, m) -> Z.of_nat (length m.2) < 2 ^ 32 | _ => True end.

(** Once begun a shutdown goes on, and once the state is closed nothing more is sent. *)
Definition later (s s' : Session) : Prop :=
  (ss_shutdown s = true -> ss_shutdown s' = true) /\ (ss_chClosed s = true -> ss_chClosed s' = true) /\
  (ss_closed s = true -> ss_closed s' = true /\ w_sent (ss_conn s') = w_sent (ss_conn s)).

Lemma later_keeps s s' : keeps s s' -> later s s'.
Proof. intros [(F1 & F2 & F3 & _) _ C]. unfold later. rewrite F1, F2, F3. split_and!; [done|done|]. intros Hc. by rewrite C. Qed.

Definition steps_ok (r : running) (o : outcome running) : Prop := exists r', o = Ok r' /\ rinv r' /\ later (rn_sess r) (rn_sess r').

(** A goroutine outside of [Disconnect] goes on. *)
Lemma steps_goto r w s p : rinv r -> score s -> keeps (rn_sess r) s -> p ≠ PDisc -> steps_ok r (Ok (goto r w s p (rn_lock r))).
Proof.
  intros [_ F D] Hs Hk Hp. eexists. split; [reflexivity|]. split; [|destruct w; by apply later_keeps].
  split; [by destruct w|destruct w; by eapply flags_keeps|]. intros v. destruct w, v; try done; [apply (D Keep)|apply (D Recv)].
Qed.

Lemma steps_same r s : rinv r -> score s -> keeps (rn_sess r) s -> steps_ok r (Ok (mkRun s (rn_recv r) (rn_keep r) (rn_lock r))).
Proof. intros [_ F D] Hs Hk. eexists. split; [reflexivity|]. split; [split; [done|by eapply flags_keeps|exact D]|by apply later_keeps]. Qed.

Lemma set_err_keeps s e : keeps s (set_err s e).
Proof. split; try done. intros [x Hx]. cbn. by rewrite Hx. Qed.

Lemma exit_notify_core s e : score s -> score (exit_notify s e) /\ keeps s (exit_notify s e).
Proof.
  intros [Hh Hst Hsep]. split; [|by split]. split; [done| |].
  - apply Forall_fmap. eapply Forall_impl; [exact Hst|]. intros st [q Hq]. by exists q.
  - eapply separated_ranges; [|exact Hsep]. unfold same_ranges, exit_notify. cbn [set_streams ss_streams]. rewrite Forall2_fmap_r. by apply Forall_Forall2_diag, Forall_true.
Qed.

Lemma Disconnect_start_flags s reason s' d : score s -> flags None s -> Disconnect_start s reason = (s', d) -> score s' /\ flags d s' /\ later s s'.
Proof.
  intros Hs [He (Hch & Hcl & Hw)]. unfold Disconnect_start. destruct (ss_shutdown s) eqn:E; intros [= <- <-]; [split_and!; [done|by split_and!; rewrite ?E|done]|].
  split; [by destruct Hs; split|]. split; [|split_and!; [done|done|by rewrite Hcl]].
  split; [|by split_and!; cbn; rewrite ?Hw]. intros _. cbn. destruct (ss_shutdownErr s); by eexists.
Qed.

Lemma Disconnect_step_flags s d : score s -> flags (Some d) s -> exists s' d', Disconnect_step s d = Ok (s', d') /\ score s' /\ flags d' s' /\ later s s'.
Proof.
  intros Hs Hf. pose proof Hf as [He (Hsd & Hw & Hcl & Hch)]. destruct d as [reason| | |]; cbn [Disconnect_step].
  - destruct (WriteRawMsg_keeps _ s discMsg [193; uint8 reason] Hs Hf) as (s' & e & -> & Hs' & Hk & _); [intros _; apply fits_short; simpl; lia|].
    cbn [mbind outcome_bind]. eexists _, _. split; [reflexivity|]. split_and!; [done|exact (flags_keeps _ _ _ Hk Hf)|by apply later_keeps].
  - eexists _, _. split; [reflexivity|]. split_and!; [by destruct Hs; split|by split_and!|by split_and!].
  - rewrite Hch. eexists _, _. split; [reflexivity|]. split_and!; [by destruct Hs; split| |by split_and!].
    split; [intros _; by apply He|]. by split_and!.
  - eexists _, _. split; [reflexivity|]. split_and!; [by destruct Hs; split| |by split_and!]. split; [exact He|]. cbn. by rewrite Hsd.
Qed.

Lemma steps_start r (f : Session -> option phase -> running) reason : rinv r -> rn_lock r = None ->
  (forall s d, rn_sess (f s d) = s /\ rn_lock (f s d) = d /\ forall w, pc_at (f s d) w = PDisc -> is_Some d) ->
  steps_ok r (Ok (let '(s, d) := Disconnect_start (rn_sess r) reason in f s d)).
Proof.
  intros [C F D] Hl Hf. rewrite Hl in F. destruct (Disconnect_start (rn_sess r) reason) as [s d] eqn:E.
  destruct (Disconnect_start_flags _ _ _ _ C F E) as (C' & F' & L). destruct (Hf s d) as (Es & El & Ed). eexists. split; [reflexivity|].
  split; [split; rewrite ?Es, ?El; done|by rewrite Es].
Qed.

Lemma steps_lock r d : rinv r -> rn_lock r = Some d ->
  steps_ok r ('(s, d) ← Disconnect_step (rn_sess r) d; Ok (mkRun s (pc_end d (rn_recv r)) (pc_end d (rn_keep r)) d)).
Proof.
  intros [C F D] Hl. rewrite Hl in F. destruct (Disconnect_step_flags _ _ C F) as (s' & d' & -> & C' & F' & L). cbn [mbind outcome_bind].
  eexists. split; [reflexivity|]. split; [split; try done|done]. intros w. destruct d'; [by eexists|]. destruct w; cbn; [by destruct (rn_recv r)|by destruct (rn_keep r)].
Qed.

Lemma steps_recv r c o : rinv r -> rn_recv r = PRun -> label_ok r (LRecv c) -> sess_step r (LRecv c) = Some o ->
  (o = Panic /\ crashes r (LRecv c)) \/ (steps_ok r o /\ ~ crashes r (LRecv c)).
Proof.
  intros I Hp Hl Hst. cbn [sess_step] in Hst. rewrite Hp in Hst. injection Hst as <-. cbn [crashes label_ok] in *.
  destruct (Session_ReadMsg (rn_sess r) c) as [[[s1 rest] [code buf]]|e| |] eqn:Er.
  - specialize (Hl _ _ _ eq_refl). cbn [snd] in Hl. assert (exists h, s1 = set_in (rn_sess r) h) as [h ->].
    { unfold Session_ReadMsg in Er. apply bind_Ok in Er as ([[h c'] m] & _ & [= <- _ _]). by eexists. }
    destruct (decide (known (rn_sess r) code)) as [Hk|Hk]; [right|left].
    + destruct (recv_msg_keeps (rn_lock r) (set_in (rn_sess r) h) code buf) as (s' & e & -> & C' & K); [by destruct I as [[] _ _]; split|by destruct I|done|done|].
      split; [|intros [_ [Hx|(? & ? & ? & ? & [= <- <- <- <-] & Hx)]]; by try apply Hx]. cbn [mbind outcome_bind].
      apply (steps_goto r Recv); [done|done| |by destruct e]. eapply keeps_trans; [|exact K]. by split.
    + rewrite recv_msg_unknown by exact Hk. split; [done|]. split; [done|]. right. by eexists _, _, _, _.
  - right. split; [apply (steps_goto r Recv); [done|apply I|apply keeps_refl|done]|]. intros [_ [Hx|(? & ? & ? & ? & Hx & _)]]; discriminate Hx.
  - left. split; [done|]. split; [done|]. by left.
  - exfalso. unfold Session_ReadMsg in Er. pose proof (read_returns (ss_in (rn_sess r)) c). by destruct (read _ c) as [[[]]| | |].
Qed.

Lemma WriteRawMsg_long s code b : ss_closed s = false -> hc_snappy (ss_out s) = true -> snappy_MaxEncodedLen (Z.of_nat (length b)) < 0 ->
  WriteRawMsg s code b = Panic.
Proof. intros Hc Hs Hl. unfold WriteRawMsg, write. rewrite Hc, Hs, (proj2 (Z.ltb_lt _ _)) by done. done. Qed.

Lemma steps_write r i code b st : rinv r -> ss_streams (rn_sess r) !! i = Some st ->
  let o := '(s, _) ← stream_WriteMsg (rn_sess r) st code b; Ok (mkRun s (rn_recv r) (rn_keep r) (rn_lock r)) in
  (o = Panic /\ crashes r (LWrite i code b)) \/ (steps_ok r o /\ ~ crashes r (LWrite i code b)).
Proof.
  intros I Hi o. cbn [crashes]. rewrite Hi.
  destruct (decide (ss_closed (rn_sess r) = false /\ hc_snappy (ss_out (rn_sess r)) = true /\ snappy_MaxEncodedLen (Z.of_nat (length b)) < 0)) as [(Hc & Hs & Hl)|Hn].
  - left. split; [|by split_and!]. unfold o, stream_WriteMsg. by rewrite WriteRawMsg_long.
  - right. split; [|tauto]. unfold o, stream_WriteMsg.
    destruct (WriteRawMsg_keeps (rn_lock r) (rn_sess r) (uint64 (code + st_offset st)) b) as (s' & e & -> & C' & K & _); [apply I|apply I| |by apply steps_same].
    intros Hc Hs. apply Z.nlt_ge. tauto.
Qed.

(** Every step keeps the invariant and goes on with a shutdown that was begun, or is one that crashes. *)
Lemma sess_step_inv r l o : rinv r -> label_ok r l -> sess_step r l = Some o ->
  (o = Panic /\ crashes r l) \/ (steps_ok r o /\ ~ crashes r l).
Proof.
  intros I Hl Hst. assert (score (rn_sess r)) as C by apply I.
  destruct l as [c|e| | | |w|w|w|reason| |i code b|i|i].
  { destruct (rn_recv r) eqn:Hp; [by eapply steps_recv|by cbn [sess_step] in Hst; rewrite Hp in Hst..]. }
  10: { cbn [sess_step] in Hst. destruct (ss_streams (rn_sess r) !! i) as [st|] eqn:Ei; [|done]. injection Hst as <-. by apply steps_write. }
  all: right; split; [|by intros []]; cbn [sess_step] in Hst.
  - destruct (rn_recv r); try done. injection Hst as <-. apply (steps_goto r Recv); (done || apply keeps_refl).
  - destruct (rn_keep r); try done. injection Hst as <-. unfold writeCode.
    destruct (WriteRawMsg_keeps (rn_lock r) (rn_sess r) pingMsg emptyRlp C) as (s' & e & -> & C' & K & _); [apply I|intros _; apply fits_short; simpl; lia|].
    cbn [mbind outcome_bind]. apply (steps_goto r Keep); [done..|by destruct e].
  - destruct (rn_keep r); try done. injection Hst as <-. apply (steps_goto r Keep); (done || apply keeps_refl).
  - destruct (rn_keep r); try done. destruct (IsClosed (rn_sess r)); [|done]. injection Hst as <-. apply (steps_goto r Keep); (done || apply keeps_refl).
  - destruct (pc_at r w); try done. destruct (rn_lock r) eqn:El; [done|]. injection Hst as <-. rewrite <-El.
    apply steps_goto; [done|by eapply score_sinv|apply set_err_keeps|done].
  - destruct (pc_at r w); try done. injection Hst as <-. destruct (exit_notify_core (rn_sess r) e C). by apply steps_goto.
  - destruct (pc_at r w); try done. destruct (rn_lock r) eqn:El; [done|].
    replace o with (Ok (let '(s, d) := Disconnect_start (rn_sess r) DiscQuitting in goto r w s (pc_disc d) d)) by (destruct (Disconnect_start _ _); congruence).
    apply (steps_start r (fun s d => goto r w s (pc_disc d) d)); [done|done|]. intros s d.
    split_and!; [by destruct w..|]. pose proof (ri_disc _ I) as D. rewrite El in D.
    intros v. destruct w, v; cbn; try (destruct d; [by eexists|done]); intros Hx; [by destruct (D Keep Hx)|by destruct (D Recv Hx)].
  - destruct (rn_lock r) eqn:El; [done|].
    replace o with (Ok (let '(s, d) := Disconnect_start (rn_sess r) reason in mkRun s (rn_recv r) (rn_keep r) d)) by (destruct (Disconnect_start _ _); congruence).
    apply (steps_start r (fun s d => mkRun s (rn_recv r) (rn_keep r) d)); [done|done|]. intros s d. split_and!; [done..|].
    pose proof (ri_disc _ I) as D. rewrite El in D. intros w Hx. by destruct (D w Hx).
  - destruct (rn_lock r) as [d|] eqn:El; [|done]. injection Hst as <-. by apply steps_lock.
  - destruct (ss_streams (rn_sess r) !! i) as [st|] eqn:Ei; [|done]. injection Hst as <-. pose proof (sc_streams _ C) as HF. rewrite Forall_lookup in HF.
    destruct (holds_readable st (HF i st Ei)) as (st' & rr & -> & Hq' & Ho & Hlen). cbn [mbind outcome_bind].
    destruct (score_update _ _ _ st' C Ei Hq' Ho Hlen). by apply steps_same.
  - destruct (ss_streams (rn_sess r) !! i) as [st|] eqn:Ei; [|done]. unfold read_wait in Hst. destruct (st_error st); [|done]. injection Hst as <-.
    pose proof (sc_streams _ C) as HF. rewrite Forall_lookup in HF. destruct (score_update (rn_sess r) i st (set_buf st (st_recvBuf st) true None) C Ei) as [C' K]; [|done..|by apply steps_same].
    destruct (HF i st Ei) as [q Hq]. by exists q.
Qed.

(** Reachability. *)
Inductive sreach (r0 : running) : running -> Prop :=
  | sreach_0 : sreach r0 r0
  | sreach_step r l r' : sreach r0 r -> label_ok r l -> sess_step r l = Some (Ok r') -> sreach r0 r'.

Lemma sreach_inv r0 r : rinv r0 -> sreach r0 r -> rinv r.
Proof.
  intros I0. induction 1 as [|r l r' _ IH Hl Hst]; [done|].
  destruct (sess_step_inv r l _ IH Hl Hst) as [[[=] _]|[(r1 & [= <-] & I & _) _]]. done.
Qed.

Lemma sreach_trans a b c : sreach a b -> sreach b c -> sreach a c.
Proof. intros Hab. induction 1 as [|r l r' _ IH Hl Hst]; [done|]. by eapply sreach_step. Qed.

Lemma sreach_one r l r' : label_ok r l -> sess_step r l = Some (Ok r') -> sreach r r'.
Proof. intros. eapply sreach_step; [constructor|done..]. Qed.

(** *** Winding up *)

(** The call of [Disconnect] that has the lock returns. *)
Lemma drain_lock n : forall r d, (match d with DWrite _ => 4 | DState => 3 | DChan => 2 | DConn => 1 end <= n)%nat -> rinv r -> rn_lock r = Some d ->
  exists r', sreach r r' /\ rinv r' /\ rn_lock r' = None /\ ss_shutdown (rn_sess r') = true.
Proof.
  induction n as [|n IH]; intros r d Hn I Hl; [destruct d; lia|]. pose proof (ri_flags _ I) as F. rewrite Hl in F.
  destruct (Disconnect_step_flags _ _ (ri_core _ I) F) as (s' & d' & E & _). set (r1 := mkRun s' (pc_end d' (rn_recv r)) (pc_end d' (rn_keep r)) d').
  assert (sess_step r LLock = Some (Ok r1)) as Hs by (cbn [sess_step]; rewrite Hl, E; done).
  pose proof (sreach_one r LLock r1 Logic.I Hs) as Hr. pose proof (sreach_inv _ _ I Hr) as I1.
  destruct d' as [d'|].
  - destruct (IH r1 d') as (r' & Hr' & Hx); [|done|done|exists r'; split; [by eapply sreach_trans|done]].
    destruct d; cbn in E; [apply bind_Ok in E as ([] & _ & [= <- <-])|injection E as <- <-|destruct (ss_chClosed (rn_sess r)); [done|injection E as <- <-]|done]; lia.
  - exists r1. split_and!; [done|done|done|]. destruct d; cbn in E; [by apply bind_Ok in E as ([] & _ & ?)|done|by destruct (ss_chClosed (rn_sess r))|].
    injection E as <-. apply F.
Qed.

(** Each goroutine of a session that is shut down runs to its end. *)
Definition wound (r r' : running) (w : who) : Prop :=
  sreach r r' /\ rn_lock r' = None /\ ss_shutdown (rn_sess r') = true /\ pc_at r' w = PDone /\
  pc_at r' (match w with Recv => Keep | Keep => Recv end) = pc_at r (match w with Recv => Keep | Keep => Recv end).

Lemma wind_close r w : rn_lock r = None -> ss_shutdown (rn_sess r) = true -> pc_at r w = PClose -> exists r', wound r r' w.
Proof.
  intros Hl Hs Hp. exists (goto r w (rn_sess r) PDone None). split; [|by destruct w].
  apply (sreach_one _ (LClose w)); [done|]. cbn [sess_step]. rewrite Hp, Hl. unfold Disconnect_start. by rewrite Hs.
Qed.

Lemma wound_trans a b c w : sreach a b -> pc_at b (match w with Recv => Keep | Keep => Recv end) = pc_at a (match w with Recv => Keep | Keep => Recv end) ->
  wound b c w -> wound a c w.
Proof. intros Hab Hp (Hbc & Hl & Hs & Hd & Hq). split_and!; try done; [by eapply sreach_trans|congruence]. Qed.

Lemma wind_notify r w e : rn_lock r = None -> ss_shutdown (rn_sess r) = true -> pc_at r w = PNotify e -> exists r', wound r r' w.
Proof.
  intros Hl Hs Hp. set (r1 := goto r w (exit_notify (rn_sess r) e) PClose None).
  destruct (wind_close r1 w) as (r' & Hr'); [by destruct w|by destruct w|by destruct w|]. exists r'.
  apply (wound_trans r r1 r' w); [|by destruct w|done]. apply (sreach_one _ (LNotify w)); [done|]. cbn [sess_step]. by rewrite Hp, Hl.
Qed.

Lemma wind_exit r w e : rn_lock r = None -> ss_shutdown (rn_sess r) = true -> pc_at r w = PExit e -> exists r', wound r r' w.
Proof.
  intros Hl Hs Hp. set (r1 := goto r w (set_err (rn_sess r) e) (PNotify e) None).
  destruct (wind_notify r1 w e) as (r' & Hr'); [by destruct w|by destruct w|by destruct w|]. exists r'.
  apply (wound_trans r r1 r' w); [|by destruct w|done]. apply (sreach_one _ (LExit w)); [done|]. cbn [sess_step]. by rewrite Hp, Hl.
Qed.

(** The receiver's read fails on the closed connection, [keepalive] sees the closed channel. *)
Lemma wind_run r w : rinv r -> rn_lock r = None -> ss_shutdown (rn_sess r) = true -> pc_at r w = PRun -> exists r', wound r r' w.
Proof.
  intros I Hl Hs Hp. destruct w.
  - set (r1 := goto r Recv (rn_sess r) (PExit "EOF") None). destruct (wind_exit r1 Recv "EOF") as (r' & Hr'); [done..|]. exists r'.
    apply (wound_trans r r1 r' Recv); [|done|done]. apply (sreach_one _ (LReadErr "EOF")); [done|]. cbn [sess_step]. cbn in Hp. by rewrite Hp, Hl.
  - exists (goto r Keep (rn_sess r) PDone None). split; [|done]. apply (sreach_one _ LStop); [done|]. cbn [sess_step]. cbn in Hp. rewrite Hp, Hl.
    unfold IsClosed. pose proof (ri_flags _ I) as [_ F]. rewrite Hl in F. destruct F as (-> & _). by rewrite Hs.
Qed.

Lemma wind r w : rinv r -> rn_lock r = None -> ss_shutdown (rn_sess r) = true -> exists r', wound r r' w.
Proof.
  intros I Hl Hs. destruct (pc_at r w) as [|e|e| | |] eqn:Hp; eauto using wind_run, wind_exit, wind_notify, wind_close.
  - exfalso. destruct (ri_disc _ I w Hp). congruence.
  - exists r. split_and!; try done. constructor.
Qed.

(** A message from a stream of one session to the stream of the other that has the same range. *)
Lemma deliver_stream s t st i code buf : sinv s -> ss_shutdown s = false -> sinv t ->
  sync (ss_out s) (ss_in t) -> ss_streams t !! i = Some st -> holds st [] ->
  0 <= code < st_length st -> st_offset st + code < 128 -> bytes_ok buf -> fits s code buf ->
  Z.of_nat (length (ptype_of (code + st_offset st) ++ payload_of (hc_snappy (ss_out s)) buf)) <= maxUint24 ->
  16 <= st_offset st -> Z.of_nat (length buf) < 2 ^ 32 ->
  exists s' wire t' t'' st', WriteRawMsg s (uint64 (code + st_offset st)) buf = Ok (s', None) /\
    w_sent (ss_conn s') = w_sent (ss_conn s) ++ wire /\
    (forall rest, Session_ReadMsg t (wire ++ rest) = Ok (t', rest, (code + st_offset st, buf))) /\
    recv_msg t' (code + st_offset st) buf = Ok (t'', None) /\ sync (ss_out s') (ss_in t'') /\
    ss_streams t'' !! i = Some st' /\ exists st'', ReadMsg st' = Ok (st'', SOk (buf, code)) /\ holds st'' [].
Proof.
  intros I Hsd It Hsync Hst Hq Hc Hoff Hb Hf Hmax Ho Hlen.
  assert (uint64 (code + st_offset st) = code + st_offset st) as Hu by (unfold uint64; apply Z.mod_small; lia). rewrite Hu.
  assert (msg_ok (hc_snappy (ss_out s)) (code + st_offset st, buf)) as Hm by (split_and!; simpl; (lia || done)).
  assert (w_open (ss_conn s) = true) as Hw by (rewrite (si_conn _ I), Hsd; done).
  destruct (write_read_msg (ss_out s) (ss_in t) (ss_conn s) _ Hsync (si_header _ I) Hw Hm) as (o' & i' & wire & HW & HR & Hs' & _).
  unfold WriteRawMsg. rewrite (si_closed _ I), Hsd. cbn [fst snd] in HW. rewrite HW. cbn [mbind outcome_bind].
  assert (getStream (set_in t i') (code + st_offset st) = Some i) as Hg by (apply (getStream_iff _ _ _ st); [apply It|done|lia]).
  destruct (readData_ok st (code + st_offset st) buf [] Hq Hlen) as (st1 & HD & Hq1 & _ & Ho1 & Hl1 & _).
  assert (uint16 (uint64 (code + st_offset st - st_offset st)) = code) as Hcode.
  { replace (code + st_offset st - st_offset st) with code by lia. unfold uint16, uint64.
    rewrite (Z.mod_small code (2 ^ 64)), (Z.mod_small code) by lia. done. }
  rewrite Hcode in Hq1. destruct (ReadMsg_cons st1 _ _ Hq1) as (st2 & HRd & Hq2 & _).
  exists (set_out s o' (mkW (w_sent (ss_conn s) ++ wire) true)), wire, (set_in t i'),
    (set_streams (set_in t i') (<[i := st1]> (ss_streams t))), st1. split_and!; [done|done| | |exact Hs'| |by exists st2].
  - intros rest. unfold Session_ReadMsg. by rewrite HR.
  - unfold recv_msg. unfold pingMsg, pongMsg, discMsg. rewrite !(proj2 (Z.eqb_neq _ _)) by lia.
    unfold handleStreamMessage. rewrite Hg. cbn [set_in ss_streams]. rewrite (proj2 (idx_Ok _ _ _) Hst). cbn [mbind outcome_bind].
    rewrite HD. reflexivity.
  - cbn [set_streams ss_streams]. apply list_lookup_insert_eq. by eapply lookup_lt_Some.
Qed.

End Session.

(** ** Properties *)

(** C8: Safety of a running session under every interleaving of its receive loop, its keepalive, the steps of their
    [exitErr] calls, those of [Disconnect], and its clients (disconnects, writes and reads on streams), whatever
    bytes arrive.  The steps that panic are exactly these: the receive loop meets an authentic frame on which
    [read] panics or a code in no stream's range, or a client writes a message too long to compress.
    In particular [shutdownCh] is never closed twice, though several goroutines may shut the session down.
    Flag, state, channel and connection go down in that order under the lock of [Disconnect] and are together outside of
    it; an error is recorded; streams only ever hold whole messages; a shutdown that was begun is never undone, and
    nothing more is sent once the state is closed. *)
Theorem session_safe `{Keccak} `{Block} `{Snappy} `{FastRLP} (s0 : Session) (r : running) : sinv s0 -> sreach (mkRun s0 PRun PRun None) r ->
  score (rn_sess r) /\ flags (rn_lock r) (rn_sess r) /\ (rn_lock r = None -> sinv (rn_sess r)) /\
  forall l o, label_ok r l -> sess_step r l = Some o -> (o = Panic <-> crashes r l) /\
    (~ crashes r l -> exists r', o = Ok r' /\ later (rn_sess r) (rn_sess r')).
Proof.
  intros I0 Hr. assert (rinv r) as I by by eapply sreach_inv; [apply rinv_start|].
  split_and!; [apply I|apply I| |].
  - intros Hl. apply sinv_flags. destruct I as [C F _]. rewrite Hl in F. done.
  - intros l o Hl Hst. destruct (sess_step_inv r l o I Hl Hst) as [[-> Hc]|[(r' & -> & _ & L) Hn]]; [tauto|]. split; [by split|]. eauto.
Qed.


(** a message whose code lies in no negotiated range, such as a second handshake or any code from 4
    to 15, makes the receive loop dereference a nil stream: the peer can crash the node at will. *)
Theorem unknown_code_panics `{Keccak} `{Block} `{Snappy} `{FastRLP} (s s' : Session) (k : pc) (d : option phase) c rest code buf :
  Session_ReadMsg s c = Ok (s', rest, (code, buf)) -> code ≠ pingMsg -> code ≠ pongMsg -> code ≠ discMsg -> getStream s code = None ->
  sess_step (mkRun s PRun k d) (LRecv c) = Some Panic.
Proof.
  intros Hr N1 N2 N3 Hg. cbn [sess_step rn_recv rn_sess]. rewrite Hr. unfold Session_ReadMsg in Hr. apply bind_Ok in Hr as ([[h c'] m] & _ & [= <- _ _]).
  rewrite recv_msg_unknown; [done|]. intros [?|[?|[?|[i Hi]]]]; try done. change (getStream s code = Some i) in Hi. congruence.
Qed.

(** negotiation assigns code ranges correctly.  The streams opened are the protocols both sides
    have, in the order the remote lists them, on consecutive ranges from 16 on; negotiation fails
    exactly if there are none; and a code is dispatched to the one stream whose range contains it. *)
Theorem negotiate_correct `{Keccak} `{Block} `{Snappy} `{FastRLP} backends remote (s : Session) :
  ss_streams s = [] -> Forall (fun p => 0 <= spec_Length p) (matched backends (info_Caps remote)) ->
  16 + total (matched backends (info_Caps remote)) < 2 ^ 64 ->
  let '(s', e) := negotiateProtocols backends remote s in
  ss_streams s' = layout 16 (matched backends (info_Caps remote)) /\
  (is_Some e <-> matched backends (info_Caps remote) = []) /\
  forall i st code, ss_streams s' !! i = Some st ->
    getStream s' code = Some i <-> st_offset st <= code < st_offset st + st_length st.
Proof.
  intros Hs Hl Ht. unfold negotiateProtocols, BaseProtocolLength. rewrite open_streams_layout by (done || lia). rewrite Hs. simpl.
  set (l := matched backends (info_Caps remote)) in *.
  assert (separated (layout 16 l)) as Hsep by (apply layout_separated; done || lia).
  destruct l as [|p l']; simpl; (split_and!; [done| |]).
  - split; [done|]. intros _. by eexists.
  - intros i st code Hi. by apply getStream_iff.
  - split; [intros [? ?]; done|done].
  - intros i st code Hi. by apply getStream_iff.
Qed.

(** end to end.  A message written to a protocol's stream on one side of a session, with a code of
    the protocol, arrives on the other side's stream of the same range, and reading that stream returns
    exactly its payload and code: through the offset, the frame codec with compression and encryption,
    the dispatch and the stream buffer.  Codes on the wire must stay below 128. *)
Theorem stream_delivery `{Keccak} `{Block} `{Snappy} `{FastRLP} (s t : Session) (st : Stream) i code buf :
  sinv s -> ss_shutdown s = false -> sinv t -> sync (ss_out s) (ss_in t) -> ss_streams t !! i = Some st -> holds st [] ->
  0 <= code < st_length st -> st_offset st + code < 128 -> bytes_ok buf -> fits s code buf ->
  Z.of_nat (length (ptype_of (code + st_offset st) ++ payload_of (hc_snappy (ss_out s)) buf)) <= maxUint24 ->
  16 <= st_offset st -> Z.of_nat (length buf) < 2 ^ 32 ->
  exists s' wire t' t'' st', WriteRawMsg s (uint64 (code + st_offset st)) buf = Ok (s', None) /\
    w_sent (ss_conn s') = w_sent (ss_conn s) ++ wire /\
    (forall rest, Session_ReadMsg t (wire ++ rest) = Ok (t', rest, (code + st_offset st, buf))) /\
    recv_msg t' (code + st_offset st) buf = Ok (t'', None) /\ sync (ss_out s') (ss_in t'') /\
    ss_streams t'' !! i = Some st' /\ exists st'', ReadMsg st' = Ok (st'', SOk (buf, code)) /\ holds st'' [].
Proof. apply deliver_stream. Qed.

Definition eth : ProtocolSpec := mkSpec "eth" 65 17.
Definition les : ProtocolSpec := mkSpec "les" 3 24.
Definition caps_of (l : list ProtocolSpec) : list Cap := (fun p => mkCap (spec_Name p) (spec_Version p)) <$> l.

Definition sess0 : Session := mkSess [] false None false false (hc0 false) (hc0 false) (mkW [] true).

(** The two sides may disagree about the ranges.  Each side orders the protocols as the other lists
    them, so two nodes with the same two protocols configured in different orders give the same
    protocol different offsets, and the codes of one are taken for the other's. *)
Theorem layouts_disagree :
  let a := (negotiateProtocols [eth; les] (mkInfo 5 "b" (caps_of [les; eth]) 0 []) sess0).1 in
  let b := (negotiateProtocols [les; eth] (mkInfo 5 "a" (caps_of [eth; les]) 0 []) sess0).1 in
  exists i j st st', ss_streams a !! i = Some st /\ st_protocol st = eth /\ getStream b (st_offset st) = Some j /\
    ss_streams b !! j = Some st' /\ st_protocol st' = les.
Proof. exists 1%nat, 1%nat. eexists _, _. repeat split; reflexivity. Qed.

(** A malformed [Info] message crashes the node during the handshake: the error of the decoder is
    passed to [panic]. *)
Theorem bad_info_panics `{Keccak} `{Block} `{Snappy} `{FastRLP} (s s' : Session) remote c c' buf e :
  Session_ReadMsg s c = Ok (s', c', (handshakeMsg, buf)) -> Z.of_nat (length buf) <= baseProtocolMaxMsgSize ->
  Info_UnmarshalRLP zero_Info buf = Err e -> readProtocolHandshake s remote c = Panic.
Proof.
  intros Hr Hl Hi. unfold readProtocolHandshake. rewrite Hr. cbn [mbind outcome_bind].
  rewrite Z.gtb_ltb, (proj2 (Z.ltb_ge _ _)) by done. cbn. by rewrite Hi.
Qed.

(** *** Witnesses *)

Definition sess1 : Session := (negotiateProtocols [eth; les] (mkInfo 5 "b" (caps_of [eth; les]) 0 []) sess0).1.

Lemma sess1_inv : sinv sess1.
Proof.
  split; try done.
  - repeat constructor; by exists [].
  - apply (layout_separated 16 [eth; les]); [repeat constructor; simpl; lia|lia|simpl; lia].
Qed.

(** A client disconnects; before its message is sent the keepalive's timer ends, and another client writes to a stream. *)
Definition run1 : running := mkRun sess1 PRun PRun None.
Definition sess2 : Session := (Disconnect_start sess1 DiscQuitting).1.
Definition run2 : running := mkRun sess2 PRun (PExit (DiscReason_String DiscProtocolError)) (Some (DWrite DiscQuitting)).

Lemma run2_reached : sreach run1 run2.
Proof.
  apply (sreach_trans _ (mkRun sess2 PRun PRun (Some (DWrite DiscQuitting))));
    [apply (sreach_one _ (LDisconnect DiscQuitting))|apply (sreach_one _ LPongTimeout)]; reflexivity.
Qed.

Lemma session_safe_witness : flags (Some (DWrite DiscQuitting)) (rn_sess run2) /\ sess_step run2 (LClose Keep) = None /\
  exists r', sess_step run2 (LWrite 0 2 [1; 2; 3]) = Some (Ok r') /\ ss_shutdown (rn_sess r') = true.
Proof.
  destruct (session_safe sess1 run2 sess1_inv run2_reached) as (_ & F & _ & Hs). split; [exact F|]. split; [reflexivity|].
  assert (exists o, sess_step run2 (LWrite 0 2 [1; 2; 3]) = Some o) as [o Ho] by (eexists; reflexivity).
  destruct (Hs (LWrite 0 2 [1; 2; 3]) o Logic.I Ho) as [_ Hok]. destruct Hok as (r' & -> & L); [intros (_ & _ & Hx & _); discriminate Hx|]. exists r'. split; [exact Ho|]. by apply L.
Defined.


(** A second handshake message. *)
Lemma unknown_code_panics_witness : exists c, sess_step (mkRun sess1 PRun PRun None) (LRecv c) = Some Panic.
Proof.
  destruct (read_frame (hc0 false) [0x80; 0xC0] (replicate 32 0) eq_refl ltac:(vm_compute; discriminate)) as (h & HR).
  exists (fst (frame (hc0 false) [0x80; 0xC0] (replicate 32 0)) ++ []).
  eapply (unknown_code_panics sess1 (set_in sess1 (after (hc0 false) [0x80; 0xC0] (replicate 32 0) h)) PRun None _ [] 0 [0xC0]).
  - unfold Session_ReadMsg. change (ss_in sess1) with (hc0 false). rewrite HR. reflexivity.
  - discriminate.
  - discriminate.
  - discriminate.
  - reflexivity.
Defined.

Lemma negotiate_correct_witness : ss_streams sess1 = [NewStream 16 17 eth; NewStream 33 24 les] /\ getStream sess1 40 = Some 1%nat.
Proof.
  pose proof (negotiate_correct [eth; les] (mkInfo 5 "b" (caps_of [eth; les]) 0 []) sess0 eq_refl
    ltac:(repeat constructor; simpl; lia) ltac:(vm_compute; reflexivity)) as (H1 & _ & H3).
  split; [exact H1|]. apply (H3 1%nat (NewStream 33 24 les) 40); [reflexivity|simpl; lia].
Defined.

Lemma stream_delivery_witness : exists s' t' t'' st' st'', WriteRawMsg sess1 (uint64 (2 + 16)) [1; 2; 3] = Ok (s', None) /\
  recv_msg t' (2 + 16) [1; 2; 3] = Ok (t'', None) /\ ss_streams t'' !! 0%nat = Some st' /\ ReadMsg st' = Ok (st'', SOk ([1; 2; 3], 2)).
Proof.
  destruct (stream_delivery sess1 sess1 (NewStream 16 17 eth) 0 2 [1; 2; 3]) as (s' & wire & t' & t'' & st' & H1 & _ & _ & H4 & _ & H6 & st'' & H7 & _).
  - apply sess1_inv.
  - reflexivity.
  - apply sess1_inv.
  - apply hc0_sync.
  - reflexivity.
  - by split.
  - simpl; lia.
  - simpl; lia.
  - repeat constructor; unfold byte_ok; lia.
  - discriminate.
  - vm_compute. discriminate.
  - simpl; lia.
  - simpl; lia.
  - exists s', t', t'', st', st''. split_and!; [exact H1|exact H4|exact H6|exact H7].
Defined.

Lemma bad_info_panics_witness : exists c, readProtocolHandshake sess0 (toy_pub 5) c = Panic.
Proof.
  destruct (read_frame (hc0 false) [0x80; 0xC0] (replicate 32 0) eq_refl ltac:(vm_compute; discriminate)) as (h & HR).
  exists (fst (frame (hc0 false) [0x80; 0xC0] (replicate 32 0)) ++ []).
  eapply (bad_info_panics sess0 (set_in sess0 (after (hc0 false) [0x80; 0xC0] (replicate 32 0) h)) (toy_pub 5) _ [] [0xC0] "bad length cc").
  - unfold Session_ReadMsg. change (ss_in sess0) with (hc0 false). rewrite HR. reflexivity.
  - vm_compute. discriminate.
  - reflexivity.
Defined.
