(* ===== verification/RlpxConn.v ===== *)
(** * Sessions and streams as connections

    The methods by which a [Session] of [rlpx/session.go] and a [Stream] of [rlpx/stream.go] implement
    [net.Conn].  Reading and writing bytes of a session is refused.  Deadlines are those of the one
    connection under the session, for which the operating system answers: from the read deadline on
    every read of it fails.  The receive loop is the only reader of the connection, so a deadline that is
    set on one stream ends the session with all its streams. *)

From stdpp Require Import base strings numbers list.
From S2P Require Import Prelude GoStd Rlp Crypto RlpxMsg RlpxFrame RlpxStream RlpxSession.
Local Open Scope Z_scope.

(** The deadlines of a [net.Conn]; [None] is the zero time, which never comes. *)
Record deadlines := mkDeadlines { dl_read : option Z; dl_write : option Z }.

Definition conn_SetReadDeadline (d : deadlines) (t : option Z) : deadlines := mkDeadlines t (dl_write d).
Definition conn_SetWriteDeadline (d : deadlines) (t : option Z) : deadlines := mkDeadlines (dl_read d) t.
Definition conn_SetDeadline (d : deadlines) (t : option Z) : deadlines := mkDeadlines t t.

(** ** session.go *)

Definition Session_SetWriteDeadline (d : deadlines) (t : option Z) : deadlines := conn_SetWriteDeadline d t.
Definition Session_SetReadDeadline (d : deadlines) (t : option Z) : deadlines := conn_SetReadDeadline d t.
Definition Session_SetDeadline (d : deadlines) (t : option Z) : deadlines := conn_SetDeadline d t.
Definition Session_Write (b : bytes) : outcome nat := Err "not implemented".
Definition Session_Read (n : nat) : outcome bytes := Err "not implemented".

(** ** stream.go *)

Definition Stream_SetDeadline (d : deadlines) (t : option Z) : deadlines := Session_SetDeadline d t.
Definition Stream_SetReadDeadline (d : deadlines) (t : option Z) : deadlines := Session_SetReadDeadline d t.

(** The method calls itself. *)
Fixpoint Stream_SetWriteDeadline (fuel : nat) (d : deadlines) (t : option Z) : outcome deadlines :=
  match fuel with O => NoFuel | S fuel => Stream_SetWriteDeadline fuel d t end.

(** [Close] of a stream closes the session. *)
Definition Stream_Close `{Keccak} `{Block} `{Snappy} `{FastRLP} (s : Session) : outcome Session := Session_Close s.

(** ** A session with deadlines *)

Definition timeout : string := "i/o timeout".
Definition expired (d : option Z) (now : Z) : bool := match d with Some t => t <=? now | None => false end.

(** The steps of a session at the time [now]: reads fail once the deadline has passed, and not before. *)
Definition timed_step `{Keccak} `{Block} `{Snappy} `{FastRLP} (d : deadlines) (now : Z) (r : running) (l : label) : option (outcome running) :=
  match l with
  | LRecv _ => if expired (dl_read d) now then None else sess_step r l
  | LReadErr e => if bool_decide (e = timeout) && negb (expired (dl_read d) now) then None else sess_step r l
  | _ => sess_step r l
  end.

Fixpoint timed_steps `{Keccak} `{Block} `{Snappy} `{FastRLP} (d : deadlines) (now : Z) (r : running) (ls : list label) : option (outcome running) :=
  match ls with
  | [] => Some (Ok r)
  | l :: ls => match timed_step d now r l with Some (Ok r) => timed_steps d now r ls | o => o end
  end.

Section Conn.
Context `{Keccak} `{Block} `{Snappy} `{FastRLP}.

(** [SetWriteDeadline] of a stream never returns. *)
Theorem SetWriteDeadline_diverges fuel d t : Stream_SetWriteDeadline fuel d t = NoFuel.
Proof. induction fuel as [|fuel IH]; [done|exact IH]. Qed.

Lemma exit_mark_errors s e : Forall (fun st => is_Some (st_error st)) (ss_streams (exit_mark s e)).
Proof. cbn. apply Forall_fmap, Forall_true. intros st. cbn. destruct (st_error st); by eexists. Qed.

(** A read deadline on one stream ends them all.  [SetReadDeadline] of any stream sets the deadline of the
    session's connection; the reads of the stream itself do not know of it.  Once it has passed no
    message of any protocol is received, and the failed read of the receive loop shuts the session
    down and leaves the error for the readers of every stream. *)
Theorem stream_deadline_ends_session s k d t now : sinv s -> ss_shutdown s = false -> t <= now ->
  let d' := Stream_SetReadDeadline d (Some t) in
  (forall c, timed_step d' now (mkRun s PRun k None) (LRecv c) = None) /\
  exists s', timed_steps d' now (mkRun s PRun k None) (LReadErr timeout :: LExit Recv :: LNotify Recv :: LClose Recv :: replicate 4 LLock) =
      Some (Ok (mkRun s' PDone (pc_end None k) None)) /\
    ss_shutdown s' = true /\ w_open (ss_conn s') = false /\ Forall (fun st => is_Some (st_error st)) (ss_streams s').
Proof.
  intros I Hs Ht d'. assert (expired (dl_read d') now = true) as Hx by (by apply Z.leb_le). split; [intros c; cbn [timed_step]; by rewrite Hx|].
  pose proof (exit_mark_inv s timeout I) as I'. destruct (Disconnect_inv (exit_mark s timeout) DiscQuitting I') as (s' & HD & I'' & Hsd & Hst & _).
  exists s'. split_and!; [|done|by rewrite (si_conn _ I''), Hsd|rewrite Hst; apply exit_mark_errors].
  unfold Disconnect in HD. cbn [timed_steps timed_step sess_step rn_recv rn_sess rn_keep rn_lock goto pc_at replicate]. rewrite Hx. cbn [negb]. rewrite andb_false_r.
  cbn [rn_recv rn_sess rn_keep rn_lock goto pc_at]. fold (exit_mark s timeout). unfold Disconnect_start in *.
  assert (ss_shutdown (exit_mark s timeout) = false) as Hs' by done. rewrite Hs' in *. cbn [rn_recv rn_sess rn_keep rn_lock goto pc_at pc_disc].
  apply bind_Ok in HD as ([s1 d1] & E1 & ([s2 d2] & E2 & ([s3 d3] & E3 & ([s4 d4] & E4 & [= <-])%bind_Ok)%bind_Ok)%bind_Ok).
  pose proof E1 as E1'. cbn [Disconnect_step] in E1'. apply bind_Ok in E1' as ([s0 e0] & _ & [= _ <-]). rewrite E1. cbn [mbind outcome_bind rn_recv rn_sess rn_keep rn_lock pc_end].
  pose proof E2 as E2'. cbn [Disconnect_step] in E2'. injection E2' as _ <-. rewrite E2. cbn [mbind outcome_bind rn_recv rn_sess rn_keep rn_lock pc_end].
  pose proof E3 as E3'. cbn [Disconnect_step] in E3'. destruct (ss_chClosed s2); [done|]. injection E3' as _ <-. rewrite E3. cbn [mbind outcome_bind rn_recv rn_sess rn_keep rn_lock pc_end].
  pose proof E4 as E4'. cbn [Disconnect_step] in E4'. injection E4' as _ <-. rewrite E4. done.
Qed.
End Conn.

(** A session of two protocols. *)
Lemma stream_deadline_ends_session_witness : exists s', timed_steps (Stream_SetReadDeadline (mkDeadlines None None) (Some 5)) 7 (mkRun sess1 PRun PRun None)
  (LReadErr timeout :: LExit Recv :: LNotify Recv :: LClose Recv :: replicate 4 LLock) = Some (Ok (mkRun s' PDone PRun None)) /\
  Forall (fun st => is_Some (st_error st)) (ss_streams s').
Proof.
  destruct (stream_deadline_ends_session sess1 PRun (mkDeadlines None None) 5 7 sess1_inv eq_refl ltac:(lia)) as (_ & s' & H1 & _ & _ & H2).
  exists s'. split; [exact H1|exact H2].
Defined.
