(* ===== verification/Rlpx.v ===== *)
(** * The RLPx transport

    [rlpx/rlpx.go], and [p2pHandshake] and [Handshake] of [rlpx/session.go]: from a connection to a
    session with its streams.  The pieces are those of [Handshake], [RlpxFrame] and [RlpxSession], put
    together as the code does.  The results of [net.DialTimeout] and [net.Listen] are arguments; the
    goroutines of the listener are the steps of [rx_step]. *)

From stdpp Require Import base gmap sets strings numbers list.
From Stdlib Require Import Ascii.
From S2P Require Import Prelude GoStd Rlp Crypto RlpxMsg Enode Handshake RlpxFrame RlpxStream RlpxSession.
Local Open Scope Z_scope.

(** [devp2p.Info] *)
Record NetInfo := mkNetInfo { ni_Client : string; ni_Enode : Enode; ni_Capabilities : list ProtocolSpec; ni_ListenPort : Z }.

Definition networkInfoToLocalInfo (info : NetInfo) : Info :=
  mkInfo BaseProtocolVersion (ni_Client info) ((fun p => mkCap (spec_Name p) (spec_Version p)) <$> ni_Capabilities info)
    (en_TCP (ni_Enode info)) (en_ID (ni_Enode info)).

(** [aes.NewCipher] accepts keys of three sizes. *)
Definition aes_NewCipher (key : bytes) : outcome bytes :=
  if bool_decide (length key ∈ [16; 24; 32]%nat) then Ok key else Err "crypto/aes: invalid key size".

(** The values of the configuration map of [Setup]. *)
Inductive dyn := DString (s : string) | DInt (n : Z) | DOther.

Section Rlpx.
Context `{Keccak} `{Curve} `{!Ecies} `{FastRLP} `{Block} `{Snappy} `{GoNet}.

(** ** Sessions before and after the handshakes *)

Record new_session := mkNew {
  ns_isClient : bool;
  ns_conn : conn;
  ns_RemoteAddr : string;          (* [conn.RemoteAddr().String()] *)
  ns_prv : PrivateKey;
  ns_pub : option PublicKey;
  ns_Info : Info;
}.

Definition Client (c : conn) (addr : string) (prv : PrivateKey) (pub : PublicKey) (info : Info) : new_session :=
  mkNew true c addr prv (Some pub) info.
Definition Server (c : conn) (addr : string) (prv : PrivateKey) (info : Info) : new_session := mkNew false c addr prv None info.

Record session := mkSession {
  se_id : string;
  se_RemoteID : PublicKey;
  se_enode : Enode;
  se_Info : Info;
  se_remoteInfo : option Info;
  se_sess : Session;
  se_rest : bytes;                 (* what is still to be read *)
}.

(** The bytes that are left in the segments are read as one stream from here on. *)
Definition p2pHandshake (s : new_session) (r : rnd) : outcome session :=
  '(secrets, c) ← (if ns_isClient s
                   then match ns_pub s with Some pub => handshakeClient (ns_conn s) r (ns_prv s) pub | None => Panic end
                   else handshakeServer (ns_conn s) r (ns_prv s));
  remote ← match RemoteID secrets with Some p => Ok p | None => Panic end;
  id ← PubkeyToEnode (Some remote);
  let id := ID_String id in
  let remoteAddr := if bool_decide (ns_RemoteAddr s = "pipe") then "127.0.0.1:30303" else ns_RemoteAddr s in
  enode ← ParseURL ("enode://" ++ id ++ "@" ++ remoteAddr);
  macCipher ← aes_NewCipher (MAC secrets);
  encc ← aes_NewCipher (AES secrets);
  match IngressMAC secrets, EgressMAC secrets with
  | Some inmac, Some outmac =>
      let half := mkHC false (replicate 32 0) encc 0 macCipher in
      Ok (mkSession id remote enode (ns_Info s) None
            (mkSess [] false None false false (half inmac) (half outmac) (mkW (concat (sent c)) (wopen c))) (concat (segs c)))
  | _, _ => Panic                  (* secrets with a [RemoteID] have both *)
  end.

(** After it the goroutines of [RlpxSession.sess_step] run. *)
Definition Session_Handshake (s : new_session) (r : rnd) (write_first : bool) : outcome session :=
  s ← p2pHandshake s r;
  '(sess, rest, info) ← doProtocolHandshake (se_sess s) (se_RemoteID s) (se_Info s) (se_rest s) write_first;
  Ok (mkSession (se_id s) (se_RemoteID s) (se_enode s) (se_Info s) (Some info) sess rest).

Definition RemoteIDString (s : session) : string := se_id s.
Definition RemoteInfo (s : session) : option Info := se_remoteInfo s.
Definition Streams (s : session) : list Stream := ss_streams (se_sess s).

(** A nil [remoteInfo] is dereferenced. *)
Definition GetInfo (s : session) : outcome NetInfo :=
  match se_remoteInfo s with
  | Some info => Ok (mkNetInfo (info_Name info) (se_enode s) [] 0)
  | None => Panic
  end.

(** ** connect and accept *)

(** What is returned, whether the connection was left open, and the session whose goroutines run. *)
Inductive result :=
  | Failed (e : string) (open : bool) (running : option session)
  | Connected (s : session).

(** [negotiateProtocols] on a session, whose [remoteInfo] is set. *)
Definition negotiate (backends : list ProtocolSpec) (s : session) : outcome result :=
  match se_remoteInfo s with
  | None => Panic
  | Some info =>
      let '(sess, e) := negotiateProtocols backends info (se_sess s) in
      let s := mkSession (se_id s) (se_RemoteID s) (se_enode s) (se_Info s) (se_remoteInfo s) sess (se_rest s) in
      match e with Some e => Ok (Failed e true (Some s)) | None => Ok (Connected s) end
  end.

(** The part [connect] and [accept] share: a failed handshake closes the connection. *)
Definition establish (backends : list ProtocolSpec) (s : new_session) (r : rnd) (write_first : bool) : outcome result :=
  match Session_Handshake s r write_first with
  | Ok s => negotiate backends s
  | Err e => Ok (Failed e false None)
  | Panic => Panic
  | NoFuel => NoFuel
  end.

Record Rlpx := mkRlpx {
  rx_priv : PrivateKey;
  rx_backends : list ProtocolSpec;
  rx_info : NetInfo;
  rx_addr : string;
  rx_port : Z;
  rx_listener : option bool;                 (* whether it is open; [None] is nil *)
  rx_pending : list (conn * string);         (* connections whose handshake is running *)
  rx_sessionCh : option (list session);      (* of capacity 10; [None] is nil *)
  rx_shutdownCh : option bool;               (* whether it is closed; [None] is nil *)
}.

(** An identifier that is no point is refused, with the connection left open. *)
Definition connect (x : Rlpx) (c : conn) (addr : string) (node : Enode) (r : rnd) (write_first : bool) : outcome result :=
  match Enode_PublicKey node with
  | Ok pub => establish (rx_backends x) (Client c addr (rx_priv x) pub (networkInfoToLocalInfo (rx_info x))) r write_first
  | Err e => Ok (Failed e true None)
  | Panic => Panic
  | NoFuel => NoFuel
  end.

Definition accept (x : Rlpx) (c : conn) (addr : string) (r : rnd) (write_first : bool) : outcome result :=
  establish (rx_backends x) (Server c addr (rx_priv x) (networkInfoToLocalInfo (rx_info x))) r write_first.

Definition DialTimeout (x : Rlpx) (net_Dial : string -> outcome (conn * string)) (address : string) (r : rnd) (write_first : bool)
    : outcome result :=
  addr ← ParseURL address;
  let '(ip, port) := TCPAddr addr in
  '(c, remote) ← net_Dial (TCPAddr_String ip port);
  connect x c remote addr r write_first.

(** ** The listener *)

(** The type assertions of the code panic; an address that cannot be parsed is the unspecified one. *)
Definition Setup (x : Rlpx) (priv : PrivateKey) (backends : list ProtocolSpec) (info : NetInfo) (config : gmap string dyn)
    (net_Listen : string -> option string) : outcome (Rlpx * option string) :=
  addr ← match config !! "addr" with Some (DString s) => Ok s | _ => Panic end;
  port ← match config !! "port" with Some (DInt n) => Ok n | _ => Panic end;
  match net_Listen (TCPAddr_String (default [] (net_ParseIP addr)) port) with
  | Some e => Ok (mkRlpx priv backends info addr port None (rx_pending x) (rx_sessionCh x) (Some false), Some e)
  | None => Ok (mkRlpx priv backends info addr port (Some true) (rx_pending x) (Some []) (Some false), None)
  end.

Inductive rx_label :=
  | LIncoming (c : conn) (addr : string)               (* the listener accepts a connection *)
  | LHandshake (i : nat) (r : rnd) (write_first : bool) (* the handshake of a pending connection ends *)
  | LAccept (shut : bool)                              (* [Accept] takes one of its two cases *)
  | LClose.

Inductive rx_event := EvNone | EvFailed (res : result) | EvQueued (s : session) | EvDropped (s : session) | EvAccepted (s : session) | EvError.

Definition set_chan (x : Rlpx) (pending : list (conn * string)) (q : list session) : Rlpx :=
  mkRlpx (rx_priv x) (rx_backends x) (rx_info x) (rx_addr x) (rx_port x) (rx_listener x) pending (Some q) (rx_shutdownCh x).

(** The session of an accepted connection is queued, or forgotten if ten are waiting. *)
Definition offer (x : Rlpx) (pending : list (conn * string)) (q : list session) (res : result) : Rlpx * rx_event :=
  match res with
  | Failed _ _ _ => (set_chan x pending q, EvFailed res)
  | Connected s => if (length q <? 10)%nat then (set_chan x pending (q ++ [s]), EvQueued s) else (set_chan x pending q, EvDropped s)
  end.

Definition rx_step (x : Rlpx) (l : rx_label) : option (outcome (Rlpx * rx_event)) :=
  match l, rx_sessionCh x with
  | LIncoming c addr, Some q => if bool_decide (rx_listener x = Some true) then Some (Ok (set_chan x (rx_pending x ++ [(c, addr)]) q, EvNone)) else None
  | LHandshake i r wf, Some q =>
      match rx_pending x !! i with
      | Some (c, addr) => Some (res ← accept x c addr r wf; Ok (offer x (delete i (rx_pending x)) q res))
      | None => None
      end
  | LAccept false, Some (s :: q) => Some (Ok (set_chan x (rx_pending x) q, EvAccepted s))
  | LAccept true, _ => match rx_shutdownCh x with Some true => Some (Ok (x, EvError)) | _ => None end
  | LClose, _ =>
      match rx_shutdownCh x, rx_listener x with
      | Some false, Some _ =>
          Some (Ok (mkRlpx (rx_priv x) (rx_backends x) (rx_info x) (rx_addr x) (rx_port x) (Some false) (rx_pending x) (rx_sessionCh x) (Some true), EvNone))
      | _, _ => Some Panic       (* close of a closed or nil channel, or a nil listener *)
      end
  | _, _ => None
  end.

(** ** The protocol handshake between two sessions in agreement *)

(** What a node announces: an encodable message of its own identity. *)
Record hello_ok (i : Info) (key : PublicKey) : Prop := {
  ho_info : info_ok i;
  ho_id : info_ID i = drop 1 (MarshallPublicKey key);
  ho_set : info_ID i ≠ zero_ID;
  ho_size : Z.of_nat (length (Info_MarshalRLP i [])) <= baseProtocolMaxMsgSize;
}.

(** A session before the protocol handshake. *)
Definition ready (s : Session) : Prop := ss_closed s = false /\ w_open (ss_conn s) = true /\
  length (hc_header (ss_out s)) = 32%nat /\ hc_snappy (ss_out s) = false.

Lemma hello_msg_ok i key : hello_ok i key -> msg_ok false (handshakeMsg, Info_MarshalRLP i []).
Proof.
  intros []. split_and!; cbn [fst snd]; try done.
  - unfold Info_MarshalRLP. cbn [app]. apply MarshalTo_ok. rewrite <-(app_nil_r (Info_fields i)). by apply Info_valid.
  - rewrite length_app. cbn [payload_of]. unfold ptype_of. rewrite MarshalTo_zero. cbn [length]. unfold maxUint24, baseProtocolMaxMsgSize in *. lia.
Qed.

(** One side writes its message; whoever reads in agreement gets it. *)
Lemma hello_write s r i key : ready s -> sync (ss_out s) r -> hello_ok i key ->
  exists o r' wire, WriteRawMsg s handshakeMsg (Info_MarshalRLP i []) = Ok (set_out s o (mkW (w_sent (ss_conn s) ++ wire) true), None) /\
    (forall rest, read r (wire ++ rest) = Ok (r', rest, (handshakeMsg, Info_MarshalRLP i []))) /\
    sync o r' /\ length (hc_header o) = 32%nat.
Proof.
  intros (Hc & Hw & Hh & Hsn) Hs Hi. pose proof (hello_msg_ok i key Hi) as Hm.
  destruct (write_read_msg (ss_out s) r (ss_conn s) (handshakeMsg, Info_MarshalRLP i []) Hs Hh Hw) as (o & r' & wire & HW & HR & Hs' & Hh' & _);
    [by rewrite Hsn|]. exists o, r', wire. split_and!; [|done..]. unfold WriteRawMsg. rewrite Hc. cbn [fst snd] in HW. by rewrite HW.
Qed.

(** The other side's message is accepted. *)
Lemma hello_read s i key c r' rest : hello_ok i key -> read (ss_in s) c = Ok (r', rest, (handshakeMsg, Info_MarshalRLP i [])) ->
  readProtocolHandshake s key c = Ok (set_in s r', rest, i).
Proof.
  intros [Hi Hid Hz Hsz] Hr. unfold readProtocolHandshake, Session_ReadMsg. rewrite Hr. cbn [mbind outcome_bind].
  rewrite Z.gtb_ltb, (proj2 (Z.ltb_ge _ _)) by done. change (handshakeMsg =? discMsg) with false. change (handshakeMsg =? handshakeMsg) with true.
  cbn [negb]. unfold Info_MarshalRLP. cbn [app]. pose proof (Info_decode i zero_Info [] [] Hi) as Hd. rewrite !app_nil_r in Hd.
  rewrite Hd; [|done|constructor|unfold len_ok; unfold Info_MarshalRLP, baseProtocolMaxMsgSize in *; cbn [app] in Hsz; lia].
  replace (mkInfo _ _ _ _ _) with i by by destruct i. rewrite bool_decide_eq_false_2 by done.
  rewrite PubkeyToEnode_eq. cbn [mbind outcome_bind]. rewrite Hid. by rewrite bytes_equal_refl.
Qed.

Lemma set_snappy_sync a b : sync a b -> sync (set_snappy a) (set_snappy b).
Proof. intros []. by split. Qed.

(** The session after its handshake: compressed, with nothing else changed. *)
Record greeted (s s' : Session) (wire : bytes) : Prop := {
  gr_streams : ss_streams s' = ss_streams s;
  gr_flags : ss_shutdown s' = ss_shutdown s /\ ss_shutdownErr s' = ss_shutdownErr s /\ ss_chClosed s' = ss_chClosed s /\ ss_closed s' = ss_closed s;
  gr_conn : ss_conn s' = mkW (w_sent (ss_conn s) ++ wire) true;
  gr_header : length (hc_header (ss_out s')) = 32%nat;
  gr_snappy : hc_snappy (ss_in s') = true /\ hc_snappy (ss_out s') = true;
}.

(** Both sides, in whichever order each one's goroutines run. *)
Lemma hello_exchange a b ia ib ka kb : ready a -> ready b -> sync (ss_out a) (ss_in b) -> sync (ss_out b) (ss_in a) ->
  hello_ok ia ka -> hello_ok ib kb -> info_Version ia = BaseProtocolVersion -> info_Version ib = BaseProtocolVersion ->
  exists wa wb a' b', greeted a a' wa /\ greeted b b' wb /\ sync (ss_out a') (ss_in b') /\ sync (ss_out b') (ss_in a') /\
    forall rest f, doProtocolHandshake a kb ia (wb ++ rest) f = Ok (a', rest, ib) /\ doProtocolHandshake b ka ib (wa ++ rest) f = Ok (b', rest, ia).
Proof.
  intros Ra Rb Sa Sb Ha Hb Va Vb. destruct (hello_write a (ss_in b) ia ka Ra Sa Ha) as (oa & rb & wa & Wa & Da & Sa' & La).
  destruct (hello_write b (ss_in a) ib kb Rb Sb Hb) as (ob & ra & wb & Wb & Db & Sb' & Lb).
  exists wa, wb, (SetSnappy (set_in (set_out a oa (mkW (w_sent (ss_conn a) ++ wa) true)) ra)),
    (SetSnappy (set_in (set_out b ob (mkW (w_sent (ss_conn b) ++ wb) true)) rb)).
  split_and!; [by split|by split|by apply set_snappy_sync|by apply set_snappy_sync|]. intros rest f. split.
  - unfold doProtocolHandshake. rewrite Wa. cbn [mbind outcome_bind]. erewrite hello_read; [|done|apply Db].
    cbn [mbind outcome_bind]. by rewrite Vb.
  - unfold doProtocolHandshake. rewrite Wb. cbn [mbind outcome_bind]. erewrite hello_read; [|done|apply Da].
    cbn [mbind outcome_bind]. by rewrite Va.
Qed.

(** ** The whole way from two connections to two sessions *)

Lemma concat_cut t l : concat (cut t l) = t ++ concat l.
Proof. unfold cut. by case_decide as E; [rewrite E|]. Qed.

(** A remote address as sockets print it. *)
Definition addr_ok (addr : string) (ip : bytes) (port : Z) : Prop :=
  addr = TCPAddr_String ip port /\ addr ≠ "pipe" /\ ip_ok ip /\ u16_ok port.

Definition id_of (k : PrivateKey) : bytes := drop 1 (MarshallPublicKey (pub_of k)).

(** The session of [p2pHandshake], from the secrets. *)
Definition keyed (k : PrivateKey) (ip : bytes) (port : Z) (info : Info) (sec : Secrets) (c : conn) (inmac outmac : hash_Hash) : session :=
  mkSession (ID_String (id_of k)) (pub_of k) (mkEnode (id_of k) port port ip) info None
    (mkSess [] false None false false (mkHC false (replicate 32 0) (AES sec) 0 (MAC sec) inmac)
       (mkHC false (replicate 32 0) (AES sec) 0 (MAC sec) outmac) (mkW (concat (sent c)) (wopen c))) (concat (segs c)).

Lemma ParseURL_session k ip port addr : addr_ok addr ip port ->
  ParseURL ("enode://" ++ ID_String (id_of k) ++ "@" ++ addr) = Ok (mkEnode (id_of k) port port ip).
Proof.
  intros (-> & _ & Hip & Hp). destruct (key_bytes_ok (pub_of k)) as [Hl Hb].
  eapply ParseURL_parts; [by apply url_Parse_enode|done..|]. by left.
Qed.

Lemma p2pHandshake_keyed s r k ip port sec c inmac outmac :
  (if ns_isClient s then match ns_pub s with Some pub => handshakeClient (ns_conn s) r (ns_prv s) pub | None => Panic end
   else handshakeServer (ns_conn s) r (ns_prv s)) = Ok (sec, c) ->
  RemoteID sec = Some (pub_of k) -> IngressMAC sec = Some inmac -> EgressMAC sec = Some outmac ->
  length (AES sec) = 32%nat -> length (MAC sec) = 32%nat -> addr_ok (ns_RemoteAddr s) ip port ->
  p2pHandshake s r = Ok (keyed k ip port (ns_Info s) sec c inmac outmac).
Proof.
  intros Hs Hr Hi Ho HA HM Ha. unfold p2pHandshake. rewrite Hs. cbn [mbind outcome_bind]. rewrite Hr. cbn [mbind outcome_bind].
  rewrite PubkeyToEnode_eq. cbn [mbind outcome_bind]. fold (id_of k). rewrite bool_decide_eq_false_2 by apply Ha.
  rewrite (ParseURL_session k ip port) by done. cbn [mbind outcome_bind]. unfold aes_NewCipher. rewrite HA, HM.
  cbn [mbind outcome_bind bool_decide]. by rewrite Hi, Ho.
Qed.

(** A session with the node of key [k], which announced [info], after the bytes [written], with [rest] still to be read. *)
Record meets (s : session) (k : PrivateKey) (ip : bytes) (port : Z) (info : Info) (streams : list Stream) (written rest : bytes) : Prop := {
  ms_id : se_id s = ID_String (id_of k) /\ se_RemoteID s = pub_of k;
  ms_enode : se_enode s = mkEnode (id_of k) port port ip;
  ms_info : se_remoteInfo s = Some info;
  ms_streams : ss_streams (se_sess s) = streams;
  ms_flags : ss_shutdown (se_sess s) = false /\ ss_chClosed (se_sess s) = false /\ ss_closed (se_sess s) = false;
  ms_conn : ss_conn (se_sess s) = mkW written true;
  ms_header : length (hc_header (ss_out (se_sess s))) = 32%nat;
  ms_snappy : hc_snappy (ss_in (se_sess s)) = true /\ hc_snappy (ss_out (se_sess s)) = true;
  ms_rest : se_rest s = rest;
}.

(** Each end reads what the other writes. *)
Definition paired (a b : session) : Prop :=
  sync (ss_out (se_sess a)) (ss_in (se_sess b)) /\ sync (ss_out (se_sess b)) (ss_in (se_sess a)).

Lemma Handshake_meets n r f k ip port sec c inmac outmac s' rest info wire :
  p2pHandshake n r = Ok (keyed k ip port (ns_Info n) sec c inmac outmac) ->
  doProtocolHandshake (se_sess (keyed k ip port (ns_Info n) sec c inmac outmac)) (pub_of k) (ns_Info n) (concat (segs c)) f = Ok (s', rest, info) ->
  greeted (se_sess (keyed k ip port (ns_Info n) sec c inmac outmac)) s' wire ->
  exists s, Session_Handshake n r f = Ok s /\ se_sess s = s' /\ meets s k ip port info [] (concat (sent c) ++ wire) rest.
Proof.
  intros Hp Hd [Hst (Hf1 & Hf2 & Hf3 & Hf4) Hc Hh Hsn]. unfold Session_Handshake. rewrite Hp. cbn [mbind outcome_bind].
  change (se_RemoteID (keyed k ip port (ns_Info n) sec c inmac outmac)) with (pub_of k).
  change (se_Info (keyed k ip port (ns_Info n) sec c inmac outmac)) with (ns_Info n).
  change (se_rest (keyed k ip port (ns_Info n) sec c inmac outmac)) with (concat (segs c)).
  rewrite Hd. cbn [mbind outcome_bind]. eexists. split; [done|]. split; [done|]. by split.
Qed.

(** Two nodes that can talk to each other. *)
Record peers_ok (kc ks : PrivateKey) (rc rs : rnd) (ic i_s : Info) (ac as_ : string) (ipc ips : bytes) (pc ps : Z) : Prop := {
  po_rnd : rnd_ok rc /\ rnd_ok rs;
  po_plain : eip8_not_plain kc /\ eip8_not_plain ks;
  po_hello : hello_ok ic (pub_of kc) /\ hello_ok i_s (pub_of ks);
  po_version : info_Version ic = BaseProtocolVersion /\ info_Version i_s = BaseProtocolVersion;
  po_addr : addr_ok ac ips ps /\ addr_ok as_ ipc pc;      (* each sees the other's address *)
}.

Lemma handshakes_meet kc ks rc rs ic i_s ac as_ ipc ips pc ps : peers_ok kc ks rc rs ic i_s ac as_ ipc ips pc ps ->
  exists A B Hc Hs, forall t l rest f t' l' rest' f', t ++ concat l = Hc ++ rest -> t' ++ concat l' = Hs ++ rest' ->
  exists sc ss, Session_Handshake (Client (mkConn ((B ++ t') :: l') [] true) ac kc (pub_of ks) ic) rc f = Ok sc /\
    Session_Handshake (Server (mkConn ((A ++ t) :: l) [] true) as_ ks i_s) rs f' = Ok ss /\
    meets sc ks ips ps i_s [] (A ++ Hc) rest' /\ meets ss kc ipc pc ic [] (B ++ Hs) rest /\ paired sc ss.
Proof.
  intros [[Hrc Hrs] [Hpc Hps] [Hhc Hhs] [Hvc Hvs] [Hac Has]].
  destruct (handshake_run rc rs kc ks Hrc Hrs Hpc Hps) as (A & B & sc & ss & [Ma Mm [Mcs [m1 Hm1]] [Msc [m2 Hm2]] [Mi1 Mi2] [La Lm]] & Hrun).
  set (a := mkSess [] false None false false (mkHC false (replicate 32 0) (AES sc) 0 (MAC sc) m2) (mkHC false (replicate 32 0) (AES sc) 0 (MAC sc) m1) (mkW (A ++ []) true)).
  set (b := mkSess [] false None false false (mkHC false (replicate 32 0) (AES ss) 0 (MAC ss) m1) (mkHC false (replicate 32 0) (AES ss) 0 (MAC ss) m2) (mkW (B ++ []) true)).
  destruct (hello_exchange a b ic i_s (pub_of kc) (pub_of ks)) as (Hc & Hs & a' & b' & Ga & Gb & Sab & Sba & Hx); try done; try (by split); try (split; simpl; congruence).
  exists A, B, Hc, Hs. intros t l rest f t' l' rest' f' Et Et'. destruct (Hrun t l t' l') as [Hsv Hcl].
  destruct (Handshake_meets (Client (mkConn ((B ++ t') :: l') [] true) ac kc (pub_of ks) ic) rc f ks ips ps sc (mkConn (cut t' l') [A] true) m2 m1 a' rest' i_s Hc) as (s1 & H1' & <- & M1).
  - by apply p2pHandshake_keyed.
  - cbn [segs]. rewrite concat_cut, Et'. apply Hx.
  - done.
  - destruct (Handshake_meets (Server (mkConn ((A ++ t) :: l) [] true) as_ ks i_s) rs f' kc ipc pc ss (mkConn (cut t l) [B] true) m1 m2 b' rest ic Hs) as (s2 & H2' & <- & M2).
    + apply p2pHandshake_keyed; try done; congruence.
    + cbn [segs]. rewrite concat_cut, Et. apply Hx.
    + done.
    + exists s1, s2. cbn [sent concat] in M1, M2. rewrite app_nil_r in M1, M2. split_and!; done.
Qed.

(** The protocols a node shares with one that announces [remote]. *)
Definition common (backends : list ProtocolSpec) (remote : NetInfo) : list ProtocolSpec :=
  matched backends (info_Caps (networkInfoToLocalInfo remote)).
Definition protocols_ok (backends : list ProtocolSpec) (remote : NetInfo) : Prop :=
  Forall (fun p => 0 <= spec_Length p) (common backends remote) /\ 16 + total (common backends remote) < 2 ^ 64.

(** Negotiation opens the streams and nothing else. *)
Lemma negotiate_streams backends remote s k ip port w rest : protocols_ok backends remote ->
  meets s k ip port (networkInfoToLocalInfo remote) [] w rest ->
  exists s', meets s' k ip port (networkInfoToLocalInfo remote) (layout 16 (common backends remote)) w rest /\
    ss_in (se_sess s') = ss_in (se_sess s) /\ ss_out (se_sess s') = ss_out (se_sess s) /\
    negotiate backends s = Ok (if decide (common backends remote = []) then Failed "no matching protocols" true (Some s') else Connected s').
Proof.
  intros [Hl Ht] [Hid He Hi Hst Hf Hc Hh Hsn Hr]. unfold negotiate. rewrite Hi. unfold negotiateProtocols, BaseProtocolLength.
  rewrite open_streams_layout by (done || lia). rewrite Hst. cbn [app]. fold (common backends remote).
  exists (mkSession (se_id s) (se_RemoteID s) (se_enode s) (se_Info s) (Some (networkInfoToLocalInfo remote))
    (set_streams (se_sess s) (layout 16 (common backends remote))) (se_rest s)).
  split_and!; [by split|done|done|]. cbn [set_streams ss_streams]. by destruct (common backends remote).
Qed.

Lemma meets_sinv s k ip port info l w rest : Forall (fun p => 0 <= spec_Length p) l -> 16 + total l < 2 ^ 64 ->
  meets s k ip port info (layout 16 l) w rest -> sinv (se_sess s).
Proof.
  intros Hl Ht [_ _ _ Hst (Hf1 & Hf2 & Hf3) Hc Hh _ _]. split; try congruence.
  - by rewrite Hc, Hf1.
  - rewrite Hst. apply Forall_lookup. intros i st Hi. exists []. apply layout_bounds in Hi as (_ & _ & _ & Hb & _); [|done].
    unfold holds. by rewrite Hb.
  - rewrite Hst. apply layout_separated; (done || lia).
Qed.

(** Two transports, and the sessions of a connection between them. *)
Definition transports_ok (x y : Rlpx) (rc rs : rnd) (ac as_ : string) (ipc ips : bytes) (pc ps : Z) : Prop :=
  peers_ok (rx_priv x) (rx_priv y) rc rs (networkInfoToLocalInfo (rx_info x)) (networkInfoToLocalInfo (rx_info y)) ac as_ ipc ips pc ps /\
  protocols_ok (rx_backends x) (rx_info y) /\ protocols_ok (rx_backends y) (rx_info x).

Definition ended (l : list ProtocolSpec) (s : session) : result :=
  if decide (l = []) then Failed "no matching protocols" true (Some s) else Connected s.

Record connection (x y : Rlpx) (ipc ips : bytes) (pc ps : Z) (wc ws restc rests : bytes) (sc ss : session) : Prop := {
  cn_client : meets sc (rx_priv y) ips ps (networkInfoToLocalInfo (rx_info y)) (layout 16 (common (rx_backends x) (rx_info y))) wc restc;
  cn_server : meets ss (rx_priv x) ipc pc (networkInfoToLocalInfo (rx_info x)) (layout 16 (common (rx_backends y) (rx_info x))) ws rests;
  cn_paired : paired sc ss;
  cn_inv : sinv (se_sess sc) /\ sinv (se_sess ss);
}.

Lemma transports_connect x y rc rs ac as_ ipc ips pc ps node : transports_ok x y rc rs ac as_ ipc ips pc ps -> en_ID node = id_of (rx_priv y) ->
  exists A B Hc Hs, forall t l rest f t' l' rest' f', t ++ concat l = Hc ++ rest -> t' ++ concat l' = Hs ++ rest' ->
  exists sc ss, connect x (mkConn ((B ++ t') :: l') [] true) ac node rc f = Ok (ended (common (rx_backends x) (rx_info y)) sc) /\
    accept y (mkConn ((A ++ t) :: l) [] true) as_ rs f' = Ok (ended (common (rx_backends y) (rx_info x)) ss) /\
    connection x y ipc ips pc ps (A ++ Hc) (B ++ Hs) rest' rest sc ss.
Proof.
  intros (Hp & Hx & Hy) Hn. destruct (handshakes_meet _ _ _ _ _ _ _ _ _ _ _ _ Hp) as (A & B & Hc & Hs & Hrun).
  exists A, B, Hc, Hs. intros t l rest f t' l' rest' f' Et Et'.
  destruct (Hrun t l rest f t' l' rest' f' Et Et') as (sc & ss & HC & HS & Mc & Ms & [P1 P2]).
  destruct (negotiate_streams _ _ _ _ _ _ _ _ Hx Mc) as (sc' & Mc' & Ic & Oc & Nc).
  destruct (negotiate_streams _ _ _ _ _ _ _ _ Hy Ms) as (ss' & Ms' & Is & Os & Ns).
  exists sc', ss'. unfold connect, accept, establish, Enode_PublicKey. rewrite Hn. unfold id_of. rewrite NodeIDToPubKey_id by apply on_curve_pub.
  rewrite HC, HS. split_and!; [done|done|]. split; [done|done| |].
  - unfold paired. rewrite Ic, Oc, Is, Os. done.
  - split; eapply meets_sinv; [..|exact Mc'| | |exact Ms']; by (apply Hx || apply Hy).
Qed.

(** The streams of a session are opened by the negotiation only. *)
Lemma WriteRawMsg_streams s code b s' e : WriteRawMsg s code b = Ok (s', e) -> ss_streams s' = ss_streams s.
Proof. unfold WriteRawMsg. destruct (ss_closed s); [by intros [= <- _]|]. intros E. invO E. destruct a as [[o w] e']. by injection E as <- _. Qed.

Lemma readProtocolHandshake_streams s k c s' rest i : readProtocolHandshake s k c = Ok (s', rest, i) -> ss_streams s' = ss_streams s.
Proof.
  unfold readProtocolHandshake, Session_ReadMsg. intros E. invO E. destruct a as [[s1 c1] [code buf]]. invO E0. destruct a as [[r1 c2] m].
  injection E0 as <- _ _. repeat (case_match; try done); invO E; repeat (case_match; try done); by simplify_eq.
Qed.

Lemma Handshake_streams n r f s : Session_Handshake n r f = Ok s -> Streams s = [].
Proof.
  unfold Session_Handshake. intros E. invO E. invO E. destruct a0 as [[s1 rest] info]. injection E as <-. unfold Streams. cbn [se_sess].
  assert (ss_streams (se_sess a) = []) as <-.
  { unfold p2pHandshake in E0. invO E0. destruct a0 as [sec c]. invO E0. all: repeat (case_match; try done); by simplify_eq. }
  unfold doProtocolHandshake in E1. invO E1. destruct a0 as [s2 e]. apply WriteRawMsg_streams in E as <-.
  destruct e; [case_match; done|]. invO E1. destruct a0 as [[s3 c] i]. apply readProtocolHandshake_streams in E as <-.
  injection E1 as <- _ _. by case_match.
Qed.

(** ** The queue of accepted sessions *)

Fixpoint rx_run (x : Rlpx) (ls : list rx_label) : option (outcome (Rlpx * list rx_event)) :=
  match ls with
  | [] => Some (Ok (x, []))
  | l :: ls =>
      match rx_step x l with
      | Some (Ok (x, e)) =>
          match rx_run x ls with Some (Ok (x, es)) => Some (Ok (x, e :: es)) | o => o end
      | Some Panic => Some Panic
      | Some (Err s) => Some (Err s)
      | Some NoFuel => Some NoFuel
      | None => None
      end
  end.

Definition queued (es : list rx_event) : list session := omap (fun e => match e with EvQueued s => Some s | _ => None end) es.
Definition accepted (es : list rx_event) : list session := omap (fun e => match e with EvAccepted s => Some s | _ => None end) es.

Lemma rx_step_queue x l x' e q : rx_sessionCh x = Some q -> (length q <= 10)%nat -> rx_step x l = Some (Ok (x', e)) ->
  exists q', rx_sessionCh x' = Some q' /\ (length q' <= 10)%nat /\ q ++ queued [e] = accepted [e] ++ q' /\
    (forall s, e = EvDropped s -> length q = 10%nat).
Proof.
  intros Hq Hl. unfold rx_step. rewrite Hq. destruct l as [c addr|i r wf|sh|].
  - case_match; [|done]. intros [= <- <-]. exists q. split_and!; try done. by rewrite app_nil_r.
  - destruct (rx_pending x !! i) as [[c addr]|]; [|done]. intros [= E]. invO E. unfold offer in E.
    destruct a as [er o rn|s]; [|destruct (Nat.ltb_spec (length q) 10)]; injection E as <- <-; eexists; (split; [done|]).
    + split_and!; try done. cbn. by rewrite app_nil_r.
    + split_and!; try done. rewrite length_app. cbn. lia.
    + split_and!; try done; [cbn; by rewrite app_nil_r|intros; lia].
  - destruct sh.
    + repeat (case_match; try done); intros [= <- <-]; exists q; (split_and!; try done); cbn; by rewrite app_nil_r.
    + destruct q as [|s q]; [done|]. intros [= <- <-]. exists q. cbn in *. split_and!; try done; [lia|by rewrite app_nil_r].
  - repeat (case_match; try done); intros [= <- <-]; exists q; (split_and!; try done); cbn; by rewrite app_nil_r.
Qed.

Lemma rx_run_queue ls : forall x x' es q, rx_sessionCh x = Some q -> (length q <= 10)%nat -> rx_run x ls = Some (Ok (x', es)) ->
  exists q', rx_sessionCh x' = Some q' /\ (length q' <= 10)%nat /\ q ++ queued es = accepted es ++ q'.
Proof.
  induction ls as [|l ls IH]; intros x x' es q Hq Hl Hr; cbn [rx_run] in Hr.
  - injection Hr as <- <-. exists q. by rewrite app_nil_r.
  - destruct (rx_step x l) as [[[x1 e]| | |]|] eqn:Es; try done. destruct (rx_run x1 ls) as [[[x2 es']| | |]|] eqn:Er; try done.
    injection Hr as <- <-. destruct (rx_step_queue _ _ _ _ _ Hq Hl Es) as (q1 & Hq1 & Hl1 & E1 & _).
    destruct (IH _ _ _ _ Hq1 Hl1 Er) as (q2 & Hq2 & Hl2 & E2). exists q2. split_and!; [done|done|].
    change (e :: es') with ([e] ++ es'). unfold queued, accepted in *. rewrite !omap_app, app_assoc, E1, <-!app_assoc. by rewrite E2.
Qed.

Lemma Setup_queue x priv backends info config listen x' : Setup x priv backends info config listen = Ok (x', None) -> rx_sessionCh x' = Some [].
Proof. unfold Setup. intros E. invO E. all: repeat (case_match; try done); by simplify_eq. Qed.
End Rlpx.

(** ** Properties *)

Section Properties.
Context `{Keccak} `{Curve} `{!Ecies} `{FastRLP} `{Block} `{Snappy} `{GoNet}.

(** C6: Two nodes connect.  For any two configured transports with a protocol in common, all keys,
    random draws and orders of the goroutines, there are the packets the four messages of the handshakes are,
    such that [connect] and [accept] both return a session if each side's first packet comes whole in one read
    (one that is split is refused) and what follows is cut into segments anyhow: each side knows the
    other's identifier, address and announcement, has one stream per common protocol in the order the other announced,
    has written exactly its own two messages and consumed the other's; the two directions agree, compression is
    on, and both sessions satisfy the invariant of sessions. *)
Theorem connect_accept (x y : Rlpx) rc rs ac as_ ipc ips pc ps node :
  transports_ok x y rc rs ac as_ ipc ips pc ps -> en_ID node = id_of (rx_priv y) ->
  common (rx_backends x) (rx_info y) ≠ [] -> common (rx_backends y) (rx_info x) ≠ [] ->
  exists A B Hc Hs, forall t l rest f t' l' rest' f', t ++ concat l = Hc ++ rest -> t' ++ concat l' = Hs ++ rest' ->
  exists sc ss, connect x (mkConn ((B ++ t') :: l') [] true) ac node rc f = Ok (Connected sc) /\
    accept y (mkConn ((A ++ t) :: l) [] true) as_ rs f' = Ok (Connected ss) /\
    connection x y ipc ips pc ps (A ++ Hc) (B ++ Hs) rest' rest sc ss.
Proof.
  intros Ht Hn Hx Hy. destruct (transports_connect _ _ _ _ _ _ _ _ _ _ _ Ht Hn) as (A & B & Hc & Hs & Hrun).
  exists A, B, Hc, Hs. intros t l rest f t' l' rest' f' Et Et'. destruct (Hrun t l rest f t' l' rest' f' Et Et') as (sc & ss & HC & HS & Hcn).
  exists sc, ss. unfold ended in HC, HS. rewrite decide_False in HC by done. rewrite decide_False in HS by done. done.
Qed.

(** Messages cross a fresh connection.  If both nodes lay the common protocols out alike, then what
    the client writes to a stream right after [connect], with a code of the protocol, is received by the
    server into the stream of the same protocol, which returns the code and the payload. *)
Theorem connection_delivers (x y : Rlpx) ipc ips pc ps wc ws restc rests sc ss i st code buf :
  connection x y ipc ips pc ps wc ws restc rests sc ss -> protocols_ok (rx_backends y) (rx_info x) ->
  common (rx_backends x) (rx_info y) = common (rx_backends y) (rx_info x) -> Streams sc !! i = Some st ->
  0 <= code < st_length st -> st_offset st + code < 128 -> bytes_ok buf -> Z.of_nat (length buf) < 2 ^ 23 ->
  exists c' wire t' t'' st' st'', stream_WriteMsg (se_sess sc) st code buf = Ok (c', None) /\
    w_sent (ss_conn c') = wc ++ wire /\ (forall rest, Session_ReadMsg (se_sess ss) (wire ++ rest) = Ok (t', rest, (code + st_offset st, buf))) /\
    Streams ss !! i = Some st /\ recv_msg t' (code + st_offset st) buf = Ok (t'', None) /\ ss_streams t'' !! i = Some st' /\
    ReadMsg st' = Ok (st'', SOk (buf, code)).
Proof.
  intros [Mc Ms [P1 _] [I1 I2]] [Hl Ht] Hcm Hi Hcode Hoff Hb Hlen. unfold Streams in Hi.
  rewrite (ms_streams _ _ _ _ _ _ _ _ Mc), Hcm in Hi. pose proof (layout_bounds _ _ _ _ Hl Hi) as (Ho & He & _ & Hbuf & _).
  pose proof (ms_snappy _ _ _ _ _ _ _ _ Mc) as [_ Hsn]. pose proof (ms_streams _ _ _ _ _ _ _ _ Ms) as Hst.
  destruct (deliver_stream (se_sess sc) (se_sess ss) st i code buf) as (c' & wire & t' & t'' & st' & HW & Hw & HR & Hrecv & _ & Hst' & st'' & HRd & _);
    try done; try lia.
  - apply Mc.
  - by rewrite Hst.
  - split; [by rewrite Hbuf|constructor].
  - intros _. apply snappy_max. lia.
  - apply payload_short; lia.
  - exists c', wire, t', t'', st', st''. rewrite (ms_conn _ _ _ _ _ _ _ _ Mc) in Hw. unfold Streams. rewrite Hst. by split_and!.
Qed.

(** Sessions wait in order.  In every run of the listener after [Setup], the sessions [Accept] has returned
    and those still queued are exactly the queued ones, in their order; at most ten wait; and a
    session is dropped only when ten are waiting. *)
Theorem accept_queue (x0 x x' : Rlpx) priv backends info config listen ls es :
  Setup x0 priv backends info config listen = Ok (x, None) -> rx_run x ls = Some (Ok (x', es)) ->
  exists q, rx_sessionCh x' = Some q /\ (length q <= 10)%nat /\ queued es = accepted es ++ q /\
    forall l x'' s, rx_step x' l = Some (Ok (x'', EvDropped s)) -> length q = 10%nat.
Proof.
  intros Hq%Setup_queue Hr. destruct (rx_run_queue ls x x' es [] Hq ltac:(simpl; lia) Hr) as (q & Hq' & Hl & E). exists q. split_and!; try done.
  intros l x'' s Hs. destruct (rx_step_queue _ _ _ _ _ Hq' Hl Hs) as (_ & _ & _ & _ & Hd). eauto.
Qed.

(** A connection without a common protocol is not closed.  [connect] returns an error, but the
    connection stays open and the session's goroutines run on, with nobody to shut them down. *)
Theorem no_common_protocol_leaks (x y : Rlpx) rc rs ac as_ ipc ips pc ps node :
  transports_ok x y rc rs ac as_ ipc ips pc ps -> en_ID node = id_of (rx_priv y) -> common (rx_backends x) (rx_info y) = [] ->
  exists B Hs sc, connect x (mkConn [B ++ Hs] [] true) ac node rc true = Ok (Failed "no matching protocols" true (Some sc)) /\
    w_open (ss_conn (se_sess sc)) = true /\ IsClosed (se_sess sc) = false.
Proof.
  intros Ht Hn Hx. destruct (transports_connect _ _ _ _ _ _ _ _ _ _ _ Ht Hn) as (A & B & Hc & Hs & Hrun).
  destruct (Hrun Hc [] [] true Hs [] [] true) as (sc & ss & HC & _ & Hcn); [done..|]. exists B, Hs, sc. unfold ended in HC.
  rewrite decide_True in HC by done. split; [done|]. destruct Hcn as [Mc _ _ _]. rewrite (ms_conn _ _ _ _ _ _ _ _ Mc). split; [done|]. apply Mc.
Qed.

(** The receive loop starts too early.  [Handshake] starts it before [negotiateProtocols] opens
    the streams: whatever protocol message of the peer is handled in between, however proper, makes
    the node panic. *)
Theorem early_message_panics n r f s code buf : Session_Handshake n r f = Ok s -> code ∉ [pingMsg; pongMsg; discMsg] ->
  recv_msg (se_sess s) code buf = Panic.
Proof.
  intros Hs Hc. apply Handshake_streams in Hs. unfold Streams in Hs. rewrite !not_elem_of_cons in Hc. destruct Hc as (H1' & H2' & H3' & _).
  unfold recv_msg. rewrite !(proj2 (Z.eqb_neq _ _)) by done. unfold handleStreamMessage, getStream. by rewrite Hs.
Qed.

(** Closing.  [Close] of a transport that listens stops it for good: no connection is accepted any
    more and [Accept] can return its error; a second [Close] panics, as does [Close] when [Setup] failed. *)
Theorem Close_once (x : Rlpx) : (rx_shutdownCh x = None \/ rx_listener x = None -> rx_step x LClose = Some Panic) /\
  (rx_shutdownCh x = Some false -> is_Some (rx_listener x) -> exists x' , rx_step x LClose = Some (Ok (x', EvNone)) /\
     (forall c addr, rx_step x' (LIncoming c addr) = None) /\ rx_step x' (LAccept true) = Some (Ok (x', EvError)) /\ rx_step x' LClose = Some Panic).
Proof.
  split.
  - intros [E|E]; cbn; rewrite E; [done|]. by destruct (rx_shutdownCh x) as [[]|].
  - intros E [b Eb]. cbn. rewrite E, Eb. eexists. split; [done|]. split_and!; try done. intros c addr. cbn. by destruct (rx_sessionCh x).
Qed.

End Properties.

(** ** Two nodes *)

Module Demo.
#[local] Existing Instance toy_net.

Definition ip (n : Z) : bytes := replicate 10 0 ++ [255; 255; 127; 0; 0; n].
Definition node_with (ps : list ProtocolSpec) (k : N) (n : Z) : Rlpx :=
  mkRlpx k ps (mkNetInfo "demo" (mkEnode (id_of k) 30303 30303 (ip n)) ps 0) "" 30303 (Some true) [] (Some []) (Some false).
Definition node : N -> Z -> Rlpx := node_with [eth; les].
Definition addr (n : Z) (port : Z) : string := TCPAddr_String (ip n) port.

Lemma ip_bytes n : byte_ok n -> ip_ok (ip n).
Proof. intros Hn. split; [done|]. repeat constructor; unfold byte_ok in *; lia. Qed.

Lemma addr_is n port : byte_ok n -> u16_ok port -> addr_ok (addr n port) (ip n) port.
Proof.
  intros Hn Hp. split_and!; [done| |by apply ip_bytes|done..]. intros E.
  change (addr n port) with (String "0"%char (str_drop 1 (addr n port))) in E. discriminate E.
Qed.

Definition info (ps : list ProtocolSpec) (k : N) (n : Z) : Info := networkInfoToLocalInfo (rx_info (node_with ps k n)).

Lemma hello ps k n : Forall (fun p => u64_ok (spec_Version p)) ps -> info_ID (info ps k n) ≠ zero_ID ->
  Z.of_nat (length (Info_MarshalRLP (info ps k n) [])) <= baseProtocolMaxMsgSize -> hello_ok (info ps k n) (pub_of k).
Proof.
  intros Hps Hz Hl. destruct (key_bytes_ok (toy_pub k)) as [Hkl Hkb]. split; [|done..]. split_and!; try done; try (cbn; unfold u64_ok; lia).
  cbn. apply Forall_fmap. eapply Forall_impl; [exact Hps|]. done.
Qed.

Lemma demo_ok : transports_ok (node 5 1) (node 6 2) (toy_rnd 1 77) (toy_rnd 2 88) (addr 2 30303) (addr 1 50505) (ip 1) (ip 2) 50505 30303.
Proof.
  split; [|split; (split; [repeat constructor; cbn; lia|vm_compute; reflexivity])].
  split; [split; apply toy_rnd_ok; unfold byte_ok; lia|split; apply toy_not_plain| |done|split; apply addr_is; unfold byte_ok, u16_ok; lia].
  split; (apply hello; [repeat constructor; cbn; unfold u64_ok; lia|vm_compute|vm_compute]); discriminate.
Qed.

Lemma connect_accept_witness : exists A B Hc Hs sc ss,
  connect (node 5 1) (mkConn [B; Hs] [] true) (addr 2 30303) (ni_Enode (rx_info (node 6 2))) (toy_rnd 1 77) true = Ok (Connected sc) /\
  accept (node 6 2) (mkConn [A; Hc] [] true) (addr 1 50505) (toy_rnd 2 88) false = Ok (Connected ss) /\
  Streams sc = layout 16 [eth; les].
Proof.
  destruct (connect_accept (node 5 1) (node 6 2) (toy_rnd 1 77) (toy_rnd 2 88) (addr 2 30303) (addr 1 50505) (ip 1) (ip 2) 50505 30303
    (ni_Enode (rx_info (node 6 2))) demo_ok eq_refl ltac:(discriminate) ltac:(discriminate)) as (A & B & Hc & Hs & Hrun).
  destruct (Hrun [] [Hc] [] true [] [Hs] [] false) as (sc & ss & HC & HS & Hcn); [reflexivity|reflexivity|].
  rewrite app_nil_r in HC, HS. exists A, B, Hc, Hs, sc, ss. split_and!; [exact HC|exact HS|].
  exact (ms_streams _ _ _ _ _ _ _ _ (cn_client _ _ _ _ _ _ _ _ _ _ _ _ Hcn)).
Defined.

Lemma connection_delivers_witness : exists sc ss wire t' t'' st' st'',
  (forall rest, Session_ReadMsg (se_sess ss) (wire ++ rest) = Ok (t', rest, (3 + 33, [7; 8]))) /\
  Streams ss !! 1%nat = Some (NewStream 33 24 les) /\
  recv_msg t' (3 + 33) [7; 8] = Ok (t'', None) /\ ss_streams t'' !! 1%nat = Some st' /\ ReadMsg st' = Ok (st'', SOk ([7; 8], 3)) /\
  is_Some (ss_streams (se_sess sc) !! 1%nat).
Proof.
  destruct (transports_connect _ _ _ _ _ _ _ _ _ _ (ni_Enode (rx_info (node 6 2))) demo_ok eq_refl) as (A & B & Hc & Hs & Hrun).
  destruct (Hrun Hc [] [] true Hs [] [] true) as (sc & ss & HC & HS & Hcn); [reflexivity|reflexivity|].
  assert (Streams sc !! 1%nat = Some (NewStream 33 24 les)) as Hst.
  { unfold Streams. rewrite (ms_streams _ _ _ _ _ _ _ _ (cn_client _ _ _ _ _ _ _ _ _ _ _ _ Hcn)). reflexivity. }
  destruct (connection_delivers (node 5 1) (node 6 2) _ _ _ _ _ _ _ _ sc ss 1 (NewStream 33 24 les) 3 [7; 8] Hcn)
    as (c' & wire & t' & t'' & st' & st'' & _ & _ & HR & H1 & H2 & H3 & H4).
  - exact (proj2 (proj2 demo_ok)).
  - reflexivity.
  - exact Hst.
  - cbn; lia.
  - cbn; lia.
  - repeat constructor; unfold byte_ok; lia.
  - cbn; lia.
  - exists sc, ss, wire, t', t'', st', st''. split_and!; [exact HR|exact H1|exact H2|exact H3|exact H4|]. exists (NewStream 33 24 les). exact Hst.
Defined.

(** The same nodes, of which one speaks neither protocol. *)
Definition mute : Rlpx := mkRlpx 5%N [] (rx_info (node 5 1)) "" 30303 (Some true) [] (Some []) (Some false).

Lemma no_common_protocol_leaks_witness : exists B Hs sc,
  connect mute (mkConn [B ++ Hs] [] true) (addr 2 30303) (ni_Enode (rx_info (node 6 2))) (toy_rnd 1 77) true =
    Ok (Failed "no matching protocols" true (Some sc)) /\
  w_open (ss_conn (se_sess sc)) = true /\ IsClosed (se_sess sc) = false.
Proof.
  apply (no_common_protocol_leaks mute (node 6 2) (toy_rnd 1 77) (toy_rnd 2 88) (addr 2 30303) (addr 1 50505) (ip 1) (ip 2) 50505 30303
    (ni_Enode (rx_info (node 6 2)))); [|reflexivity|reflexivity].
  split; [exact (proj1 demo_ok)|]. split; [split; [constructor|vm_compute; reflexivity]|exact (proj2 (proj2 demo_ok))].
Defined.

Definition config : gmap string dyn := <[ "addr" := DString "x" ]> (<[ "port" := DInt 30303 ]> ∅).

(** A listener that is closed right after it was set up. *)
Lemma accept_queue_witness : exists x x' q, Setup (node 5 1) 5%N [eth] (rx_info (node 5 1)) config (fun _ => None) = Ok (x, None) /\
  rx_run x [LClose; LAccept true] = Some (Ok (x', [EvNone; EvError])) /\ rx_sessionCh x' = Some q /\ (length q <= 10)%nat.
Proof.
  eexists _, _, _. split; [reflexivity|]. split; [reflexivity|].
  destruct (accept_queue (node 5 1) _ _ 5%N [eth] (rx_info (node 5 1)) config (fun _ => None) [LClose; LAccept true] _ eq_refl eq_refl)
    as (q & Hq & Hl & _ & _). injection Hq as <-. split; [reflexivity|exact Hl].
Defined.

Lemma early_message_panics_witness : exists s, recv_msg (se_sess s) 16 [0xC0] = Panic.
Proof.
  destruct (handshakes_meet _ _ _ _ _ _ _ _ _ _ _ _ (proj1 demo_ok)) as (A & B & Hc & Hs & Hrun).
  destruct (Hrun Hc [] [] true Hs [] [] true) as (sc & ss & HC & _); [reflexivity|reflexivity|].
  exists sc. apply (early_message_panics _ _ _ sc 16 [0xC0] HC). unfold pingMsg, pongMsg, discMsg. set_solver.
Defined.

Lemma Close_once_witness : exists x', rx_step (node 5 1) LClose = Some (Ok (x', EvNone)) /\ rx_step x' LClose = Some Panic.
Proof.
  destruct (proj2 (Close_once (node 5 1)) eq_refl ltac:(by eexists)) as (x' & H1 & _ & _ & H2). exists x'. split; [exact H1|exact H2].
Defined.
End Demo.
