(* ===== verification/Link.v ===== *)
(** * A connection as channels

    Two sessions joined by their connection, with the bytes in flight between them, are run by the writes
    and reads of their clients, the receive loops and the pings.  For the protocols above, such a
    link is nothing but a pair of queues of messages per stream: [link_refines] is the simulation,
    and [chan_step] the abstract specification. *)

From stdpp Require Import base strings numbers list.
From S2P Require Import Prelude GoStd Rlp Crypto RlpxMsg Enode Handshake RlpxFrame RlpxStream RlpxSession Rlpx.
Local Open Scope Z_scope.

(** ** The specification *)

(** What is seen of a step; the flag says on which of the two sides. *)
Inductive act := ASend (a : bool) (i : nat) (m : smsg) | ARecv (a : bool) (i : nat) (m : smsg) | ATau.

Definition flip_act (x : act) : act :=
  match x with ASend a i m => ASend (negb a) i m | ARecv a i m => ARecv (negb a) i m | ATau => ATau end.

(** Per stream, the messages on their way to the second side, and those on their way to the first. *)
Definition channels : Type := list (list smsg) * list (list smsg).
Definition flip_channels (c : channels) : channels := (c.2, c.1).

Inductive chan_step : channels -> act -> channels -> Prop :=
| ch_send to from i q m : to !! i = Some q -> chan_step (to, from) (ASend true i m) (<[i := q ++ [m]]> to, from)
| ch_recv to from i q m : from !! i = Some (m :: q) -> chan_step (to, from) (ARecv true i m) (to, <[i := q]> from)
| ch_tau c : chan_step c ATau c
| ch_flip c x c' : chan_step (flip_channels c) (flip_act x) (flip_channels c') -> chan_step c x c'.

Section Link.
Context `{Keccak} `{Block} `{Snappy} `{FastRLP}.

(** ** Two sessions and the bytes in flight *)

Record link := mkLink { l_a : Session; l_b : Session; l_ab : bytes; l_ba : bytes }.
Definition flip_link (l : link) : link := mkLink (l_b l) (l_a l) (l_ba l) (l_ab l).

(** What a session wrote to its connection since it was in state [s]. *)
Definition written_since (s s' : Session) : bytes := drop (length (w_sent (ss_conn s))) (w_sent (ss_conn s')).

(** Messages that the other side can receive. *)
Definition sendable (st : Stream) (m : smsg) : Prop :=
  0 <= m.1 < st_length st /\ st_offset st + m.1 < 128 /\ bytes_ok m.2 /\ Z.of_nat (length m.2) < 2 ^ 23.

Inductive link_step : link -> act -> link -> Prop :=
| ls_write l i st m s' :                                   (* a client writes to a stream *)
    ss_streams (l_a l) !! i = Some st -> sendable st m -> stream_WriteMsg (l_a l) st m.1 m.2 = Ok (s', None) ->
    link_step l (ASend true i m) (mkLink s' (l_b l) (l_ab l ++ written_since (l_a l) s') (l_ba l))
| ls_read l i st st' m :                                   (* a client reads from a stream *)
    ss_streams (l_a l) !! i = Some st -> ReadMsg st = Ok (st', SOk (m.2, m.1)) ->
    link_step l (ARecv true i m) (mkLink (set_streams (l_a l) (<[i := st']> (ss_streams (l_a l)))) (l_b l) (l_ab l) (l_ba l))
| ls_ping l s' :                                           (* keepalive *)
    writeCode (l_a l) pingMsg = Ok (s', None) ->
    link_step l ATau (mkLink s' (l_b l) (l_ab l ++ written_since (l_a l) s') (l_ba l))
| ls_deliver l s1 rest code buf s2 :                       (* recvLoop *)
    Session_ReadMsg (l_a l) (l_ba l) = Ok (s1, rest, (code, buf)) -> recv_msg s1 code buf = Ok (s2, None) ->
    link_step l ATau (mkLink s2 (l_b l) (l_ab l ++ written_since s1 s2) rest)
| ls_flip l x l' : link_step (flip_link l) (flip_act x) (flip_link l') -> link_step l x l'.

(** ** Frames in flight *)

(** [ms] were written, from a state in agreement with the reader [r], and are in the bytes [wire]. *)
Inductive inflight (r : halfConn) : bytes -> list (Z * bytes) -> halfConn -> Prop :=
| if_nil s : sync s r -> length (hc_header s) = 32%nat -> inflight r [] [] s
| if_snoc wire ms s w m s' wire' : inflight r wire ms s -> msg_ok (hc_snappy s) m -> w_open w = true ->
    write s w m.1 m.2 = Ok (s', mkW (w_sent w ++ wire') true, None) -> inflight r (wire ++ wire') (ms ++ [m]) s'.

Lemma write_once s w m s' wire : length (hc_header s) = 32%nat -> w_open w = true -> msg_ok (hc_snappy s) m ->
  write s w m.1 m.2 = Ok (s', mkW (w_sent w ++ wire) true, None) ->
  length (hc_header s') = 32%nat /\ hc_snappy s' = hc_snappy s /\
  forall r, sync s r -> exists r', sync s' r' /\ forall rest, read r (wire ++ rest) = Ok (r', rest, m).
Proof.
  intros Hh Hw Hm HW. assert (sync s s) as Hss by (by split).
  destruct (write_read_msg s s w m Hss Hh Hw Hm) as (s1 & r1 & w1 & HW1 & _ & _ & Hh1 & Hsn1). rewrite HW in HW1. injection HW1 as -> E1%app_inv_head.
  split_and!; [done|done|]. intros r Hs. destruct (write_read_msg s r w m Hs Hh Hw Hm) as (s2 & r2 & w2 & HW2 & HR2 & Hs2 & _).
  rewrite HW in HW2. injection HW2 as <- E2%app_inv_head. subst. by exists r2.
Qed.

Lemma inflight_header r wire ms s : inflight r wire ms s -> length (hc_header s) = 32%nat.
Proof. induction 1 as [|wire ms s w m s' wire' _ IH Hm Hw HW]; [done|]. by apply (write_once s w m s' wire'). Qed.

Lemma inflight_snappy r wire ms s : inflight r wire ms s -> hc_snappy r = hc_snappy s.
Proof.
  induction 1 as [s Hs|wire ms s w m s' wire' Hi IH Hm Hw HW]; [by destruct Hs|]. rewrite IH. symmetry.
  apply (write_once s w m s' wire'); try done. by eapply inflight_header.
Qed.

Lemma inflight_nil r wire s : inflight r wire [] s -> wire = [] /\ sync s r.
Proof. intros Hi. remember [] as ms eqn:E. destruct Hi as [|wire ms s w m s' wire' ? ? ? ?]; [done|]. by destruct ms. Qed.

(** The first message is the next one read, whatever follows. *)
Lemma inflight_read r wire m ms s : inflight r wire (m :: ms) s ->
  exists r' rest, inflight r' rest ms s /\ forall x, read r (wire ++ x) = Ok (r', rest ++ x, m).
Proof.
  intros Hi. remember (m :: ms) as l eqn:E. revert m ms E. induction Hi as [|wire l s w m1 s' wire' Hi IH Hm Hw HW]; intros m ms E; [done|].
  pose proof (inflight_header _ _ _ _ Hi) as Hh. destruct (write_once s w m1 s' wire' Hh Hw Hm HW) as (Hh' & _ & Hread).
  destruct l as [|m0 l].
  - injection E as -> <-. apply inflight_nil in Hi as [-> Hs]. destruct (Hread r Hs) as (r' & Hs' & HR).
    exists r', []. split; [by constructor|]. exact HR.
  - injection E as -> <-. destruct (IH m l eq_refl) as (r' & rest & Hi' & HR). exists r', (rest ++ wire'). split.
    + by eapply if_snoc.
    + intros x. by rewrite <-!app_assoc, HR.
Qed.

(** ** One direction *)

(** What is in flight: a message to a stream, or one of the messages of the base protocol. *)
Inductive item := IMsg (i : nat) (m : smsg) | IPing | IPong.

Definition wire_of (l : list Stream) (it : item) : Z * bytes :=
  match it with
  | IMsg i m => (match l !! i with Some st => m.1 + st_offset st | None => 0 end, m.2)
  | IPing => (pingMsg, emptyRlp)
  | IPong => (pongMsg, emptyRlp)
  end.

Definition item_ok (l : list Stream) (it : item) : Prop :=
  match it with
  | IMsg i m => exists st, l !! i = Some st /\ 0 <= m.1 < st_length st /\ st_offset st + m.1 < 128 /\ Z.of_nat (length m.2) < 2 ^ 32
  | _ => True
  end.

Definition to_stream (i : nat) (it : item) : option smsg :=
  match it with IMsg j m => if decide (j = i) then Some m else None | _ => None end.

(** A session that runs, with its streams above the codes of the base protocol. *)
Definition live (s : Session) : Prop := sinv s /\ ss_shutdown s = false /\ Forall (fun st => 16 <= st_offset st) (ss_streams s).

(** The queues of the direction from the session with the out half [o] to the one with the in half [r] and the
    streams [l]: what the streams hold, then what is in flight. *)
Definition direction (o r : halfConn) (l : list Stream) (wire : bytes) (q : list (list smsg)) : Prop :=
  exists its, inflight r wire (wire_of l <$> its) o /\ Forall (item_ok l) its /\
    Forall2 (fun i_st qi => exists qb, holds i_st.2 qb /\ qi = qb ++ omap (to_stream i_st.1) its) (imap pair l) q.

Lemma direction_stream o r l wire q i st : direction o r l wire q -> l !! i = Some st -> exists qi, q !! i = Some qi.
Proof.
  intros (its & _ & _ & HF) Hi. destruct (Forall2_lookup_l _ _ _ i (i, st) HF) as (qi & Hq & _); [|eauto].
  by rewrite list_lookup_imap, Hi.
Qed.

(** What is in flight depends on the ranges of the streams only. *)
Lemma items_ranges l l' its : same_ranges l l' -> Forall (item_ok l) its -> Forall (item_ok l') its /\ wire_of l' <$> its = wire_of l <$> its.
Proof.
  intros Hr Hok. assert (forall it, item_ok l it -> item_ok l' it /\ wire_of l' it = wire_of l it) as Hits.
  { intros [i m| |]; try done. intros (st & Hi & Hst). destruct (Forall2_lookup_l _ _ _ i st Hr Hi) as (st' & Hi' & Ho & Hl). cbn.
    rewrite Hi, Hi', Ho. split; [|done]. exists st'. rewrite <-Ho, <-Hl. done. }
  rewrite Forall_lookup in Hok. split; [apply Forall_lookup; intros k it Hk; by eapply Hits, Hok|].
  apply list_fmap_ext. intros k it Hk. by eapply Hits, Hok.
Qed.

(** A message is written. *)
Lemma live_write s code buf : live s -> msg_ok (hc_snappy (ss_out s)) (code, buf) ->
  exists o wire, write (ss_out s) (ss_conn s) code buf = Ok (o, mkW (w_sent (ss_conn s) ++ wire) true, None) /\
    WriteRawMsg s code buf = Ok (set_out s o (mkW (w_sent (ss_conn s) ++ wire) true), None) /\
    live (set_out s o (mkW (w_sent (ss_conn s) ++ wire) true)) /\
    written_since s (set_out s o (mkW (w_sent (ss_conn s) ++ wire) true)) = wire.
Proof.
  intros (I & Hsd & Hst) Hm. assert (w_open (ss_conn s) = true) as Hw by (rewrite (si_conn _ I), Hsd; done).
  assert (sync (ss_out s) (ss_out s)) as Hss by (by split).
  destruct (write_read_msg (ss_out s) (ss_out s) (ss_conn s) (code, buf) Hss (si_header _ I) Hw Hm) as (o & r' & wire & HW & _ & _ & Hh & _).
  exists o, wire. cbn [fst snd] in HW. split_and!; [done| | |].
  - unfold WriteRawMsg. by rewrite (si_closed _ I), Hsd, HW.
  - split_and!; [by apply sinv_set_out|done|done].
  - unfold written_since. cbn. apply drop_app_length.
Qed.

Lemma direction_write o r l wire q w m o' wire' it : direction o r l wire q -> msg_ok (hc_snappy o) m -> w_open w = true ->
  write o w m.1 m.2 = Ok (o', mkW (w_sent w ++ wire') true, None) -> wire_of l it = m -> item_ok l it ->
  direction o' r l (wire ++ wire') (imap (fun i qi => qi ++ option_list (to_stream i it)) q).
Proof.
  intros (its & Hi & Hok & HF) Hm Hw HW <- Hit. exists (its ++ [it]). split_and!.
  - rewrite fmap_app. cbn [fmap list_fmap]. by eapply if_snoc.
  - apply Forall_app. auto.
  - apply Forall2_same_length_lookup. apply Forall2_same_length_lookup in HF as [Hlen HF]. split; [by rewrite length_imap in *; rewrite length_imap|].
    intros i x y Hx Hy. rewrite list_lookup_imap in Hy. destruct (q !! i) as [qi|] eqn:Hq; [|done]. injection Hy as <-.
    pose proof Hx as Hx'. rewrite list_lookup_imap in Hx'. destruct (l !! i); [|done]. injection Hx' as <-.
    destruct (HF i _ qi Hx Hq) as (qb & Hqb & ->). exists qb. split; [done|]. rewrite omap_app, <-app_assoc. by f_equal.
Qed.

Lemma push_msg (q : list (list smsg)) i qi m : q !! i = Some qi ->
  imap (fun j qj => qj ++ option_list (to_stream j (IMsg i m))) q = <[i := qi ++ [m]]> q.
Proof.
  intros Hi. apply list_eq. intros j. rewrite list_lookup_imap. destruct (decide (i = j)) as [<-|Hne].
  - rewrite list_lookup_insert_eq by (by eapply lookup_lt_Some). rewrite Hi. cbn. by rewrite decide_True.
  - rewrite list_lookup_insert_ne by done. destruct (q !! j); [|done]. cbn. rewrite decide_False by done. by rewrite app_nil_r.
Qed.

Lemma push_base (q : list (list smsg)) it : (forall i, to_stream i it = None) -> imap (fun j qj => qj ++ option_list (to_stream j it)) q = q.
Proof. intros Hit. apply list_eq. intros j. rewrite list_lookup_imap. destruct (q !! j); [|done]. cbn. rewrite Hit. by rewrite app_nil_r. Qed.

(** A client takes the first message of a stream. *)
Lemma direction_read o r l wire q i st st' m : direction o r l wire q -> l !! i = Some st -> ReadMsg st = Ok (st', SOk (m.2, m.1)) ->
  exists qi, q !! i = Some (m :: qi) /\ direction o r (<[i := st']> l) wire (<[i := qi]> q) /\ (exists qb, holds st' qb) /\
    st_offset st' = st_offset st /\ st_length st' = st_length st.
Proof.
  intros (its & Hi & Hok & HF) Hst HR. apply Forall2_same_length_lookup in HF as [Hlen HF]. rewrite length_imap in Hlen.
  destruct (lookup_lt_is_Some_2 q i) as [qi Hq]; [rewrite <-Hlen; by eapply lookup_lt_Some|].
  assert (imap pair l !! i = Some (i, st)) as Hx by (by rewrite list_lookup_imap, Hst).
  destruct (HF i _ qi Hx Hq) as (qb & Hqb & ->). cbn [fst snd] in *. destruct qb as [|m' qb].
  { rewrite (ReadMsg_nil st Hqb) in HR. by destruct (st_error st). }
  destruct (ReadMsg_cons st m' qb Hqb) as (st1 & HR1 & Hqb' & _ & Ho & Hl). rewrite HR1 in HR. injection HR as -> E1 E2.
  assert (m' = m) as -> by (destruct m', m; cbn in *; congruence).
  exists (qb ++ omap (to_stream i) its). split; [done|]. split_and!; [|by exists qb|done|done].
  destruct (items_ranges l (<[i := st']> l) its) as [Hok' Hw]; [by eapply same_ranges_insert|done|].
  exists its. split_and!; [by rewrite Hw|done|].
  - apply Forall2_same_length_lookup. split; [by rewrite length_imap, !length_insert|]. intros j x y Hjx Hjy. rewrite list_lookup_imap in Hjx.
    destruct (decide (i = j)) as [<-|Hne].
    + rewrite list_lookup_insert_eq in Hjy by (by eapply lookup_lt_Some). injection Hjy as <-.
      rewrite list_lookup_insert_eq in Hjx by (by eapply lookup_lt_Some). injection Hjx as <-. by exists qb.
    + rewrite list_lookup_insert_ne in Hjy by done. rewrite list_lookup_insert_ne in Hjx by done. eapply HF; [|done]. by rewrite list_lookup_imap.
Qed.

(** ** The receive loop *)

(** What the receive loop leaves of its own session: nothing written, or a pong. *)
Definition answers (s s' : Session) : Prop :=
  (ss_out s' = ss_out s /\ ss_conn s' = ss_conn s) \/
  exists wire, write (ss_out s) (ss_conn s) pongMsg emptyRlp = Ok (ss_out s', mkW (w_sent (ss_conn s) ++ wire) true, None) /\
    ss_conn s' = mkW (w_sent (ss_conn s) ++ wire) true.

Lemma live_set_in s r : live s -> live (set_in s r).
Proof. intros ([] & Hs & Hf). split_and!; [by split|done..]. Qed.

Lemma pong_ok sn code : 0 <= code < 128 -> msg_ok sn (code, emptyRlp).
Proof. intros Hc. apply msg_ok_short; [done| |cbn; lia]. by repeat constructor. Qed.

(** A message for a stream is appended to what it holds. *)
Lemma deliver_msg_item s i m st : live s -> ss_streams s !! i = Some st -> 0 <= m.1 < st_length st -> st_offset st + m.1 < 128 -> Z.of_nat (length m.2) < 2 ^ 32 ->
  exists st', recv_msg s (m.1 + st_offset st) m.2 = Ok (set_streams s (<[i := st']> (ss_streams s)), None) /\
    (forall qb, holds st qb -> holds st' (qb ++ [m])) /\ st_offset st' = st_offset st /\ st_length st' = st_length st.
Proof.
  intros (I & Hsd & Hf) Hst Hc Hoff Hlen. rewrite Forall_lookup in Hf. pose proof (Hf i st Hst) as Ho. cbv beta in Ho.
  pose proof (si_streams _ I) as HQ. rewrite Forall_lookup in HQ. destruct (HQ i st Hst) as [q0 Hq0].
  destruct (readData_ok st (m.1 + st_offset st) m.2 q0 Hq0 Hlen) as (st' & HD & _ & _ & Ho' & Hl' & _).
  exists st'. split_and!; [| |done|done].
  - unfold recv_msg, pingMsg, pongMsg, discMsg. rewrite !(proj2 (Z.eqb_neq _ _)) by lia. unfold handleStreamMessage.
    rewrite (proj2 (getStream_iff s (m.1 + st_offset st) i st (si_sep _ I) Hst)) by lia.
    rewrite (proj2 (idx_Ok _ _ _) Hst). cbn [mbind outcome_bind]. by rewrite HD.
  - intros qb Hqb. destruct (readData_ok st (m.1 + st_offset st) m.2 qb Hqb Hlen) as (st1 & HD1 & Hh & _). rewrite HD in HD1. injection HD1 as <-.
    replace (uint16 (uint64 (m.1 + st_offset st - st_offset st))) with m.1 in Hh; [by destruct m|].
    replace (m.1 + st_offset st - st_offset st) with m.1 by lia. unfold uint16, uint64. rewrite (Z.mod_small m.1 (2 ^ 64)), Z.mod_small by lia. done.
Qed.

(** The receive loop handles the first item in flight. *)
Lemma deliver_item o s wire q its it : live s -> inflight (ss_in s) wire (wire_of (ss_streams s) <$> (it :: its)) o -> Forall (item_ok (ss_streams s)) (it :: its) ->
  Forall2 (fun i_st qi => exists qb, holds i_st.2 qb /\ qi = qb ++ omap (to_stream i_st.1) (it :: its)) (imap pair (ss_streams s)) q ->
  exists r rest s', (forall x, Session_ReadMsg s (wire ++ x) = Ok (set_in s r, rest ++ x, wire_of (ss_streams s) it)) /\
    recv_msg (set_in s r) (wire_of (ss_streams s) it).1 (wire_of (ss_streams s) it).2 = Ok (s', None) /\ ss_in s' = r /\
    live s' /\ same_ranges (ss_streams s) (ss_streams s') /\ answers (set_in s r) s' /\
    inflight r rest (wire_of (ss_streams s') <$> its) o /\ Forall (item_ok (ss_streams s')) its /\
    Forall2 (fun i_st qi => exists qb, holds i_st.2 qb /\ qi = qb ++ omap (to_stream i_st.1) its) (imap pair (ss_streams s')) q.
Proof.
  intros Hlv Hi [Hit Hok]%Forall_cons HF. cbn [fmap list_fmap] in Hi. destruct (inflight_read _ _ _ _ _ Hi) as (r & rest & Hi' & HR).
  assert (forall x, Session_ReadMsg s (wire ++ x) = Ok (set_in s r, rest ++ x, wire_of (ss_streams s) it)) as HRd.
  { intros x. unfold Session_ReadMsg. rewrite HR. cbn [mbind outcome_bind]. done. }
  pose proof (live_set_in s r Hlv) as Hlr. assert (same_ranges (ss_streams s) (ss_streams s)) as Hsame by (apply Forall_Forall2_diag, Forall_true; done).
  destruct it as [i m| |].
  - destruct Hit as (st & Hst & Hc & Hoff & Hlen). destruct (deliver_msg_item (set_in s r) i m st Hlr Hst Hc Hoff Hlen) as (st' & Hrm & Hh & Ho & Hl).
    assert (same_ranges (ss_streams s) (<[i := st']> (ss_streams s))) as Hrg by (by eapply same_ranges_insert).
    destruct (items_ranges _ _ its Hrg Hok) as [Hok' Hw'].
    exists r, rest, (set_streams (set_in s r) (<[i := st']> (ss_streams s))). cbn [wire_of] in *. rewrite Hst in *. cbn [fst snd]. split_and!; try done.
    + destruct Hlr as (I & Hsd & Hf). split_and!; [|done|].
      * pose proof (si_streams _ I) as HQ. rewrite Forall_lookup in HQ. destruct (HQ i st Hst) as [q0 Hq0].
        apply (sinv_update_stream (set_in s r) i st st' I Hst); [|done|done]. exists (q0 ++ [m]). by apply Hh.
      * cbn. apply Forall_insert; [done|]. rewrite Ho. rewrite Forall_lookup in Hf. by eapply Hf.
    + by left.
    + cbn [set_streams ss_streams]. by rewrite Hw'.
    + cbn [set_streams ss_streams]. apply Forall2_same_length_lookup. apply Forall2_same_length_lookup in HF as [Hlq HF].
      split; [rewrite length_imap, length_insert; by rewrite length_imap in Hlq|]. intros j x y Hx Hy. rewrite list_lookup_imap in Hx.
      destruct (decide (i = j)) as [<-|Hne].
      * rewrite list_lookup_insert_eq in Hx by (by eapply lookup_lt_Some). injection Hx as <-.
        destruct (HF i (i, st) y) as (qb & Hqb & ->); [by rewrite list_lookup_imap, Hst|done|]. cbn [fst snd] in *. exists (qb ++ [m]). split; [by apply Hh|].
        cbn [omap list_omap to_stream]. rewrite decide_True by done. by rewrite <-app_assoc.
      * rewrite list_lookup_insert_ne in Hx by done. destruct (HF j x y) as (qb & Hqb & ->); [by rewrite list_lookup_imap|done|]. exists qb. split; [done|].
        destruct (ss_streams s !! j) as [stj|]; [|done]. injection Hx as <-. cbn [fst omap list_omap to_stream]. by rewrite decide_False by done.
  - cbn [wire_of fst snd] in *. destruct (live_write (set_in s r) pongMsg emptyRlp Hlr) as (o' & w' & HW & HWR & Hl' & _); [apply pong_ok; unfold pongMsg; lia|].
    exists r, rest, (set_out (set_in s r) o' (mkW (w_sent (ss_conn (set_in s r)) ++ w') true)). split_and!; try done. right. by exists w'.
  - cbn [wire_of fst snd] in *. exists r, rest, (set_in s r). split_and!; try done. by left.
Qed.

(** ** The simulation *)

(** The sessions run, agree on the ranges of their streams, and each direction is a list of queues. *)
Record linked (l : link) (c : channels) : Prop := {
  lk_a : live (l_a l);
  lk_b : live (l_b l);
  lk_ranges : same_ranges (ss_streams (l_a l)) (ss_streams (l_b l));
  lk_to : direction (ss_out (l_a l)) (ss_in (l_b l)) (ss_streams (l_b l)) (l_ab l) c.1;
  lk_from : direction (ss_out (l_b l)) (ss_in (l_a l)) (ss_streams (l_a l)) (l_ba l) c.2;
}.

Lemma same_ranges_sym l l' : same_ranges l l' -> same_ranges l' l.
Proof. intros Hr. apply Forall2_flip. eapply Forall2_impl; [exact Hr|]. cbn. intros a b []. by split. Qed.

Lemma same_ranges_trans l1 l2 l3 : same_ranges l1 l2 -> same_ranges l2 l3 -> same_ranges l1 l3.
Proof.
  intros H12. revert l3. induction H12 as [|a b l1 l2 [] _ IH]; intros l3 H23; inversion_clear H23 as [|? c ? l4 [] H24]; constructor; [split; congruence|].
  by apply IH.
Qed.

Lemma flip_link_id l : flip_link (flip_link l) = l.
Proof. by destruct l. Qed.

Lemma linked_flip l c : linked l c -> linked (flip_link l) (flip_channels c).
Proof. intros []. split; [done|done|by apply same_ranges_sym|done|done]. Qed.

(** A message of the first side enters the connection. *)
Lemma linked_write l c it m : linked l c -> msg_ok (hc_snappy (ss_out (l_a l))) m -> wire_of (ss_streams (l_b l)) it = m -> item_ok (ss_streams (l_b l)) it ->
  exists s', WriteRawMsg (l_a l) m.1 m.2 = Ok (s', None) /\
    linked (mkLink s' (l_b l) (l_ab l ++ written_since (l_a l) s') (l_ba l)) (imap (fun i qi => qi ++ option_list (to_stream i it)) c.1, c.2).
Proof.
  intros [La Lb Hr Hto Hfrom] Hm Hw Hit. destruct m as [code buf]. cbn [fst snd] in *. destruct (live_write (l_a l) code buf La Hm) as (o & wire & HW & HWR & Hl & Hsince).
  eexists. split; [exact HWR|]. rewrite Hsince. assert (w_open (ss_conn (l_a l)) = true) as Hop by (destruct La as (I & Hsd & _); rewrite (si_conn _ I), Hsd; done).
  split; try done. cbn. eapply direction_write; [exact Hto|exact Hm|exact Hop|exact HW|exact Hw|exact Hit].
Qed.

Lemma linked_send l c i st m : linked l c -> ss_streams (l_a l) !! i = Some st -> sendable st m ->
  exists s' q, stream_WriteMsg (l_a l) st m.1 m.2 = Ok (s', None) /\ c.1 !! i = Some q /\
    linked (mkLink s' (l_b l) (l_ab l ++ written_since (l_a l) s') (l_ba l)) (<[i := q ++ [m]]> c.1, c.2).
Proof.
  intros HL Hst (Hc & Ho & Hb & Hlen). destruct (Forall2_lookup_l _ _ _ i st (lk_ranges _ _ HL) Hst) as (stb & Hstb & Eo & El).
  destruct (direction_stream _ _ _ _ _ i stb (lk_to _ _ HL) Hstb) as [q Hq].
  assert (16 <= st_offset st) as H16 by (destruct (lk_a _ _ HL) as (_ & _ & Hf); rewrite Forall_lookup in Hf; by apply (Hf i)).
  unfold stream_WriteMsg. replace (uint64 (m.1 + st_offset st)) with (m.1 + st_offset st) by (unfold uint64; rewrite Z.mod_small; lia).
  destruct (linked_write l c (IMsg i m) (m.1 + st_offset st, m.2) HL) as (s' & HW & HL').
  - apply msg_ok_short; cbn; lia || done.
  - cbn. by rewrite Hstb, Eo.
  - exists stb. rewrite <-Eo, <-El. split_and!; try done; lia.
  - exists s', q. split_and!; [done|done|]. by rewrite (push_msg _ i q) in HL'.
Qed.

Lemma linked_base l c code : linked l c -> code = pingMsg \/ code = pongMsg -> exists s', writeCode (l_a l) code = Ok (s', None) /\
  linked (mkLink s' (l_b l) (l_ab l ++ written_since (l_a l) s') (l_ba l)) c.
Proof.
  intros HL Hcode. destruct (linked_write l c (if code =? pingMsg then IPing else IPong) (code, emptyRlp) HL) as (s' & HW & HL').
  - apply pong_ok. unfold pingMsg, pongMsg in Hcode. lia.
  - by destruct Hcode as [->| ->].
  - by destruct Hcode as [->| ->].
  - exists s'. split; [done|]. rewrite push_base in HL' by (by destruct (code =? pingMsg)). by destruct c.
Qed.

Lemma linked_read l c i st st' m : linked l c -> ss_streams (l_a l) !! i = Some st -> ReadMsg st = Ok (st', SOk (m.2, m.1)) ->
  exists q, c.2 !! i = Some (m :: q) /\ linked (mkLink (set_streams (l_a l) (<[i := st']> (ss_streams (l_a l)))) (l_b l) (l_ab l) (l_ba l)) (c.1, <[i := q]> c.2).
Proof.
  intros [La Lb Hr Hto Hfrom] Hst HR. destruct (direction_read _ _ _ _ _ i st st' m Hfrom Hst HR) as (q & Hq & Hd & Hh & Ho & Hl).
  exists q. split; [done|]. destruct La as (I & Hsd & Hf). split; try done; cbn.
  - split_and!; [by apply (sinv_update_stream _ i st)|done|]. cbn. apply Forall_insert; [done|]. rewrite Ho. rewrite Forall_lookup in Hf. by eapply Hf.
  - eapply same_ranges_trans; [|exact Hr]. apply same_ranges_sym. by eapply same_ranges_insert.
Qed.

(** The receive loop of the first side handles what comes first; the queues do not see it. *)
Lemma linked_deliver l c : linked l c -> l_ba l ≠ [] ->
  exists s1 rest code buf s2, Session_ReadMsg (l_a l) (l_ba l) = Ok (s1, rest, (code, buf)) /\ recv_msg s1 code buf = Ok (s2, None) /\
    linked (mkLink s2 (l_b l) (l_ab l ++ written_since s1 s2) rest) c.
Proof.
  intros HL Hne. pose proof HL as [La Lb Hr Hto (its & Hi & Hok & HF)]. destruct its as [|it its]; [destruct (inflight_nil _ _ _ Hi); contradiction|].
  destruct (deliver_item _ _ _ _ _ _ La Hi Hok HF) as (r & rest & s' & HR & Hrm & Hin & Hl' & Hrg & Hans & Hi' & Hok' & HF').
  specialize (HR []). rewrite !app_nil_r in HR. destruct (wire_of (ss_streams (l_a l)) it) as [code buf].
  exists (set_in (l_a l) r), rest, code, buf, s'. split_and!; [done|done|]. split; try done.
  - eapply same_ranges_trans; [|exact Hr]. by apply same_ranges_sym.
  - cbn. destruct Hans as [[-> Hcn]|(wire & HW & Hcn)]; unfold written_since; rewrite Hcn.
    + rewrite drop_ge, app_nil_r by done. exact Hto.
    + cbn [w_sent set_in ss_conn]. rewrite drop_app_length. rewrite <-(push_base c.1 IPong) by done.
      eapply (direction_write _ _ _ _ _ _ (pongMsg, emptyRlp)); [exact Hto| | |exact HW|done|done].
      * apply pong_ok. unfold pongMsg. lia.
      * destruct La as (I & Hsd & _). cbn. rewrite (si_conn _ I), Hsd. done.
  - cbn. rewrite Hin. by exists its.
Qed.

Lemma Session_ReadMsg_empty s : ~ exists x, Session_ReadMsg s [] = Ok x.
Proof. intros [x Hx]. unfold Session_ReadMsg, read in Hx. by vm_compute in Hx. Qed.

Lemma link_simulation l x l' : link_step l x l' -> forall c, linked l c -> exists c', chan_step c x c' /\ linked l' c'.
Proof.
  induction 1 as [l i st m s' Hst Hm HW|l i st st' m Hst HR|l s' HW|l s1 rest code buf s2 HR HM|l x l' _ IH]; intros c HL.
  - destruct (linked_send l c i st m HL Hst Hm) as (s1 & q & HW1 & Hq & HL'). rewrite HW in HW1. injection HW1 as <-.
    destruct c as [to from]. eexists. split; [by apply ch_send|exact HL'].
  - destruct (linked_read l c i st st' m HL Hst HR) as (q & Hq & HL'). destruct c as [to from]. eexists. split; [by apply ch_recv|exact HL'].
  - destruct (linked_base l c pingMsg HL) as (s1 & HW1 & HL'); [by left|]. rewrite HW in HW1. injection HW1 as <-. exists c. split; [constructor|exact HL'].
  - destruct (decide (l_ba l = [])) as [E|Hne]; [rewrite E in HR; destruct (Session_ReadMsg_empty (l_a l)); eauto|].
    destruct (linked_deliver l c HL Hne) as (s3 & rest' & code' & buf' & s4 & HR' & HM' & HL'). rewrite HR in HR'. injection HR' as <- <- <- <-.
    rewrite HM in HM'. injection HM' as <-. exists c. split; [constructor|exact HL'].
  - destruct (IH _ (linked_flip _ _ HL)) as (c' & Hc & HL'). exists (flip_channels c'). split.
    + apply ch_flip. by destruct c'.
    + apply linked_flip in HL'. by rewrite flip_link_id in HL'.
Qed.

(** ** Runs *)

Inductive link_run : link -> list act -> link -> Prop :=
| lr_nil l : link_run l [] l
| lr_cons l x l' tr l'' : link_step l x l' -> link_run l' tr l'' -> link_run l (x :: tr) l''.

Lemma link_run_snoc l tr l' x l'' : link_run l tr l' -> link_step l' x l'' -> link_run l (tr ++ [x]) l''.
Proof. induction 1; intros Hx; cbn; econstructor; eauto. constructor. Qed.

Lemma link_run_app l tr l' tr' l'' : link_run l tr l' -> link_run l' tr' l'' -> link_run l (tr ++ tr') l''.
Proof. induction 1; intros; cbn; [done|]. econstructor; eauto. Qed.

Lemma flip_act_id x : flip_act (flip_act x) = x.
Proof. destruct x as [[]|[]|]; done. Qed.

Lemma link_run_flip l tr l' : link_run l tr l' -> link_run (flip_link l) (flip_act <$> tr) (flip_link l').
Proof.
  induction 1 as [|l x l' tr l'' Hx _ IH]; [constructor|]. cbn. econstructor; [|exact IH]. apply ls_flip. by rewrite !flip_link_id, flip_act_id.
Qed.

(** What a side sends to a stream and what it receives from it. *)
Definition sent_on (a : bool) (i : nat) (x : act) : option smsg :=
  match x with ASend b j m => if decide ((b, j) = (a, i)) then Some m else None | _ => None end.
Definition received_on (a : bool) (i : nat) (x : act) : option smsg :=
  match x with ARecv b j m => if decide ((b, j) = (a, i)) then Some m else None | _ => None end.
Definition queues (c : channels) (a : bool) : list (list smsg) := if a then c.1 else c.2.

Lemma sent_on_flip a i x : sent_on a i (flip_act x) = sent_on (negb a) i x.
Proof. destruct x as [[]|[]|], a; cbn; repeat case_decide; congruence. Qed.

Lemma received_on_flip a i x : received_on a i (flip_act x) = received_on (negb a) i x.
Proof. destruct x as [[]|[]|], a; cbn; repeat case_decide; congruence. Qed.

Lemma chan_step_fifo c x c' : chan_step c x c' -> forall a i q, queues c a !! i = Some q ->
  exists q', queues c' a !! i = Some q' /\ q ++ option_list (sent_on a i x) = option_list (received_on (negb a) i x) ++ q'.
Proof.
  induction 1 as [to from j qj m Hj|to from j qj m Hj|c|c x c' _ IH]; intros a i q Hq.
  - destruct a; cbn in *; [|exists q; by rewrite app_nil_r]. destruct (decide (j = i)) as [->|Hne].
    + rewrite list_lookup_insert_eq by (by eapply lookup_lt_Some). rewrite Hj in Hq. injection Hq as ->. rewrite decide_True by done. by eexists.
    + rewrite list_lookup_insert_ne by done. rewrite decide_False by congruence. exists q. by rewrite app_nil_r.
  - destruct a; cbn in *; [exists q; by rewrite app_nil_r|]. rewrite app_nil_r. destruct (decide (j = i)) as [->|Hne].
    + rewrite list_lookup_insert_eq by (by eapply lookup_lt_Some). rewrite Hj in Hq. injection Hq as <-. rewrite decide_True by done. by eexists.
    + rewrite list_lookup_insert_ne by done. rewrite decide_False by congruence. by exists q.
  - exists q. by rewrite app_nil_r.
  - destruct (IH (negb a) i q) as (q' & Hq' & E); [by destruct a, c|]. rewrite sent_on_flip, received_on_flip, negb_involutive in E.
    exists q'. split; [by destruct a, c'|done].
Qed.

Lemma linked_run l tr l' : link_run l tr l' -> forall c, linked l c -> exists c', linked l' c' /\
  forall a i q, queues c a !! i = Some q -> exists q', queues c' a !! i = Some q' /\ q ++ omap (sent_on a i) tr = omap (received_on (negb a) i) tr ++ q'.
Proof.
  induction 1 as [l|l x l' tr l'' Hx _ IH]; intros c HL.
  - exists c. split; [done|]. intros a i q Hq. exists q. by rewrite app_nil_r.
  - destruct (link_simulation l x l' Hx c HL) as (c1 & Hc1 & HL1). destruct (IH c1 HL1) as (c2 & HL2 & Hf). exists c2. split; [done|].
    intros a i q Hq. destruct (chan_step_fifo c x c1 Hc1 a i q Hq) as (q1 & Hq1 & E1). destruct (Hf a i q1 Hq1) as (q2 & Hq2 & E2). exists q2. split; [done|].
    change (x :: tr) with ([x] ++ tr). rewrite !omap_app, app_assoc. replace (omap (sent_on a i) [x]) with (option_list (sent_on a i x)) by (cbn; by destruct (sent_on a i x)).
    replace (omap (received_on (negb a) i) [x]) with (option_list (received_on (negb a) i x)) by (cbn; by destruct (received_on (negb a) i x)).
    rewrite E1, <-!app_assoc. by f_equal.
Qed.

(** *** The ranges of the streams *)

Lemma same_ranges_refl l : same_ranges l l.
Proof. by apply Forall_Forall2_diag, Forall_true. Qed.

Lemma stream_read_range st n st' r : stream_read st n = (st', r) -> st_offset st' = st_offset st /\ st_length st' = st_length st.
Proof. unfold stream_read. repeat case_match; by intros [= <- <-]. Qed.

Lemma ReadMsg_range st st' r : ReadMsg st = Ok (st', r) -> st_offset st' = st_offset st /\ st_length st' = st_length st.
Proof.
  unfold ReadMsg. destruct (stream_read st HeaderSize) as [st1 [b|e|]] eqn:E1; apply stream_read_range in E1 as [Ho1 Hl1]; [|by intros [= <- _]..].
  destruct (Header_Length _) as [n| | |]; try done. cbn [mbind outcome_bind].
  destruct (stream_read st1 _) as [st2 [b'|e|]] eqn:E2; apply stream_read_range in E2 as [Ho2 Hl2]; [|intros [= <- _]; split; congruence..].
  destruct (Header_MsgType _) as [t| | |]; try done. cbn [mbind outcome_bind]. intros [= <- _]. split; congruence.
Qed.

Lemma recv_msg_ranges s code buf s' e : recv_msg s code buf = Ok (s', e) -> same_ranges (ss_streams s) (ss_streams s').
Proof.
  unfold recv_msg. repeat case_if; [intros HW; rewrite (WriteRawMsg_streams _ _ _ _ _ HW); apply same_ranges_refl|intros [= <- _]; apply same_ranges_refl..|].
  unfold handleStreamMessage. destruct (getStream s code) as [i|]; [|done]. destruct (idx _ _) as [st| | |] eqn:Ei; try done. apply idx_Ok in Ei.
  cbn [mbind outcome_bind]. unfold readData. destruct (Header_Encode _ _ _); try done. cbn [mbind outcome_bind]. intros [= <- _]. by eapply same_ranges_insert.
Qed.

Lemma link_step_ranges k x k' : link_step k x k' ->
  same_ranges (ss_streams (l_a k)) (ss_streams (l_a k')) /\ same_ranges (ss_streams (l_b k)) (ss_streams (l_b k')).
Proof.
  induction 1 as [l i st m s' _ _ HW|l i st st' m Hst HR|l s' HW|l s1 rest code buf s2 HR HM|l x l' _ [IH1 IH2]]; cbn in *; [..|done]; (split; [|apply same_ranges_refl]).
  - rewrite (WriteRawMsg_streams _ _ _ _ _ HW). apply same_ranges_refl.
  - apply ReadMsg_range in HR as [Ho Hl]. by eapply same_ranges_insert.
  - rewrite (WriteRawMsg_streams _ _ _ _ _ HW). apply same_ranges_refl.
  - unfold Session_ReadMsg in HR. destruct (read _ _) as [[[r c] m]| | |]; try discriminate HR. injection HR as <- _ _. by apply recv_msg_ranges in HM.
Qed.

Lemma link_run_ranges k tr k' : link_run k tr k' ->
  same_ranges (ss_streams (l_a k)) (ss_streams (l_a k')) /\ same_ranges (ss_streams (l_b k)) (ss_streams (l_b k')).
Proof.
  induction 1 as [|k x k1 tr k2 Hx _ [IH1 IH2]]; [split; apply same_ranges_refl|]. apply link_step_ranges in Hx as [H1' H2'].
  split; by eapply same_ranges_trans.
Qed.

(** ** Everything in flight can be received *)

Lemma linked_recv_fuel n : forall l c i m q, (length (l_ba l) < n)%nat -> linked l c -> c.2 !! i = Some (m :: q) ->
  exists k l', link_run l (replicate k ATau ++ [ARecv true i m]) l' /\ linked l' (c.1, <[i := q]> c.2).
Proof.
  induction n as [|n IH]; intros l c i m q Hn HL Hq; [lia|]. pose proof (lk_from _ _ HL) as (its & Hi & Hok & HF).
  destruct (Forall2_lookup_r _ _ _ i _ HF Hq) as ([i' st] & Hx & qb & Hqb & E). rewrite list_lookup_imap in Hx.
  destruct (ss_streams (l_a l) !! i) as [st'|] eqn:Hst; [|done]. injection Hx as <- <-. cbn [fst snd] in *. destruct qb as [|m' qb].
  - assert (l_ba l ≠ []) as Hne. { intros E0. destruct its as [|it its]; [done|]. cbn [fmap list_fmap] in Hi. destruct (inflight_read _ _ _ _ _ Hi) as (r & rest & _ & HR).
      apply (Session_ReadMsg_empty (l_a l)). specialize (HR []). rewrite app_nil_r, E0 in HR. unfold Session_ReadMsg. rewrite HR. by eexists. }
    destruct (linked_deliver l c HL Hne) as (s1 & rest & code & buf & s2 & HR & HM & HL').
    destruct (IH (mkLink s2 (l_b l) (l_ab l ++ written_since s1 s2) rest) c i m q) as (k & l' & Hrun & HL''); [|exact HL'|exact Hq|].
    + unfold Session_ReadMsg in HR. destruct (read (ss_in (l_a l)) (l_ba l)) as [[[r c0] m0]| | |] eqn:Er; try discriminate HR. injection HR as _ -> ->.
      apply read_sealed in Er as (h & d & Hh & E0 & _). rewrite E0 in Hn. unfold sealed in Hn. rewrite !length_app in Hn. cbn. lia.
    + exists (S k), l'. split; [|done]. cbn. econstructor; [|exact Hrun]. by eapply ls_deliver.
  - injection E as <- Eq. destruct (ReadMsg_cons st' m qb Hqb) as (st1 & HR & _). destruct (linked_read l c i st' st1 m HL Hst HR) as (q1 & Hq1 & HL').
    pose proof (eq_trans (eq_sym Hq) Hq1) as [= <-]. exists 0%nat. eexists. split; [|exact HL']. econstructor; [by eapply ls_read|constructor].
Qed.

Lemma linked_drain i q : forall l c, linked l c -> c.2 !! i = Some q ->
  exists tr l', link_run l tr l' /\ Forall (fun x => x = ATau \/ exists m, x = ARecv true i m) tr /\ omap (received_on true i) tr = q.
Proof.
  induction q as [|m q IH]; intros l c HL Hq; [exists [], l; split_and!; [constructor..|done]|].
  destruct (linked_recv_fuel _ l c i m q (Nat.lt_succ_diag_r _) HL Hq) as (k & l1 & Hrun & HL1).
  destruct (IH l1 _ HL1) as (tr & l2 & Hrun2 & Hf & E); [cbn; apply list_lookup_insert_eq; by eapply lookup_lt_Some|].
  exists ((replicate k ATau ++ [ARecv true i m]) ++ tr), l2. split_and!; [by eapply link_run_app| |].
  - apply Forall_app. split; [|done]. apply Forall_app. split; [apply Forall_replicate; by left|]. apply Forall_singleton. right. by exists m.
  - rewrite !omap_app, E. assert (forall n, omap (received_on true i) (replicate n ATau) = []) as -> by (intros n; by induction n). cbn. by rewrite decide_True.
Qed.
End Link.

(** ** A fresh connection *)

Section Fresh.
Context `{Keccak} `{Curve} `{!Ecies} `{FastRLP} `{Block} `{Snappy} `{GoNet}.

(** The link of a connection whose handshakes left nothing to read. *)
Definition fresh_link (sc ss : session) : link := mkLink (se_sess sc) (se_sess ss) [] [].

Lemma fresh_direction o r l : sync o r -> length (hc_header o) = 32%nat -> Forall (fun st => holds st []) l ->
  direction o r l [] (replicate (length l) []).
Proof.
  intros Hs Hh Hl. exists []. split_and!; [by constructor|done|]. apply Forall2_same_length_lookup. split; [by rewrite length_imap, length_replicate|].
  intros i x q Hx [-> _]%lookup_replicate. rewrite list_lookup_imap in Hx. destruct (l !! i) as [st|] eqn:Hi; [|done]. injection Hx as <-.
  exists []. split; [|done]. rewrite Forall_lookup in Hl. by apply (Hl i).
Qed.

Lemma fresh_live s k ip port info l w rest : meets s k ip port info (layout 16 l) w rest -> Forall (fun p => 0 <= spec_Length p) l ->
  sinv (se_sess s) -> live (se_sess s) /\ Forall (fun st => holds st []) (ss_streams (se_sess s)).
Proof.
  intros M Hl I. pose proof (ms_streams _ _ _ _ _ _ _ _ M) as Hst. split.
  - split_and!; [done|apply M|]. rewrite Hst. apply Forall_lookup. intros i st Hi. by apply layout_bounds in Hi as (Ho & _).
  - rewrite Hst. apply Forall_lookup. intros i st Hi. apply layout_bounds in Hi as (_ & _ & _ & Hb & _); [|done]. unfold holds. by rewrite Hb.
Qed.

Lemma fresh_linked x y ipc ips pc ps wc ws restc rests sc ss :
  connection x y ipc ips pc ps wc ws restc rests sc ss -> protocols_ok (rx_backends x) (rx_info y) ->
  common (rx_backends x) (rx_info y) = common (rx_backends y) (rx_info x) ->
  linked (fresh_link sc ss) (replicate (length (Streams sc)) [], replicate (length (Streams sc)) []).
Proof.
  intros [Mc Ms [P1 P2] [Ic Is]] [Hl Ht] Hcm. rewrite <-Hcm in Ms.
  destruct (fresh_live _ _ _ _ _ _ _ _ Mc Hl Ic) as [Lc Hc]. destruct (fresh_live _ _ _ _ _ _ _ _ Ms Hl Is) as [Ls Hs].
  assert (ss_streams (se_sess sc) = ss_streams (se_sess ss)) as E by (by rewrite (ms_streams _ _ _ _ _ _ _ _ Mc), (ms_streams _ _ _ _ _ _ _ _ Ms)).
  unfold Streams. split; cbn; [done|done| | |].
  - rewrite E. by apply Forall_Forall2_diag, Forall_true.
  - rewrite E. apply fresh_direction; [done|apply Mc|done].
  - apply fresh_direction; [done|apply Ms|done].
Qed.

(** ** Properties *)

(** C17: A connection is a pair of FIFO channels per protocol, if both nodes lay the common protocols out alike (nodes that
    list them in different orders do not: [RlpxSession.layouts_disagree]).  The nodes have connected; their clients
    then write messages that fit a frame, with codes of their streams, and read; the receive loops run and pings are sent,
    in any order, while the session lasts.  For every stream and either side: what the side
    wrote is what the other side has read so far, in order, followed by messages on their way; and
    all of these can still be read, by steps of the receive loop and the reader alone. *)
Theorem link_fifo (x y : Rlpx) ipc ips pc ps wc ws sc ss tr l :
  connection x y ipc ips pc ps wc ws [] [] sc ss -> protocols_ok (rx_backends x) (rx_info y) ->
  common (rx_backends x) (rx_info y) = common (rx_backends y) (rx_info x) -> link_run (fresh_link sc ss) tr l ->
  forall a i, (i < length (Streams sc))%nat -> exists q tr' l',
    omap (sent_on a i) tr = omap (received_on (negb a) i) tr ++ q /\
    link_run l tr' l' /\ Forall (fun x => x = ATau \/ exists m, x = ARecv (negb a) i m) tr' /\ omap (received_on (negb a) i) tr' = q.
Proof.
  intros Hcn Hp Hcm Hrun a i Hi. destruct (linked_run _ _ _ Hrun _ (fresh_linked _ _ _ _ _ _ _ _ _ _ _ _ Hcn Hp Hcm)) as (c' & HL & Hf).
  destruct (Hf a i []) as (q & Hq & E); [by destruct a; apply lookup_replicate|]. destruct a; cbn [negb queues] in *.
  - destruct (linked_drain i q (flip_link l) (flip_channels c') (linked_flip _ _ HL) Hq) as (tr' & l' & Hr & HF & E').
    exists q, (flip_act <$> tr'), (flip_link l'). split_and!; [done| | |].
    + apply link_run_flip in Hr. by rewrite flip_link_id in Hr.
    + apply Forall_fmap. eapply Forall_impl; [exact HF|]. intros z [->|[m ->]]; [by left|right; by exists m].
    + rewrite <-E'. clear. induction tr' as [|z tr' IH]; [done|]. cbn. rewrite received_on_flip. cbn [negb]. destruct (received_on true i z); by rewrite IH.
  - destruct (linked_drain i q l c' HL Hq) as (tr' & l' & Hr & HF & E'). exists q, tr', l'. by split_and!.
Qed.

(** C16: Clients see nothing but queues.  Every step of two connected sessions - a client's write or
    read on either side, a ping, a message handled by a receive loop - is a step of the channels:
    a write appends to the queue of its stream, a read takes the oldest message of it, and everything
    else is invisible; the sessions stay alive and in agreement, whatever is in flight. *)
Theorem link_refines (l l' : link) (x : act) (c : channels) : linked l c -> link_step l x l' ->
  exists c', chan_step c x c' /\ linked l' c'.
Proof. intros HL Hx. by apply (link_simulation l x l'). Qed.

(** No step gets stuck.  On connected sessions a message of the protocol can always be written, a
    ping can always be sent, and as long as there are bytes in flight the receive loop returns from
    [ReadMsg] with a message it handles without an error. *)
Theorem link_never_stuck (l : link) (c : channels) : linked l c ->
  (forall i st m, ss_streams (l_a l) !! i = Some st -> sendable st m -> exists l', link_step l (ASend true i m) l') /\
  (exists s', writeCode (l_a l) pingMsg = Ok (s', None)) /\
  (l_ba l ≠ [] -> exists s1 rest code buf s2, Session_ReadMsg (l_a l) (l_ba l) = Ok (s1, rest, (code, buf)) /\ recv_msg s1 code buf = Ok (s2, None)).
Proof.
  intros HL. split_and!.
  - intros i st m Hst Hm. destruct (linked_send l c i st m HL Hst Hm) as (s' & q & HW & _). eexists. by eapply ls_write.
  - destruct (linked_base l c pingMsg HL) as (s' & HW & _); [by left|]. by exists s'.
  - intros Hne. destruct (linked_deliver l c HL Hne) as (s1 & rest & code & buf & s2 & HR & HM & _). by exists s1, rest, code, buf, s2.
Qed.
End Fresh.

(** ** Two nodes and a message *)

Module Demo.
#[local] Existing Instance toy_net.

Definition a_msg : smsg := (3, [7; 8]).

Lemma demo_connection : exists wc ws sc ss, connection (Rlpx.Demo.node 5 1) (Rlpx.Demo.node 6 2) (Rlpx.Demo.ip 1) (Rlpx.Demo.ip 2) 50505 30303 wc ws [] [] sc ss.
Proof.
  destruct (transports_connect _ _ _ _ _ _ _ _ _ _ (ni_Enode (rx_info (Rlpx.Demo.node 6 2))) Rlpx.Demo.demo_ok eq_refl) as (A & B & Hc & Hs & Hrun).
  destruct (Hrun Hc [] [] true Hs [] [] true) as (sc & ss & _ & _ & Hcn); [reflexivity|reflexivity|]. by exists (A ++ Hc), (B ++ Hs), sc, ss.
Qed.

Lemma demo_protocols : protocols_ok (rx_backends (Rlpx.Demo.node 5 1)) (rx_info (Rlpx.Demo.node 6 2)).
Proof. exact (proj1 (proj2 Rlpx.Demo.demo_ok)). Qed.

(** The client's stream number 1, of the protocol "les", takes the message. *)
Lemma demo_send wc ws sc ss : connection (Rlpx.Demo.node 5 1) (Rlpx.Demo.node 6 2) (Rlpx.Demo.ip 1) (Rlpx.Demo.ip 2) 50505 30303 wc ws [] [] sc ss ->
  Streams sc = [NewStream 16 17 eth; NewStream 33 24 les] /\ linked (fresh_link sc ss) ([[]; []], [[]; []]) /\
  exists l, link_step (fresh_link sc ss) (ASend true 1 a_msg) l.
Proof.
  intros Hcn. assert (Streams sc = [NewStream 16 17 eth; NewStream 33 24 les]) as E.
  { unfold Streams. rewrite (ms_streams _ _ _ _ _ _ _ _ (cn_client _ _ _ _ _ _ _ _ _ _ _ _ Hcn)). reflexivity. }
  pose proof (fresh_linked _ _ _ _ _ _ _ _ _ _ _ _ Hcn demo_protocols eq_refl) as HL. rewrite E in HL. split_and!; [exact E|exact HL|].
  destruct (linked_send _ _ 1 (NewStream 33 24 les) a_msg HL) as (s' & q & HW & _); cbn.
  - unfold Streams in E. rewrite E. reflexivity.
  - split_and!; cbn; try lia. repeat constructor; unfold byte_ok; lia.
  - eexists. eapply ls_write; [|  |exact HW]; cbn.
    + unfold Streams in E. rewrite E. reflexivity.
    + split_and!; cbn; try lia. repeat constructor; unfold byte_ok; lia.
Qed.

Lemma link_fifo_witness : exists sc ss l tr' l', link_run (fresh_link sc ss) [ASend true 1 a_msg] l /\
  link_run l tr' l' /\ omap (received_on false 1) tr' = [a_msg].
Proof.
  destruct demo_connection as (wc & ws & sc & ss & Hcn). destruct (demo_send wc ws sc ss Hcn) as (E & _ & l & Hs).
  assert (link_run (fresh_link sc ss) [ASend true 1 a_msg] l) as Hrun by (econstructor; [exact Hs|constructor]).
  destruct (link_fifo (Rlpx.Demo.node 5 1) (Rlpx.Demo.node 6 2) _ _ _ _ wc ws sc ss [ASend true 1 a_msg] l Hcn demo_protocols eq_refl Hrun true 1)
    as (q & tr' & l' & Eq & Hr & _ & Er).
  - rewrite E. cbn. lia.
  - exists sc, ss, l, tr', l'. split_and!; [exact Hrun|exact Hr|]. exact (eq_trans Er (eq_sym Eq)).
Defined.

Lemma link_refines_witness : exists sc ss l c', chan_step ([[]; []], [[]; []]) (ASend true 1 a_msg) c' /\ link_step (fresh_link sc ss) (ASend true 1 a_msg) l /\ linked l c'.
Proof.
  destruct demo_connection as (wc & ws & sc & ss & Hcn). destruct (demo_send wc ws sc ss Hcn) as (_ & HL & l & Hs).
  destruct (link_refines (fresh_link sc ss) l (ASend true 1 a_msg) ([[]; []], [[]; []]) HL Hs) as (c' & Hc & HL').
  exists sc, ss, l, c'. split_and!; [exact Hc|exact Hs|exact HL'].
Defined.
End Demo.
