(* ===== verification/Discv4Msg.v ===== *)
(** * Discovery: peers, messages and packets

    The data half of [discovery/discv4.go]: peers and their hexadecimal ids, the four messages and
    their RLP codecs, and the signed packet format.  A codec that indexes the elements of a list
    without checking their number panics on a short list, and the model with it. *)

From stdpp Require Import base strings numbers list.
From S2P Require Import Prelude GoStd Rlp Crypto RlpxMsg.
Local Open Scope Z_scope.

Definition EncodeToHex (str : bytes) : string := "0x" ++ hex_EncodeToString str.

Definition DecodeHex (str : string) : outcome bytes :=
  let str := if HasPrefix str "0x" then str_drop 2 str else str in
  of_option "hex" (hex_DecodeString str).

(** ** Peers *)

Record UDPAddr := mkAddr { addr_IP : bytes; addr_Port : Z }.

(** [Last] is a time in nanoseconds. *)
Record Peer := mkPeer { p_ID : string; p_Bytes : bytes; p_Addr : UDPAddr; p_Last : option Z; p_TCP : Z }.

Definition newPeer (id : string) (addr : UDPAddr) (tcp : Z) : outcome Peer :=
  let id := if HasPrefix id "0x" then str_drop 2 id else id in
  if negb (String.length id =? 128)%nat then Err ("id should be 128 in length not " ++ fmt_d (Z.of_nat (String.length id)))
  else bytes ← DecodeHex ("0x" ++ id); Ok (mkPeer id bytes addr None tcp).

(** The enode address; [ip_String] is [net.IP.String].  [strings.Replace] removes every "0x" of the
    encoding, which has only the one in front. *)
Definition Enode (ip_String : bytes -> string) (p : Peer) : string :=
  let id := str_drop 2 (EncodeToHex (p_Bytes p)) in
  "enode://" ++ id ++ "@" ++ ip_String (addr_IP (p_Addr p)) ++ ":" ++ fmt_d (p_TCP p).

(** [p.Last.Add(expiration).Before(now)] *)
Definition Peer_hasExpired (p : Peer) (now expiration : Z) : bool :=
  match p_Last p with
  | None => true
  | Some last => last + expiration <? now
  end.

(** ** The messages *)

Record rpcEndpoint := mkEndpoint { ep_IP : bytes; ep_UDP : Z; ep_TCP : Z }.
Record rpcNode := mkNode { n_IP : bytes; n_UDP : Z; n_TCP : Z; n_ID : bytes }.
Record pingRequest := mkPing { ping_Version : Z; ping_From : rpcEndpoint; ping_To : rpcEndpoint; ping_Expiration : Z }.
Record pongResponse := mkPong { pong_To : rpcEndpoint; pong_ReplyTok : bytes; pong_Expiration : Z }.
Record findNodeRequest := mkFind { find_Target : bytes; find_Expiration : Z }.
Record neighborsResponse := mkNeighbors { nb_Nodes : list rpcNode; nb_Expiration : Z }.

#[global] Instance UDPAddr_eq_dec : EqDecision UDPAddr.
Proof. solve_decision. Defined.
#[global] Instance Peer_eq_dec : EqDecision Peer.
Proof. solve_decision. Defined.

Definition toRPCNode (p : Peer) : rpcNode := mkNode (addr_IP (p_Addr p)) (uint16 (addr_Port (p_Addr p))) 0 (p_Bytes p).
Definition toRPCEndpoint (p : Peer) : rpcEndpoint := mkEndpoint (addr_IP (p_Addr p)) (uint16 (addr_Port (p_Addr p))) (p_TCP p).
Definition toPeer (r : rpcNode) : outcome Peer := newPeer (EncodeToHex (n_ID r)) (mkAddr (n_IP r) (n_UDP r)) (n_TCP r).

Section Codecs.
Context `{FastRLP}.

Definition rpcEndpoint_UnmarshalRLP (v : Value) : outcome rpcEndpoint :=
  elems ← of_option rlp_error (GetElems v);
  e0 ← idx elems 0; ip ← of_option rlp_error (GetBytes e0 None);
  e1 ← idx elems 1; udp ← of_option rlp_error (GetUint64 e1);
  e2 ← idx elems 2; tcp ← of_option rlp_error (GetUint64 e2);
  Ok (mkEndpoint ip (uint16 udp) (uint16 tcp)).

Definition rpcEndpoint_MarshalRLP (r : rpcEndpoint) : Value :=
  NewArray [NewBytes (ep_IP r); NewUint (ep_UDP r); NewUint (ep_TCP r)].

Definition rpcNode_UnmarshalRLP (v : Value) : outcome rpcNode :=
  elems ← of_option rlp_error (GetElems v);
  e0 ← idx elems 0; ip ← of_option "failed to decode ip" (GetBytes e0 None);
  e1 ← idx elems 1; udp ← of_option rlp_error (GetUint64 e1);
  e2 ← idx elems 2; tcp ← of_option rlp_error (GetUint64 e2);
  e3 ← idx elems 3; id ← of_option rlp_error (GetBytes e3 None);
  Ok (mkNode ip (uint16 udp) (uint16 tcp) id).

Definition rpcNode_MarshalRLP (r : rpcNode) : Value :=
  NewArray [NewBytes (n_IP r); NewUint (n_UDP r); NewUint (n_TCP r); NewBytes (n_ID r)].

Definition ping_UnmarshalRLP (v : Value) : outcome pingRequest :=
  elems ← of_option rlp_error (GetElems v);
  if (length elems <? 4)%nat then Err "bad" else
  e0 ← idx elems 0; version ← of_option rlp_error (GetUint64 e0);
  e1 ← idx elems 1; from ← rpcEndpoint_UnmarshalRLP e1;
  e2 ← idx elems 2; to ← rpcEndpoint_UnmarshalRLP e2;
  e3 ← idx elems 3; expiration ← of_option rlp_error (GetUint64 e3);
  Ok (mkPing version from to expiration).

Definition ping_value (p : pingRequest) : Value :=
  NewArray [NewUint (ping_Version p); rpcEndpoint_MarshalRLP (ping_From p); rpcEndpoint_MarshalRLP (ping_To p);
            NewUint (ping_Expiration p)].
Definition ping_MarshalRLP (p : pingRequest) (dst : bytes) : bytes := dst ++ MarshalTo (ping_value p).

Definition pong_MarshalRLP (p : pongResponse) (dst : bytes) : bytes :=
  dst ++ MarshalTo (NewArray [rpcEndpoint_MarshalRLP (pong_To p); NewBytes (pong_ReplyTok p); NewUint (pong_Expiration p)]).

Definition findNode_UnmarshalRLP (v : Value) : outcome findNodeRequest :=
  elems ← of_option rlp_error (GetElems v);
  if (length elems <? 2)%nat then Err "bad" else
  e0 ← idx elems 0; target ← of_option rlp_error (GetBytes e0 None);
  e1 ← idx elems 1; expiration ← of_option rlp_error (GetUint64 e1);
  Ok (mkFind target expiration).

Definition findNode_value (f : findNodeRequest) : Value := NewArray [NewBytes (find_Target f); NewUint (find_Expiration f)].
Definition findNode_MarshalRLP (f : findNodeRequest) (dst : bytes) : bytes := dst ++ MarshalTo (findNode_value f).

Definition neighbors_UnmarshalRLP (v : Value) : outcome neighborsResponse :=
  elems ← of_option rlp_error (GetElems v);
  if (length elems <? 2)%nat then Err "bad" else
  e0 ← idx elems 0; nodes ← of_option rlp_error (GetElems e0);
  nodes ← mapO rpcNode_UnmarshalRLP nodes;
  e1 ← idx elems 1; expiration ← of_option rlp_error (GetUint64 e1);
  Ok (mkNeighbors nodes expiration).

Definition neighbors_value (n : neighborsResponse) : Value :=
  NewArray [NewArray (rpcNode_MarshalRLP <$> nb_Nodes n); NewUint (nb_Expiration n)].
Definition neighbors_MarshalRLP (n : neighborsResponse) (dst : bytes) : bytes := dst ++ MarshalTo (neighbors_value n).

(** *** Round trips *)

Definition endpoint_ok (r : rpcEndpoint) : Prop := bytes_ok (ep_IP r) /\ u16_ok (ep_UDP r) /\ u16_ok (ep_TCP r).
Definition node_ok (r : rpcNode) : Prop := bytes_ok (n_IP r) /\ u16_ok (n_UDP r) /\ u16_ok (n_TCP r) /\ bytes_ok (n_ID r).

Lemma u16_u64 x : u16_ok x -> u64_ok x.
Proof. unfold u16_ok, u64_ok. lia. Qed.

Lemma uint16_id x : u16_ok x -> uint16 x = x.
Proof. intros Hx. apply Z.mod_small. exact Hx. Qed.

Lemma endpoint_roundtrip r : endpoint_ok r -> valid (rpcEndpoint_MarshalRLP r) /\
  rpcEndpoint_UnmarshalRLP (rpcEndpoint_MarshalRLP r) = Ok r.
Proof.
  intros (Hi & Hu & Ht). pose proof (u16_u64 _ Hu). pose proof (u16_u64 _ Ht).
  split; [apply valid_array; repeat constructor; auto with devp2p|].
  unfold rpcEndpoint_UnmarshalRLP, rpcEndpoint_MarshalRLP. rewrite GetElems_array. cbn [of_option mbind outcome_bind idx lookup list_lookup].
  rewrite GetBytes_bytes. cbn [of_option mbind outcome_bind]. rewrite !GetUint64_uint by done. cbn [of_option mbind outcome_bind].
  rewrite !uint16_id by done. by destruct r.
Qed.

Lemma node_roundtrip r : node_ok r -> valid (rpcNode_MarshalRLP r) /\ rpcNode_UnmarshalRLP (rpcNode_MarshalRLP r) = Ok r.
Proof.
  intros (Hi & Hu & Ht & Hb). pose proof (u16_u64 _ Hu). pose proof (u16_u64 _ Ht).
  split; [apply valid_array; repeat constructor; auto with devp2p|].
  unfold rpcNode_UnmarshalRLP, rpcNode_MarshalRLP. rewrite GetElems_array. cbn [of_option mbind outcome_bind idx lookup list_lookup].
  rewrite !GetBytes_bytes. cbn [of_option mbind outcome_bind]. rewrite !GetUint64_uint by done. cbn [of_option mbind outcome_bind].
  rewrite !uint16_id by done. by destruct r.
Qed.

Lemma ping_roundtrip p : u64_ok (ping_Version p) -> u64_ok (ping_Expiration p) -> endpoint_ok (ping_From p) -> endpoint_ok (ping_To p) ->
  valid (ping_value p) /\ ping_UnmarshalRLP (ping_value p) = Ok p.
Proof.
  intros Hv He Hf Ht. destruct (endpoint_roundtrip _ Hf) as [Vf Ef]. destruct (endpoint_roundtrip _ Ht) as [Vt Et].
  split; [apply valid_array; repeat constructor; auto with devp2p|].
  unfold ping_UnmarshalRLP, ping_value. rewrite GetElems_array. cbn [of_option mbind outcome_bind idx lookup list_lookup length Nat.ltb Nat.leb].
  rewrite !GetUint64_uint by done. cbn [of_option mbind outcome_bind]. rewrite Ef. cbn [mbind outcome_bind]. rewrite Et.
  cbn [of_option mbind outcome_bind]. by destruct p.
Qed.

Lemma findNode_roundtrip f : bytes_ok (find_Target f) -> u64_ok (find_Expiration f) ->
  valid (findNode_value f) /\ findNode_UnmarshalRLP (findNode_value f) = Ok f.
Proof.
  intros Hb He. split; [apply valid_array; repeat constructor; auto with devp2p|].
  unfold findNode_UnmarshalRLP, findNode_value. rewrite GetElems_array. cbn [of_option mbind outcome_bind idx lookup list_lookup length Nat.ltb Nat.leb].
  rewrite GetBytes_bytes. cbn [of_option mbind outcome_bind]. rewrite GetUint64_uint by done. by destruct f.
Qed.

Lemma neighbors_roundtrip n : Forall node_ok (nb_Nodes n) -> u64_ok (nb_Expiration n) ->
  valid (neighbors_value n) /\ neighbors_UnmarshalRLP (neighbors_value n) = Ok n.
Proof.
  intros Hn He. split.
  - apply valid_array. repeat constructor; auto with devp2p. apply valid_array, Forall_fmap.
    eapply Forall_impl; [exact Hn|]. intros r Hr. by apply node_roundtrip.
  - unfold neighbors_UnmarshalRLP, neighbors_value. rewrite GetElems_array.
    cbn [of_option mbind outcome_bind idx lookup list_lookup length Nat.ltb Nat.leb]. rewrite GetElems_array.
    cbn [of_option mbind outcome_bind]. assert (mapO rpcNode_UnmarshalRLP (rpcNode_MarshalRLP <$> nb_Nodes n) = Ok (nb_Nodes n)) as ->.
    { rewrite mapO_Ok, Forall2_fmap_l. apply Forall_Forall2_diag. eapply Forall_impl; [exact Hn|]. intros r Hr. by apply node_roundtrip. }
    cbn [of_option mbind outcome_bind]. rewrite GetUint64_uint by done. by destruct n.
Qed.

End Codecs.

(** *** Peers and their ids *)

Lemma str_drop_2 s : str_drop 2 ("0x" ++ s) = s.
Proof. done. Qed.

Lemma HasPrefix_0x s : HasPrefix ("0x" ++ s) "0x" = true.
Proof. unfold HasPrefix. simpl. by destruct s. Qed.

(** The peer of a 64-byte id: the id in hexadecimal, without prefix. *)
Lemma newPeer_hex b addr tcp : bytes_ok b -> length b = 64%nat ->
  newPeer (EncodeToHex b) addr tcp = Ok (mkPeer (hex_EncodeToString b) b addr None tcp).
Proof.
  intros Hb Hl. unfold newPeer, EncodeToHex. rewrite HasPrefix_0x, str_drop_2, length_hex, Hl. cbn [Nat.mul Nat.add Nat.eqb negb].
  unfold DecodeHex. rewrite HasPrefix_0x, str_drop_2, hex_roundtrip by done. done.
Qed.

(** ** Packets: a hash, a signature, a code and a message *)

Definition macSize : nat := 32.
Definition sigSize : nat := 65.
Definition headSize : nat := macSize + sigSize.

Section Packets.
Context `{Keccak} `{Curve}.

(** [copy(packet[n:], src)] *)
Definition copy_into (packet : bytes) (n : nat) (src : bytes) : bytes := take n packet ++ copy (drop n packet) src.

(** The message is given by its encoder. *)
Definition encodePacket (key : PrivateKey) (code : Z) (MarshalRLP : bytes -> bytes) : outcome bytes :=
  let packet := replicate headSize 0 in
  let packet := packet ++ [code] in
  let packet := MarshalRLP packet in
  sig ← Sign key (Keccak256 [drop headSize packet]);
  let packet := copy_into packet macSize sig in
  let hash := Keccak256 [drop macSize packet] in
  Ok (copy packet hash).

Definition decodePacket (payload : bytes) : outcome (bytes * bytes * bytes) :=
  if (length payload <? headSize + 1)%nat then
    Err ("Payload size " ++ fmt_d (Z.of_nat (length payload)) ++ " exceeds heapSize limits " ++ fmt_d (Z.of_nat (headSize + 1)))%string else
  let mac := take macSize payload in
  let sig := take sigSize (drop macSize payload) in
  let sigdata := drop headSize payload in
  if negb (bytes_equal mac (Keccak256 [drop macSize payload])) then Err "macs do not match" else
  pubkey ← RecoverPubkey sig (Keccak256 [sigdata]);
  Ok (mac, sigdata, MarshallPublicKey pubkey).

Lemma Keccak256_len v : length (Keccak256 v) = 32%nat.
Proof. apply keccak_length. Qed.

(** The bytes of a packet: hash, signature, code and message. *)
Lemma encodePacket_eq key code msg : exists sig, length sig = 65%nat /\ bytes_ok sig /\
  RecoverPubkey sig (Keccak256 [code :: msg]) = Ok (pub_of key) /\
  encodePacket key code (fun dst => dst ++ msg) = Ok (Keccak256 [sig ++ code :: msg] ++ sig ++ code :: msg).
Proof.
  destruct (Sign_RecoverPubkey key (Keccak256 [code :: msg])) as (sig & Hs & Hl & Hb & Hr); [apply Keccak256_len|].
  exists sig. split_and!; [done..|]. unfold encodePacket. rewrite <-app_assoc. cbn [app].
  assert (drop headSize (replicate headSize 0 ++ code :: msg) = code :: msg) as -> by (apply drop_app_length'; by rewrite length_replicate).
  rewrite Hs. cbn [mbind outcome_bind].
  assert (copy_into (replicate headSize 0 ++ code :: msg) macSize sig = replicate macSize 0 ++ sig ++ code :: msg) as ->.
  { unfold copy_into. change (replicate headSize 0) with (replicate macSize 0 ++ replicate sigSize 0). rewrite <-!app_assoc.
    rewrite (take_app_length' (replicate macSize 0)), (drop_app_length' (replicate macSize 0)) by (by rewrite length_replicate).
    rewrite copy_app by (by rewrite length_replicate). done. }
  assert (drop macSize (replicate macSize 0 ++ sig ++ code :: msg) = sig ++ code :: msg) as -> by (apply drop_app_length'; by rewrite length_replicate).
  rewrite copy_app by (by rewrite length_replicate, Keccak256_len). done.
Qed.

Lemma decode_encode key code msg packet : encodePacket key code (fun dst => dst ++ msg) = Ok packet ->
  exists mac, decodePacket packet = Ok (mac, code :: msg, MarshallPublicKey (pub_of key)) /\ mac = take 32 packet.
Proof.
  destruct (encodePacket_eq key code msg) as (sig & Hl & _ & Hr & ->). intros [= <-].
  set (mac := Keccak256 [sig ++ code :: msg]). assert (length mac = 32%nat) as Hm by apply Keccak256_len.
  assert (length (mac ++ sig ++ code :: msg) = 98 + length msg)%nat as Hlen by (rewrite !length_app; simpl; lia).
  unfold decodePacket. rewrite Hlen. change (headSize + 1)%nat with 98%nat. rewrite (proj2 (Nat.ltb_ge _ _)) by lia.
  unfold macSize, sigSize. rewrite (take_app_length' mac), (drop_app_length' mac) by (by rewrite Hm).
  rewrite (take_app_length' sig) by (by rewrite Hl). change headSize with (32 + 65)%nat. rewrite <-drop_drop.
  rewrite (drop_app_length' mac), (drop_app_length' sig) by (by rewrite Hm || by rewrite Hl).
  fold mac. unfold bytes_equal. rewrite bool_decide_eq_true_2 by done. cbn [negb]. rewrite Hr. by exists mac.
Qed.

(** Only a packet whose hash covers the rest and whose signature covers the message is decoded. *)
Lemma decodePacket_sound payload mac sigdata pub : decodePacket payload = Ok (mac, sigdata, pub) ->
  exists sig p, payload = mac ++ sig ++ sigdata /\ length mac = 32%nat /\ length sig = 65%nat /\ sigdata ≠ [] /\
    mac = Keccak256 [sig ++ sigdata] /\ RecoverPubkey sig (Keccak256 [sigdata]) = Ok p /\ pub = MarshallPublicKey p.
Proof.
  unfold decodePacket. destruct (Nat.ltb_spec (length payload) (headSize + 1)) as [|Hlen]; [done|].
  destruct (bytes_equal _ _) eqn:E; [|done]. cbn [negb]. unfold bytes_equal in E. apply bool_decide_eq_true_1 in E.
  destruct (RecoverPubkey _ _) as [p| | |] eqn:Er; try done. cbn [mbind outcome_bind]. intros [= <- <- <-].
  change (headSize + 1)%nat with 98%nat in Hlen. change (drop headSize payload) with (drop (32 + 65) payload) in *.
  unfold macSize, sigSize in *. exists (take 65 (drop 32 payload)), p.
  assert (take 65 (drop 32 payload) ++ drop (32 + 65) payload = drop 32 payload) as Hs.
  { rewrite <-drop_drop. apply take_drop. }
  split_and!.
  - rewrite Hs. by rewrite take_drop.
  - rewrite length_take. lia.
  - rewrite length_take, length_drop. lia.
  - intros Hn. apply (f_equal length) in Hn. rewrite length_drop in Hn. simpl in Hn. lia.
  - by rewrite Hs.
  - done.
  - done.
Qed.

End Packets.
