(* ===== verification/Discv4.v ===== *)
(** * Discovery: the backend

    The stateful half of [discovery/discv4.go].  A [Backend] is its routing table, the nodes it has
    heard of, the response handlers and what it has put into its channels and on the wire.  The code
    runs in many goroutines; every definition here is a piece of one of them that runs under a lock
    or touches the state once.  A response handler sends on an unbuffered channel and gives up if
    nobody is receiving at that moment, so the set of channels with a blocked receiver is part of the
    state.  Times are in nanoseconds; [now] is the value of [time.Now()]. *)

From stdpp Require Import base gmap strings numbers list.
From S2P Require Import Prelude GoStd Rlp Crypto RlpxMsg KadBucket KadTable KadTheorems Discv4Msg.
Local Open Scope Z_scope.

Definition bucketSize : Z := 16.
Definition second : Z := 1000000000.
Definition bondExpiration : Z := 24 * 3600 * second.
Definition maxNeighbors : nat := 6.
Definition alpha : nat := 3.

Definition pingPacket : Z := 1.
Definition pongPacket : Z := 2.
Definition findnodePacket : Z := 3.
Definition neighborsPacket : Z := 4.

Record respMessage := mkRespMsg { resp_Complete : bool; resp_Payload : bytes; resp_Timestamp : option Z }.

(** [fmt.Sprintf("%s_%v", id, code)] *)
Definition handler_key (id : string) (code : Z) : string := id ++ "_" ++ fmt_d code.

(** [int64(x)]: two's complement. *)
Definition int64 (x : Z) : Z := (x + 2 ^ 63) mod 2 ^ 64 - 2 ^ 63.

(** A [time.Time] counts seconds from the year 1 in an [int64], which wraps around. *)
Definition unixToInternal : Z := 62135596800.

(** [time.Unix(int64(ts), 0).Before(time.Now())] *)
Definition hasExpired (ts now : Z) : bool :=
  int64 (int64 ts + unixToInternal) * second <? now + unixToInternal * second.

(** [uint64(time.Now().Add(d).Unix())] *)
Definition unix_in (now d : Z) : Z := uint64 ((now + d) / second).

Record Packet := mkPacket { pkt_Buf : bytes; pkt_From : option UDPAddr; pkt_Timestamp : Z }.

Section Backend.
Context `{Keccak} `{Curve} `{FastRLP} `{GoSort}.

Record Backend := mkBackend {
  b_ID : PrivateKey;
  b_handlers : gmap string nat;            (* the channel each handler sends to *)
  b_waiting : gset nat;                    (* channels a goroutine is blocked on *)
  b_acks : list (nat * respMessage);       (* what has been received from them *)
  b_nextch : nat;
  b_timers : list (string * Z * nat);      (* the timers of setHandler that have not fired *)
  b_table : RoutingTable;
  b_nodes : gmap string Peer;
  b_local : Peer;
  b_events : list string;                  (* eventCh, of capacity 10 *)
  b_tasks : list Peer;                     (* tasks, of capacity 100 *)
  b_up : bool;                             (* the transport accepts packets *)
  b_sent : list (UDPAddr * bytes);
}.

(** Keccak as the hash of the table. *)
Definition table_hash : KadTable.hash_Hash := mkHash keccak 32 keccak_length keccak_ok.

Definition NewBackend (key : PrivateKey) (addr : UDPAddr) : outcome Backend :=
  let id := EncodeToHex (drop 1 (elliptic_Marshal (pub_of key))) in
  localPeer ← newPeer id addr 0;
  Ok (mkBackend key ∅ ∅ [] 0 [] (NewRoutingTable table_hash bucketSize (p_ID localPeer) (1000 * second) (Some table_hash))
        ∅ localPeer [] [] true []).

Definition set_nodes (b : Backend) (t : RoutingTable) (n : gmap string Peer) : Backend :=
  mkBackend (b_ID b) (b_handlers b) (b_waiting b) (b_acks b) (b_nextch b) (b_timers b) t n (b_local b) (b_events b) (b_tasks b) (b_up b) (b_sent b).
Definition set_handlers (b : Backend) (h : gmap string nat) (w : gset nat) (a : list (nat * respMessage)) (n : nat) : Backend :=
  mkBackend (b_ID b) h w a n (b_timers b) (b_table b) (b_nodes b) (b_local b) (b_events b) (b_tasks b) (b_up b) (b_sent b).
Definition set_queues (b : Backend) (e : list string) (t : list Peer) (s : list (UDPAddr * bytes)) : Backend :=
  mkBackend (b_ID b) (b_handlers b) (b_waiting b) (b_acks b) (b_nextch b) (b_timers b) (b_table b) (b_nodes b) (b_local b) e t (b_up b) s.
Definition set_timers (b : Backend) (tm : list (string * Z * nat)) : Backend :=
  mkBackend (b_ID b) (b_handlers b) (b_waiting b) (b_acks b) (b_nextch b) tm (b_table b) (b_nodes b) (b_local b) (b_events b) (b_tasks b) (b_up b) (b_sent b).

(** [select { case b.tasks <- peer: default: }] *)
Definition sendTask (b : Backend) (peer : Peer) : Backend :=
  if (length (b_tasks b) <? 100)%nat then set_queues b (b_events b) (b_tasks b ++ [peer]) (b_sent b) else b.

Definition getPeer (b : Backend) (id : string) : option Peer := b_nodes b !! id.

(** The error of [table.Update] is dropped. *)
Definition updatePeer (b : Backend) (peer : Peer) : outcome Backend :=
  '(t, _, _) ← Update (b_table b) (p_ID peer);
  Ok (set_nodes b t
    match b_nodes b !! p_ID peer with
    | Some p =>
        <[p_ID peer := mkPeer (p_ID p) (p_Bytes p) (p_Addr p)
                         (match p_Last peer with Some l => Some l | None => p_Last p end) (p_TCP peer)]> (b_nodes b)
    | None => <[p_ID peer := peer]> (b_nodes b)
    end).

Definition Backend_hasExpired (b : Backend) (p : Peer) : bool :=
  match p_Last p with
  | None => true
  | Some receivedTime =>
      match b_nodes b !! p_ID p with
      | None => true
      | Some p => Peer_hasExpired p receivedTime bondExpiration
      end
  end.

(** A message is given by its encoder; the second component is the error. *)
Definition sendPacket (b : Backend) (peer : Peer) (code : Z) (MarshalRLP : bytes -> bytes) : outcome (Backend * option string) :=
  match encodePacket (b_ID b) code MarshalRLP with
  | Ok data =>
      if b_up b then Ok (set_queues b (b_events b) (b_tasks b) (b_sent b ++ [(p_Addr peer, data)]), None)
      else Ok (b, Some ("write")%string)
  | Err e => Ok (b, Some e)
  | Panic => Panic
  | NoFuel => NoFuel
  end.

(** ** Handlers *)

(** A send on an unbuffered channel in a [select] with a default. *)
Definition ack_send (b : Backend) (ch : nat) (m : respMessage) : Backend :=
  if bool_decide (ch ∈ b_waiting b)
  then set_handlers b (b_handlers b) (b_waiting b ∖ {[ch]}) (b_acks b ++ [(ch, m)]) (b_nextch b) else b.

(** A new channel, the handler that sends to it, and its timer. *)
Definition setHandler (b : Backend) (id : string) (code : Z) : Backend * nat :=
  let ch := b_nextch b in
  let b := set_handlers b (<[handler_key id code := ch]> (b_handlers b)) (b_waiting b) (b_acks b) (S ch) in
  (set_timers b (b_timers b ++ [(id, code, ch)]), ch).

(** The timer of [setHandler] fires: whatever handler the key has now is deleted. *)
Definition handler_timeout (b : Backend) (id : string) (code : Z) (ch : nat) : Backend :=
  let b := set_timers b (filter (fun t => t.2 ≠ ch) (b_timers b)) in
  let b := set_handlers b (delete (handler_key id code) (b_handlers b)) (b_waiting b) (b_acks b) (b_nextch b) in
  ack_send b ch (mkRespMsg false [] None).

(** A goroutine receives from the channel: [resp := <-ack]. *)
Definition ack_wait (b : Backend) (ch : nat) : Backend :=
  set_handlers b (b_handlers b) ({[ch]} ∪ b_waiting b) (b_acks b) (b_nextch b).

(** The receive returns. *)
Definition ack_take (b : Backend) (i : nat) : Backend :=
  set_handlers b (b_handlers b) (b_waiting b) (delete i (b_acks b)) (b_nextch b).

Definition getCallback (b : Backend) (id : string) (code : Z) : option nat := b_handlers b !! handler_key id code.

(** ** Queries *)

Fixpoint get_peers (b : Backend) (ids : list string) : outcome (list Peer) :=
  match ids with
  | [] => Ok []
  | p :: ids =>
      match getPeer b p with
      | None => Err ("peer " ++ p ++ " not found")
      | Some peer => peers ← get_peers b ids; Ok (peer :: peers)
      end
  end.

Definition NearestPeersFromTarget (b : Backend) (target : bytes) : outcome (list Peer) :=
  ids ← NearestPeers (b_table b) (EncodeToHex target) bucketSize;
  get_peers b ids.

(** ** Incoming packets *)

Definition handlePingPacket (b : Backend) (now : Z) (payload mac : bytes) (peer : Peer) : outcome (Backend * option string) :=
  match Parse payload with
  | None => Panic
  | Some v =>
      match ping_UnmarshalRLP v with
      | Ok req =>
          if hasExpired (ping_Expiration req) now then Ok (b, Some ("ping: Message has expired")%string) else
          let reply := mkPong (toRPCEndpoint peer) mac (unix_in now (20 * second)) in
          '(b, _) ← sendPacket b peer pongPacket (pong_MarshalRLP reply);
          if Backend_hasExpired b peer then Ok (sendTask b peer, None)
          else b ← updatePeer b peer; Ok (b, None)
      | _ => Panic
      end
  end.

(** [for i := 0; i < len(peers); i += maxNeighbors]: at most one round per peer. *)
Fixpoint send_neighbors (fuel : nat) (b : Backend) (peer : Peer) (peers : list Peer) : outcome (Backend * option string) :=
  match peers, fuel with
  | [], _ => Ok (b, None)
  | _, O => NoFuel
  | _, S k =>
      let nodes := toRPCNode <$> take maxNeighbors peers in
      '(b, e) ← sendPacket b peer neighborsPacket (neighbors_MarshalRLP (mkNeighbors nodes 0));
      match e with
      | Some e => Ok (b, Some e)
      | None => send_neighbors k b peer (drop maxNeighbors peers)
      end
  end.

Definition handleFindNodePacket (b : Backend) (payload : bytes) (peer : Peer) : outcome (Backend * option string) :=
  if Backend_hasExpired b peer then Ok (b, None) else
  match Parse payload with
  | None => Panic
  | Some v =>
      match findNode_UnmarshalRLP v with
      | Ok req =>
          match NearestPeersFromTarget b (find_Target req) with
          | Ok peers => send_neighbors (length peers) b peer peers
          | Err e => Ok (b, Some e)
          | Panic => Panic
          | NoFuel => NoFuel
          end
      | _ => Panic
      end
  end.

(** The code and payload of a decoded packet from [peer]; the text of the pong's error ends with
    the address and the id of the peer. *)
Definition dispatch_packet (b : Backend) (now : Z) (msgcode : Z) (payload mac : bytes) (peer : Peer) : outcome (Backend * option string) :=
  if msgcode =? pingPacket then handlePingPacket b now payload mac peer
  else if msgcode =? findnodePacket then handleFindNodePacket b payload peer
  else if msgcode =? neighborsPacket then Ok (b, Some ("neighborsPacket not expected")%string)
  else if msgcode =? pongPacket then Ok (b, Some ("pongPacket not expected")%string)
  else Ok (b, Some ("message code " ++ fmt_d msgcode ++ " not found")%string).

Definition HandlePacket (b : Backend) (now : Z) (packet : Packet) : outcome (Backend * option string) :=
  match decodePacket (pkt_Buf packet) with
  | Ok (mac, sigdata, pubkey) =>
      match pkt_From packet with
      | None => Ok (b, Some ("expected udp addr")%string)
      | Some addr =>
          match newPeer (EncodeToHex (drop 1 pubkey)) addr 0 with
          | Ok peer =>
              let peer := mkPeer (p_ID peer) (p_Bytes peer) (p_Addr peer) (Some (pkt_Timestamp packet)) (p_TCP peer) in
              msgcode ← idx sigdata 0;
              let payload := drop 1 sigdata in
              match getCallback b (p_ID peer) msgcode with
              | Some ch =>
                  let b := ack_send b ch (mkRespMsg true payload (Some (pkt_Timestamp packet))) in
                  if negb (msgcode =? pingPacket) then Ok (b, None) else dispatch_packet b now msgcode payload mac peer
              | None => dispatch_packet b now msgcode payload mac peer
              end
          | Err e => Ok (b, Some e)
          | Panic => Panic
          | NoFuel => NoFuel
          end
      end
  | Err e => Ok (b, Some e)
  | Panic => Panic
  | NoFuel => NoFuel
  end.

(** ** Probing *)

(** [probeNode] sends the ping, after the handler is set and before it receives. *)
Definition probe_send (b : Backend) (now : Z) (peer : Peer) : outcome Backend :=
  '(b, _) ← sendPacket b peer pingPacket
     (ping_MarshalRLP (mkPing 4 (toRPCEndpoint (b_local b)) (toRPCEndpoint peer) (unix_in now (10 * second))));
  Ok b.

(** [probeNode] after the receive. *)
Definition probe_finish (ip_String : bytes -> string) (b : Backend) (peer : Peer) (resp : respMessage) : outcome (Backend * bool) :=
  if resp_Complete resp then
    let peer := mkPeer (p_ID peer) (p_Bytes peer) (p_Addr peer) (resp_Timestamp resp) (p_TCP peer) in
    b ← updatePeer b peer;
    let events := if (length (b_events b) <? 10)%nat then b_events b ++ [Enode ip_String peer] else b_events b in
    Ok (set_queues b events (b_tasks b) (b_sent b), true)
  else Ok (b, false).

(** [AddNode] after the URL was parsed: the peer to probe. *)
Definition AddNode_peer (id : bytes) (ip : bytes) (udp tcp : Z) : outcome Peer :=
  newPeer (EncodeToHex id) (mkAddr ip udp) tcp.

(** The peer [revalidatePeer] probes: the last of the first bucket, in the given order, that has any. *)
Fixpoint revalidate_id (t : RoutingTable) (perm : list nat) : outcome string :=
  match perm with
  | [] => Ok EmptyString
  | i :: perm =>
      bucket ← idx (Buckets t) i;
      if negb (Len bucket =? 0)%nat then idx (Peers bucket) (Len bucket - 1) else revalidate_id t perm
  end.

Definition revalidatePeer (b : Backend) (perm : list nat) : outcome (option Peer) :=
  id ← revalidate_id (b_table b) perm; Ok (getPeer b id).

(** ** findNodes, once the peer is bonded *)

(** The request asks for the neighbours of the local node, whatever the target of the lookup. *)
Definition find_send (b : Backend) (now : Z) (peer : Peer) : outcome Backend :=
  '(b, _) ← sendPacket b peer findnodePacket
     (findNode_MarshalRLP (mkFind (p_Bytes (b_local b)) (unix_in now (20 * second))));
  Ok b.

(** One turn of the receive loop: the peers so far, and whether the loop goes on. *)
Definition find_resp (peers : list Peer) (resp : respMessage) : outcome (list Peer * bool) :=
  if resp_Complete resp then
    match Parse (resp_Payload resp) with
    | None => Panic
    | Some v =>
        match neighbors_UnmarshalRLP v with
        | Ok neighbors =>
            new ← mapO toPeer (nb_Nodes neighbors);
            let peers := peers ++ new in
            Ok (peers, negb (Z.of_nat (length peers) =? bucketSize))
        | _ => Panic
        end
    end
  else Ok (peers, false).

Definition find_finish (b : Backend) (peers : list Peer) (atLeastOne : bool) : outcome (Backend * list Peer) :=
  if negb atLeastOne then Err "failed to get peers" else Ok (foldl sendTask b peers, peers).

(** *** The goroutine of findNodes or probeNode

    A goroutine sets a handler, sends its packet if it has one, and receives; between two of these
    anything may happen, so each is a piece of its own.  A [start] is a goroutine about to set a
    handler, a [job] says what it waits for afterwards.  A probe is either the whole task or the
    first step of [findNodes]. *)
Inductive start :=
| SProbe (peer : Peer) (then_find : bool)
| SPing (peer : Peer)                                             (* the ping back *)
| SFind (peer : Peer).

Inductive job :=
| JProbe (peer : Peer) (then_find : bool)
| JPing (peer : Peer)
| JFind (peer : Peer) (peers : list Peer) (atLeastOne : bool).    (* the receive loop *)

(** A goroutine that holds its channel: about to send its packet, or about to receive. *)
Inductive pc := PSend (j : job) | PRecv (j : job).

Inductive next :=
| NStart (st : start)                       (* goes on to set another handler *)
| NAgain (j : job)                          (* about to receive from the same channel *)
| NDone (r : outcome (list Peer)).          (* returned *)

(** [findNodes] begins by asking whether the peer is bonded. *)
Definition findNodes_start (b : Backend) (peer : Peer) : start :=
  if Backend_hasExpired b peer then SProbe peer true else SFind peer.

(** The handler is set; nothing is sent before the wait for the ping back. *)
Definition start_handler (b : Backend) (st : start) : Backend * nat * pc :=
  match st with
  | SProbe peer then_find => let '(b, ch) := setHandler b (p_ID peer) pongPacket in (b, ch, PSend (JProbe peer then_find))
  | SPing peer => let '(b, ch) := setHandler b (p_ID peer) pingPacket in (b, ch, PRecv (JPing peer))
  | SFind peer => let '(b, ch) := setHandler b (p_ID peer) neighborsPacket in (b, ch, PSend (JFind peer [] false))
  end.

Definition job_send (b : Backend) (now : Z) (j : job) : outcome Backend :=
  match j with
  | JProbe peer _ => probe_send b now peer
  | JPing _ => Ok b
  | JFind peer _ _ => find_send b now peer
  end.

(** What happens when the receive returns [resp]. *)
Definition job_resp (ip_String : bytes -> string) (b : Backend) (j : job) (resp : respMessage) : outcome (Backend * next) :=
  match j with
  | JProbe peer then_find =>
      '(b, ok) ← probe_finish ip_String b peer resp;
      if negb then_find then Ok (b, NDone (Ok [])) else
      if negb ok then Ok (b, NDone (Err "failed to probe node")) else Ok (b, NStart (SPing peer))
  | JPing peer =>
      if negb (resp_Complete resp) then Ok (b, NDone (Err "We have not received probe back from other peer"))
      else Ok (b, NStart (SFind peer))
  | JFind peer peers atLeastOne =>
      match find_resp peers resp with
      | Ok (peers, more) =>
          let atLeastOne := atLeastOne || resp_Complete resp in
          if more : bool then Ok (b, NAgain (JFind peer peers atLeastOne)) else
          match find_finish b peers atLeastOne with
          | Ok (b, peers) => Ok (b, NDone (Ok peers))
          | Err e => Ok (b, NDone (Err e))
          | Panic => Panic
          | NoFuel => NoFuel
          end
      | Err e => Ok (b, NDone (Err e))
      | Panic => Panic
      | NoFuel => NoFuel
      end
  end.

(** ** LookupTarget *)

(** The queue, the peers being asked, the ids seen in replies, and the peers asked so far. *)
Record lookupState := mkLookup { lk_queue : list Peer; lk_pending : list Peer; lk_visited : gset string; lk_asked : list Peer }.

Definition lookup_findNodes (l : lookupState) (p : Peer) (queue : list Peer) : lookupState :=
  mkLookup queue (lk_pending l ++ [p]) (lk_visited l) (lk_asked l ++ [p]).

(** [for i := 0; i < min(len(queue), alpha); i++]: the queue shrinks as [i] grows. *)
Fixpoint lookup_seed (fuel i : nat) (l : lookupState) : lookupState :=
  match fuel, lk_queue l with
  | S k, p :: queue => if (i <? Nat.min (S (length queue)) alpha)%nat then lookup_seed k (S i) (lookup_findNodes l p queue) else l
  | _, _ => l
  end.

(** [for pending < alpha && len(queue) != 0] *)
Fixpoint lookup_fill (queue : list Peer) (l : lookupState) : lookupState :=
  match queue with
  | [] => mkLookup [] (lk_pending l) (lk_visited l) (lk_asked l)
  | p :: queue =>
      if (length (lk_pending l) <? alpha)%nat then lookup_fill queue (lookup_findNodes l p queue)
      else mkLookup (p :: queue) (lk_pending l) (lk_visited l) (lk_asked l)
  end.

Fixpoint lookup_visit (nodes : list Peer) (queue : list Peer) (visited : gset string) : list Peer * gset string :=
  match nodes with
  | [] => (queue, visited)
  | p :: nodes =>
      if bool_decide (p_ID p ∈ visited) then lookup_visit nodes queue visited
      else lookup_visit nodes (queue ++ [p]) ({[p_ID p]} ∪ visited)
  end.

(** The reply of the [i]-th peer being asked arrives. *)
Definition lookup_reply (l : lookupState) (i : nat) (nodes : list Peer) : lookupState :=
  let '(queue, visited) := lookup_visit nodes (lk_queue l) (lk_visited l) in
  lookup_fill queue (mkLookup queue (delete i (lk_pending l)) visited (lk_asked l)).

Definition lookup_start (b : Backend) (active : bool) (target : bytes) : outcome (option lookupState) :=
  if negb active then Ok None else
  queue ← NearestPeersFromTarget b target;
  Ok (Some (lookup_seed alpha 0 (mkLookup queue [] ∅ []))).

(** The peers behind the visited ids, in the order of the map. *)
Definition lookup_result (b : Backend) (l : lookupState) : outcome (list Peer) :=
  mapO (fun id => of_option EmptyString (getPeer b id)) (elements (lk_visited l)).

End Backend.
