(* ===== verification/Discv4Theorems.v ===== *)
(** * Theorems about discovery

    Packets are authentic and round-trip; the nodes known to a backend always include the routing
    table, so queries never fail; requests are answered completely, within the size of a packet, and
    only to bonded peers; a probe bonds two nodes.  Malformed requests from the network panic. *)

From stdpp Require Import base gmap strings numbers list.
From S2P Require Import Prelude GoStd Rlp Crypto RlpxMsg KadBucket KadTable KadTheorems Discv4Msg Discv4.
Local Open Scope Z_scope.

Section Invariant.
Context `{Keccak} `{Curve} `{FastRLP} `{GoSort}.

(** An address whose IP has at most [n] bytes.  The addresses in neighbours messages are not checked, so
    an IP need not have the 4 or 16 bytes it should. *)
Definition addr_within (n : nat) (a : UDPAddr) : Prop := bytes_ok (addr_IP a) /\ (length (addr_IP a) <= n)%nat /\ u16_ok (addr_Port a).
Definition addr_ok : UDPAddr -> Prop := addr_within 16.

Definition peer_within (n : nat) (p : Peer) : Prop :=
  bytes_ok (p_Bytes p) /\ length (p_Bytes p) = 64%nat /\ p_ID p = hex_EncodeToString (p_Bytes p) /\ addr_within n (p_Addr p) /\ u16_ok (p_TCP p).
Definition peer_ok : Peer -> Prop := peer_within 16.

(** The invariant of a backend: the table is well formed and names only known nodes, which are
    stored under their ids; the channels keep within their capacity. *)
Record binv (b : Backend) : Prop := {
  bi_table : wf (b_table b);
  bi_size : bucketsize (b_table b) = bucketSize;
  bi_known : forall id, id ∈ ListPeers (b_table b) -> is_Some (b_nodes b !! id);
  bi_nodes : forall id p, b_nodes b !! id = Some p -> p_ID p = id;
  bi_tasks : (length (b_tasks b) <= 100)%nat;
  bi_events : (length (b_events b) <= 10)%nat;
}.

Lemma newPeer_ok id addr tcp : bytes_ok id -> length id = 64%nat -> addr_ok addr -> u16_ok tcp ->
  exists p, newPeer (EncodeToHex id) addr tcp = Ok p /\ peer_ok p /\ p_Bytes p = id /\ p_Addr p = addr /\ p_Last p = None /\ p_TCP p = tcp.
Proof. intros Hb Hl Ha Ht. rewrite newPeer_hex by done. eexists. split; [done|]. by split_and!. Qed.

Lemma key_ok p : bytes_ok (drop 1 (MarshallPublicKey p)) /\ length (drop 1 (MarshallPublicKey p)) = 64%nat.
Proof.
  split; [apply bytes_ok_drop, elliptic_Marshal_ok|]. unfold MarshallPublicKey. by rewrite length_drop, elliptic_Marshal_length.
Qed.

Lemma NewBackend_inv key addr : exists b, NewBackend key addr = Ok b /\ binv b /\ b_nodes b = ∅ /\ b_up b = true /\
  b_ID b = key /\ p_Bytes (b_local b) = drop 1 (MarshallPublicKey (pub_of key)) /\ p_Addr (b_local b) = addr /\ b_handlers b = ∅.
Proof.
  unfold NewBackend. change (elliptic_Marshal (pub_of key)) with (MarshallPublicKey (pub_of key)).
  destruct (key_ok (pub_of key)) as [Hb Hl].
  rewrite newPeer_hex by done. cbn [mbind outcome_bind].
  eexists. split; [done|]. split_and!; try done. split; cbn [b_table b_nodes b_tasks b_events b_local].
  - apply NewRoutingTable_wf. unfold bucketSize. lia.
  - done.
  - intros id Hid. unfold ListPeers in Hid. cbn in Hid. by apply elem_of_nil in Hid.
  - intros id q Hq. by rewrite lookup_empty in Hq.
  - simpl. lia.
  - simpl. lia.
Qed.

(** [updatePeer] never fails, and the peer is known afterwards. *)
Lemma updatePeer_inv b p : binv b -> exists b', updatePeer b p = Ok b' /\ binv b' /\
  is_Some (b_nodes b' !! p_ID p) /\ b_sent b' = b_sent b /\ b_tasks b' = b_tasks b /\ b_handlers b' = b_handlers b /\
  b_waiting b' = b_waiting b /\ b_acks b' = b_acks b /\ b_events b' = b_events b /\ b_ID b' = b_ID b /\ b_up b' = b_up b /\ b_local b' = b_local b.
Proof.
  intros I. unfold updatePeer. destruct (Update_spec (b_table b) (p_ID p) (bi_table _ I)) as ([[t e] ev] & -> & Wt & Hc & Hr & _).
  cbn [mbind outcome_bind fst] in *. eexists. split; [done|]. cbn [set_nodes b_nodes b_sent b_tasks b_handlers b_waiting b_acks b_events b_ID b_up b_local].
  set (n := match b_nodes b !! p_ID p with Some _ => _ | None => _ end).
  assert (forall id, is_Some (n !! id) <-> id = p_ID p \/ is_Some (b_nodes b !! id)) as Hn.
  { intros id. unfold n. destruct (b_nodes b !! p_ID p) as [q|] eqn:E; rewrite lookup_insert_is_Some; destruct (decide (id = p_ID p)) as [->|]; naive_solver. }
  assert (forall id q, n !! id = Some q -> p_ID q = id) as Hok.
  { intros id q. unfold n. destruct (b_nodes b !! p_ID p) as [q0|] eqn:E; rewrite lookup_insert_Some; intros [[<- <-]|[_ Hq]];
      try (by apply (bi_nodes _ I)); [|done].
    exact (bi_nodes _ I _ _ E). }
  split_and!; try done; [|by apply Hn; left]. split; cbn [set_nodes b_table b_nodes b_tasks b_events b_local]; try apply I; try done.
  - rewrite (sc_size _ _ Hc). apply I.
  - intros id Hid. apply Hn. inversion Hr; subst.
    + right. apply (bi_known _ I). match goal with HP : ListPeers _ ≡ₚ _ |- _ => by rewrite <-HP end.
    + match goal with HP : ListPeers _ ≡ₚ _ |- _ => rewrite HP in Hid end. apply elem_of_cons in Hid as [->|Hid]; [by left|right; by apply (bi_known _ I)].
    + right. apply (bi_known _ I). match goal with HP : ListPeers _ ≡ₚ _ |- _ => by rewrite <-HP end.
Qed.

(** Every peer the table names is known. *)
Lemma get_peers_ok b ids : (forall id, id ∈ ids -> is_Some (b_nodes b !! id)) ->
  exists ps, get_peers b ids = Ok ps /\ Forall2 (fun id p => b_nodes b !! id = Some p) ids ps.
Proof.
  induction ids as [|id ids IH]; intros Hk; simpl; [by exists []|]. unfold getPeer.
  destruct (Hk id) as [p Hp]; [by left|]. rewrite Hp. destruct IH as (ps & -> & HF); [intros; apply Hk; by right|].
  cbn [mbind outcome_bind]. eexists. split; [done|]. by constructor.
Qed.

Lemma NearestPeersFromTarget_ok b target : binv b ->
  exists ps, NearestPeersFromTarget b target = Ok ps /\ (length ps <= 16)%nat /\
    Forall (fun p => b_nodes b !! p_ID p = Some p /\ p_ID p ∈ ListPeers (b_table b)) ps /\ NoDup (p_ID <$> ps).
Proof.
  intros I. unfold NearestPeersFromTarget.
  destruct (NearestPeers_sound_aux (b_table b) (EncodeToHex target) bucketSize (bi_table _ I)) as (ids & -> & Hl & Hnd & Hin & _);
    [unfold bucketSize; lia|]. cbn [mbind outcome_bind].
  destruct (get_peers_ok b ids) as (ps & -> & HF); [intros id Hid; by apply (bi_known _ I), Hin|].
  exists ps. pose proof (Forall2_length _ _ _ HF) as Hlen.
  assert (p_ID <$> ps = ids) as Hids.
  { clear -HF I. induction HF as [|id p ids ps Hp HF IH]; [done|]. rewrite fmap_cons, IH. f_equal. by apply (bi_nodes _ I). }
  split_and!; [done|unfold bucketSize in Hl; lia| |rewrite <-Hids in Hnd; exact Hnd].
  - apply Forall_forall. intros p Hp. apply list_elem_of_lookup in Hp as [i Hi]. destruct (Forall2_lookup_r _ _ _ _ _ HF Hi) as (id & Hid' & Hn).
    rewrite (bi_nodes _ I _ _ Hn). split; [done|]. apply Hin. by eapply list_elem_of_lookup_2.
Qed.

(** *** The bookkeeping operations keep the invariant *)

Lemma binv_queues b e t s : binv b -> (length t <= 100)%nat -> (length e <= 10)%nat -> binv (set_queues b e t s).
Proof. intros [] Ht He. by split. Qed.

Lemma binv_handlers b h w a n : binv b -> binv (set_handlers b h w a n).
Proof. intros []. by split. Qed.

Lemma sendTask_inv b p : binv b -> binv (sendTask b p) /\ b_sent (sendTask b p) = b_sent b.
Proof.
  intros I. unfold sendTask. destruct (Nat.ltb_spec (length (b_tasks b)) 100); [|done].
  split; [|done]. apply binv_queues; [done|rewrite length_app; simpl; lia|apply I].
Qed.

Lemma ack_send_inv b ch m : binv b -> binv (ack_send b ch m) /\ b_sent (ack_send b ch m) = b_sent b /\ b_nodes (ack_send b ch m) = b_nodes b.
Proof. intros I. unfold ack_send. case_bool_decide; [|done]. split_and!; [by apply binv_handlers|done..]. Qed.

(** A packet of a message is sent to the peer's address, or the transport's error is returned. *)
Lemma sendPacket_ok b peer code msg : exists data, encodePacket (b_ID b) code (fun dst => dst ++ msg) = Ok data /\
  sendPacket b peer code (fun dst => dst ++ msg) =
    Ok (if b_up b then (set_queues b (b_events b) (b_tasks b) (b_sent b ++ [(p_Addr peer, data)]), None) else (b, Some ("write")%string)).
Proof.
  destruct (encodePacket_eq (b_ID b) code msg) as (sig & _ & _ & _ & HE). eexists. split; [exact HE|].
  unfold sendPacket. rewrite HE. by destruct (b_up b).
Qed.

Lemma sendPacket_inv b peer code msg : binv b -> exists b' e, sendPacket b peer code (fun dst => dst ++ msg) = Ok (b', e) /\ binv b' /\
  b_nodes b' = b_nodes b /\ b_table b' = b_table b /\ b_up b' = b_up b /\ b_ID b' = b_ID b.
Proof.
  intros I. destruct (sendPacket_ok b peer code msg) as (data & _ & ->). destruct (b_up b) eqn:E; eexists _, _; (split; [done|]).
  - split_and!; try done. apply binv_queues; [done|apply I|apply I].
  - done.
Qed.

Lemma send_neighbors_inv fuel b peer peers : binv b -> (length peers <= fuel)%nat ->
  exists b' e, send_neighbors fuel b peer peers = Ok (b', e) /\ binv b'.
Proof.
  revert b peers. induction fuel as [|k IH]; intros b peers I Hf.
  - destruct peers; [by eexists _, _|simpl in Hf; lia].
  - destruct peers as [|p peers]; [by eexists _, _|]. cbn [send_neighbors].
    destruct (sendPacket_inv b peer neighborsPacket (MarshalTo (neighbors_value (mkNeighbors (toRPCNode <$> take maxNeighbors (p :: peers)) 0))) I)
      as (b1 & e & HS & I1 & _). unfold neighbors_MarshalRLP. rewrite HS. cbn [mbind outcome_bind].
    destruct e as [e|]; [by eexists _, _|]. apply IH; [done|]. rewrite length_drop. unfold maxNeighbors. cbn [length] in *. lia.
Qed.

(** *** Incoming packets *)

(** The payload of a request can be decoded. *)
Definition ping_decodes (payload : bytes) : Prop := exists v m, Parse payload = Some v /\ ping_UnmarshalRLP v = Ok m.
Definition findnode_decodes (payload : bytes) : Prop := exists v m, Parse payload = Some v /\ findNode_UnmarshalRLP v = Ok m.

Lemma handlePingPacket_inv b now payload mac peer : binv b -> ping_decodes payload ->
  exists b' e, handlePingPacket b now payload mac peer = Ok (b', e) /\ binv b'.
Proof.
  intros I (v & m & Hv & Hm). unfold handlePingPacket. rewrite Hv, Hm. destruct (hasExpired _ _); [by eexists _, _|].
  unfold pong_MarshalRLP. edestruct (sendPacket_inv b peer pongPacket) as (b1 & e & -> & I1 & _); [done|]. cbn [mbind outcome_bind].
  destruct (Backend_hasExpired b1 peer).
  - eexists _, _. split; [done|]. by apply sendTask_inv.
  - destruct (updatePeer_inv b1 peer I1) as (b2 & -> & I2 & _). cbn [mbind outcome_bind]. by eexists _, _.
Qed.

Lemma handleFindNodePacket_inv b payload peer : binv b -> findnode_decodes payload ->
  exists b' e, handleFindNodePacket b payload peer = Ok (b', e) /\ binv b'.
Proof.
  intros I (v & m & Hv & Hm). unfold handleFindNodePacket. destruct (Backend_hasExpired b peer); [by eexists _, _|].
  rewrite Hv, Hm. destruct (NearestPeersFromTarget_ok b (find_Target m) I) as (ps & -> & _).
  by apply send_neighbors_inv.
Qed.

(** What makes a packet harmless: if it is authentic and a request, its payload decodes. *)
Definition harmless (packet : Packet) : Prop := forall mac code payload pub,
  decodePacket (pkt_Buf packet) = Ok (mac, code :: payload, pub) ->
  (code = pingPacket -> ping_decodes payload) /\ (code = findnodePacket -> findnode_decodes payload).

Lemma dispatch_inv b now code payload mac peer : binv b ->
  (code = pingPacket -> ping_decodes payload) -> (code = findnodePacket -> findnode_decodes payload) ->
  exists b' e, dispatch_packet b now code payload mac peer = Ok (b', e) /\ binv b'.
Proof.
  intros I H1' H3'. unfold dispatch_packet.
  destruct (Z.eqb_spec code pingPacket) as [->|]; [apply handlePingPacket_inv; auto|].
  destruct (Z.eqb_spec code findnodePacket) as [->|]; [apply handleFindNodePacket_inv; auto|].
  destruct (code =? neighborsPacket); [by eexists _, _|]. destruct (code =? pongPacket); by eexists _, _.
Qed.

Lemma decodePacket_total payload : exists r, decodePacket payload = r /\ r ≠ Panic /\ r ≠ NoFuel.
Proof.
  eexists. split; [done|]. unfold decodePacket. destruct (Nat.ltb_spec (length payload) (headSize + 1)) as [|Hlen]; [done|].
  destruct (negb _); [done|]. unfold RecoverPubkey.
  destruct (last (take sigSize (drop macSize payload))) as [v|] eqn:E.
  - destruct (of_option _ _) eqn:Eo; try done; unfold of_option in Eo; by destruct (RecoverCompact _ _).
  - apply last_None in E. apply (f_equal length) in E. rewrite length_take, length_drop in E.
    unfold headSize, sigSize, macSize in *. cbn [length] in E. lia.
Qed.

Lemma HandlePacket_inv b now packet : binv b -> harmless packet ->
  exists b' e, HandlePacket b now packet = Ok (b', e) /\ binv b'.
Proof.
  intros I Hh. unfold HandlePacket. destruct (decodePacket_total (pkt_Buf packet)) as (r & Hr & Hp & Hn).
  destruct (decodePacket (pkt_Buf packet)) as [[[mac sigdata] pub]|e| |] eqn:E; [|by eexists _, _|congruence|congruence].
  destruct (decodePacket_sound _ _ _ _ E) as (sig & k & _ & _ & _ & Hne & _ & _ & ->).
  destruct (pkt_From packet) as [addr|]; [|by eexists _, _]. destruct (key_ok k) as [Hkb Hkl].
  rewrite newPeer_hex by done.
  destruct sigdata as [|code payload]; [done|]. cbn [idx lookup list_lookup mbind outcome_bind drop].
  destruct (Hh _ _ _ _ E) as [H1' H3'].
  set (peer := mkPeer _ _ _ _ _).
  destruct (getCallback b (p_ID peer) code) as [ch|]; [|by apply dispatch_inv].
  destruct (ack_send_inv b ch (mkRespMsg true payload (Some (pkt_Timestamp packet))) I) as [I1 _].
  destruct (negb _); [by eexists _, _|]. by apply dispatch_inv.
Qed.

(** ** The answer to findnode *)

(** What a node learns of a peer from a neighbours message: the TCP port is not sent. *)
Definition as_neighbor (p : Peer) : Peer := mkPeer (p_ID p) (p_Bytes p) (p_Addr p) None 0.

Lemma toRPCNode_ok n p : peer_within n p -> node_ok (toRPCNode p) /\ toPeer (toRPCNode p) = Ok (as_neighbor p).
Proof.
  intros (Hb & Hl & Hid & (Hi & Hil & Hp) & Ht). split.
  - split_and!; simpl; try done; unfold u16_ok; try lia; unfold uint16; apply Z.mod_pos_bound; lia.
  - unfold toPeer, toRPCNode. cbn [n_ID n_IP n_UDP n_TCP]. rewrite newPeer_hex by done. rewrite uint16_id by done.
    unfold as_neighbor. rewrite Hid. by destruct (p_Addr p).
Qed.

Lemma node_length n r : (length (n_IP r) <= n)%nat -> length (n_ID r) = 64%nat -> (length (MarshalTo (rpcNode_MarshalRLP r)) <= 109 + n)%nat.
Proof.
  intros Hi Hl. unfold rpcNode_MarshalRLP.
  pose proof (MarshalTo_len_array [NewBytes (n_IP r); NewUint (n_UDP r); NewUint (n_TCP r); NewBytes (n_ID r)]) as HA.
  cbn [map concat] in HA. rewrite !length_app in HA. cbn [length] in HA.
  pose proof (MarshalTo_len_bytes (n_IP r)). pose proof (MarshalTo_len_bytes (n_ID r)).
  pose proof (MarshalTo_len_uint (n_UDP r)). pose proof (MarshalTo_len_uint (n_TCP r)). lia.
Qed.

Lemma neighbors_length n nodes e : Forall (fun r => (length (n_IP r) <= n)%nat /\ length (n_ID r) = 64%nat) nodes ->
  (length (MarshalTo (neighbors_value (mkNeighbors nodes e))) <= 27 + (109 + n) * length nodes)%nat.
Proof.
  intros Hn. unfold neighbors_value. cbn [nb_Nodes nb_Expiration].
  pose proof (MarshalTo_len_array [NewArray (rpcNode_MarshalRLP <$> nodes); NewUint e]) as HA. cbn [map concat] in HA.
  rewrite !length_app in HA. cbn [length] in HA. pose proof (MarshalTo_len_uint e). pose proof (MarshalTo_len_array (rpcNode_MarshalRLP <$> nodes)) as HB.
  assert (length (concat (map MarshalTo (rpcNode_MarshalRLP <$> nodes))) <= (109 + n) * length nodes)%nat; [|lia].
  clear -Hn. induction Hn as [|r nodes [Hi Hl] _ IH]; [simpl; lia|]. cbn [fmap list_fmap map concat length]. rewrite length_app.
  pose proof (node_length n r Hi Hl). rewrite Nat.mul_succ_r. change (list_fmap _ _ rpcNode_MarshalRLP nodes) with (rpcNode_MarshalRLP <$> nodes). lia.
Qed.

(** A packet that carries the given peers: authentic, of bounded size, and understood. *)
Definition carries (n : nat) (key : PrivateKey) (data : bytes) (g : list Peer) : Prop :=
  (length g <= maxNeighbors)%nat /\ (length data <= 779 + 6 * n)%nat /\
  exists mac payload v nodes, decodePacket data = Ok (mac, neighborsPacket :: payload, MarshallPublicKey (pub_of key)) /\
    Parse payload = Some v /\ neighbors_UnmarshalRLP v = Ok (mkNeighbors nodes 0) /\ mapO toPeer nodes = Ok (as_neighbor <$> g).

Lemma neighbors_packet n key g : (n <= 1280)%nat -> Forall (peer_within n) g -> (length g <= maxNeighbors)%nat -> exists data,
  encodePacket key neighborsPacket (neighbors_MarshalRLP (mkNeighbors (toRPCNode <$> g) 0)) = Ok data /\ carries n key data g.
Proof.
  intros Hnn Hg Hl. set (m := mkNeighbors (toRPCNode <$> g) 0).
  assert (Forall node_ok (nb_Nodes m)) as Hn.
  { apply Forall_fmap. eapply Forall_impl; [exact Hg|]. intros p Hp. by eapply toRPCNode_ok. }
  destruct (neighbors_roundtrip m Hn) as [Hv Hu]; [unfold u64_ok; simpl; lia|].
  assert (length (MarshalTo (neighbors_value m)) <= 681 + 6 * n)%nat as Hlen.
  { etrans; [apply (neighbors_length n)|].
    - apply Forall_fmap. eapply Forall_impl; [exact Hg|]. intros p (_ & H2' & _ & (_ & H3' & _) & _). done.
    - rewrite length_fmap. unfold maxNeighbors in Hl. nia. }
  destruct (encodePacket_eq key neighborsPacket (MarshalTo (neighbors_value m))) as (sig & Hs & _ & _ & HE).
  eexists. split; [exact HE|]. destruct (decode_encode _ _ _ _ HE) as (mac & HD & _). split_and!; [done| |].
  - rewrite !length_app, Keccak256_len, Hs. cbn [length]. lia.
  - exists mac, (MarshalTo (neighbors_value m)), (neighbors_value m), (toRPCNode <$> g). split_and!; [exact HD| |exact Hu|].
    + apply Parse_MarshalTo'; [done|]. unfold len_ok. lia.
    + rewrite mapO_Ok, Forall2_fmap_l, Forall2_fmap_r. apply Forall_Forall2_diag. eapply Forall_impl; [exact Hg|].
      intros p Hp. by eapply toRPCNode_ok.
Qed.

Lemma set_queues_queues b e t s e' t' s' : set_queues (set_queues b e t s) e' t' s' = set_queues b e' t' s'.
Proof. done. Qed.

Lemma set_queues_id b : set_queues b (b_events b) (b_tasks b) (b_sent b) = b.
Proof. by destruct b. Qed.

Lemma send_neighbors_ok n fuel b peer peers : (n <= 1280)%nat -> b_up b = true -> Forall (peer_within n) peers -> (length peers <= fuel)%nat ->
  exists groups datas, send_neighbors fuel b peer peers =
      Ok (set_queues b (b_events b) (b_tasks b) (b_sent b ++ ((fun d => (p_Addr peer, d)) <$> datas)), None) /\
    concat groups = peers /\ Forall2 (carries n (b_ID b)) datas groups.
Proof.
  intros Hn. revert b peers. induction fuel as [|k IH]; intros b peers Hup Hp Hf.
  - destruct peers; [|simpl in Hf; lia]. exists [], []. simpl. rewrite app_nil_r, set_queues_id. by split_and!.
  - destruct peers as [|p ps].
    { exists [], []. simpl. rewrite app_nil_r, set_queues_id. by split_and!. }
    cbn [send_neighbors]. set (g := take maxNeighbors (p :: ps)).
    destruct (neighbors_packet n (b_ID b) g Hn) as (data & HE & Hc); [by apply Forall_take|unfold g; rewrite length_take; lia|].
    unfold sendPacket at 1. rewrite HE, Hup. cbn [mbind outcome_bind].
    destruct (IH (set_queues b (b_events b) (b_tasks b) (b_sent b ++ [(p_Addr peer, data)])) (drop maxNeighbors (p :: ps)))
      as (groups & datas & HS & Hcat & HF); [done|by apply Forall_drop|rewrite length_drop; unfold maxNeighbors; cbn [length] in *; lia|].
    exists (g :: groups), (data :: datas). split_and!.
    + etrans; [exact HS|]. cbn [set_queues b_sent b_events b_tasks]. rewrite <-app_assoc. done.
    + cbn [concat]. rewrite Hcat. apply take_drop.
    + by constructor.
Qed.

(** ** Authentic packets *)

Definition node_id (k : PublicKey) : string := hex_EncodeToString (drop 1 (MarshallPublicKey k)).
Definition sender (k : PublicKey) (addr : UDPAddr) (ts : Z) : Peer :=
  mkPeer (node_id k) (drop 1 (MarshallPublicKey k)) addr (Some ts) 0.

(** What is done with an authentic packet: it wakes up a handler for it, and unless it is a response
    that was waited for it is dispatched by its code. *)
Lemma HandlePacket_eq b now buf addr ts mac code payload k :
  decodePacket buf = Ok (mac, code :: payload, MarshallPublicKey k) ->
  HandlePacket b now (mkPacket buf (Some addr) ts) =
    match getCallback b (node_id k) code with
    | Some ch =>
        let b := ack_send b ch (mkRespMsg true payload (Some ts)) in
        if negb (code =? pingPacket) then Ok (b, None) else dispatch_packet b now code payload mac (sender k addr ts)
    | None => dispatch_packet b now code payload mac (sender k addr ts)
    end.
Proof.
  intros HD. unfold HandlePacket. cbn [pkt_Buf pkt_From pkt_Timestamp]. rewrite HD. destruct (key_ok k) as [Hkb Hkl].
  rewrite newPeer_hex by done. done.
Qed.

(** A node that answered a ping at most [bondExpiration] before the time [ts]. *)
Definition bonded (b : Backend) (id : string) (ts : Z) : Prop :=
  exists p l, b_nodes b !! id = Some p /\ p_Last p = Some l /\ ts <= l + bondExpiration.

Lemma bonded_spec b k addr ts : Backend_hasExpired b (sender k addr ts) = false <-> bonded b (node_id k) ts.
Proof.
  unfold Backend_hasExpired, bonded, sender. cbn [p_Last p_ID]. destruct (b_nodes b !! node_id k) as [p|]; [|naive_solver].
  unfold Peer_hasExpired. destruct (p_Last p) as [l|] eqn:E; [|naive_solver]. rewrite Z.ltb_ge. naive_solver.
Qed.

Definition nodes_within (n : nat) (b : Backend) : Prop := map_Forall (fun _ p => peer_within n p) (b_nodes b).

Lemma findnode_handled n b payload peer f : (n <= 1280)%nat -> binv b -> nodes_within n b -> b_up b = true ->
  Parse payload = Some (findNode_value f) -> bytes_ok (find_Target f) -> u64_ok (find_Expiration f) ->
  exists ps, NearestPeersFromTarget b (find_Target f) = Ok ps /\
    if Backend_hasExpired b peer then handleFindNodePacket b payload peer = Ok (b, None)
    else exists groups datas, concat groups = ps /\ Forall2 (carries n (b_ID b)) datas groups /\
      handleFindNodePacket b payload peer =
        Ok (set_queues b (b_events b) (b_tasks b) (b_sent b ++ ((fun d => (p_Addr peer, d)) <$> datas)), None).
Proof.
  intros Hnn I Hn Hup HP Hb He. destruct (NearestPeersFromTarget_ok b (find_Target f) I) as (ps & HN & _ & Hps & _).
  exists ps. split; [done|]. unfold handleFindNodePacket. destruct (Backend_hasExpired b peer); [done|].
  rewrite HP. destruct (findNode_roundtrip f Hb He) as [_ ->]. rewrite HN.
  destruct (send_neighbors_ok n (length ps) b peer ps) as (groups & datas & HS & Hcat & HF); [done|done| |done|].
  - eapply Forall_impl; [exact Hps|]. intros p [Hp _]. exact (Hn _ _ Hp).
  - by exists groups, datas.
Qed.

(** The payload of a request of ours is decoded on the other side. *)
Lemma findNode_parse f : bytes_ok (find_Target f) -> (length (find_Target f) <= 1024)%nat -> u64_ok (find_Expiration f) ->
  Parse (MarshalTo (findNode_value f)) = Some (findNode_value f).
Proof.
  intros Hb Hl He. apply Parse_MarshalTo'; [by apply findNode_roundtrip|]. unfold len_ok, findNode_value.
  pose proof (MarshalTo_len_array [NewBytes (find_Target f); NewUint (find_Expiration f)]) as HA. cbn [map concat] in HA.
  rewrite !length_app in HA. cbn [length] in HA. pose proof (MarshalTo_len_bytes (find_Target f)).
  pose proof (MarshalTo_len_uint (find_Expiration f)). lia.
Qed.

Lemma endpoint_length r : (length (ep_IP r) <= 16)%nat -> (length (MarshalTo (rpcEndpoint_MarshalRLP r)) <= 52)%nat.
Proof.
  intros Hi. unfold rpcEndpoint_MarshalRLP. pose proof (MarshalTo_len_array [NewBytes (ep_IP r); NewUint (ep_UDP r); NewUint (ep_TCP r)]) as HA.
  cbn [map concat] in HA. rewrite !length_app in HA. cbn [length] in HA. pose proof (MarshalTo_len_bytes (ep_IP r)).
  pose proof (MarshalTo_len_uint (ep_UDP r)). pose proof (MarshalTo_len_uint (ep_TCP r)). lia.
Qed.

Lemma toRPCEndpoint_ok p : peer_ok p -> endpoint_ok (toRPCEndpoint p) /\ (length (ep_IP (toRPCEndpoint p)) <= 16)%nat.
Proof.
  intros (_ & _ & _ & (Hi & Hil & _) & Ht). split; [|done]. split_and!; [done| |done]. unfold u16_ok. simpl. unfold uint16. apply Z.mod_pos_bound. lia.
Qed.

Lemma ping_parse p : u64_ok (ping_Version p) -> u64_ok (ping_Expiration p) -> endpoint_ok (ping_From p) -> endpoint_ok (ping_To p) ->
  (length (ep_IP (ping_From p)) <= 16)%nat -> (length (ep_IP (ping_To p)) <= 16)%nat ->
  Parse (MarshalTo (ping_value p)) = Some (ping_value p) /\ ping_UnmarshalRLP (ping_value p) = Ok p.
Proof.
  intros Hv He Hf Ht Hlf Hlt. destruct (ping_roundtrip p Hv He Hf Ht) as [V ->]. split; [|done]. apply Parse_MarshalTo'; [done|].
  unfold len_ok, ping_value. pose proof (MarshalTo_len_array [NewUint (ping_Version p); rpcEndpoint_MarshalRLP (ping_From p);
    rpcEndpoint_MarshalRLP (ping_To p); NewUint (ping_Expiration p)]) as HA. cbn [map concat] in HA.
  rewrite !length_app in HA. cbn [length] in HA. pose proof (endpoint_length _ Hlf). pose proof (endpoint_length _ Hlt).
  pose proof (MarshalTo_len_uint (ping_Version p)). pose proof (MarshalTo_len_uint (ping_Expiration p)). lia.
Qed.

(** ** Bonding *)

(** What does not change about a node that is up. *)
Definition same_node (b b' : Backend) : Prop := b_ID b' = b_ID b /\ b_up b' = b_up b /\ b_local b' = b_local b.

Lemma same_node_trans a b c : same_node a b -> same_node b c -> same_node a c.
Proof. unfold same_node. intros (? & ? & ?) (? & ? & ?). split_and!; congruence. Qed.

(** The ping a probe sends. *)
Definition probe_ping (b : Backend) (now : Z) (p : Peer) : pingRequest :=
  mkPing 4 (toRPCEndpoint (b_local b)) (toRPCEndpoint p) (unix_in now (10 * second)).

(** A probe that nothing comes in between of: the handler, the ping, the receive. *)
Definition probe_wait (b : Backend) (now : Z) (p : Peer) : outcome (Backend * nat) :=
  let '(b, ch) := setHandler b (p_ID p) pongPacket in b ← probe_send b now p; Ok (ack_wait b ch, ch).

Lemma probe_wait_eq b now p : b_up b = true -> exists data b',
  encodePacket (b_ID b) pingPacket (ping_MarshalRLP (probe_ping b now p)) = Ok data /\
  probe_wait b now p = Ok (b', b_nextch b) /\ b_sent b' = b_sent b ++ [(p_Addr p, data)] /\
  getCallback b' (p_ID p) pongPacket = Some (b_nextch b) /\ b_nextch b ∈ b_waiting b' /\ b_nodes b' = b_nodes b /\ b_table b' = b_table b /\
  b_acks b' = b_acks b /\ same_node b b' /\ (binv b -> binv b').
Proof.
  intros Hup. destruct (encodePacket_eq (b_ID b) pingPacket (MarshalTo (ping_value (probe_ping b now p)))) as (sig & _ & _ & _ & HE).
  eexists _, _. split; [exact HE|]. unfold probe_wait, setHandler, probe_send, sendPacket. cbn [set_timers set_handlers b_ID b_local b_up].
  unfold probe_ping in HE. unfold ping_MarshalRLP. rewrite HE, Hup. cbn [mbind outcome_bind]. split; [done|].
  split_and!; try done; [|cbn; set_solver|intros []; by split]. unfold getCallback. cbn. by rewrite lookup_insert_eq.
Qed.

Lemma int64_id x : - 2 ^ 63 <= x < 2 ^ 63 -> int64 x = x.
Proof. intros Hx. unfold int64. rewrite Z.mod_small; lia. Qed.

Lemma unix_in_bounds now d : 0 <= now -> 0 <= d -> now + d < 2 ^ 62 * second -> unix_in now d = (now + d) / second /\ u64_ok (unix_in now d) /\
  int64 (int64 (unix_in now d) + unixToInternal) = unix_in now d + unixToInternal.
Proof.
  intros Hn Hd Hb. assert (0 <= (now + d) / second < 2 ^ 62) as Hq.
  { unfold second in *. split; [apply Z.div_pos; lia|apply Z.div_lt_upper_bound; lia]. }
  assert (unix_in now d = (now + d) / second) as -> by (unfold unix_in, uint64; apply Z.mod_small; lia).
  unfold u64_ok, unixToInternal. split_and!; try lia. rewrite (int64_id ((now + d) / second)) by lia. apply int64_id. lia.
Qed.

(** A message with [d] to live has not expired a second before that. *)
Lemma not_expired now d t : 0 <= now -> second <= d -> now + d < 2 ^ 62 * second -> t <= now + d - second -> hasExpired (unix_in now d) t = false.
Proof.
  intros Hn Hd Hb Ht. unfold hasExpired. destruct (unix_in_bounds now d) as (HU & _ & HI); [done|unfold second in *; lia|done|]. rewrite HI, HU, Z.mul_add_distr_r.
  apply Z.ltb_ge. pose proof (Z.div_mod (now + d) second ltac:(unfold second; lia)). pose proof (Z.mod_pos_bound (now + d) second ltac:(unfold second; lia)). lia.
Qed.

(** A live ping is answered with a pong that echoes its hash; the sender is probed back unless it is
    bonded already, in which case the bond is renewed. *)
Definition answered (b b' : Backend) (k : PublicKey) (addr : UDPAddr) (ts now : Z) (mac : bytes) : Prop :=
  binv b' /\ same_node b b' /\
  (exists pong, encodePacket (b_ID b) pongPacket (pong_MarshalRLP (mkPong (toRPCEndpoint (sender k addr ts)) mac (unix_in now (20 * second)))) = Ok pong /\
    b_sent b' = b_sent b ++ [(addr, pong)]) /\
  (bonded b (node_id k) ts -> exists q, b_nodes b' !! node_id k = Some q /\ p_Last q = Some ts) /\
  (~ bonded b (node_id k) ts -> (length (b_tasks b) < 100)%nat -> b_tasks b' = b_tasks b ++ [sender k addr ts]).

Lemma updatePeer_last b p l b' : updatePeer b p = Ok b' -> p_Last p = Some l -> exists q, b_nodes b' !! p_ID p = Some q /\ p_Last q = Some l.
Proof.
  unfold updatePeer. destruct (Update _ _) as [[[t e] ev]| | |]; try done. cbn [mbind outcome_bind]. intros [= <-] Hl. cbn.
  destruct (b_nodes b !! p_ID p) as [q|]; rewrite lookup_insert_eq; eexists; (split; [done|]); [cbn; by rewrite Hl|done].
Qed.

Lemma ping_dispatched b now k addr ts mac m : binv b -> b_up b = true ->
  Parse (MarshalTo (ping_value m)) = Some (ping_value m) -> ping_UnmarshalRLP (ping_value m) = Ok m -> hasExpired (ping_Expiration m) now = false ->
  exists b', dispatch_packet b now pingPacket (MarshalTo (ping_value m)) mac (sender k addr ts) = Ok (b', None) /\ answered b b' k addr ts now mac.
Proof.
  intros I Hup HP HU Hx. set (peer := sender k addr ts). set (m' := mkPong (toRPCEndpoint peer) mac (unix_in now (20 * second))).
  destruct (encodePacket_eq (b_ID b) pongPacket (MarshalTo (NewArray [rpcEndpoint_MarshalRLP (pong_To m'); NewBytes (pong_ReplyTok m'); NewUint (pong_Expiration m')]))) as (sig & _ & _ & _ & HE).
  unfold dispatch_packet, handlePingPacket. cbn [Z.eqb pingPacket Pos.eqb]. rewrite HP, HU, Hx.
  unfold sendPacket. unfold pong_MarshalRLP at 1. fold m'. rewrite HE, Hup. cbn [mbind outcome_bind].
  set (b1 := set_queues b _ _ _). assert (binv b1) as I1 by (apply binv_queues; [done|apply I|apply I]).
  assert (Backend_hasExpired b1 peer = false <-> bonded b (node_id k) ts) as Hbond by exact (bonded_spec b1 k addr ts).
  destruct (Backend_hasExpired b1 peer) eqn:Ex.
  - eexists. split; [done|]. split_and!; [by apply sendTask_inv|unfold sendTask, same_node; by destruct (_ <? _)%nat| | |].
    + eexists. split; [exact HE|]. by rewrite (proj2 (sendTask_inv b1 peer I1)).
    + intros Hb. by apply Hbond in Hb.
    + intros _ Hl. unfold sendTask. change (b_tasks b1) with (b_tasks b). by rewrite (proj2 (Nat.ltb_lt _ _)) by done.
  - destruct (updatePeer_inv b1 peer I1) as (b2 & HU2 & I2 & Hk & Hs2 & _ & _ & _ & _ & _ & Hsame). rewrite HU2. cbn [mbind outcome_bind].
    eexists. split; [done|]. split_and!; [done|exact Hsame| | |intros Hnb; exfalso; by apply Hnb, Hbond].
    + eexists. split; [exact HE|]. by rewrite Hs2.
    + intros _. by eapply updatePeer_last in HU2.
Qed.

Lemma ping_handled b now buf k addr ts mac m : binv b -> b_up b = true ->
  decodePacket buf = Ok (mac, pingPacket :: MarshalTo (ping_value m), MarshallPublicKey k) ->
  Parse (MarshalTo (ping_value m)) = Some (ping_value m) -> ping_UnmarshalRLP (ping_value m) = Ok m -> hasExpired (ping_Expiration m) now = false ->
  exists b', HandlePacket b now (mkPacket buf (Some addr) ts) = Ok (b', None) /\ answered b b' k addr ts now mac.
Proof.
  intros I Hup HD HP HU Hx. rewrite (HandlePacket_eq _ _ _ _ _ _ _ _ _ HD).
  destruct (getCallback b (node_id k) pingPacket) as [ch|]; [|by apply ping_dispatched].
  cbn [negb Z.eqb pingPacket Pos.eqb]. unfold ack_send. case_bool_decide; [|by apply ping_dispatched].
  apply (ping_dispatched (set_handlers b _ _ _ _)); try done. by apply binv_handlers.
Qed.

(** The end of a probe: the node that answered is bonded for a day. *)
Lemma probe_finish_bonds ip_String b p resp t : binv b -> resp_Complete resp = true -> resp_Timestamp resp = Some t ->
  exists b', probe_finish ip_String b p resp = Ok (b', true) /\ binv b' /\ same_node b b' /\ b_sent b' = b_sent b /\
    forall ts, ts <= t + bondExpiration -> bonded b' (p_ID p) ts.
Proof.
  intros I Hc Ht. unfold probe_finish. rewrite Hc, Ht. set (q := mkPeer _ _ _ _ _).
  destruct (updatePeer_inv b q I) as (b3 & HU & I3 & _ & Hs & _ & _ & _ & _ & _ & Hsame). rewrite HU. cbn [mbind outcome_bind].
  destruct (updatePeer_last _ _ t _ HU eq_refl) as (q' & Hq & Hlast). eexists. split; [done|]. split_and!; [|exact Hsame|exact Hs|].
  - apply binv_queues; [done|apply I3|]. destruct (Nat.ltb_spec (length (b_events b3)) 10); [rewrite length_app; simpl; lia|apply I3].
  - intros ts Hts. exists q', t. by split_and!.
Qed.

(** A response wakes up the goroutine that waits for it. *)
Lemma response_handled b now buf k addr ts mac code payload ch : decodePacket buf = Ok (mac, code :: payload, MarshallPublicKey k) ->
  code ≠ pingPacket -> getCallback b (node_id k) code = Some ch -> ch ∈ b_waiting b ->
  HandlePacket b now (mkPacket buf (Some addr) ts) =
    Ok (set_handlers b (b_handlers b) (b_waiting b ∖ {[ch]}) (b_acks b ++ [(ch, mkRespMsg true payload (Some ts))]) (b_nextch b), None).
Proof.
  intros HD Hc HC Hw. rewrite (HandlePacket_eq _ _ _ _ _ _ _ _ _ HD), HC, (proj2 (Z.eqb_neq _ _) Hc). cbn [negb].
  unfold ack_send. by rewrite bool_decide_eq_true_2.
Qed.

End Invariant.

(** ** Properties *)

Definition toy_key (d : N) : @PrivateKey toy_curve := d.

(** C39: packets are authentic.  Whatever message is sent, the receiver recovers the code, the message
    and the public key of the sender; and a packet is accepted only if its first 32 bytes are the
    hash of the rest and the signature over code and message recovers the key it is attributed to. *)
Theorem packets_authentic `{Keccak} `{Curve} :
  (forall key code msg, exists packet, encodePacket key code (fun dst => dst ++ msg) = Ok packet /\ length packet = (98 + length msg)%nat /\
    decodePacket packet = Ok (take 32 packet, code :: msg, MarshallPublicKey (pub_of key))) /\
  (forall packet mac sigdata pub, decodePacket packet = Ok (mac, sigdata, pub) ->
    exists sig k, packet = mac ++ sig ++ sigdata /\ length mac = 32%nat /\ length sig = 65%nat /\ sigdata ≠ [] /\
      mac = Keccak256 [sig ++ sigdata] /\ RecoverPubkey sig (Keccak256 [sigdata]) = Ok k /\ pub = MarshallPublicKey k).
Proof.
  split; [|exact decodePacket_sound]. intros key code msg.
  destruct (encodePacket_eq key code msg) as (sig & Hs & _ & _ & HE). eexists. split; [exact HE|].
  destruct (decode_encode _ _ _ _ HE) as (mac & HD & ->). split; [|exact HD].
  rewrite !length_app, Keccak256_len, Hs. simpl. lia.
Qed.

Lemma packets_authentic_witness : exists packet, encodePacket (toy_key 5) 1 (fun dst => dst ++ [0xC0]) = Ok packet /\
  exists sig k, packet = take 32 packet ++ sig ++ [1; 0xC0] /\ RecoverPubkey sig (Keccak256 [[1; 0xC0]]) = Ok k.
Proof.
  destruct (proj1 packets_authentic (toy_key 5) 1 [0xC0]) as (packet & HE & _ & HD). exists packet. split; [exact HE|].
  destruct (proj2 packets_authentic _ _ _ _ HD) as (sig & k & Hp & _ & _ & _ & _ & Hk & _). exists sig, k. split; [exact Hp|exact Hk].
Defined.

(** C24: a request for neighbours is answered completely.  A bonded peer receives the peers of the table
    closest to the target, all of them and in order, in authentic packets of at most six nodes each
    that decode to the peers; a peer that is not bonded receives nothing, so that discovery cannot be
    used to amplify traffic towards a third party.  A packet has at most 779 + 6n bytes if the known
    nodes have IPs of at most n bytes: 875 with proper addresses, which fits the 1280 bytes a
    receiver reads.  Nothing enforces proper addresses, since an IP learnt from a neighbours message
    may have any length; [oversized_answer] has an answer that does not fit. *)
Theorem findnode_answer `{Keccak} `{Curve} `{FastRLP} `{GoSort} n (b : Backend) now key f addr ts packet :
  binv b -> (n <= 1280)%nat -> nodes_within n b -> b_up b = true -> getCallback b (node_id (pub_of key)) findnodePacket = None ->
  bytes_ok (find_Target f) -> (length (find_Target f) <= 1024)%nat -> u64_ok (find_Expiration f) ->
  encodePacket key findnodePacket (findNode_MarshalRLP f) = Ok packet ->
  (bonded b (node_id (pub_of key)) ts -> exists ps groups datas, NearestPeersFromTarget b (find_Target f) = Ok ps /\
    concat groups = ps /\ Forall2 (carries n (b_ID b)) datas groups /\
    HandlePacket b now (mkPacket packet (Some addr) ts) =
      Ok (set_queues b (b_events b) (b_tasks b) (b_sent b ++ ((fun d => (addr, d)) <$> datas)), None)) /\
  (~ bonded b (node_id (pub_of key)) ts -> HandlePacket b now (mkPacket packet (Some addr) ts) = Ok (b, None)).
Proof.
  intros I Hnn Hn Hup HC Hb Hl He HE. destruct (decode_encode _ _ _ _ HE) as (mac & HD & _).
  rewrite (HandlePacket_eq _ _ _ _ _ _ _ _ _ HD), HC.
  destruct (findnode_handled n b _ (sender (pub_of key) addr ts) f Hnn I Hn Hup (findNode_parse f Hb Hl He) Hb He) as (ps & HN & HF).
  pose proof (bonded_spec b (pub_of key) addr ts) as Hbond. unfold dispatch_packet. cbn [Z.eqb findnodePacket pingPacket Pos.eqb].
  destruct (Backend_hasExpired b _); split; intros Hx; try (by apply Hbond in Hx); try done.
  - destruct HF as (groups & datas & Hcat & Hc & ->). by exists ps, groups, datas.
  - exfalso. by apply Hx, Hbond.
Qed.

Definition addr0 : UDPAddr := mkAddr [127; 0; 0; 1] 30303.
Definition addr1 : UDPAddr := mkAddr [127; 0; 0; 2] 30303.

Lemma updatePeer_new `{Keccak} `{Curve} `{FastRLP} `{GoSort} (b : Backend) p b' : updatePeer b p = Ok b' -> b_nodes b !! p_ID p = None ->
  b_nodes b' = <[p_ID p := p]> (b_nodes b).
Proof. unfold updatePeer. destruct (Update _ _) as [[[t e] ev]| | |]; try done. cbn [mbind outcome_bind]. intros [= <-] Hn. cbn. by rewrite Hn. Qed.

Lemma sender_within `{Curve} k x port ts : byte_ok x -> u16_ok port -> peer_within 16 (sender k (mkAddr [127; 0; 0; x] port) ts).
Proof.
  intros Hx Hp. destruct (key_ok k) as [Hb Hl]. unfold peer_within, addr_within. split_and!; try done; try (cbn; unfold u16_ok; lia).
  repeat constructor; unfold byte_ok in *; lia.
Qed.

(** Node 7 after nodes 5 and 6 have answered its pings at time 0. *)
Definition node5 : Peer := sender (toy_pub 5) addr1 0.
Definition node6 : Peer := sender (toy_pub 6) addr0 0.

Lemma two_nodes : exists b0 b1 b2 ps, NewBackend (toy_key 7) addr0 = Ok b0 /\ updatePeer b0 node5 = Ok b1 /\ updatePeer b1 node6 = Ok b2 /\
  binv b2 /\ b_up b2 = true /\ b_handlers b2 = ∅ /\ nodes_within 16 b2 /\ bonded b2 (node_id (toy_pub 5)) 0 /\
  NearestPeersFromTarget b2 (replicate 64 9) = Ok ps /\ length ps = 2%nat.
Proof.
  destruct (NewBackend_inv (toy_key 7) addr0) as (b0 & HB & I0 & N0 & U0 & _ & _ & _ & H0').
  destruct (updatePeer_inv b0 node5 I0) as (b1 & E1 & I1 & _ & _ & _ & H1' & _ & _ & _ & _ & U1 & _).
  destruct (updatePeer_inv b1 node6 I1) as (b2 & E2 & I2 & _ & _ & _ & H2' & _ & _ & _ & _ & U2 & _).
  destruct (NearestPeersFromTarget_ok b2 (replicate 64 9) I2) as (ps & HN & _).
  assert (b_nodes b2 = <[p_ID node6 := node6]> {[p_ID node5 := node5]}) as Hm.
  { rewrite (updatePeer_new b1 node6 b2 E2), (updatePeer_new b0 node5 b1 E1), N0; [done|by rewrite N0|].
    rewrite (updatePeer_new b0 node5 b1 E1), N0 by (by rewrite N0). by vm_compute. }
  exists b0, b1, b2, ps. split_and!; [exact HB|exact E1|exact E2|exact I2|by rewrite U2, U1|by rewrite H2', H1', H0'| | |exact HN|].
  - unfold nodes_within. rewrite Hm. apply map_Forall_insert_2; [|apply map_Forall_singleton]; apply sender_within; unfold byte_ok, u16_ok; lia.
  - unfold bonded. rewrite Hm. exists node5, 0. split_and!; [by vm_compute|done|unfold bondExpiration, second; lia].
  - assert (Ok (length ps) = Ok 2%nat) as [= ->]; [|reflexivity].
    transitivity (b0 ← NewBackend (toy_key 7) addr0; b1 ← updatePeer b0 node5; b2 ← updatePeer b1 node6; ps ← NearestPeersFromTarget b2 (replicate 64 9); Ok (length ps)).
    + rewrite HB. cbn [mbind outcome_bind]. rewrite E1. cbn [mbind outcome_bind]. rewrite E2. cbn [mbind outcome_bind]. by rewrite HN.
    + vm_compute. reflexivity.
Qed.

(** Node 5 asks, and receives itself and node 6 in one packet. *)
Lemma findnode_answer_witness : exists b0 b1 b2 packet ps groups datas, NewBackend (toy_key 7) addr0 = Ok b0 /\
  updatePeer b0 node5 = Ok b1 /\ updatePeer b1 node6 = Ok b2 /\
  encodePacket (toy_key 5) findnodePacket (findNode_MarshalRLP (mkFind (replicate 64 9) 60)) = Ok packet /\
  NearestPeersFromTarget b2 (replicate 64 9) = Ok ps /\ length ps = 2%nat /\ concat groups = ps /\ Forall2 (carries 16 (b_ID b2)) datas groups /\
  HandlePacket b2 0 (mkPacket packet (Some addr1) 0) = Ok (set_queues b2 (b_events b2) (b_tasks b2) (b_sent b2 ++ ((fun d => (addr1, d)) <$> datas)), None).
Proof.
  destruct two_nodes as (b0 & b1 & b2 & ps & HB & E1 & E2 & I2 & U2 & H2' & Hn & Hbd & HN & Hl).
  destruct (encodePacket_eq (toy_key 5) findnodePacket (MarshalTo (findNode_value (mkFind (replicate 64 9) 60)))) as (sig & _ & _ & _ & HE).
  destruct (proj1 (findnode_answer 16 b2 0 (toy_key 5) (mkFind (replicate 64 9) 60) addr1 0 _ I2 ltac:(lia) Hn U2 ltac:(unfold getCallback; by rewrite H2')
    ltac:(apply Forall_byte_replicate; unfold byte_ok; lia) ltac:(cbn [find_Target]; rewrite length_replicate; lia) ltac:(unfold u64_ok; simpl; lia) HE) Hbd)
    as (ps' & groups & datas & HN' & Hc & Hf & HP).
  exists b0, b1, b2. eexists _, ps, groups, datas. split_and!; [exact HB|exact E1|exact E2|exact HE|exact HN|exact Hl| |exact Hf|exact HP].
  cbn [find_Target] in HN'. congruence.
Defined.

(** An answer that no receiver reads whole: six nodes, learnt from a neighbours message, with an "IP" of 200 bytes. *)
Definition odd_node (d : N) : rpcNode := Discv4Msg.mkNode (replicate 200 1) 30303 0 (drop 1 (MarshallPublicKey (toy_pub d))).

Example oversized_answer : exists ps data, mapO toPeer (odd_node <$> [1; 2; 3; 4; 5; 6]%N) = Ok ps /\
  encodePacket (toy_key 7) neighborsPacket (neighbors_MarshalRLP (mkNeighbors (toRPCNode <$> ps) 0)) = Ok data /\ (1280 < length data)%nat.
Proof.
  assert ((if mapO toPeer (odd_node <$> [1; 2; 3; 4; 5; 6]%N) is Ok ps then
     if encodePacket (toy_key 7) neighborsPacket (neighbors_MarshalRLP (mkNeighbors (toRPCNode <$> ps) 0)) is Ok data then (1280 <? length data)%nat
     else false else false) = true) as Hc by (vm_compute; reflexivity).
  destruct (mapO _ _) as [ps| | |]; try discriminate Hc. destruct (encodePacket _ _ _) as [data| | |] eqn:D; try discriminate Hc.
  exists ps, data. split_and!; [done|exact D|by apply Nat.ltb_lt].
Qed.

Lemma probe_exchange `{Keccak} `{Curve} `{FastRLP} `{GoSort} ip_String (a b : Backend) p t0 t1 t2 :
  binv a -> binv b -> b_up a = true -> b_up b = true -> peer_ok p -> peer_ok (b_local a) ->
  p_Bytes p = drop 1 (MarshallPublicKey (pub_of (b_ID b))) ->
  0 <= t0 -> t0 <= t1 <= t0 + 9 * second -> t0 < 2 ^ 60 * second ->
  exists a1 ch ping b1 pong a2 resp a3,
    probe_wait a t0 p = Ok (a1, ch) /\ b_sent a1 = b_sent a ++ [(p_Addr p, ping)] /\ same_node a a1 /\
    (HandlePacket b t1 (mkPacket ping (Some (p_Addr (b_local a))) t1) = Ok (b1, None) /\ binv b1 /\ same_node b b1 /\
    b_sent b1 = b_sent b ++ [(p_Addr (b_local a), pong)] /\
    (bonded b (node_id (pub_of (b_ID a))) t1 -> exists q, b_nodes b1 !! node_id (pub_of (b_ID a)) = Some q /\ p_Last q = Some t1) /\
    (~ bonded b (node_id (pub_of (b_ID a))) t1 -> (length (b_tasks b) < 100)%nat ->
      b_tasks b1 = b_tasks b ++ [sender (pub_of (b_ID a)) (p_Addr (b_local a)) t1])) /\
    HandlePacket a1 t2 (mkPacket pong (Some (p_Addr p)) t2) = Ok (a2, None) /\ b_acks a2 = b_acks a ++ [(ch, resp)] /\
    (forall i, let a2 := ack_take a2 i in exists a3, probe_finish ip_String a2 p resp = Ok (a3, true) /\ binv a3 /\ same_node a a3 /\
      b_sent a3 = b_sent a1 /\ (forall ts, ts <= t2 + bondExpiration -> bonded a3 (p_ID p) ts)) /\
    probe_finish ip_String a2 p resp = Ok (a3, true) /\ (forall ts, ts <= t2 + bondExpiration -> bonded a3 (p_ID p) ts).
Proof.
  intros Ia Ib Hua Hub Hp Hl Hid H0' Ht Hb.
  destruct (probe_wait_eq a t0 p Hua) as (ping & a1 & HE & HS & Hsent & HC & Hw & Hn1 & Ht1 & Ha1 & Hsame & I1). specialize (I1 Ia).
  destruct (decode_encode _ _ _ _ HE) as (mac & HD & _).
  destruct (unix_in_bounds t0 (10 * second)) as (_ & Hu & _); [done|unfold second; lia|unfold second in *; lia|].
  destruct (toRPCEndpoint_ok _ Hp) as [Ep Lp]. destruct (toRPCEndpoint_ok _ Hl) as [El Ll].
  destruct (ping_parse (probe_ping a t0 p)) as [HP HU]; [unfold u64_ok; simpl; lia|exact Hu|exact El|exact Ep|exact Ll|exact Lp|].
  destruct (ping_handled b t1 ping (pub_of (b_ID a)) (p_Addr (b_local a)) t1 mac (probe_ping a t0 p) Ib Hub HD HP HU)
    as (b1 & HH & Ib1 & Hsb & (pong & HEp & Hsp) & Hbd & Htask).
  { apply not_expired; unfold second in *; lia. }
  destruct (decode_encode _ _ _ _ HEp) as (mac' & HDp & _).
  assert (p_ID p = node_id (pub_of (b_ID b))) as Hpid. { destruct Hp as (_ & _ & -> & _). by rewrite Hid. }
  pose proof (response_handled a1 t2 pong (pub_of (b_ID b)) (p_Addr p) t2 _ _ _ (b_nextch a) HDp ltac:(done)) as HA. rewrite <-Hpid in HA. specialize (HA HC Hw).
  set (resp := mkRespMsg true _ (Some t2)) in HA. set (a2 := set_handlers a1 _ _ _ _) in HA.
  assert (forall a2', binv a2' -> same_node a a2' -> b_sent a2' = b_sent a1 -> exists a3, probe_finish ip_String a2' p resp = Ok (a3, true) /\ binv a3 /\ same_node a a3 /\
      b_sent a3 = b_sent a1 /\ (forall ts, ts <= t2 + bondExpiration -> bonded a3 (p_ID p) ts)) as HF.
  { intros a2' I2 S2 HS2. destruct (probe_finish_bonds ip_String a2' p resp t2 I2 eq_refl eq_refl) as (a3 & HF & I3 & S3 & HS3 & Hb3).
    exists a3. split_and!; [exact HF|exact I3|by eapply same_node_trans|by rewrite HS3|exact Hb3]. }
  assert (binv a2) as I2 by (by apply binv_handlers).
  destruct (HF a2 I2 Hsame eq_refl) as (a3 & HF3 & _ & _ & _ & Hb3).
  exists a1, (b_nextch a), ping, b1, pong, a2, resp, a3.
  split_and!; [exact HS|exact Hsent|exact Hsame|exact HH|exact Ib1|exact Hsb|exact Hsp|exact Hbd|exact Htask|exact HA|unfold a2; cbn; by rewrite Ha1| |exact HF3|exact Hb3].
  intros i a2'. apply HF; [by apply (binv_handlers a2)|exact Hsame|done].
Qed.

(** a probe bonds its node.  The ping of [a], if nothing comes between the ping and the receive, makes
    [b] answer with a pong to the address the ping came from; the pong completes the probe, after
    which [a] holds [b] as bonded for a day, and [b] has [a] queued to be probed back unless it was
    bonded already. *)
Theorem probe_bonds `{Keccak} `{Curve} `{FastRLP} `{GoSort} ip_String (a b : Backend) p t0 t1 t2 :
  binv a -> binv b -> b_up a = true -> b_up b = true -> peer_ok p -> peer_ok (b_local a) ->
  p_Bytes p = drop 1 (MarshallPublicKey (pub_of (b_ID b))) ->
  0 <= t0 -> t0 <= t1 <= t0 + 9 * second -> t0 < 2 ^ 60 * second ->
  exists a1 ch ping b1 pong a2 resp a3,
    probe_wait a t0 p = Ok (a1, ch) /\ b_sent a1 = b_sent a ++ [(p_Addr p, ping)] /\
    HandlePacket b t1 (mkPacket ping (Some (p_Addr (b_local a))) t1) = Ok (b1, None) /\ binv b1 /\
    b_sent b1 = b_sent b ++ [(p_Addr (b_local a), pong)] /\
    (~ bonded b (node_id (pub_of (b_ID a))) t1 -> (length (b_tasks b) < 100)%nat ->
      b_tasks b1 = b_tasks b ++ [sender (pub_of (b_ID a)) (p_Addr (b_local a)) t1]) /\
    HandlePacket a1 t2 (mkPacket pong (Some (p_Addr p)) t2) = Ok (a2, None) /\ b_acks a2 = b_acks a ++ [(ch, resp)] /\
    probe_finish ip_String a2 p resp = Ok (a3, true) /\
    forall ts, ts <= t2 + bondExpiration -> bonded a3 (p_ID p) ts.
Proof.
  intros Ia Ib Hua Hub Hp Hl Hid H0' Ht Hb.
  destruct (probe_exchange ip_String a b p t0 t1 t2 Ia Ib Hua Hub Hp Hl Hid H0' Ht Hb) as
    (a1 & ch & ping & b1 & pong & a2 & resp & a3 & HS & Hs & _ & (HH & I1 & _ & Hs1 & _ & Ht1) & HA & Ha & _ & HF & Hbd).
  exists a1, ch, ping, b1, pong, a2, resp, a3. by split_and!.
Qed.

Definition peer_of (d : N) (addr : UDPAddr) : Peer :=
  mkPeer (node_id (toy_pub d)) (drop 1 (MarshallPublicKey (toy_pub d))) addr None 0.

Lemma peer_of_ok d addr : addr_ok addr -> peer_ok (peer_of d addr).
Proof. intros Ha. destruct (key_ok (toy_pub d)) as [Hb Hl]. split_and!; try done; unfold u16_ok; simpl; lia. Qed.

Lemma addr_of_ok x port : byte_ok x -> u16_ok port -> addr_ok (mkAddr [127; 0; 0; x] port).
Proof. intros Hx Hp. split_and!; [|simpl; lia|done]. repeat constructor; unfold byte_ok in *; lia. Qed.

Lemma NewBackend_local `{Keccak} `{Curve} `{FastRLP} `{GoSort} key addr b : NewBackend key addr = Ok b -> addr_ok addr -> peer_ok (b_local b).
Proof.
  intros HB Ha. unfold NewBackend in HB. change (elliptic_Marshal (pub_of key)) with (MarshallPublicKey (pub_of key)) in HB.
  destruct (key_ok (pub_of key)) as [Hkb Hkl]. rewrite newPeer_hex in HB by done. cbn [mbind outcome_bind] in HB. injection HB as <-.
  split_and!; try done; unfold u16_ok; simpl; lia.
Qed.

Lemma probe_bonds_witness : exists a b a1 ch a2 resp a3, NewBackend (toy_key 5) addr0 = Ok a /\ NewBackend (toy_key 7) addr1 = Ok b /\
  probe_wait a 0 (peer_of 7 addr1) = Ok (a1, ch) /\ b_acks a2 = b_acks a ++ [(ch, resp)] /\
  probe_finish (fun _ => EmptyString) a2 (peer_of 7 addr1) resp = Ok (a3, true) /\ bonded a3 (p_ID (peer_of 7 addr1)) (3600 * second).
Proof.
  destruct (NewBackend_inv (toy_key 5) addr0) as (a & HA & Ia & _ & Hua & _).
  destruct (NewBackend_inv (toy_key 7) addr1) as (b & HB & Ib & _ & Hub & Hid & _).
  assert (addr_ok addr0) as H0' by (apply addr_of_ok; unfold byte_ok, u16_ok; lia).
  assert (addr_ok addr1) as H1' by (apply addr_of_ok; unfold byte_ok, u16_ok; lia).
  destruct (probe_bonds (fun _ => EmptyString) a b (peer_of 7 addr1) 0 second (2 * second) Ia Ib Hua Hub (peer_of_ok _ _ H1') (NewBackend_local _ _ _ HA H0'))
    as (a1 & ch & ping & b1 & pong & a2 & resp & a3 & HS & _ & _ & _ & _ & _ & _ & Hack & HF & Hbond).
  - rewrite Hid. reflexivity.
  - lia.
  - unfold second. lia.
  - unfold second. lia.
  - exists a, b, a1, ch, a2, resp, a3. split_and!; [exact HA|exact HB|exact HS|exact Hack|exact HF|apply Hbond]. unfold second, bondExpiration, second. lia.
Defined.

(** a node can be crashed from the network.  Whoever has a key can send every backend an authentic
    ping whose payload is an empty list, and the handler panics on it. *)
Theorem malformed_ping_panics `{Keccak} `{Curve} `{FastRLP} `{GoSort} (key : PrivateKey) :
  exists packet, (length packet <= 1280)%nat /\ forall (b : Backend) now addr ts, HandlePacket b now (mkPacket packet (Some addr) ts) = Panic.
Proof.
  destruct (encodePacket_eq key pingPacket (MarshalTo (NewArray []))) as (sig & Hs & _ & _ & HE).
  exists (Keccak256 [sig ++ pingPacket :: MarshalTo (NewArray [])] ++ sig ++ pingPacket :: MarshalTo (NewArray [])).
  split; [|intros b now addr ts].
  - rewrite !length_app, Keccak256_len, Hs. pose proof (MarshalTo_len_array []) as HA. cbn [map concat length] in *. lia.
  - destruct (decode_encode _ _ _ _ HE) as (mac & HD & _). rewrite (HandlePacket_eq _ _ _ _ _ _ _ _ _ HD).
    assert (forall b0, dispatch_packet b0 now pingPacket (MarshalTo (NewArray [])) mac (sender (pub_of key) addr ts) = Panic) as HP.
    { intros b0. unfold dispatch_packet, handlePingPacket. cbn [Z.eqb pingPacket Pos.eqb]. rewrite Parse_MarshalTo'.
      - unfold ping_UnmarshalRLP. rewrite GetElems_array. done.
      - by apply valid_array.
      - unfold len_ok. pose proof (MarshalTo_len_array []) as HA. cbn [map concat length] in *. lia. }
    destruct (getCallback _ _ _); [|apply HP]. cbn [negb Z.eqb pingPacket Pos.eqb]. apply HP.
Qed.
