(* ===== verification/Discv4Sys.v ===== *)
(** * Discovery: the running backend

    [Discv4] has the pieces of the goroutines of a backend; here they run.  A state is a backend with
    the goroutines blocked in a receive and those between two receives, and [sys_step] is one turn
    of one of them, the arrival of a packet, or the firing of a timer.  Every reachable state keeps
    the invariant of the backend, and the channels are used one job each. *)

From stdpp Require Import base gmap strings numbers list relations.
From S2P Require Import Prelude GoStd Rlp Crypto RlpxMsg KadBucket KadTable KadTheorems Discv4Msg Discv4 Discv4Theorems.
Local Open Scope Z_scope.

Section System.
Context `{Keccak} `{Curve} `{FastRLP} `{GoSort}.
Context (ip_String : bytes -> string).

Record sys := mkSys {
  s_b : Backend;
  s_starting : list start;          (* about to set a handler *)
  s_blocked : list (nat * job);     (* in a receive from the channel *)
  s_running : list (nat * pc);      (* about to send a packet, or to receive from the channel *)
}.

Definition add_start (l : list start) (nx : next) : list start := match nx with NStart st => l ++ [st] | _ => l end.
Definition add_again (ch : nat) (l : list (nat * pc)) (nx : next) : list (nat * pc) :=
  match nx with NAgain j => l ++ [(ch, PRecv j)] | _ => l end.

(** *** Shared peers

    A [*Peer] can be held by several goroutines and the task queue at once, and [probeNode] and
    [updatePeer] write its [Last] and [TCP].  Peers are values here; a write through another reference
    is a step in which these two fields change to anything. *)
Definition peer_written (p p' : Peer) : Prop := p_ID p' = p_ID p /\ p_Bytes p' = p_Bytes p /\ p_Addr p' = p_Addr p.

Inductive start_written : start -> start -> Prop :=
| sw_probe p p' t : peer_written p p' -> start_written (SProbe p t) (SProbe p' t)
| sw_ping p p' : peer_written p p' -> start_written (SPing p) (SPing p')
| sw_find p p' : peer_written p p' -> start_written (SFind p) (SFind p').
Inductive job_written : job -> job -> Prop :=
| jw_probe p p' t : peer_written p p' -> job_written (JProbe p t) (JProbe p' t)
| jw_ping p p' : peer_written p p' -> job_written (JPing p) (JPing p')
| jw_find p p' ps one : peer_written p p' -> job_written (JFind p ps one) (JFind p' ps one).
Inductive pc_written : pc -> pc -> Prop :=
| pw_send j j' : job_written j j' -> pc_written (PSend j) (PSend j')
| pw_recv j j' : job_written j j' -> pc_written (PRecv j) (PRecv j').

Definition held {A} (R : A -> A -> Prop) (x y : nat * A) : Prop := x.1 = y.1 /\ R x.2 y.2.

Inductive sys_step : sys -> sys -> Prop :=
| st_packet b st bl rn now pk b' e :                     (* listen *)
    HandlePacket b now pk = Ok (b', e) ->
    sys_step (mkSys b st bl rn) (mkSys b' st bl rn)
| st_probe b st bl rn p :                                (* AddNode, revalidatePeer *)
    sys_step (mkSys b st bl rn) (mkSys b (st ++ [SProbe p false]) bl rn)
| st_task b st bl rn p t :                               (* probeTask *)
    b_tasks b = p :: t ->
    sys_step (mkSys b st bl rn) (mkSys (set_queues b (b_events b) t (b_sent b)) (st ++ [SProbe p false]) bl rn)
| st_find b st bl rn p :                                 (* a lookup asks a peer *)
    sys_step (mkSys b st bl rn) (mkSys b (st ++ [findNodes_start b p]) bl rn)
| st_handler b st bl rn k x b' ch c :
    st !! k = Some x -> start_handler b x = (b', ch, c) ->
    sys_step (mkSys b st bl rn) (mkSys b' (delete k st) bl (rn ++ [(ch, c)]))
| st_send b st bl rn now k ch j b' :
    rn !! k = Some (ch, PSend j) -> job_send b now j = Ok b' ->
    sys_step (mkSys b st bl rn) (mkSys b' st bl (<[k := (ch, PRecv j)]> rn))
| st_recv b st bl rn k ch j :
    rn !! k = Some (ch, PRecv j) ->
    sys_step (mkSys b st bl rn) (mkSys (ack_wait b ch) st (bl ++ [(ch, j)]) (delete k rn))
| st_timeout b st bl rn id code ch :
    (id, code, ch) ∈ b_timers b ->
    sys_step (mkSys b st bl rn) (mkSys (handler_timeout b id code ch) st bl rn)
| st_resp b st bl rn i k ch j r b' nx :
    b_acks b !! i = Some (ch, r) -> bl !! k = Some (ch, j) ->
    job_resp ip_String (ack_take b i) j r = Ok (b', nx) ->
    sys_step (mkSys b st bl rn) (mkSys b' (add_start st nx) (delete k bl) (add_again ch rn nx))
| st_event b st bl rn e es :                             (* Deliver *)
    b_events b = e :: es ->
    sys_step (mkSys b st bl rn) (mkSys (set_queues b es (b_tasks b) (b_sent b)) st bl rn)
| st_written b st bl rn tasks st' bl' rn' :              (* through another reference *)
    Forall2 peer_written (b_tasks b) tasks -> Forall2 start_written st st' ->
    Forall2 (held job_written) bl bl' -> Forall2 (held pc_written) rn rn' ->
    sys_step (mkSys b st bl rn) (mkSys (set_queues b (b_events b) tasks (b_sent b)) st' bl' rn').

(** The steps that end the process, by what runs into the panic. *)
Inductive panic_cause := CPacket (now : Z) (pk : Packet) | CSend (j : job) | CResp (j : job) (r : respMessage).

Inductive sys_panics : sys -> panic_cause -> Prop :=
| sp_packet b st bl rn now pk : HandlePacket b now pk = Panic -> sys_panics (mkSys b st bl rn) (CPacket now pk)
| sp_send b st bl rn now k ch j : rn !! k = Some (ch, PSend j) -> job_send b now j = Panic -> sys_panics (mkSys b st bl rn) (CSend j)
| sp_resp b st bl rn i k ch j r : b_acks b !! i = Some (ch, r) -> bl !! k = Some (ch, j) ->
    job_resp ip_String (ack_take b i) j r = Panic -> sys_panics (mkSys b st bl rn) (CResp j r).

Definition sys_init (key : PrivateKey) (addr : UDPAddr) (s : sys) : Prop :=
  exists b, NewBackend key addr = Ok b /\ s = mkSys b [] [] [].
Definition sys_reachable (key : PrivateKey) (addr : UDPAddr) (s : sys) : Prop :=
  exists s0, sys_init key addr s0 /\ rtc sys_step s0 s.

(** ** The part of a backend that concerns the channels *)

(** The only ways the handlers change: a response is delivered, or not. *)
Inductive chan_change (b b' : Backend) : Prop :=
| cc_same : b_handlers b' = b_handlers b -> b_waiting b' = b_waiting b -> b_acks b' = b_acks b ->
    b_nextch b' = b_nextch b -> b_timers b' = b_timers b -> chan_change b b'
| cc_ack key ch m : b_handlers b !! key = Some ch -> b_handlers b' = b_handlers b -> b_waiting b' = b_waiting b ∖ {[ch]} ->
    ch ∈ b_waiting b -> b_acks b' = b_acks b ++ [(ch, m)] -> b_nextch b' = b_nextch b -> b_timers b' = b_timers b ->
    chan_change b b'.

Definition chan_same (b b' : Backend) : Prop :=
  b_handlers b' = b_handlers b /\ b_waiting b' = b_waiting b /\ b_acks b' = b_acks b /\
  b_nextch b' = b_nextch b /\ b_timers b' = b_timers b.

Lemma chan_same_trans a b c : chan_same a b -> chan_same b c -> chan_same a c.
Proof. unfold chan_same. intros (? & ? & ? & ? & ?) (? & ? & ? & ? & ?). split_and!; congruence. Qed.

Lemma updatePeer_chan b p b' : updatePeer b p = Ok b' -> chan_same b b'.
Proof. unfold updatePeer. destruct (Update _ _) as [[[t e] ev]| | |]; simpl; intros [= <-]. done. Qed.

Lemma sendPacket_chan b p code m b' e : sendPacket b p code m = Ok (b', e) -> chan_same b b'.
Proof. unfold sendPacket. destruct (encodePacket _ _ _); [destruct (b_up b)| | |]; by intros [= <- <-]. Qed.

Lemma sendTask_chan b p : chan_same b (sendTask b p).
Proof. unfold sendTask. by destruct (_ <? _)%nat. Qed.

Lemma send_neighbors_chan fuel b p ps b' e : send_neighbors fuel b p ps = Ok (b', e) -> chan_same b b'.
Proof.
  revert b ps. induction fuel as [|k IH]; intros b [|q ps]; cbn [send_neighbors]; try (by intros [= <- <-]).
  destruct (sendPacket b p neighborsPacket _) as [[b1 e1]| | |] eqn:E; try done. cbn [mbind outcome_bind].
  apply sendPacket_chan in E. destruct e1; [by intros [= <- <-]|]. intros HS. apply IH in HS. by eapply chan_same_trans.
Qed.

Lemma dispatch_chan b now code payload mac peer b' e : dispatch_packet b now code payload mac peer = Ok (b', e) -> chan_same b b'.
Proof.
  unfold dispatch_packet. destruct (code =? pingPacket).
  { unfold handlePingPacket. destruct (Parse payload) as [v|]; [|done]. destruct (ping_UnmarshalRLP v); try done.
    destruct (hasExpired _ _); [by intros [= <- <-]|]. destruct (sendPacket _ _ _ _) as [[b1 e1]| | |] eqn:E; try done.
    apply sendPacket_chan in E. cbn [mbind outcome_bind]. destruct (Backend_hasExpired b1 peer).
    - intros [= <- <-]. eapply chan_same_trans; [exact E|apply sendTask_chan].
    - destruct (updatePeer b1 peer) as [b2| | |] eqn:E2; try done. intros [= <- <-].
      eapply chan_same_trans; [exact E|]. by eapply updatePeer_chan. }
  destruct (code =? findnodePacket).
  { unfold handleFindNodePacket. destruct (Backend_hasExpired b peer); [by intros [= <- <-]|].
    destruct (Parse payload) as [v|]; [|done]. destruct (findNode_UnmarshalRLP v); try done.
    destruct (NearestPeersFromTarget b _) as [ps|?| |]; try done; [apply send_neighbors_chan|by intros [= <- <-]]. }
  destruct (code =? neighborsPacket); [by intros [= <- <-]|]. destruct (code =? pongPacket); by intros [= <- <-].
Qed.

Lemma chan_change_same a b c : chan_change a b -> chan_same b c -> chan_change a c.
Proof. intros [|key ch m] (? & ? & ? & ? & ?); [left; congruence|apply (cc_ack _ _ key ch m); try done; congruence]. Qed.

Lemma ack_send_chan b key ch m : b_handlers b !! key = Some ch -> chan_change b (ack_send b ch m).
Proof. intros HH. unfold ack_send. case_bool_decide; [by eright|by left]. Qed.

Lemma HandlePacket_chan b now pk b' e : HandlePacket b now pk = Ok (b', e) -> chan_change b b'.
Proof.
  unfold HandlePacket. destruct (decodePacket _) as [[[mac sd] pub]|?| |]; try done; [|intros [= <- <-]; by left].
  destruct (pkt_From pk) as [a|]; [|intros [= <- <-]; by left].
  destruct (newPeer _ _ _) as [p|?| |]; try done; [|intros [= <- <-]; by left].
  destruct (idx sd 0) as [code| | |]; try done. cbn [mbind outcome_bind].
  set (peer := mkPeer _ _ _ _ _). destruct (getCallback b (p_ID peer) code) as [ch|] eqn:E.
  - pose proof (ack_send_chan b _ ch (mkRespMsg true (drop 1 sd) (Some (pkt_Timestamp pk))) E) as Hc.
    destruct (negb _); [by intros [= <- <-]|]. intros HD. apply dispatch_chan in HD. by eapply chan_change_same.
  - intros HD. apply dispatch_chan in HD. eapply chan_change_same; [|exact HD]. by left.
Qed.

(** ** The invariant of the channels *)

Definition chans {A} (l : list (nat * A)) : list nat := l.*1.
#[local] Arguments chans {A} l : simpl never.

Record sinv (s : sys) : Prop := {
  si_b : binv (s_b s);
  si_jobs : NoDup (chans (s_blocked s) ++ chans (s_running s));
  si_timers_nd : NoDup (b_timers (s_b s)).*2;
  si_lt_jobs : Forall (fun ch => (ch < b_nextch (s_b s))%nat) (chans (s_blocked s) ++ chans (s_running s));
  si_lt_timers : Forall (fun t => (t.2 < b_nextch (s_b s))%nat) (b_timers (s_b s));
  (* a handler is there only as long as its timer *)
  si_handlers : forall key ch, b_handlers (s_b s) !! key = Some ch -> exists id code, key = handler_key id code /\ (id, code, ch) ∈ b_timers (s_b s);
  (* a blocked goroutine waits, or has its answer; nobody else does *)
  si_blocked : forall ch, ch ∈ chans (s_blocked s) -> ch ∈ b_waiting (s_b s) \/ ch ∈ (b_acks (s_b s)).*1;
  si_waiting : forall ch, ch ∈ b_waiting (s_b s) -> ch ∈ chans (s_blocked s) /\ ch ∉ (b_acks (s_b s)).*1;
  si_acks : NoDup (b_acks (s_b s)).*1 /\ forall ch, ch ∈ (b_acks (s_b s)).*1 -> ch ∈ chans (s_blocked s);
}.

(** The invariant only reads the channels. *)
Lemma sinv_same b b' st st' bl bl' rn rn' : sinv (mkSys b st bl rn) -> binv b' -> chan_same b b' ->
  chans bl' = chans bl -> chans rn' = chans rn -> sinv (mkSys b' st' bl' rn').
Proof.
  intros [] Hb (HH & HW & HA & HN & HT) Hbl Hrn. cbn in *.
  split; cbn; rewrite ?HH, ?HW, ?HA, ?HN, ?HT, ?Hbl, ?Hrn; done.
Qed.

Lemma sinv_deliver b b' st bl rn ch m : sinv (mkSys b st bl rn) -> binv b' ->
  (forall key c, b_handlers b' !! key = Some c -> exists id code, key = handler_key id code /\ (id, code, c) ∈ b_timers b') ->
  b_waiting b' = b_waiting b ∖ {[ch]} -> ch ∈ b_waiting b -> b_acks b' = b_acks b ++ [(ch, m)] -> b_nextch b' = b_nextch b ->
  (forall t, t ∈ b_timers b' -> t ∈ b_timers b) -> NoDup (b_timers b').*2 -> sinv (mkSys b' st bl rn).
Proof.
  intros [] Hb HH HW Hin HA HN HT Hnd. cbn in *. destruct (si_waiting0 ch Hin) as [Hbl Hna].
  split; cbn; rewrite ?HA, ?HN, ?HW; try done.
  - apply Forall_forall. intros t Ht. rewrite Forall_forall in si_lt_timers0. by apply si_lt_timers0, HT.
  - intros c Hc. rewrite fmap_app, elem_of_app, elem_of_difference, elem_of_singleton. destruct (si_blocked0 c Hc) as [|]; [|by right; left].
    destruct (decide (c = ch)) as [->|]; [right; right; by left|by left].
  - intros c. rewrite elem_of_difference, elem_of_singleton. intros [Hw Hne]. destruct (si_waiting0 c Hw) as [? Hn]. split; [done|].
    rewrite fmap_app, elem_of_app. intros [?|Hc]; [done|]. by apply list_elem_of_singleton in Hc.
  - rewrite fmap_app. destruct si_acks0 as [Hn Hb']. split.
    + apply NoDup_app. split_and!; [done| |apply NoDup_singleton]. intros c Hc Hc'. apply list_elem_of_singleton in Hc' as ->. done.
    + intros c. rewrite elem_of_app. intros [Hc|Hc]; [by apply Hb'|]. by apply list_elem_of_singleton in Hc as ->.
Qed.

(** A new channel, whose goroutine does not receive yet. *)
Definition chan_start (b b' : Backend) (ch : nat) : Prop := exists id code,
  ch = b_nextch b /\ b_handlers b' = <[handler_key id code := ch]> (b_handlers b) /\ b_waiting b' = b_waiting b /\
  b_acks b' = b_acks b /\ b_nextch b' = S ch /\ b_timers b' = b_timers b ++ [(id, code, ch)].

Lemma Forall_lt_S n (l : list nat) : Forall (fun ch => (ch < n)%nat) l -> Forall (fun ch => (ch < S n)%nat) l.
Proof. intros Hl. eapply Forall_impl; [exact Hl|]. simpl. lia. Qed.

Lemma lt_not_in n (l : list nat) : Forall (fun ch => (ch < n)%nat) l -> n ∉ l.
Proof. rewrite Forall_forall. intros Hl Hn. apply Hl in Hn. lia. Qed.

(** A channel is added at the end of the running ones. *)
Lemma chans_add (bl : list (nat * job)) (rn : list (nat * pc)) ch c : chans bl ++ chans (rn ++ [(ch, c)]) ≡ₚ ch :: (chans bl ++ chans rn).
Proof. unfold chans. rewrite fmap_app, app_assoc. cbn [fmap list_fmap fst]. by rewrite <-Permutation_cons_append. Qed.

Lemma sinv_start b b' st st' bl rn ch c : sinv (mkSys b st bl rn) -> binv b' -> chan_start b b' ch -> sinv (mkSys b' st' bl (rn ++ [(ch, c)])).
Proof.
  intros [] Hb (id & code & -> & HH & HW & HA & HN & HT). cbn in *. pose proof (lt_not_in _ _ si_lt_jobs0) as Hfresh.
  assert (b_nextch b ∉ (b_timers b).*2) as Hft by (apply lt_not_in, Forall_fmap; done).
  split; cbn; rewrite ?HA, ?HN, ?HW, ?HT, ?HH, ?chans_add; try done.
  - by constructor.
  - rewrite fmap_app. apply NoDup_app. split_and!; [done| |apply NoDup_singleton]. intros x Hc Hc'. by apply list_elem_of_singleton in Hc' as ->.
  - constructor; [lia|]. by apply Forall_lt_S.
  - apply Forall_app. split; [|constructor; [simpl; lia|done]]. eapply Forall_impl; [exact si_lt_timers0|]. simpl. lia.
  - intros key x. rewrite lookup_insert_Some. setoid_rewrite elem_of_app. intros [[<- <-]|[_ Hc]].
    + exists id, code. split; [done|]. right. by left.
    + apply si_handlers0 in Hc as (id' & code' & -> & Ht). exists id', code'. split; [done|by left].
Qed.

(** A receive returns: the job leaves the blocked ones. *)
Lemma sinv_take b st st' bl rn i k ch j r : sinv (mkSys b st bl rn) -> b_acks b !! i = Some (ch, r) -> bl !! k = Some (ch, j) ->
  sinv (mkSys (ack_take b i) st' (delete k bl) rn) /\ ch ∉ chans (delete k bl) ++ chans rn /\ (ch < b_nextch b)%nat.
Proof.
  intros [] Hi Hk. cbn in *. pose proof (delete_Permutation _ _ _ Hk) as Pb. pose proof (delete_Permutation _ _ _ Hi) as Pa.
  assert (chans bl ≡ₚ ch :: chans (delete k bl)) as Pc by exact (fmap_Permutation fst _ _ Pb).
  assert ((b_acks b).*1 ≡ₚ ch :: (delete i (b_acks b)).*1) as Pd by exact (fmap_Permutation fst _ _ Pa).
  rewrite Pc in si_jobs0, si_lt_jobs0. cbn [app] in si_jobs0, si_lt_jobs0. apply NoDup_cons in si_jobs0 as [Hnin Hnd].
  inversion si_lt_jobs0 as [|? ? Hlt Hlts]; subst. destruct si_acks0 as [Hna Ha]. rewrite Pd in Hna. apply NoDup_cons in Hna as [Hni Hna].
  rewrite elem_of_app in Hnin. split; [|by rewrite elem_of_app]. split; cbn; try done.
  - by apply (binv_handlers b).
  - intros c Hc. destruct (si_blocked0 c) as [|Hx]; [rewrite Pc; by right|by left|right]. rewrite Pd in Hx.
    apply elem_of_cons in Hx as [->|]; [|done]. exfalso. apply Hnin. by left.
  - intros c Hc. destruct (si_waiting0 c Hc) as [Hx Hy]. rewrite Pc in Hx. rewrite Pd in Hy. apply not_elem_of_cons in Hy as [Hne Hy].
    apply elem_of_cons in Hx as [->|]; done.
  - split; [done|]. intros c Hc. assert (c ∈ chans bl) as Hx by (apply Ha; rewrite Pd; by right). rewrite Pc in Hx.
    apply elem_of_cons in Hx as [->|]; done.
Qed.

Lemma sinv_again b b' st st' bl rn ch c : sinv (mkSys b st bl rn) -> binv b' -> chan_same b b' -> ch ∉ chans bl ++ chans rn ->
  (ch < b_nextch b)%nat -> sinv (mkSys b' st' bl (rn ++ [(ch, c)])).
Proof.
  intros HS Hb' Hs Hni Hlt. pose proof (sinv_same _ _ _ st' _ _ _ _ HS Hb' Hs eq_refl eq_refl) as HI. destruct Hs as (_ & _ & _ & HN & _).
  destruct HI. cbn in *. split; cbn; rewrite ?chans_add; try done; [by constructor|]. constructor; [lia|done].
Qed.

(** The next receive. *)
Lemma sinv_recv b st st' bl rn k ch c j : sinv (mkSys b st bl rn) -> rn !! k = Some (ch, c) ->
  sinv (mkSys (ack_wait b ch) st' (bl ++ [(ch, j)]) (delete k rn)).
Proof.
  intros [] Hk. cbn in *. pose proof (delete_Permutation _ _ _ Hk) as Pr.
  assert (chans (bl ++ [(ch, j)]) ++ chans (delete k rn) ≡ₚ chans bl ++ chans rn) as Pc.
  { unfold chans. rewrite fmap_app, <-app_assoc, (fmap_Permutation fst _ _ Pr). done. }
  assert (forall c, c ∈ chans (bl ++ [(ch, j)]) <-> c ∈ chans bl \/ c = ch) as Hch.
  { intros x. unfold chans. rewrite fmap_app, elem_of_app. cbn. rewrite list_elem_of_singleton. done. }
  assert (ch ∉ chans bl) as Hnb.
  { intros Hc. apply NoDup_app in si_jobs0 as (_ & Hd & _). apply (Hd ch Hc). apply (list_elem_of_fmap_2 fst rn (ch, c)). by eapply list_elem_of_lookup_2. }
  split; cbn; rewrite ?Pc; try done.
  - by apply (binv_handlers b).
  - intros x. rewrite Hch, elem_of_union, elem_of_singleton. intros [Hc| ->]; [|by left; left]. destruct (si_blocked0 x Hc); tauto.
  - intros x. rewrite Hch, elem_of_union, elem_of_singleton. intros [->|Hc].
    + split; [by right|]. intros Ha. by apply Hnb, si_acks0.
    + destruct (si_waiting0 x Hc). tauto.
  - destruct si_acks0 as [Hn Ha]. split; [done|]. intros x Hc. rewrite Hch. left. by apply Ha.
Qed.

(** ** The operations *)

Lemma dispatch_binv b now code payload mac peer b' e : binv b -> dispatch_packet b now code payload mac peer = Ok (b', e) -> binv b'.
Proof.
  intros I HD. unfold dispatch_packet in HD. destruct (code =? pingPacket).
  { assert (ping_decodes payload) as Hp.
    { unfold handlePingPacket in HD. destruct (Parse payload) as [v|] eqn:Ev; [|done]. destruct (ping_UnmarshalRLP v) as [m| | |] eqn:Em; try done. by exists v, m. }
    destruct (handlePingPacket_inv b now payload mac peer I Hp) as (b1 & e1 & HE & I1). congruence. }
  destruct (code =? findnodePacket).
  { destruct (Backend_hasExpired b peer) eqn:Ex; [unfold handleFindNodePacket in HD; rewrite Ex in HD; congruence|].
    assert (findnode_decodes payload) as Hp.
    { unfold handleFindNodePacket in HD. rewrite Ex in HD. destruct (Parse payload) as [v|] eqn:Ev; [|done].
      destruct (findNode_UnmarshalRLP v) as [m| | |] eqn:Em; try done. by exists v, m. }
    destruct (handleFindNodePacket_inv b payload peer I Hp) as (b1 & e1 & HE & I1). congruence. }
  destruct (code =? neighborsPacket); [congruence|]. destruct (code =? pongPacket); congruence.
Qed.

Lemma HandlePacket_binv b now pk b' e : binv b -> HandlePacket b now pk = Ok (b', e) -> binv b'.
Proof.
  intros I. unfold HandlePacket. destruct (decodePacket _) as [[[mac sd] pub]|?| |]; try congruence.
  destruct (pkt_From pk) as [a|]; [|congruence]. destruct (newPeer _ _ _) as [p|?| |]; try congruence.
  destruct (idx sd 0) as [code| | |]; try done. cbn [mbind outcome_bind]. set (peer := mkPeer _ _ _ _ _).
  destruct (getCallback b (p_ID peer) code) as [ch|]; [|by apply dispatch_binv].
  destruct (ack_send_inv b ch (mkRespMsg true (drop 1 sd) (Some (pkt_Timestamp pk))) I) as [I1 _].
  destruct (negb _); [congruence|]. by apply dispatch_binv.
Qed.

Lemma setHandler_start b id code : binv b -> binv (setHandler b id code).1 /\ chan_start b (setHandler b id code).1 (setHandler b id code).2.
Proof. intros []. split; [by split|]. by exists id, code. Qed.

Lemma start_handler_inv b x b' ch c : binv b -> start_handler b x = (b', ch, c) -> binv b' /\ chan_start b b' ch.
Proof. intros I HS. destruct x; cbn in HS; injection HS as <- <- <-; by apply setHandler_start. Qed.

(** A packet is sent: only the wire changes. *)
Lemma send_inv b peer code (m : bytes -> bytes) msg : binv b -> (forall dst, m dst = dst ++ msg) ->
  exists b', ('(b, _) ← sendPacket b peer code m; Ok b) = Ok b' /\ binv b' /\ chan_same b b'.
Proof.
  intros I Hm. destruct (sendPacket_inv b peer code msg I) as (b' & e & HE & I' & _). exists b'.
  assert (sendPacket b peer code m = Ok (b', e)) as HS by (rewrite <-HE; unfold sendPacket, encodePacket; by rewrite Hm).
  rewrite HS. split_and!; [done|done|by eapply sendPacket_chan].
Qed.

Lemma job_send_inv b now j : binv b -> exists b', job_send b now j = Ok b' /\ binv b' /\ chan_same b b'.
Proof.
  intros I. destruct j; cbn [job_send]; [by eapply send_inv|by eexists|by eapply send_inv].
Qed.

Lemma probe_finish_inv b p r : binv b -> exists b' ok, probe_finish ip_String b p r = Ok (b', ok) /\ binv b' /\ chan_same b b'.
Proof.
  intros I. unfold probe_finish. destruct (resp_Complete r); [|by eexists _, _].
  edestruct (updatePeer_inv b) as (b1 & HU & I1 & _); [done|]. rewrite HU. apply updatePeer_chan in HU. cbn [mbind outcome_bind].
  eexists _, _. split; [done|]. split; [|exact HU]. apply binv_queues; [done|apply I1|].
  destruct (Nat.ltb_spec (length (b_events b1)) 10); [rewrite length_app; simpl; lia|apply I1].
Qed.

Lemma sendTasks_inv b ps : binv b -> binv (foldl sendTask b ps) /\ chan_same b (foldl sendTask b ps).
Proof.
  revert b. induction ps as [|p ps IH]; intros b I; [done|]. cbn [foldl]. destruct (sendTask_inv b p I) as [I1 _].
  destruct (IH _ I1) as [I2 Hs]. split; [done|]. eapply chan_same_trans; [apply sendTask_chan|exact Hs].
Qed.

(** What a job does when its receive returns. *)
Lemma job_resp_inv b j r b' nx : binv b -> job_resp ip_String b j r = Ok (b', nx) -> binv b' /\ chan_same b b'.
Proof.
  intros I. destruct j as [p th|p|p ps one]; cbn [job_resp].
  - destruct (probe_finish_inv b p r I) as (b1 & ok & -> & I1 & Hs). cbn [mbind outcome_bind].
    destruct (negb th), (negb ok); by intros [= <- <-].
  - destruct (negb _); by intros [= <- <-].
  - unfold find_resp. destruct (resp_Complete r).
    + destruct (Parse _) as [v|]; [|done]. destruct (neighbors_UnmarshalRLP v) as [n| | |]; try done.
      destruct (mapO toPeer (nb_Nodes n)) as [new| | |]; try done; [|by intros [= <- <-]]. cbn [mbind outcome_bind].
      rewrite orb_true_r. destruct (negb _); [by intros [= <- <-]|]. unfold find_finish. cbn [negb].
      intros [= <- <-]. by apply sendTasks_inv.
    + rewrite orb_false_r. unfold find_finish. destruct one; cbn [negb]; intros [= <- <-]; [by apply sendTasks_inv|done].
Qed.

Definition neighbors_decodes (payload : bytes) : Prop := exists v n, Parse payload = Some v /\ neighbors_UnmarshalRLP v = Ok n.

Lemma newPeer_no_panic id addr tcp : newPeer id addr tcp ≠ Panic.
Proof. unfold newPeer, DecodeHex. destruct (negb _); [done|]. by destruct (hex_DecodeString _). Qed.

Lemma toPeers_no_panic l : mapO toPeer l ≠ Panic.
Proof.
  induction l as [|n l IH]; [done|]. cbn [mapO]. pose proof (newPeer_no_panic (EncodeToHex (n_ID n)) (mkAddr (n_IP n) (n_UDP n)) (n_TCP n)) as Hn.
  change (toPeer n) with (newPeer (EncodeToHex (n_ID n)) (mkAddr (n_IP n) (n_UDP n)) (n_TCP n)).
  destruct (newPeer _ _ _); cbn [mbind outcome_bind]; try done. destruct (mapO toPeer l); done.
Qed.

(** The only response that panics. *)
Lemma job_resp_panic b j r : binv b -> job_resp ip_String b j r = Panic ->
  exists p ps one, j = JFind p ps one /\ resp_Complete r = true /\ ~ neighbors_decodes (resp_Payload r).
Proof.
  intros I. destruct j as [p th|p|p ps one]; cbn [job_resp].
  - destruct (probe_finish_inv b p r I) as (b1 & ok & -> & _). cbn [mbind outcome_bind]. by destruct (negb th), (negb ok).
  - by destruct (negb _).
  - intros HP. exists p, ps, one. split; [done|]. unfold find_resp in HP. destruct (resp_Complete r).
    + split; [done|]. intros (v & n & Hv & Hn). rewrite Hv, Hn in HP. pose proof (toPeers_no_panic (nb_Nodes n)).
      destruct (mapO toPeer (nb_Nodes n)); cbn [mbind outcome_bind] in HP; try done. rewrite orb_true_r in HP. by destruct (negb _).
    + rewrite orb_false_r in HP. unfold find_finish in HP. by destruct one.
Qed.

(** A timer fires: its handler goes away, and the goroutine that waits gets the failure. *)
Lemma timers_unique (l : list (string * Z * nat)) t t' : NoDup l.*2 -> t ∈ l -> t' ∈ l -> t.2 = t'.2 -> t = t'.
Proof.
  intros Hn (i & Hi)%list_elem_of_lookup (j & Hj)%list_elem_of_lookup He. assert (i = j) as ->; [|congruence].
  eapply NoDup_lookup; [exact Hn|..]; rewrite list_lookup_fmap; [by rewrite Hi|by rewrite Hj, He].
Qed.

Lemma sinv_timeout b st bl rn id code ch : sinv (mkSys b st bl rn) -> (id, code, ch) ∈ b_timers b ->
  sinv (mkSys (handler_timeout b id code ch) st bl rn).
Proof.
  intros HS Ht. pose proof HS as HS'. destruct HS'. cbn in *. unfold handler_timeout, ack_send.
  set (tm := filter (fun t => t.2 ≠ ch) (b_timers b)). set (b1 := set_handlers _ _ _ _ _).
  assert (forall t, t ∈ tm <-> t ∈ b_timers b /\ t.2 ≠ ch) as Htm by (intros t; unfold tm; rewrite list_elem_of_filter; tauto).
  assert (NoDup tm.*2) as Hnd by (unfold tm; eapply sublist_NoDup; [exact si_timers_nd0|apply fmap_sublist, sublist_filter]).
  assert (forall key c, delete (handler_key id code) (b_handlers b) !! key = Some c -> exists id' code', key = handler_key id' code' /\ (id', code', c) ∈ tm) as Hh.
  { intros key c. rewrite lookup_delete_Some. intros [Hne Hc]. apply si_handlers0 in Hc as (id' & code' & -> & Hin).
    exists id', code'. split; [done|]. apply Htm. split; [done|]. simpl. intros ->. apply Hne.
    pose proof (timers_unique _ _ _ si_timers_nd0 Ht Hin eq_refl) as E. by injection E as <- <-. }
  assert (binv b1) as Ib by (destruct si_b0; by split).
  case_bool_decide as Hw.
  - eapply (sinv_deliver b _ st bl rn ch); try done; [by apply (binv_handlers b1)|]. cbn. intros t. rewrite Htm. tauto.
  - split; cbn; try done. apply Forall_forall. intros t. rewrite Htm. rewrite Forall_forall in si_lt_timers0. intros [? _]. by apply si_lt_timers0.
Qed.

Lemma held_chans {A} (R : A -> A -> Prop) l l' : Forall2 (held R) l l' -> chans l' = chans l.
Proof. induction 1 as [|[c x] [c' x'] l l' [Hc _] _ IH]; [done|]. unfold chans in *. rewrite !fmap_cons, IH. by f_equal. Qed.

Lemma chans_insert {A} (l : list (nat * A)) k ch c c' : l !! k = Some (ch, c) -> chans (<[k := (ch, c')]> l) = chans l.
Proof. intros Hk. unfold chans. rewrite list_fmap_insert. apply list_insert_id. by rewrite list_lookup_fmap, Hk. Qed.

Lemma sys_step_inv s s' : sys_step s s' -> sinv s -> sinv s'.
Proof.
  intros Hstep HS. pose proof (si_b _ HS) as I. destruct Hstep as [b st bl rn now pk b' e HP|b st bl rn p|b st bl rn p t Ht|b st bl rn p
    |b st bl rn k x b' ch c Hk HP|b st bl rn now k ch j b' Hk HP|b st bl rn k ch j Hk|b st bl rn id code ch Ht
    |b st bl rn i k ch j r b' nx Hi Hk HJ|b st bl rn e es He|b st bl rn tasks st' bl' rn' Ft Fs Fb Fr]; cbn in I.
  - pose proof (HandlePacket_binv _ _ _ _ _ I HP) as I'. apply HandlePacket_chan in HP as [|key ch m Hh E1 E2 Hw E3 E4 E5].
    + by eapply sinv_same.
    + eapply sinv_deliver; try done; rewrite ?E1, ?E5; [apply (si_handlers _ HS)|done|apply (si_timers_nd _ HS)].
  - by eapply sinv_same.
  - eapply sinv_same; [exact HS| |done..]. apply binv_queues; [done| |apply I]. pose proof (bi_tasks _ I) as Hl. rewrite Ht in Hl. simpl in Hl. lia.
  - by eapply sinv_same.
  - destruct (start_handler_inv _ _ _ _ _ I HP). by eapply sinv_start.
  - destruct (job_send_inv b now j I) as (? & HP' & I' & Hs). rewrite HP in HP'. injection HP' as <-. eapply sinv_same; [done..|]. by eapply chans_insert.
  - by eapply sinv_recv.
  - by apply sinv_timeout.
  - destruct (sinv_take _ _ (add_start st nx) _ _ _ _ _ _ _ HS Hi Hk) as (HS1 & Hni & Hlt). destruct (job_resp_inv _ _ _ _ _ (si_b _ HS1) HJ) as [I' Hs].
    destruct nx as [x|j'|o]; cbn [add_again]; [by eapply sinv_same|by eapply sinv_again|by eapply sinv_same].
  - eapply sinv_same; [exact HS| |done..]. apply binv_queues; [done|apply I|]. pose proof (bi_events _ I) as Hl. rewrite He in Hl. simpl in Hl. lia.
  - eapply sinv_same; [exact HS| |done|by eapply held_chans..]. apply binv_queues; [done| |apply I]. rewrite <-(Forall2_length _ _ _ Ft). apply I.
Qed.

Lemma sys_inv key addr s : sys_reachable key addr s -> sinv s.
Proof.
  intros (s0 & (b & HB & ->) & Hr). assert (sinv (mkSys b [] [] [])) as H0'.
  { destruct (NewBackend_inv key addr) as (b' & HB' & I & _). rewrite HB in HB'. injection HB' as <-.
    unfold NewBackend in HB. destruct (newPeer _ _ _); try done. cbn [mbind outcome_bind] in HB. injection HB as <-.
    split; cbn; try done; try (by constructor); try (intros *; by rewrite ?elem_of_nil, ?lookup_empty); try set_solver.
    split; [by constructor|set_solver]. }
  remember (mkSys b [] [] []) as s0 eqn:E. clear E HB b. induction Hr as [s|s1 s2 s3 Hst _ IH]; [done|]. apply IH. by eapply sys_step_inv.
Qed.

(** The packets and responses that end the process. *)
Lemma sys_panics_cause s c : sinv s -> sys_panics s c ->
  match c with
  | CPacket _ pk => ~ harmless pk
  | CSend _ => False
  | CResp j r => exists p ps one, j = JFind p ps one /\ resp_Complete r = true /\ ~ neighbors_decodes (resp_Payload r)
  end.
Proof.
  intros HS Hp. destruct Hp as [b st bl rn now pk HP|b st bl rn now k ch j Hk HP|b st bl rn i k ch j r Hi Hk HP]; pose proof (si_b _ HS) as I; cbn in I.
  - intros Hh. destruct (HandlePacket_inv b now pk I Hh) as (? & ? & HE & _). congruence.
  - destruct (job_send_inv b now j I) as (? & HE & _). congruence.
  - apply (job_resp_panic (ack_take b i)); [by apply (binv_handlers b)|done].
Qed.

(** ** A channel nobody will send to any more *)

Record hung (ch : nat) (s : sys) : Prop := {
  hg_inv : sinv s;
  hg_waiting : ch ∈ b_waiting (s_b s);
  hg_timer : ch ∉ (b_timers (s_b s)).*2;
}.

Lemma hung_handler ch s key : hung ch s -> b_handlers (s_b s) !! key ≠ Some ch.
Proof.
  intros Hh Hk. apply (si_handlers _ (hg_inv _ _ Hh)) in Hk as (id & code & _ & Ht). apply (hg_timer _ _ Hh).
  by apply (list_elem_of_fmap_2 snd) in Ht.
Qed.

Lemma hung_fresh ch s : hung ch s -> (ch < b_nextch (s_b s))%nat.
Proof.
  intros [Hi Hw _]. apply (si_waiting _ Hi) in Hw as [Hc _]. pose proof (si_lt_jobs _ Hi) as Hlt. rewrite Forall_forall in Hlt.
  apply Hlt, elem_of_app. by left.
Qed.

Lemma handler_timeout_timers b id code ch : b_timers (handler_timeout b id code ch) = filter (fun t => t.2 ≠ ch) (b_timers b).
Proof. unfold handler_timeout, ack_send. by case_bool_decide. Qed.

Lemma hung_step ch s s' : sys_step s s' -> hung ch s -> hung ch s'.
Proof.
  intros Hst Hh. pose proof (sys_step_inv _ _ Hst (hg_inv _ _ Hh)) as Hi'. pose proof (si_b _ (hg_inv _ _ Hh)) as I. pose proof Hh as [HS Hw Hnt].
  destruct Hst as [b st bl rn now pk b' e HP|b st bl rn p|b st bl rn p t Ht|b st bl rn p
    |b st bl rn k x b' ch' c Hk HP|b st bl rn now k ch' j b' Hk HP|b st bl rn k ch' j Hk|b st bl rn id code ch' Ht
    |b st bl rn i k ch' j r b' nx Hi Hk HJ|b st bl rn e es He|b st bl rn tasks st' bl' rn' Ft Fs Fb Fr]; cbn in *; try (by split).
  - apply HandlePacket_chan in HP as [E1 E2 E3 E4 E5|key c m Hk E1 E2 Hw' E3 E4 E5].
    + split; cbn; [done|by rewrite E2|by rewrite E5].
    + split; cbn; [done| |by rewrite E5]. rewrite E2, elem_of_difference, elem_of_singleton. split; [done|].
      intros ->. by apply (hung_handler _ _ key Hh).
  - destruct (start_handler_inv _ _ _ _ _ I HP) as [_ (id & code & -> & _ & E2 & _ & _ & E5)]. split; cbn; [done|by rewrite E2|].
    rewrite E5, fmap_app, elem_of_app. intros [?|Hc]; [done|]. apply list_elem_of_singleton in Hc. pose proof (hung_fresh _ _ Hh). cbn in *. lia.
  - destruct (job_send_inv b now j I) as (? & HP' & _ & (_ & E2 & _ & _ & E5)). rewrite HP in HP'. injection HP' as <-.
    split; cbn; [done|by rewrite E2|by rewrite E5].
  - split; cbn; [done|set_solver|done].
  - assert (ch ≠ ch') as Hne by (intros ->; apply Hnt; by apply (list_elem_of_fmap_2 snd) in Ht). split; cbn; [done| |].
    + unfold handler_timeout, ack_send. case_bool_decide; cbn; set_solver.
    + rewrite handler_timeout_timers. intros (t & -> & Hin)%list_elem_of_fmap. apply list_elem_of_filter in Hin as [_ Hin].
      apply Hnt. by apply (list_elem_of_fmap_2 snd).
  - destruct (job_resp_inv (ack_take b i) j r b' nx) as [_ (_ & E2 & _ & _ & E5)]; [by apply (binv_handlers b)|done|].
    split; cbn; [done|by rewrite E2|by rewrite E5].
Qed.

Lemma hung_forever ch s s' : rtc sys_step s s' -> hung ch s -> hung ch s'.
Proof. induction 1 as [|s1 s2 s3 Hst _ IH]; [done|]. intros Hh. by eapply IH, hung_step. Qed.

(** The timer fires before the receive, and the receive is for ever. *)
Lemma running_hangs s ch j : sinv s -> (ch, PRecv j) ∈ s_running s -> exists s', rtc sys_step s s' /\ (ch, j) ∈ s_blocked s' /\ hung ch s'.
Proof.
  intros HS Hr. destruct s as [b st bl rn]. cbn in Hr.
  assert (exists b1, rtc sys_step (mkSys b st bl rn) (mkSys b1 st bl rn) /\ sinv (mkSys b1 st bl rn) /\ ch ∉ (b_timers b1).*2) as (b1 & Hst & HS1 & Hn).
  { destruct (decide (ch ∈ (b_timers b).*2)) as [Hin|Hin]; [|exists b; by split_and!].
    apply list_elem_of_fmap in Hin as ([[id code] c] & -> & Ht). cbn. eexists. split; [apply rtc_once; by eapply st_timeout|].
    split; [by apply sinv_timeout|]. rewrite handler_timeout_timers. intros (t & -> & Hin)%list_elem_of_fmap. by apply list_elem_of_filter in Hin as [? _]. }
  apply list_elem_of_lookup in Hr as [k Hk]. eexists. split; [eapply rtc_r; [exact Hst|by apply st_recv]|].
  pose proof (sinv_recv _ _ st _ _ _ _ _ j HS1 Hk). split; [cbn; apply elem_of_app; right; by left|]. split; cbn; [done|set_solver|done].
Qed.

(** ** A probe *)

(** The probe of any peer gets to its receive, if nothing comes in between. *)
Lemma probe_steps b st bl rn now p th b' ch : rn = [] -> probe_wait b now p = Ok (b', ch) ->
  rtc sys_step (mkSys b (st ++ [SProbe p th]) bl rn) (mkSys b' st (bl ++ [(ch, JProbe p th)]) rn).
Proof.
  intros -> HP. unfold probe_wait in HP. destruct (setHandler b (p_ID p) pongPacket) as [b1 c1] eqn:E1.
  destruct (probe_send b1 now p) as [b2| | |] eqn:E2; try done. cbn [mbind outcome_bind] in HP. injection HP as <- <-.
  eapply rtc_l; [eapply (st_handler _ _ _ _ (length st) (SProbe p th)); [by rewrite lookup_app_r, Nat.sub_diag by done|cbn [start_handler]; by rewrite E1]|].
  replace (delete (length st) (st ++ [SProbe p th])) with st by (rewrite delete_middle, app_nil_r; done).
  eapply rtc_l; [by eapply (st_send _ _ _ _ now 0 c1 (JProbe p th))|]. cbn. apply rtc_once. by apply (st_recv _ _ _ [(c1, PRecv (JProbe p th))] 0).
Qed.

Lemma probe_sent b now p : binv b -> exists b1 b2 ch, setHandler b (p_ID p) pongPacket = (b1, ch) /\ probe_send b1 now p = Ok b2 /\
  probe_wait b now p = Ok (ack_wait b2 ch, ch).
Proof.
  intros I. destruct (setHandler b (p_ID p) pongPacket) as [b1 ch] eqn:E. pose proof (proj1 (setHandler_start b (p_ID p) pongPacket I)) as I1. rewrite E in I1.
  destruct (job_send_inv b1 now (JProbe p false) I1) as (b2 & HS & _). exists b1, b2, ch. split_and!; [done|done|].
  unfold probe_wait. rewrite E. cbn [job_send] in HS. by rewrite HS.
Qed.

End System.

(** ** Properties *)


(** The state in which a probe of [peer_of 7] waits for its pong. *)
Lemma probed_reachable : exists s ch, sys_reachable (fun _ => EmptyString) (toy_key 5) addr0 s /\ s_blocked s = [(ch, JProbe (peer_of 7 addr1) false)] /\
  b_acks (s_b s) = [] /\ s_running s = [].
Proof.
  destruct (NewBackend_inv (toy_key 5) addr0) as (b0 & HB & I0 & _ & Hup & _).
  assert (b_acks b0 = []) as Ha0 by (unfold NewBackend in HB; destruct (newPeer _ _ _); try done; cbn [mbind outcome_bind] in HB; by injection HB as <-).
  destruct (probe_wait_eq b0 0 (peer_of 7 addr1) Hup) as (ping & b1 & _ & HS & _ & _ & _ & _ & _ & Ha & _).
  exists (mkSys b1 [] [(b_nextch b0, JProbe (peer_of 7 addr1) false)] []), (b_nextch b0). split_and!; [|done|cbn; by rewrite Ha|done].
  exists (mkSys b0 [] [] []). split; [by exists b0|]. eapply rtc_l; [apply (st_probe _ b0 [] [] [] (peer_of 7 addr1))|].
  by apply (probe_steps _ b0 [] [] [] 0).
Qed.




(** Requests can wait for ever.  From any reachable state in which a goroutine is about to receive, its
    timer can fire first; the failure is dropped, the handler is gone, and the goroutine stays in its
    receive whatever happens.  So the first probe of a new node, of whatever peer, need never end. *)
Theorem request_hangs `{Keccak} `{Curve} `{FastRLP} `{GoSort} ip_String key addr :
  (forall s ch j, sys_reachable ip_String key addr s -> (ch, PRecv j) ∈ s_running s -> exists s1, rtc (sys_step ip_String) s s1 /\
    forall s', rtc (sys_step ip_String) s1 s' -> ch ∈ chans (s_blocked s') /\ ch ∉ (b_acks (s_b s')).*1) /\
  (forall p, exists s ch, sys_reachable ip_String key addr s /\ (ch, JProbe p false) ∈ s_blocked s /\
    forall s', rtc (sys_step ip_String) s s' -> ch ∈ chans (s_blocked s') /\ ch ∉ (b_acks (s_b s')).*1).
Proof.
  assert (forall s ch, hung ch s -> forall s', rtc (sys_step ip_String) s s' -> ch ∈ chans (s_blocked s') /\ ch ∉ (b_acks (s_b s')).*1) as Hf.
  { intros s ch Hh s' Hs. destruct (hung_forever ip_String _ _ _ Hs Hh) as [Hi Hw _]. by apply (si_waiting _ Hi). }
  split.
  - intros s ch j Hr Hin. destruct (running_hangs ip_String s ch j (sys_inv _ _ _ _ Hr) Hin) as (s1 & Hs & _ & Hh). exists s1. split; [done|]. by apply Hf.
  - intros p. destruct (NewBackend_inv key addr) as (b0 & HB & I0 & _). destruct (probe_sent b0 0 p I0) as (b1 & b2 & ch & E1 & E2 & _).
    assert (rtc (sys_step ip_String) (mkSys b0 [] [] []) (mkSys b2 [] [] [(ch, PRecv (JProbe p false))])) as Hr.
    { eapply rtc_l; [apply (st_probe _ b0 [] [] [] p)|]. eapply rtc_l; [eapply (st_handler _ b0 [SProbe p false] [] [] 0); [done|cbn [start_handler]; by rewrite E1]|].
      apply rtc_once. by eapply (st_send _ b1 [] [] [(ch, PSend (JProbe p false))] 0 0). }
    assert (sys_reachable ip_String key addr (mkSys b2 [] [] [(ch, PRecv (JProbe p false))])) as Hre by (eexists; split; [by exists b0|done]).
    destruct (running_hangs ip_String _ ch (JProbe p false) (sys_inv _ _ _ _ Hre)) as (s1 & Hs & Hb & Hh); [by left|].
    exists s1, ch. split_and!; [|done|by apply Hf]. exists (mkSys b0 [] [] []). split; [by exists b0|by etrans].
Qed.

(** The neighbours a peer sends can end the process: the payload is not checked before it is decoded. *)
Theorem malformed_neighbors_panic `{Keccak} `{Curve} `{FastRLP} `{GoSort} ip_String (b : Backend) p ps one ts :
  job_resp ip_String b (JFind p ps one) (mkRespMsg true (MarshalTo (NewArray [])) ts) = Panic.
Proof.
  cbn [job_resp]. unfold find_resp. cbn [resp_Complete resp_Payload]. rewrite Parse_MarshalTo'; [|by apply valid_array|].
  - unfold neighbors_UnmarshalRLP. by rewrite GetElems_array.
  - unfold len_ok. pose proof (MarshalTo_len_array []) as HA. cbn [map concat length] in *. lia.
Qed.

(** A timer that was not stopped cuts off a later request.  The timer of a request deletes the
    handler under its key even if it is that of a newer request to the same peer; the answer to the
    newer one is then refused. *)
Theorem stale_timer `{Keccak} `{Curve} `{FastRLP} `{GoSort} (b : Backend) k now buf addr ts mac payload :
  decodePacket buf = Ok (mac, pongPacket :: payload, MarshallPublicKey k) ->
  let '(b1, ch1) := setHandler b (node_id k) pongPacket in
  let '(b2, ch2) := setHandler b1 (node_id k) pongPacket in
  let b3 := handler_timeout (ack_wait b2 ch2) (node_id k) pongPacket ch1 in
  ch1 ≠ ch2 /\ ch2 ∈ b_waiting b3 /\ (node_id k, pongPacket, ch2) ∈ b_timers b3 /\
  HandlePacket b3 now (mkPacket buf (Some addr) ts) = Ok (b3, Some ("pongPacket not expected")%string).
Proof.
  intros HD. unfold setHandler. cbn [set_timers set_handlers b_nextch]. set (b2 := set_timers _ _). set (b3 := handler_timeout _ _ _ _).
  assert (b_nextch b ≠ S (b_nextch b)) as Hne by lia. split_and!; [done| | |].
  - unfold b3, handler_timeout, ack_send. case_bool_decide; cbn; set_solver by lia.
  - unfold b3. rewrite handler_timeout_timers. apply list_elem_of_filter. split; [simpl; lia|]. cbn. apply elem_of_app. right. by left.
  - rewrite (HandlePacket_eq _ _ _ _ _ _ _ _ _ HD). assert (getCallback b3 (node_id k) pongPacket = None) as ->; [|done].
    unfold b3, getCallback, handler_timeout, ack_send. case_bool_decide; cbn; by rewrite lookup_delete_eq.
Qed.

Lemma stale_timer_witness : exists (b b3 : Backend) buf ch2, NewBackend (toy_key 5) addr0 = Ok b /\ ch2 ∈ b_waiting b3 /\
  HandlePacket b3 0 (mkPacket buf (Some addr1) 0) = Ok (b3, Some ("pongPacket not expected")%string).
Proof.
  destruct (NewBackend_inv (toy_key 5) addr0) as (b & HB & _). destruct (encodePacket_eq (toy_key 7) pongPacket []) as (sig & _ & _ & _ & HE).
  destruct (decode_encode _ _ _ _ HE) as (mac & HD & _). pose proof (stale_timer b (pub_of (toy_key 7)) 0 _ addr1 0 _ _ HD) as HT.
  cbn beta iota delta [setHandler] in HT. destruct HT as (_ & Hw & _ & HP). eexists b, _, _, _. split; [exact HB|]. split; [exact Hw|exact HP].
Defined.
