(* ===== verification/Discv4Lookup.v ===== *)
(** * Discovery: the lookup

    [LookupTarget] asks peers for their neighbours, three at a time, and asks every node it hears of.
    A [lookup_step] is the reply of one of the peers being asked.  A lookup whose requests return ends,
    after at most as many replies as there were peers to start with and nodes to hear of, and by then it
    has asked each of them.  Whether a request returns is the subject of [Discv4Sys.request_fate]. *)

From stdpp Require Import base gmap sets strings numbers list relations.
From S2P Require Import Prelude GoStd Rlp Crypto RlpxMsg KadBucket KadTable KadTheorems Discv4Msg Discv4 Discv4Theorems.
Local Open Scope Z_scope.

(** A reply whose nodes have their ids in [U]. *)
Inductive lookup_step (U : gset string) : lookupState -> lookupState -> Prop :=
| lookup_step_reply l i nodes : (i < length (lk_pending l))%nat -> Forall (fun p => p_ID p ∈ U) nodes ->
    lookup_step U l (lookup_reply l i nodes).

Definition lk_measure (U : gset string) (l : lookupState) : nat :=
  length (lk_pending l) + length (lk_queue l) + size (U ∖ lk_visited l).

(** The peers asked and the queue are the peers of the start and the nodes heard of, each once. *)
Definition lk_covers (q0 : list Peer) (l : lookupState) : Prop := exists vs,
  lk_asked l ++ lk_queue l ≡ₚ q0 ++ vs /\ NoDup (p_ID <$> vs) /\ forall id, id ∈ p_ID <$> vs <-> id ∈ lk_visited l.

Record linv (q0 : list Peer) (l : lookupState) : Prop := {
  li_pending : (length (lk_pending l) <= alpha)%nat;
  li_progress : lk_pending l = [] -> lk_queue l = [];
  li_covers : lk_covers q0 l;
}.

(** ** The loops *)

Lemma lookup_fill_spec q l : lk_queue l = q -> (length (lk_pending l) <= alpha)%nat ->
  let l' := lookup_fill q l in
  (length (lk_pending l') <= alpha)%nat /\ (lk_queue l' = [] \/ length (lk_pending l') = alpha) /\
  lk_asked l' ++ lk_queue l' = lk_asked l ++ lk_queue l /\ lk_visited l' = lk_visited l /\
  (length (lk_pending l') + length (lk_queue l') = length (lk_pending l) + length (lk_queue l))%nat.
Proof.
  revert l. induction q as [|p q IH]; intros l Hq Hp; cbn [lookup_fill].
  - cbn. rewrite Hq. split_and!; auto.
  - destruct (Nat.ltb_spec (length (lk_pending l)) alpha) as [Hlt|].
    + specialize (IH (lookup_findNodes l p q) eq_refl). cbn in IH. rewrite length_app in IH. cbn [length] in IH.
      destruct IH as (H1 & H2 & H3 & H4 & H5); [lia|]. cbn. split_and!; try done.
      * rewrite H3, Hq, <-app_assoc. done.
      * rewrite H5, Hq. simpl. lia.
    + cbn. rewrite Hq. split_and!; auto. right. lia.
Qed.

Lemma lookup_seed_spec fuel i l : (length (lk_pending l) = i)%nat -> (i + fuel <= alpha)%nat ->
  let l' := lookup_seed fuel i l in
  (length (lk_pending l') <= alpha)%nat /\ (length (lk_pending l) <= length (lk_pending l'))%nat /\
  lk_asked l' ++ lk_queue l' = lk_asked l ++ lk_queue l /\ lk_visited l' = lk_visited l /\
  (length (lk_pending l') + length (lk_queue l') = length (lk_pending l) + length (lk_queue l))%nat.
Proof.
  revert i l. induction fuel as [|k IH]; intros i l Hp Hi; cbn [lookup_seed]; [split_and!; auto; lia|].
  destruct (lk_queue l) as [|p q] eqn:Hq; [rewrite Hq; split_and!; auto; lia|]. destruct (Nat.ltb_spec i (Nat.min (S (length q)) alpha)).
  - destruct (IH (S i) (lookup_findNodes l p q)) as (H1 & H2 & H3 & H4 & H5); [cbn; rewrite length_app; simpl; lia|lia|].
    cbn in H2, H3, H4, H5. rewrite length_app in H2, H5. cbn [length] in H2, H5. split_and!; try done; [lia|rewrite H3, <-app_assoc; done|simpl; lia].
  - rewrite Hq. split_and!; auto. lia.
Qed.

(** A queue that is not empty leaves one request open. *)
Lemma lookup_seed_first k p q v a : lookup_seed (S k) 0 (mkLookup (p :: q) [] v a) = lookup_seed k 1 (lookup_findNodes (mkLookup (p :: q) [] v a) p q).
Proof. cbn [lookup_seed lk_queue]. destruct (Nat.ltb_spec 0 (Nat.min (S (length q)) alpha)); [done|]. unfold alpha in *. lia. Qed.

Lemma lookup_visit_spec nodes q v q' v' : lookup_visit nodes q v = (q', v') ->
  exists new, q' = q ++ new /\ NoDup (p_ID <$> new) /\ (forall id, id ∈ p_ID <$> new -> id ∉ v) /\
    (forall id, id ∈ v' <-> id ∈ v \/ id ∈ p_ID <$> new) /\ (forall id, id ∈ p_ID <$> new -> id ∈ p_ID <$> nodes) /\
    (forall id, id ∈ p_ID <$> nodes -> id ∈ v').
Proof.
  revert q v. induction nodes as [|p nodes IH]; intros q v; cbn [lookup_visit].
  - intros [= <- <-]. exists []. rewrite app_nil_r. split_and!; set_solver by (constructor).
  - case_bool_decide as Hin; intros HV; apply IH in HV as (new & -> & Hnd & Hfr & Hv & Hs & Ha).
    + exists new. split_and!; try done; rewrite fmap_cons; set_solver.
    + exists (p :: new). rewrite <-app_assoc. rewrite !fmap_cons. split_and!; [done| | | | |].
      * constructor; [|done]. intros Hc. apply Hfr in Hc. set_solver.
      * intros id. rewrite elem_of_cons. intros [->|Hc]; [done|]. apply Hfr in Hc. set_solver.
      * intros id. rewrite Hv, elem_of_cons. set_solver.
      * intros id. rewrite !elem_of_cons. intros [->|Hc]; [by left|right; by apply Hs].
      * intros id. rewrite elem_of_cons. intros [->|Hc]; [|by apply Ha]. apply Hv. left. set_solver.
Qed.

Lemma size_new (U v v' : gset string) (ids : list string) : NoDup ids -> (forall id, id ∈ ids -> id ∉ v /\ id ∈ U) ->
  (forall id, id ∈ v' <-> id ∈ v \/ id ∈ ids) -> (size (U ∖ v') + length ids = size (U ∖ v))%nat.
Proof.
  intros Hnd Hids Hv. rewrite <-(size_list_to_set (C:=gset string) ids Hnd), <-size_union.
  - f_equal. apply leibniz_equiv. intros id. rewrite elem_of_union, !elem_of_difference, elem_of_list_to_set, Hv.
    destruct (decide (id ∈ ids)) as [Hin|Hin]; [specialize (Hids _ Hin); tauto|tauto].
  - intros id. rewrite elem_of_difference, elem_of_list_to_set, Hv. tauto.
Qed.

(** A reply keeps the invariant and takes exactly one off the measure. *)
Lemma lookup_step_inv U q0 l l' : lookup_step U l l' -> linv q0 l -> linv q0 l' /\ (S (lk_measure U l') = lk_measure U l)%nat.
Proof.
  intros [l0 i nodes Hi HU] [Hp Hpr (vs & Hc & Hnd & Hv)]. unfold lookup_reply.
  destruct (lookup_visit nodes (lk_queue l0) (lk_visited l0)) as [q v] eqn:HV. apply lookup_visit_spec in HV as (new & -> & Hnn & Hfr & Hv' & Hs & _).
  assert (S (length (delete i (lk_pending l0))) = length (lk_pending l0))%nat as Hl.
  { rewrite length_delete by (by apply lookup_lt_is_Some). lia. }
  destruct (lookup_fill_spec (lk_queue l0 ++ new) (mkLookup (lk_queue l0 ++ new) (delete i (lk_pending l0)) v (lk_asked l0)) eq_refl)
    as (F1 & F2 & F3 & F4 & F5); [cbn; lia|]. set (l1 := lookup_fill _ _) in *. cbn in F3, F4, F5. split; [split|].
  - done.
  - intros E. destruct F2 as [|F2]; [done|]. rewrite E in F2. discriminate F2.
  - exists (vs ++ new). rewrite F3, app_assoc, Hc, <-app_assoc, fmap_app, F4. split_and!; [done| |].
    + apply NoDup_app. split_and!; [done| |done]. intros id Hid Hid'. apply Hfr in Hid'. by apply Hid', Hv.
    + intros id. rewrite elem_of_app, Hv, Hv'. tauto.
  - unfold lk_measure. rewrite F4, F5, length_app. rewrite <-(size_new U (lk_visited l0) v (p_ID <$> new)); [rewrite length_fmap; lia|done| |done].
    intros id Hid. split; [by apply Hfr|]. apply Hs in Hid. apply list_elem_of_fmap in Hid as (p & -> & Hin).
    rewrite Forall_forall in HU. by apply HU.
Qed.

Lemma lookup_run_inv U q0 n l l' : nsteps (lookup_step U) n l l' -> linv q0 l -> linv q0 l' /\ (n + lk_measure U l' = lk_measure U l)%nat.
Proof.
  induction 1 as [|n l1 l2 l3 Hst _ IH]; [done|]. intros Hi. destruct (lookup_step_inv _ _ _ _ Hst Hi) as [Hi2 Hm]. destruct (IH Hi2) as [Hi3 Hm3]. split; [done|lia].
Qed.

(** Replies cannot come for ever. *)
Lemma lookup_step_acc U q0 l : linv q0 l -> Acc (flip (lookup_step U)) l.
Proof.
  remember (lk_measure U l) as m eqn:Hm. revert l Hm. induction (lt_wf m) as [m _ IH]. intros l Hm Hi. constructor. intros l' Hst.
  destruct (lookup_step_inv _ _ _ _ Hst Hi) as [Hi' Hl]. eapply (IH (lk_measure U l')); [lia|done|done].
Qed.

Section Start.
Context `{Keccak} `{Curve} `{FastRLP} `{GoSort}.

Lemma lookup_start_inv b target : binv b -> exists q0 l, NearestPeersFromTarget b target = Ok q0 /\ (length q0 <= 16)%nat /\
  lookup_start b true target = Ok (Some l) /\ linv q0 l /\ lk_visited l = ∅ /\ (length (lk_pending l) + length (lk_queue l) = length q0)%nat.
Proof.
  intros I. destruct (NearestPeersFromTarget_ok b target I) as (q0 & HN & Hl & _). exists q0. unfold lookup_start. cbn [negb]. rewrite HN. cbn [mbind outcome_bind].
  eexists. split; [done|]. split; [done|]. split; [done|].
  destruct (lookup_seed_spec alpha 0 (mkLookup q0 [] ∅ [])) as (S1 & S2 & S3 & S4 & S5); [done|done|]. split_and!; [split|done|done].
  - done.
  - intros E. destruct q0 as [|p q]; [|exfalso].
    + done.
    + change alpha with 3%nat in E. rewrite lookup_seed_first in E. set (l1 := lookup_findNodes _ p q) in E.
      destruct (lookup_seed_spec 2 1 l1) as (_ & T2 & _); [done|unfold alpha; lia|]. rewrite E in T2. simpl in T2. lia.
  - exists []. rewrite S3, S4. cbn. rewrite app_nil_r. split_and!; [done|constructor|set_solver].
Qed.

End Start.

(** ** Properties *)



(** Two seeds, four ids: the second peer heard of is asked too, and the lookup ends after four replies. *)
Example lookup_example :
  let p d := peer_of d addr0 in
  let l0 := lookup_seed alpha 0 (mkLookup [p 1%N; p 2%N] [] ∅ []) in
  let l1 := lookup_reply l0 0 [p 2%N; p 3%N] in
  let l2 := lookup_reply l1 0 [p 3%N] in
  let l3 := lookup_reply (lookup_reply l2 0 []) 0 [] in
  lk_pending l0 = [p 1%N] /\ lk_pending l1 = [p 2%N; p 2%N; p 3%N] /\ lk_pending l3 = [] /\ length (lk_asked l3) = 4%nat.
Proof. vm_compute. split_and!; reflexivity. Qed.
