(* ===== verification/Discv4Net.v ===== *)
(** * Discovery: transports and the life of a backend

    [discovery/udp_transport.go], [discovery/mock_transport.go] and the parts of [discovery/discv4.go] that
    set a backend up, start it and stop it.  The mock network is a map from addresses to the buffered
    channels of the transports; the UDP transport is its listen loop over the results of the reads.
    [node_step] interleaves the calls of [Schedule], [LookupTarget] and [Close] with the goroutines of
    [Discv4Sys]. *)

From stdpp Require Import base gmap sets strings numbers list relations.
From S2P Require Import Prelude GoStd Rlp Crypto RlpxMsg Enode KadBucket KadTable KadTheorems Discv4Msg Discv4 Discv4Theorems Discv4Sys Discv4Lookup.
Local Open Scope Z_scope.

Section Transports.
Context `{GoNet}.

(** [net.UDPAddr] prints like [net.TCPAddr]. *)
Definition UDPAddr_String (a : UDPAddr) : string := TCPAddr_String (addr_IP a) (addr_Port a).
Definition Peer_addr (p : Peer) : string := UDPAddr_String (p_Addr p).

(** The verb [%q] on text without special characters, as addresses are. *)
Definition fmt_q (s : string) : string := String (Ascii.ascii_of_nat 34) (s ++ String (Ascii.ascii_of_nat 34) EmptyString)%string.

(** ** The mock network *)

Record MockNetwork := mkNet { mn_transports : gmap string (list Packet); mn_port : Z }.

Definition newMockNetwork : MockNetwork := mkNet ∅ 0.

(** [net.ParseIP("127.0.0.1")] *)
Definition localhost : bytes := replicate 10 0 ++ [255; 255; 127; 0; 0; 1].

(** A transport is its address; its channel, of capacity 10, is in the network. *)
Definition NewTransport (m : MockNetwork) : MockNetwork * UDPAddr :=
  let port := mn_port m + 1 in
  let addr := mkAddr localhost port in
  (mkNet (<[UDPAddr_String addr := []]> (mn_transports m)) port, addr).

(** [None]: the write blocks on a full channel. *)
Definition Mock_WriteTo (m : MockNetwork) (from : UDPAddr) (b : bytes) (addr : string) (now : Z) : option (outcome MockNetwork) :=
  match mn_transports m !! addr with
  | None => Some (Err ("no route to " ++ fmt_q addr))
  | Some q =>
      if (length q <? 10)%nat then Some (Ok (mkNet (<[addr := q ++ [mkPacket b (Some from) now]]> (mn_transports m)) (mn_port m))) else None
  end.

(** A receive from [PacketCh]; [None]: it blocks. *)
Definition Mock_receive (m : MockNetwork) (addr : UDPAddr) : option (MockNetwork * Packet) :=
  match mn_transports m !! UDPAddr_String addr with
  | Some (p :: q) => Some (mkNet (<[UDPAddr_String addr := q]> (mn_transports m)) (mn_port m), p)
  | _ => None
  end.

(** ** UDP *)

Definition udpPacketBufSize : nat := 1280.

(** What a read returns: a datagram, of which [ReadFrom] keeps what fits the buffer, or an error; with
    the time and the shutdown flag after it. *)
Record read_result := mkRead { rd_data : option (bytes * UDPAddr); rd_time : Z; rd_shutdown : bool }.

(** How far the loop got: it still runs, it has returned, or it panicked.  The logger of the transport is a
    [log.Logger] that was never set up; its first [Printf] dereferences a nil writer. *)
Inductive udp_end := URunning | UReturned | UPanicked.

(** The packets sent to [PacketCh], and the end of the loop. *)
Fixpoint udp_listen (reads : list read_result) : list Packet * udp_end :=
  match reads with
  | [] => ([], URunning)
  | r :: reads =>
      match rd_data r with
      | None => if rd_shutdown r then ([], UReturned) else ([], UPanicked)
      | Some (d, addr) =>
          let buf := take udpPacketBufSize d in
          if (length buf <? 1)%nat then ([], UPanicked) else
          let '(ps, fin) := udp_listen reads in (mkPacket buf (Some addr) (rd_time r) :: ps, fin)
      end
  end.

Record UDPTransport := mkUDP {
  u_addr : UDPAddr;
  u_shutdown : bool;
  u_listening : bool;                      (* the socket is open *)
  u_written : list (UDPAddr * bytes);      (* the datagrams that left it *)
}.

(** On an error of [net.ListenUDP] both results are nil. *)
Definition newUDPTransport (addr : UDPAddr) (listen_err : option string) : option UDPTransport * option string :=
  match listen_err with Some _ => (None, None) | None => (Some (mkUDP addr false true []), None) end.

(** [resolve] is [net.ResolveUDPAddr]. *)
Definition UDP_WriteTo (resolve : string -> option UDPAddr) (t : UDPTransport) (b : bytes) (addr : string) : outcome UDPTransport :=
  udpAddr ← of_option "resolve" (resolve addr);
  if u_listening t then Ok (mkUDP (u_addr t) (u_shutdown t) true (u_written t ++ [(udpAddr, b)])) else Err "use of closed network connection".

Definition UDP_Shutdown (t : UDPTransport) : UDPTransport := mkUDP (u_addr t) true false (u_written t).

(** ** Setting a backend up *)

Context `{Keccak} `{Curve} `{FastRLP} `{GoSort}.
Context (ip_String : bytes -> string).

(** [NewBackend] asks a nil transport for its address. *)
Definition DiscV4 (node : Enode.Enode) (key : PrivateKey) (bootnodes : list string) (listen : UDPAddr -> option string) : outcome (Backend * list string) :=
  let udpAddr := mkAddr (default [] (net_ParseIP (ip_String (en_IP node)))) (en_UDP node) in
  match newUDPTransport udpAddr (listen udpAddr) with
  | (_, Some e) => Err e
  | (None, None) => Panic
  | (Some t, None) => b ← NewBackend key (u_addr t); Ok (b, bootnodes)
  end.

(** [AddNode] goes on as [probeNode]. *)
Definition AddNode (nodeStr : string) : outcome start :=
  node ← ParseURL nodeStr;
  peer ← AddNode_peer (en_ID node) (en_IP node) (en_UDP node) (en_TCP node);
  Ok (SProbe peer false).

(** The sender of a packet; [HandlePacket] begins in the same way. *)
Definition decodePeerFromPacket (packet : Packet) : outcome Peer :=
  '(_, _, pubkey) ← decodePacket (pkt_Buf packet);
  addr ← of_option "expected udp addr" (pkt_From packet);
  peer ← newPeer (EncodeToHex (drop 1 pubkey)) addr 0;
  Ok (mkPeer (p_ID peer) (p_Bytes peer) (p_Addr peer) (Some (pkt_Timestamp packet)) (p_TCP peer)).

Definition Backend_NearestPeers (b : Backend) : outcome (list Peer) := NearestPeersFromTarget b (p_Bytes (b_local b)).

(** In the order of the map. *)
Definition Backend_GetPeers (b : Backend) : list Peer := (map_to_list (b_nodes b)).*2.

(** ** The life of a node *)

Record node := mkNode {
  nd_sys : sys;
  nd_bootnodes : list string;
  nd_shutdown : bool;                   (* shutdownCh is closed *)
  nd_active : bool;
  nd_inlookup : Z;
  nd_loading : list nat;                (* for each loadBootnodes, the AddNode calls to wait for *)
  nd_lookups : list lookupState;        (* the lookups that are running *)
}.

Definition set_sys (n : node) (s : sys) : node :=
  mkNode s (nd_bootnodes n) (nd_shutdown n) (nd_active n) (nd_inlookup n) (nd_loading n) (nd_lookups n).
Definition set_lookups (n : node) (inlookup : Z) (l : list lookupState) : node :=
  mkNode (nd_sys n) (nd_bootnodes n) (nd_shutdown n) (nd_active n) inlookup (nd_loading n) l.
Definition set_loading (n : node) (active : bool) (l : list nat) : node :=
  mkNode (nd_sys n) (nd_bootnodes n) (nd_shutdown n) active (nd_inlookup n) l (nd_lookups n).

(** [LookupTarget] up to its loop.  The deferred reset runs on every return but the first. *)
Definition LookupTarget (n : node) (target : bytes) : outcome node :=
  if nd_inlookup n =? 1 then Ok n else
  match lookup_start (s_b (nd_sys n)) (nd_active n) target with
  | Ok (Some l) => Ok (set_lookups n (nd_inlookup n) (nd_lookups n ++ [l]))
  | Ok None => Ok (set_lookups n 0 (nd_lookups n))
  | Err _ => Ok (set_lookups n 0 (nd_lookups n))
  | Panic => Panic
  | NoFuel => NoFuel
  end.

Definition Lookup (n : node) : outcome node := LookupTarget n (p_Bytes (b_local (s_b (nd_sys n)))).

(** [crand.Read] fills the target. *)
Definition LookupRandom (n : node) (t : bytes) : outcome node := LookupTarget n (copy (replicate 64 0) t).

(** A turn of the loop of the [i]-th lookup: it ends when nothing is pending, or at the shutdown. *)
Definition lookup_turn (n : node) (i j : nat) (nodes : list Peer) : option node :=
  l ← nd_lookups n !! i;
  if (j <? length (lk_pending l))%nat then Some (set_lookups n (nd_inlookup n) (<[i := lookup_reply l j nodes]> (nd_lookups n))) else None.
Definition lookup_end (n : node) (i : nat) : option node :=
  l ← nd_lookups n !! i;
  if bool_decide (lk_pending l = []) || nd_shutdown n then Some (set_lookups n 0 (delete i (nd_lookups n))) else None.

(** [Schedule] starts [loadBootnodes], which waits for an [AddNode] per boot node. *)
Definition Schedule (n : node) : node := set_loading n (nd_active n) (nd_loading n ++ [length (nd_bootnodes n)]).
Definition bootnode_done (n : node) (i : nat) : option node :=
  match nd_loading n !! i with
  | Some (S k) => Some (set_loading n (nd_active n) (<[i := k]> (nd_loading n)))
  | _ => None
  end.
Definition bootnodes_loaded (n : node) (i : nat) : option (outcome node) :=
  match nd_loading n !! i with
  | Some O => Some (Lookup (set_loading n true (delete i (nd_loading n))))
  | _ => None
  end.

(** The transport refuses packets from then on. *)
Definition Backend_Close (n : node) : outcome node :=
  if nd_shutdown n then Panic else
  let b := s_b (nd_sys n) in
  let b := mkBackend (b_ID b) (b_handlers b) (b_waiting b) (b_acks b) (b_nextch b) (b_timers b) (b_table b) (b_nodes b) (b_local b)
             (b_events b) (b_tasks b) false (b_sent b) in
  Ok (mkNode (mkSys b (s_starting (nd_sys n)) (s_blocked (nd_sys n)) (s_running (nd_sys n))) (nd_bootnodes n) true (nd_active n) (nd_inlookup n) (nd_loading n) (nd_lookups n)).

Inductive node_step : node -> node -> Prop :=
| ns_sys n s' : sys_step ip_String (nd_sys n) s' -> node_step n (set_sys n s')
| ns_schedule n : node_step n (Schedule n)
| ns_bootnode n i n' : bootnode_done n i = Some n' -> node_step n n'
| ns_loaded n i n' : bootnodes_loaded n i = Some (Ok n') -> node_step n n'
| ns_lookup n target n' : LookupTarget n target = Ok n' -> node_step n n'      (* the ticker, or a caller *)
| ns_turn n i j nodes n' : lookup_turn n i j nodes = Some n' -> node_step n n'
| ns_end n i n' : lookup_end n i = Some n' -> node_step n n'
| ns_close n n' : Backend_Close n = Ok n' -> node_step n n'.

(** What panics: a step of the goroutines, the start of a lookup, or [Close]. *)
Inductive node_cause := NSys (c : panic_cause) | NLookup | NClose.

Inductive node_panics : node -> node_cause -> Prop :=
| np_sys n c : sys_panics ip_String (nd_sys n) c -> node_panics n (NSys c)
| np_lookup n target : LookupTarget n target = Panic -> node_panics n NLookup
| np_loaded n i : bootnodes_loaded n i = Some Panic -> node_panics n NLookup
| np_close n : Backend_Close n = Panic -> node_panics n NClose.

Definition node_init (key : PrivateKey) (addr : UDPAddr) (n : node) : Prop :=
  exists b boot, NewBackend key addr = Ok b /\ n = mkNode (mkSys b [] [] []) boot false false 0 [] [].
Definition node_reachable (key : PrivateKey) (addr : UDPAddr) (n : node) : Prop :=
  exists n0, node_init key addr n0 /\ rtc node_step n0 n.

(** ** Invariant of a node *)

Record ninv (n : node) : Prop := {
  nv_sys : sinv (nd_sys n);
  nv_flag : nd_inlookup n = 0;
  nv_lookups : Forall (fun l => exists q0, linv q0 l) (nd_lookups n);
}.

Lemma LookupTarget_inv n target : ninv n -> exists n', LookupTarget n target = Ok n' /\ ninv n' /\ nd_active n' = nd_active n /\
  length (nd_lookups n') = (length (nd_lookups n) + if nd_active n then 1 else 0)%nat.
Proof.
  intros [Hs Hf Hl]. unfold LookupTarget. rewrite Hf. change (0 =? 1) with false. cbn [negb]. destruct (nd_active n) eqn:Ea.
  - destruct (lookup_start_inv (s_b (nd_sys n)) target (si_b _ Hs)) as (q0 & l & _ & _ & -> & Hi & _). eexists. split; [done|].
    split_and!; [|done|cbn; by rewrite length_app]. split; [done|done|]. cbn. apply Forall_app. split; [done|]. repeat constructor. eauto.
  - cbn. eexists. split; [done|]. split_and!; [by split|done|cbn; lia].
Qed.

Lemma node_step_inv n n' : node_step n n' -> ninv n -> ninv n'.
Proof.
  intros Hst I. pose proof I as [Hs Hf Hl].
  destruct Hst as [n s' Hsys|n|n i n' E|n i n' E|n target n' E|n i j nodes n' E|n i n' E|n n' E].
  - split; [by eapply sys_step_inv|done..].
  - by split.
  - unfold bootnode_done in E. repeat (case_match; try done). injection E as <-. by split.
  - unfold bootnodes_loaded in E. repeat (case_match; try done). injection E as E.
    destruct (LookupTarget_inv (set_loading n true (delete i (nd_loading n))) (p_Bytes (b_local (s_b (nd_sys n))))) as (n1 & E1 & I1 & _); [by split|].
    unfold Lookup in E. cbn [set_loading nd_sys] in E. rewrite E1 in E. by injection E as <-.
  - destruct (LookupTarget_inv n target I) as (n1 & E1 & I1 & _). rewrite E1 in E. by injection E as <-.
  - unfold lookup_turn in E. destruct (nd_lookups n !! i) as [l|] eqn:Ei; [|done]. cbn [mbind option_bind] in E.
    destruct (Nat.ltb_spec j (length (lk_pending l))) as [Hj|]; [|done]. injection E as <-. split; [done|done|]. cbn.
    apply Forall_insert; [done|]. rewrite Forall_lookup in Hl. destruct (Hl i l Ei) as [q0 Hi]. exists q0.
    eapply (lookup_step_inv (list_to_set (p_ID <$> nodes))); [|done]. constructor; [done|]. apply Forall_forall. intros p Hp.
    apply elem_of_list_to_set. by apply list_elem_of_fmap_2.
  - unfold lookup_end in E. destruct (nd_lookups n !! i) as [l|]; [|done]. cbn [mbind option_bind] in E. case_match; [|done].
    injection E as <-. split; [done|done|]. cbn. by apply Forall_delete.
  - unfold Backend_Close in E. case_match; [done|]. injection E as <-. split; [|done|done]. destruct (nd_sys n) as [b st bl rn]. cbn.
    eapply sinv_same; [exact Hs| |done..]. destruct (si_b _ Hs). by split.
Qed.

Lemma node_inv key addr n : node_reachable key addr n -> ninv n.
Proof.
  intros (n0 & (b & boot & HB & ->) & Hr). eapply (rtc_ind_l (fun n0 => ninv n0 -> ninv n)) with (z := n); [done| |exact Hr|].
  - intros x y Hxy _ IH I. apply IH. by eapply node_step_inv.
  - split; [|done|constructor]. apply (sys_inv ip_String key addr). eexists. split; [by exists b|]. done.
Qed.

(** ** Two transports of the mock network *)

Lemma UDPAddr_String_inj a b : ip_ok (addr_IP a) -> u16_ok (addr_Port a) -> ip_ok (addr_IP b) -> u16_ok (addr_Port b) ->
  UDPAddr_String a = UDPAddr_String b -> a = b.
Proof.
  intros Ha Hpa Hb Hpb E. unfold UDPAddr_String in E.
  destruct (SplitHostPort_String _ _ Ha Hpa) as (h & S1 & P1). destruct (SplitHostPort_String _ _ Hb Hpb) as (h' & S2 & P2).
  rewrite E, S2 in S1. injection S1 as <- Ei. rewrite P2 in P1. injection P1 as Eip.
  apply (f_equal ParseUint16) in Ei. rewrite (proj1 (ParseUint16_Itoa _ Hpa)), (proj1 (ParseUint16_Itoa _ Hpb)) in Ei.
  injection Ei as Ep. destruct a, b. cbn in *. by subst.
Qed.

(** What is written to an idle transport is what it receives next, and the network is as before. *)
Lemma Mock_deliver m from b to now : mn_transports m !! UDPAddr_String to = Some [] ->
  exists m', Mock_WriteTo m from b (UDPAddr_String to) now = Some (Ok m') /\ Mock_receive m' to = Some (m, mkPacket b (Some from) now).
Proof.
  intros Hq. unfold Mock_WriteTo. rewrite Hq. eexists. split; [done|]. unfold Mock_receive. cbn [mn_transports mn_port app].
  rewrite lookup_insert_eq, insert_insert_eq, insert_id by done. by destruct m.
Qed.

Lemma localhost_ok : ip_ok localhost.
Proof. split; [done|]. repeat constructor; unfold byte_ok; lia. Qed.

Lemma NewBackend_fresh key addr b : NewBackend key addr = Ok b -> b_sent b = [] /\ b_acks b = [] /\ b_tasks b = [].
Proof. unfold NewBackend. intros E. destruct (newPeer _ _ _); cbn [mbind outcome_bind] in E; try done. by injection E as <-. Qed.

(** The log of a backend is that of its socket. *)
Lemma sendPacket_written resolve b t peer code m b' e : resolve (Peer_addr peer) = Some (p_Addr peer) -> u_listening t = b_up b -> b_sent b = u_written t ->
  sendPacket b peer code m = Ok (b', e) ->
  match encodePacket (b_ID b) code m with
  | Ok data =>
      match UDP_WriteTo resolve t data (Peer_addr peer) with
      | Ok t' => e = None /\ b_sent b' = u_written t' /\ u_listening t' = b_up b'
      | _ => is_Some e /\ b' = b
      end
  | _ => is_Some e /\ b' = b
  end.
Proof.
  intros Hr Hu Hs. unfold sendPacket, UDP_WriteTo. rewrite Hr, Hu. cbn [of_option mbind outcome_bind].
  destruct (encodePacket _ _ _) as [data| | |]; try done; [|by intros [= <- <-]].
  destruct (b_up b) eqn:Eb; intros [= <- <-]; [|done]. cbn. by rewrite Hs.
Qed.

(** The node of key [k] behind a transport. *)
Definition node_at (k : PrivateKey) (tcp : Z) (addr : UDPAddr) : Enode.Enode :=
  mkEnode (drop 1 (MarshallPublicKey (pub_of k))) tcp (addr_Port addr) (addr_IP addr).

Lemma AddNode_probe k tcp addr : ip_ok (addr_IP addr) -> u16_ok (addr_Port addr) -> u16_ok tcp ->
  exists p, AddNode (Enode_String (node_at k tcp addr)) = Ok (SProbe p false) /\
    peer_ok p /\ p_Bytes p = drop 1 (MarshallPublicKey (pub_of k)) /\ p_Addr p = addr.
Proof.
  intros Hi Hp Ht. destruct (key_ok (pub_of k)) as [Hb Hl]. unfold AddNode. rewrite Enode_roundtrip by (by split_and!).
  cbn [mbind outcome_bind]. unfold AddNode_peer, node_at. cbn [en_ID en_IP en_UDP en_TCP].
  destruct (newPeer_ok (drop 1 (MarshallPublicKey (pub_of k))) (mkAddr (addr_IP addr) (addr_Port addr)) tcp) as (p & -> & Hp' & Hby & Ha & _);
    [done|done| |done|].
  - split_and!; [apply Hi|destruct Hi as [E _]; cbn; by rewrite E|done..].
  - exists p. split_and!; [done|done|done|]. rewrite Ha. by destruct addr.
Qed.
End Transports.

(** ** Properties *)

Section Properties.
Context `{GoNet} `{Keccak} `{Curve} `{FastRLP} `{GoSort}.

(** A datagram written to a transport of the mock network is what the other side receives, and the network is as before. *)
Definition delivers (m : MockNetwork) (from : UDPAddr) (data : bytes) (to : UDPAddr) (t : Z) : Prop :=
  exists m1, Mock_WriteTo m from data (UDPAddr_String to) t = Some (Ok m1) /\ Mock_receive m1 to = Some (m, mkPacket data (Some from) t).

(** The listener of a running backend handles a packet without an error. *)
Definition handles (s : sys) (t : Z) (pk : Packet) (s' : sys) : Prop :=
  exists b, HandlePacket (s_b s) t pk = Ok (b, None) /\ s' = mkSys b (s_starting s) (s_blocked s) (s_running s).

Lemma handles_step ip_String s t pk s' : handles s t pk s' -> sys_step ip_String s s'.
Proof. destruct s. intros (b & HP & ->). by eapply st_packet. Qed.

Lemma handles_Ok b st bl rn t pk b' : HandlePacket b t pk = Ok (b', None) -> handles (mkSys b st bl rn) t pk (mkSys b' st bl rn).
Proof. intros HP. by exists b'. Qed.

(** The last step of a probe that has its answer. *)
Lemma probe_done ip_String b st rn ch p resp b' : b_acks b = [(ch, resp)] -> probe_finish ip_String (ack_take b 0) p resp = Ok (b', true) ->
  rtc (sys_step ip_String) (mkSys b st [(ch, JProbe p false)] rn) (mkSys b' st [] rn).
Proof.
  intros Ha HF. apply rtc_once. apply (st_resp _ b st [(ch, JProbe p false)] rn 0 0 ch (JProbe p false) resp b' (NDone (Ok []))); [by rewrite Ha|done|].
  cbn [job_resp]. by rewrite HF.
Qed.

Lemma sender_ok k addr ts : Discv4Theorems.addr_ok addr -> peer_ok (sender k addr ts).
Proof. intros Ha. destruct (key_ok k) as [Hb Hl]. unfold peer_ok, peer_within. split_and!; try done; cbn; unfold u16_ok; lia. Qed.

(** A backend with no handlers answers a packet without giving it to anybody. *)
Lemma HandlePacket_acks b now pk b' e : b_handlers b = ∅ -> HandlePacket b now pk = Ok (b', e) -> b_acks b' = b_acks b.
Proof. intros Hh HP. apply HandlePacket_chan in HP as [|key ch m Hk]; [done|]. by rewrite Hh, lookup_empty in Hk. Qed.



(** Lookups are not exclusive: the flag that should keep a second lookup from starting is never set, so
    an active node starts one more lookup at every call. *)
Theorem lookups_not_exclusive ip_String key addr (n : node) target : node_reachable ip_String key addr n -> nd_active n = true ->
  nd_inlookup n = 0 /\ exists n', LookupTarget n target = Ok n' /\ length (nd_lookups n') = S (length (nd_lookups n)).
Proof.
  intros Hr Ha. apply node_inv in Hr as I. split; [apply I|]. destruct (LookupTarget_inv n target I) as (n' & E & _ & _ & Hl).
  exists n'. split; [done|]. rewrite Hl, Ha. lia.
Qed.

(** The channel is closed a second time. *)
Theorem Close_twice_panics (n n' : node) : Backend_Close n = Ok n' -> Backend_Close n' = Panic.
Proof. unfold Backend_Close. destruct (nd_shutdown n); [done|]. by intros [= <-]. Qed.

(** A port that cannot be opened makes the set-up panic: [newUDPTransport] drops the error. *)
Theorem DiscV4_listen_error_panics ip_String node key boot listen e :
  listen (mkAddr (default [] (net_ParseIP (ip_String (en_IP node)))) (en_UDP node)) = Some e -> DiscV4 ip_String node key boot listen = Panic.
Proof. intros E. unfold DiscV4. by rewrite E. Qed.

(** The backend's record of what it sent is what leaves the socket: whatever it sends through an open UDP
    transport is written to the peer's address and nothing else is; after [Shutdown] every send is
    refused and changes nothing. *)
Theorem sendPacket_refines resolve (b b' : Backend) t peer code m e : resolve (Peer_addr peer) = Some (p_Addr peer) ->
  b_sent b = u_written t -> sendPacket b peer code m = Ok (b', e) ->
  (u_listening t = b_up b -> e = None -> exists data t', encodePacket (b_ID b) code m = Ok data /\ UDP_WriteTo resolve t data (Peer_addr peer) = Ok t' /\
     b_sent b' = u_written t' /\ u_written t' = u_written t ++ [(p_Addr peer, data)]) /\
  (u_listening (UDP_Shutdown t) = b_up b -> is_Some e /\ b' = b).
Proof.
  intros Hr Hs HS. split.
  - intros Hu ->. pose proof (sendPacket_written resolve b t peer code m b' None Hr Hu Hs HS) as Hw.
    destruct (encodePacket _ _ _) as [data| | |]; try (destruct Hw as [[? [=]] _]). destruct (UDP_WriteTo resolve t data _) as [t'| | |] eqn:Ew; try (destruct Hw as [[? [=]] _]).
    exists data, t'. destruct Hw as (_ & Hb & _). split_and!; try done. unfold UDP_WriteTo in Ew. rewrite Hr in Ew. cbn in Ew. case_match; [|done]. by injection Ew as <-.
  - intros Hu. pose proof (sendPacket_written resolve b (UDP_Shutdown t) peer code m b' e Hr Hu Hs HS) as Hw. destruct (encodePacket _ _ _); try done.
    unfold UDP_WriteTo in Hw. rewrite Hr in Hw. done.
Qed.

(** A packet whose sender cannot be decoded is refused by [HandlePacket] with the same error, and changes nothing. *)
Theorem HandlePacket_bad_sender (b : Backend) now pk e : decodePeerFromPacket pk = Err e -> HandlePacket b now pk = Ok (b, Some e).
Proof.
  unfold decodePeerFromPacket, HandlePacket. destruct (decodePacket (pkt_Buf pk)) as [[[mac sd] pub]| | |]; cbn [mbind outcome_bind]; try done.
  - destruct (pkt_From pk) as [a|]; cbn [of_option mbind outcome_bind]; [|by intros [= <-]]. destruct (newPeer _ _ _); cbn [mbind outcome_bind]; try done. by intros [= <-].
  - by intros [= <-].
Qed.

End Properties.

(** What the listener does with the results of [ReadFrom]: a datagram goes to [PacketCh] in the order of
    arrival, with its sender and time, cut to the buffer of 1280 bytes. *)
Definition datagram (r : read_result) : option Packet :=
  '(d, addr) ← rd_data r; if decide (d = []) then None else Some (mkPacket (take 1280 d) (Some addr) (rd_time r)).

(** C37: The UDP listener hands on the datagrams up to the first one that is empty and the first error.  At an
    error after [Shutdown] it returns; at an empty datagram, which anyone can send, and at any other error
    it panics, and the node with it. *)
Theorem udp_listen_correct reads : exists before after, reads = before ++ after /\
  Some <$> (udp_listen reads).1 = datagram <$> before /\
  Forall (fun p => (1 <= length (pkt_Buf p) <= 1280)%nat) (udp_listen reads).1 /\
  match (udp_listen reads).2 with
  | URunning => after = []
  | UReturned => exists r l, after = r :: l /\ rd_data r = None /\ rd_shutdown r = true
  | UPanicked => exists r l, after = r :: l /\ ((rd_data r = None /\ rd_shutdown r = false) \/ exists addr, rd_data r = Some ([], addr))
  end.
Proof.
  induction reads as [|r reads (bf & af & -> & E & Hl & Ha)]; [exists [], []; split_and!; done|]. cbn [udp_listen].
  destruct (rd_data r) as [[d addr]|] eqn:Ed; [|exists [], (r :: bf ++ af); destruct (rd_shutdown r) eqn:Es; cbn; split_and!; try done; eauto 10].
  assert ((length (take udpPacketBufSize d) <? 1)%nat = bool_decide (d = [])) as Hd.
  { rewrite length_take. unfold udpPacketBufSize. destruct d; [done|]. apply Nat.ltb_ge. cbn [length]. lia. }
  rewrite Hd. case_bool_decide as Hn; [subst d; exists [], (r :: bf ++ af); cbn; split_and!; try done; eauto 10|].
  destruct (udp_listen (bf ++ af)) as [ps fin]. exists (r :: bf), af. cbn [fst snd] in *. split_and!; [done| |constructor; [|done]|done].
  - rewrite !fmap_cons, E. f_equal. unfold datagram. rewrite Ed. cbn. by rewrite decide_False.
  - cbn [pkt_Buf]. rewrite length_take. unfold udpPacketBufSize. destruct d; [done|]. cbn [length]. lia.
Qed.

(** ** Two nodes *)

Module Demo.
#[local] Existing Instance toy_net.


(** A node with one boot node that was loaded: it is active and has a lookup running; a second one may start. *)
Lemma active_node : exists n, node_reachable (fun _ => EmptyString) (toy_key 5) (mkAddr localhost 1) n /\ nd_active n = true /\ length (nd_lookups n) = 1%nat.
Proof.
  destruct (NewBackend_inv (toy_key 5) (mkAddr localhost 1)) as (b & HB & I & _).
  set (n0 := mkNode (mkSys b [] [] []) ["enode://"] false false 0 [] []).
  assert (ninv n0) as I0.
  { apply (node_inv (fun _ => EmptyString) (toy_key 5) (mkAddr localhost 1)). exists n0. split; [by exists b, ["enode://"]|done]. }
  set (n2 := set_loading (Schedule n0) false [0%nat]). set (n3 := set_loading n2 true []).
  destruct (LookupTarget_inv n3 (p_Bytes (b_local b))) as (n4 & E4 & _ & Ha & Hl); [by destruct I0; split|].
  exists n4. split_and!; [|by rewrite Ha|by rewrite Hl]. exists n0. split; [by exists b, ["enode://"]|].
  eapply rtc_l; [apply ns_schedule|]. eapply rtc_l; [by apply (ns_bootnode _ _ 0 n2)|].
  eapply rtc_l; [apply (ns_loaded _ _ 0 n4)|done]. unfold bootnodes_loaded. cbn [n2 set_loading nd_loading lookup list_lookup].
  unfold Lookup. f_equal. exact E4.
Qed.


(** Two lookups at the same time. *)
Lemma two_lookups : exists n n', nd_active n = true /\ LookupTarget n (replicate 64 7) = Ok n' /\ length (nd_lookups n') = 2%nat.
Proof.
  destruct active_node as (n & Hr & Ha & Hl).
  destruct (lookups_not_exclusive (fun _ => EmptyString) (toy_key 5) (mkAddr localhost 1) n (replicate 64 7) Hr Ha) as (_ & n' & E & Hl').
  exists n, n'. rewrite Hl' , Hl. done.
Qed.
End Demo.
