(* ===== verification/Server.v ===== *)
(** * The server: peers and dialling

    [server.go], [peer.go], [peerstore.go] and [config.go].  A [Server] keeps the connected peers
    under their ids, queues of events and of addresses to dial, the dispatcher of [periodic.go] for
    busy peers and a peer store.  A transport is whatever delivers sessions: a session is known by a
    number and has the node id of its [Info] and the protocols of its streams; the results of
    [DialTimeout] and of the protocols' handlers are labels of the steps.  The goroutines are
    [dialRunner], the dial tasks, the one that accepts, [addSession] with its handlers, and a watcher
    per session that waits for its close; [net_step] interleaves them with the calls of clients,
    [Close] among them.  The handlers of protocols are code of the protocols: a step has what they
    return, and a panic of theirs is not a step.  The end of a dial task, from the result of [connect]
    on, is one step. *)

From stdpp Require Import base gmap strings numbers list.
From S2P Require Import Prelude GoStd Crypto RlpxMsg RlpxStream PeriodicHeap Periodic.
Local Open Scope Z_scope.

(** ** peer.go *)

(** [Status] is an [int]. *)
Definition PeerActive : Z := 0.
Definition PeerPending : Z := 1.
Definition PeerDisconnected : Z := 2.
Definition PeerBusy : Z := 3.

Definition Status_String (s : Z) : outcome string :=
  if s =? PeerActive then Ok "active"
  else if s =? PeerPending then Ok "pending"
  else if s =? PeerDisconnected then Ok "disconnected"
  else Panic.

(** The protocols of a peer are those of its instances. *)
Record Peer := mkSPeer { peer_ID : string; peer_prettyID : string; peer_Status : Z; peer_conn : nat; peer_protocols : list ProtocolSpec }.

(** [s[:n]] *)
Definition str_take (n : nat) (s : string) : outcome string :=
  if (String.length s <? n)%nat then Panic else Ok (String.substring 0 n s).

Definition newPeer (conn : nat) (id : bytes) : outcome Peer :=
  let id := ID_String id in
  pretty ← str_take 8 id;
  Ok (mkSPeer id pretty PeerActive conn []).

Definition GetProtocol (p : Peer) (name : string) : option ProtocolSpec :=
  snd <$> list_find (fun i => spec_Name i = name) (peer_protocols p).

(** ** peerstore.go *)

(** A store with its entries in memory. *)
Inductive PeerStore := NoopPeerStore | JSONPeerStore (peers : gmap string Z).

(** The file of a [JSONPeerStore]: absent, one that cannot be read or does not parse, or entries. *)
Inductive file := NoFile | BadFile (e : string) | PeerFile (peers : gmap string Z).

Definition NewJSONPeerStore : PeerStore := JSONPeerStore ∅.

Definition Noop_Update : PeerStore := NoopPeerStore.
Definition Noop_Load : outcome (PeerStore * list string) := Ok (NoopPeerStore, []).
Definition Noop_Close (f : file) : file * option string := (f, None).

Definition JSON_Update (peers : gmap string Z) (addr : string) (status : Z) : PeerStore := JSONPeerStore (<[addr := status]> peers).

(** The entries of the file replace those in memory. *)
Definition JSON_Load (peers : gmap string Z) (f : file) : outcome (PeerStore * list string) :=
  match f with
  | NoFile => Ok (JSONPeerStore peers, [])
  | BadFile e => Err e
  | PeerFile m => Ok (JSONPeerStore (m ∪ peers), (map_to_list (m ∪ peers)).*1)
  end.

(** [werr] is the error of writing the file, of which nothing is known then. *)
Definition JSON_Close (peers : gmap string Z) (werr : option string) : file * option string :=
  match werr with
  | Some e => (BadFile e, Some e)
  | None => (PeerFile peers, None)
  end.

(** The interface [PeerStore]. *)
Definition store_Update (p : PeerStore) (addr : string) (status : Z) : PeerStore :=
  match p with NoopPeerStore => Noop_Update | JSONPeerStore peers => JSON_Update peers addr status end.
Definition store_Load (p : PeerStore) (f : file) : outcome (PeerStore * list string) :=
  match p with NoopPeerStore => Noop_Load | JSONPeerStore peers => JSON_Load peers f end.
Definition store_Close (p : PeerStore) (f : file) (werr : option string) : file * option string :=
  match p with NoopPeerStore => Noop_Close f | JSONPeerStore peers => JSON_Close peers werr end.

(** ** config.go *)

Definition defaultDialTasks : nat := 15.

Record Config := mkConfig {
  c_Name : string;
  c_BindAddress : string;
  c_BindPort : Z;
  c_MaxPeers : Z;
  c_Bootnodes : list string;
  c_DialTasks : nat;
  c_DialBusyInterval : Z;
  c_PeerStore : PeerStore;
  c_Protocols : list ProtocolSpec;
}.

Definition DefaultConfig : Config :=
  mkConfig "minimal/go1.10.2" "127.0.0.1" 30304 10 [] defaultDialTasks (60 * 1000000000) NoopPeerStore [].

Definition WithName (name : string) (c : Config) : Config :=
  mkConfig name (c_BindAddress c) (c_BindPort c) (c_MaxPeers c) (c_Bootnodes c) (c_DialTasks c) (c_DialBusyInterval c) (c_PeerStore c) (c_Protocols c).
Definition WithBindAddress (addr : string) (c : Config) : Config :=
  mkConfig (c_Name c) addr (c_BindPort c) (c_MaxPeers c) (c_Bootnodes c) (c_DialTasks c) (c_DialBusyInterval c) (c_PeerStore c) (c_Protocols c).
Definition WithBindPort (port : Z) (c : Config) : Config :=
  mkConfig (c_Name c) (c_BindAddress c) port (c_MaxPeers c) (c_Bootnodes c) (c_DialTasks c) (c_DialBusyInterval c) (c_PeerStore c) (c_Protocols c).
Definition WithMaxPeers (m : Z) (c : Config) : Config :=
  mkConfig (c_Name c) (c_BindAddress c) (c_BindPort c) m (c_Bootnodes c) (c_DialTasks c) (c_DialBusyInterval c) (c_PeerStore c) (c_Protocols c).
Definition WithBootnodes (b : list string) (c : Config) : Config :=
  mkConfig (c_Name c) (c_BindAddress c) (c_BindPort c) (c_MaxPeers c) b (c_DialTasks c) (c_DialBusyInterval c) (c_PeerStore c) (c_Protocols c).
Definition WithPeerStore (p : PeerStore) (c : Config) : Config :=
  mkConfig (c_Name c) (c_BindAddress c) (c_BindPort c) (c_MaxPeers c) (c_Bootnodes c) (c_DialTasks c) (c_DialBusyInterval c) p (c_Protocols c).
Definition WithProtocol (p : ProtocolSpec) (c : Config) : Config :=
  mkConfig (c_Name c) (c_BindAddress c) (c_BindPort c) (c_MaxPeers c) (c_Bootnodes c) (c_DialTasks c) (c_DialBusyInterval c) (c_PeerStore c) (c_Protocols c ++ [p]).

(** ** server.go *)

Inductive EventType := NodeJoin | NodeLeave | NodeHandshakeFail.

Definition EventType_String (t : EventType) : string :=
  match t with NodeJoin => "node join" | NodeLeave => "node leave" | NodeHandshakeFail => "node handshake failed" end.

Record Server := mkServer {
  sv_ID : bytes;
  sv_peers : gmap string Peer;
  sv_info : option (string * bytes * Z * list ProtocolSpec);   (* client, node id, TCP port, capabilities *)
  sv_config : Config;
  sv_EventCh : list (EventType * Peer);    (* of capacity 20 *)
  sv_addPeer : list string;                (* of capacity 20 *)
  sv_dispatcher : Periodic.sys;
  sv_peerStore : PeerStore;
}.

Definition set_peers (s : Server) (p : gmap string Peer) (ev : list (EventType * Peer)) : Server :=
  mkServer (sv_ID s) p (sv_info s) (sv_config s) ev (sv_addPeer s) (sv_dispatcher s) (sv_peerStore s).
Definition set_addPeer (s : Server) (q : list string) : Server :=
  mkServer (sv_ID s) (sv_peers s) (sv_info s) (sv_config s) (sv_EventCh s) q (sv_dispatcher s) (sv_peerStore s).
Definition set_dispatcher (s : Server) (d : Periodic.sys) : Server :=
  mkServer (sv_ID s) (sv_peers s) (sv_info s) (sv_config s) (sv_EventCh s) (sv_addPeer s) d (sv_peerStore s).
Definition set_store (s : Server) (p : PeerStore) : Server :=
  mkServer (sv_ID s) (sv_peers s) (sv_info s) (sv_config s) (sv_EventCh s) (sv_addPeer s) (sv_dispatcher s) p.

(** The error of [setupDiscovery] is an argument, as is the time.  The peer store of the configuration
    is not used. *)
Definition NewServer (pub : PublicKey) (opts : list (Config -> Config)) (now : Z) (disc_err : option string) : outcome Server :=
  let config := foldl (fun c opt => opt c) DefaultConfig opts in
  id ← PubkeyToEnode (Some pub);
  match disc_err with
  | Some e => Err e
  | None => Ok (mkServer id ∅ None config [] [] (Periodic.sys0 now) NoopPeerStore)
  end.

Definition buildInfo (s : Server) : Server :=
  mkServer (sv_ID s) (sv_peers s) (Some (c_Name (sv_config s), sv_ID s, uint16 (c_BindPort (sv_config s)), c_Protocols (sv_config s)))
    (sv_config s) (sv_EventCh s) (sv_addPeer s) (sv_dispatcher s) (sv_peerStore s).

(** [select { case s.addPeer <- enode: default: }] *)
Definition Dial (s : Server) (enode : string) : Server :=
  if (length (sv_addPeer s) <? 20)%nat then set_addPeer s (sv_addPeer s ++ [enode]) else s.

(** [Start] up to the call of [transport.Setup], whose error is the argument of the rest; the goroutines are
    those of [net_step]. *)
Definition Start_load (s : Server) (f : file) : outcome Server :=
  '(store, storedPeers) ← store_Load (sv_peerStore s) f;
  let s := set_store s store in
  let s := foldl Dial s storedPeers in
  Ok (buildInfo s).

Definition Start_rest (s : Server) (setup_err : option string) : outcome Server :=
  match setup_err with Some e => Err e | None => Ok s end.

Definition Start (s : Server) (f : file) (setup_err : option string) : outcome Server :=
  s ← Start_load s f; Start_rest s setup_err.

Definition GetPeers (s : Server) : list string := (map_to_list (sv_peers s)).*1.

(** The first match in some order of the map. *)
Definition GetPeerByPrefix (s : Server) (search : string) : option Peer :=
  snd ∘ snd <$> list_find (fun x => HasPrefix x.1 search = true) (map_to_list (sv_peers s)).

Definition GetPeer (s : Server) (id : string) : option Peer :=
  snd ∘ snd <$> list_find (fun x => id = x.1) (map_to_list (sv_peers s)).

Definition removePeer (s : Server) (peer : Peer) : Server := set_peers s (delete (peer_ID peer) (sv_peers s)) (sv_EventCh s).

Definition Server_getProtocol (s : Server) (name : string) (version : Z) : option ProtocolSpec :=
  snd <$> list_find (fun p => spec_Name p = name /\ spec_Version p = version) (c_Protocols (sv_config s)).

(** [connectWithEnode] before the dial: the address is looked up among the ids of the peers. *)
Definition already_connected (s : Server) (rawURL : string) : bool := bool_decide (is_Some (sv_peers s !! rawURL)).

(** The rest of [dialTask] once [connect] returned [err]. *)
Definition dialTask_result (s : Server) (task : string) (err : option string) : outcome Server :=
  let d := disp (sv_dispatcher s) in
  let contains := Contains d task in
  let busy := match err with Some e => bool_decide (e = ("too many peers")%string) | None => false end in
  d ← (if busy : bool then
         if negb contains then '(d, _) ← Add d (clock (sv_dispatcher s)) task (c_DialBusyInterval (sv_config s)); Ok d else Ok d
       else
         if contains then '(d, _) ← Remove d task; Ok d else Ok d);
  let s := set_dispatcher s (set_disp (sv_dispatcher s) d) in
  Ok (match err with None => set_store s (store_Update (sv_peerStore s) task PeerActive) | Some _ => s end).

(** ** The goroutines *)

(** A call of [addSession]: the task it ends, the streams whose handlers run, the channel of their
    results, how many results it still waits for, the instances, and whether the watcher was started. *)
Record adding := mkAdding {
  ad_task : option string;
  ad_peer : Peer;
  ad_todo : list ProtocolSpec;
  ad_errs : list (option string);
  ad_left : nat;
  ad_instances : list ProtocolSpec;
  ad_watched : bool;
}.

Record net := mkNet {
  nt_srv : Server;
  nt_sess : list (bytes * list ProtocolSpec);   (* every session so far: its node id and streams *)
  nt_closed : gset nat;
  nt_hand : option string;                      (* what dialRunner is about to send to the tasks *)
  nt_tasks : list string;                       (* of capacity DialTasks *)
  nt_dialing : list string;
  nt_adding : list adding;
  nt_watch : list (nat * string);
  nt_accept : bool;                             (* the accepting goroutine is waiting *)
  nt_down : bool;                               (* [Close] has closed the transport *)
}.

Definition set_srv (n : net) (s : Server) : net :=
  mkNet s (nt_sess n) (nt_closed n) (nt_hand n) (nt_tasks n) (nt_dialing n) (nt_adding n) (nt_watch n) (nt_accept n) (nt_down n).
Definition set_runner (n : net) (s : Server) (hand : option string) (tasks : list string) : net :=
  mkNet s (nt_sess n) (nt_closed n) hand tasks (nt_dialing n) (nt_adding n) (nt_watch n) (nt_accept n) (nt_down n).
Definition set_dial (n : net) (s : Server) (tasks dialing : list string) : net :=
  mkNet s (nt_sess n) (nt_closed n) (nt_hand n) tasks dialing (nt_adding n) (nt_watch n) (nt_accept n) (nt_down n).
Definition set_adding (n : net) (s : Server) (c : gset nat) (ad : list adding) (w : list (nat * string)) : net :=
  mkNet s (nt_sess n) c (nt_hand n) (nt_tasks n) (nt_dialing n) ad w (nt_accept n) (nt_down n).

(** The goroutines of dial tasks that are busy. *)
Definition busy_tasks (n : net) : nat := length (nt_dialing n) + length (filter (fun a => is_Some (ad_task a)) (nt_adding n)).

(** A session arrives: [addSession] starts the handlers of its streams. *)
Definition addSession_start (n : net) (task : option string) (id : bytes) (specs : list ProtocolSpec) : outcome net :=
  p ← newPeer (length (nt_sess n)) id;
  Ok (mkNet (nt_srv n) (nt_sess n ++ [(id, specs)]) (nt_closed n) (nt_hand n) (nt_tasks n) (nt_dialing n)
        (nt_adding n ++ [mkAdding task p specs [] (length specs) [] false]) (nt_watch n) (nt_accept n) (nt_down n)).

(** The goroutine of stream [i] ends; [res] is what the handler of the protocol returned. *)
Definition handler_done (s : Server) (a : adding) (i : nat) (spec : ProtocolSpec) (res : option string) : adding :=
  let todo := delete i (ad_todo a) in
  match Server_getProtocol s (spec_Name spec) (spec_Version spec), res with
  | None, _ => mkAdding (ad_task a) (ad_peer a) todo (ad_errs a ++ [Some ("protocol does not exists")%string]) (ad_left a) (ad_instances a) (ad_watched a)
  | Some _, Some e => mkAdding (ad_task a) (ad_peer a) todo (ad_errs a ++ [Some e]) (ad_left a) (ad_instances a) (ad_watched a)
  | Some proto, None => mkAdding (ad_task a) (ad_peer a) todo (ad_errs a ++ [None]) (ad_left a) (ad_instances a ++ [proto]) (ad_watched a)
  end.

(** [addSession] returns [err] to the dial task it belongs to. *)
Definition return_to_task (s : Server) (task : option string) (err : option string) : outcome Server :=
  match task with Some t => dialTask_result s t err | None => Ok s end.

(** [err := <-errs] *)
Definition errs_recv (n : net) (k : nat) (a : adding) (err : option string) (errs : list (option string)) : outcome net :=
  match err with
  | Some e =>
      s ← return_to_task (nt_srv n) (ad_task a) (Some e);
      Ok (set_adding n s ({[peer_conn (ad_peer a)]} ∪ nt_closed n) (delete k (nt_adding n)) (nt_watch n))
  | None =>
      Ok (set_adding n (nt_srv n) (nt_closed n)
            (<[k := mkAdding (ad_task a) (ad_peer a) (ad_todo a) errs (ad_left a - 1) (ad_instances a) (ad_watched a)]> (nt_adding n)) (nt_watch n))
  end.

(** All handlers returned: the protocols are set and the watcher is started. *)
Definition start_watcher (n : net) (k : nat) (a : adding) : net :=
  let p := ad_peer a in
  let p := mkSPeer (peer_ID p) (peer_prettyID p) (peer_Status p) (peer_conn p) (ad_instances a) in
  set_adding n (nt_srv n) (nt_closed n)
    (<[k := mkAdding (ad_task a) p (ad_todo a) (ad_errs a) (ad_left a) (ad_instances a) true]> (nt_adding n))
    (nt_watch n ++ [(peer_conn p, peer_ID p)]).

(** The peer enters the map, whoever was there, and is announced unless the channel is full. *)
Definition insert_peer (s : Server) (p : Peer) : Server :=
  set_peers s (<[peer_ID p := p]> (sv_peers s))
    (if (length (sv_EventCh s) <? 20)%nat then sv_EventCh s ++ [(NodeJoin, p)] else sv_EventCh s).

Definition addSession_end (n : net) (k : nat) (a : adding) : outcome net :=
  s ← return_to_task (insert_peer (nt_srv n) (ad_peer a)) (ad_task a) None;
  Ok (set_adding n s (nt_closed n) (delete k (nt_adding n)) (nt_watch n)).

(** The session of a watcher was closed: whatever is under the id is deleted. *)
Definition watcher_run (n : net) (i : nat) (id : string) : net :=
  set_adding n (set_peers (nt_srv n) (delete id (sv_peers (nt_srv n))) (sv_EventCh (nt_srv n))) (nt_closed n) (nt_adding n) (delete i (nt_watch n)).

(** [Disconnect], and the first loop of [Close]: the sessions of all peers are closed. *)
Definition Disconnect (n : net) : net :=
  set_adding n (nt_srv n) (list_to_set (peer_conn <$> (map_to_list (sv_peers (nt_srv n))).*2) ∪ nt_closed n) (nt_adding n) (nt_watch n).

Definition set_down (n : net) (acc down : bool) : net :=
  mkNet (nt_srv n) (nt_sess n) (nt_closed n) (nt_hand n) (nt_tasks n) (nt_dialing n) (nt_adding n) (nt_watch n) acc down.

(** [Close], with the error of writing the file of the peer store.  The transport closes a channel, which
    panics the second time. *)
Definition net_Close (n : net) (f : file) (werr : option string) : outcome net :=
  let n := Disconnect n in
  match store_Close (sv_peerStore (nt_srv n)) f werr with
  | (_, Some _) => Panic
  | (_, None) => if nt_down n then Panic else Ok (set_down n (nt_accept n) true)
  end.

Inductive net_step (n : net) : outcome net -> Prop :=
| ns_dial enode : net_step n (Ok (set_srv n (Dial (nt_srv n) enode)))
(* dialRunner *)
| ns_enable : net_step n (d ← SetEnabled (sv_dispatcher (nt_srv n)) true; Ok (set_srv n (set_dispatcher (nt_srv n) d)))
| ns_take_add e es : nt_hand n = None -> sv_addPeer (nt_srv n) = e :: es ->
    net_step n (Ok (set_runner n (set_addPeer (nt_srv n) es) (Some e) (nt_tasks n)))
| ns_take_deliver e : nt_hand n = None -> net_step n (Ok (set_runner n (nt_srv n) (Some e) (nt_tasks n)))
| ns_take_event e es : nt_hand n = None -> eventCh (disp (sv_dispatcher (nt_srv n))) = e :: es ->
    net_step n (Ok (set_runner n (set_dispatcher (nt_srv n) (set_disp (sv_dispatcher (nt_srv n)) (drain_event (disp (sv_dispatcher (nt_srv n)))))) (Some e) (nt_tasks n)))
| ns_send e : nt_hand n = Some e -> (length (nt_tasks n) < c_DialTasks (sv_config (nt_srv n)))%nat ->
    net_step n (Ok (set_runner n (nt_srv n) None (nt_tasks n ++ [e])))
(* dialTask *)
| ns_task_known t ts : nt_tasks n = t :: ts -> (busy_tasks n < c_DialTasks (sv_config (nt_srv n)))%nat -> already_connected (nt_srv n) t = true ->
    net_step n (s ← dialTask_result (nt_srv n) t None; Ok (set_dial n s ts (nt_dialing n)))
| ns_task t ts : nt_tasks n = t :: ts -> (busy_tasks n < c_DialTasks (sv_config (nt_srv n)))%nat -> already_connected (nt_srv n) t = false ->
    net_step n (Ok (set_dial n (nt_srv n) ts (nt_dialing n ++ [t])))
| ns_dial_failed i t e : nt_dialing n !! i = Some t ->
    net_step n (s ← dialTask_result (nt_srv n) t (Some e); Ok (set_dial n s (nt_tasks n) (delete i (nt_dialing n))))
| ns_dialed i t id specs : nt_dialing n !! i = Some t -> bytes_ok id -> length id = 64%nat ->
    net_step n (addSession_start (set_dial n (nt_srv n) (nt_tasks n) (delete i (nt_dialing n))) (Some t) id specs)
(* DialSync, which looked at the map before it dialled, and the one session that is accepted *)
| ns_sync id specs : bytes_ok id -> length id = 64%nat -> net_step n (addSession_start n None id specs)
| ns_accept id specs : nt_accept n = true -> bytes_ok id -> length id = 64%nat ->
    net_step n (addSession_start (set_down n false (nt_down n)) None id specs)
| ns_accept_end : nt_accept n = true -> nt_down n = true -> net_step n (Ok (set_down n false true))
(* addSession *)
| ns_handler k a i spec res : nt_adding n !! k = Some a -> ad_todo a !! i = Some spec ->
    net_step n (Ok (set_adding n (nt_srv n) (nt_closed n) (<[k := handler_done (nt_srv n) a i spec res]> (nt_adding n)) (nt_watch n)))
| ns_errs k a err errs : nt_adding n !! k = Some a -> ad_errs a = err :: errs -> ad_watched a = false -> net_step n (errs_recv n k a err errs)
| ns_watch k a : nt_adding n !! k = Some a -> ad_left a = 0%nat -> ad_watched a = false -> net_step n (Ok (start_watcher n k a))
| ns_insert k a : nt_adding n !! k = Some a -> ad_watched a = true -> net_step n (addSession_end n k a)
| ns_watcher i sid id : nt_watch n !! i = Some (sid, id) -> sid ∈ nt_closed n -> net_step n (Ok (watcher_run n i id))
(* the sessions, the consumer of events, the dispatcher and the clock *)
| ns_close sid : (sid < length (nt_sess n))%nat -> net_step n (Ok (set_adding n (nt_srv n) ({[sid]} ∪ nt_closed n) (nt_adding n) (nt_watch n)))
| ns_disconnect : net_step n (Ok (Disconnect n))
| ns_down f werr : net_step n (net_Close n f werr)
| ns_event e es : sv_EventCh (nt_srv n) = e :: es -> net_step n (Ok (set_srv n (set_peers (nt_srv n) (sv_peers (nt_srv n)) es)))
| ns_periodic i r : run_step (sv_dispatcher (nt_srv n)) i r -> net_step n (d ← r; Ok (set_srv n (set_dispatcher (nt_srv n) d)))
| ns_tick t : clock (sv_dispatcher (nt_srv n)) <= t ->
    net_step n (Ok (set_srv n (set_dispatcher (nt_srv n)
      (mkS (disp (sv_dispatcher (nt_srv n))) (closed (sv_dispatcher (nt_srv n))) (nextch (sv_dispatcher (nt_srv n))) (loops (sv_dispatcher (nt_srv n))) t)))).

Definition net0 (s : Server) : net := mkNet s [] ∅ None [] [] [] [] true false.

Inductive net_reachable (pub : PublicKey) (opts : list (Config -> Config)) : net -> Prop :=
| nr_start now file s s' : NewServer pub opts now None = Ok s -> Start s file None = Ok s' -> net_reachable pub opts (net0 s')
| nr_step n n' : net_reachable pub opts n -> net_step n (Ok n') -> net_reachable pub opts n'.
