(* ===== verification/ServerTheorems.v ===== *)
(** * Theorems about the server

    Under every interleaving no step of the server panics, peers are stored under their own ids with
    a watcher for their session, and the channels keep within their capacity; the dispatcher holds
    an address exactly when its last dial found the peer busy.  The check for connected peers never
    applies, a replaced session takes the newer one with it, and a session that closes early stays. *)

From stdpp Require Import base gmap strings numbers list relations.
From S2P Require Import Prelude GoStd Rlp Crypto RlpxMsg RlpxFrame RlpxStream RlpxSession PeriodicHeap Periodic Server.
Local Open Scope Z_scope.

(** ** Peers *)

Lemma newPeer_eq conn id : bytes_ok id -> length id = 64%nat -> exists pretty,
  newPeer conn id = Ok (mkSPeer (ID_String id) pretty PeerActive conn []).
Proof.
  intros Hb Hl. unfold newPeer, str_take, ID_String. rewrite length_hex, Hl. cbn. by eexists.
Qed.

(** The session number [sid] belongs to the node with the textual id [id]. *)
Definition session_of (n : net) (sid : nat) (id : string) : Prop :=
  exists raw specs, nt_sess n !! sid = Some (raw, specs) /\ id = ID_String raw /\ length raw = 64%nat.

(** Its close will be noticed. *)
Definition watched (n : net) (sid : nat) (id : string) : Prop := (sid, id) ∈ nt_watch n \/ sid ∈ nt_closed n.

Record ninv (n : net) : Prop := {
  ni_disp : Periodic.sinv (sv_dispatcher (nt_srv n));
  ni_peers : forall id p, sv_peers (nt_srv n) !! id = Some p -> peer_ID p = id /\ session_of n (peer_conn p) id /\ watched n (peer_conn p) id;
  ni_adding : forall a, a ∈ nt_adding n -> session_of n (peer_conn (ad_peer a)) (peer_ID (ad_peer a)) /\
    (ad_watched a = false -> (ad_left a = length (ad_todo a) + length (ad_errs a))%nat) /\
    (ad_watched a = true -> watched n (peer_conn (ad_peer a)) (peer_ID (ad_peer a)));
  ni_watch : forall sid id, (sid, id) ∈ nt_watch n -> session_of n sid id;
  ni_events : (length (sv_EventCh (nt_srv n)) <= 20)%nat;
  ni_addPeer : (length (sv_addPeer (nt_srv n)) <= 20)%nat;
  ni_tasks : (length (nt_tasks n) <= c_DialTasks (sv_config (nt_srv n)))%nat;
  ni_store : sv_peerStore (nt_srv n) = NoopPeerStore;     (* the store of the configuration is not used *)
}.

(** ** The end of a dial task *)

(** What a dial task leaves behind: the dispatcher tracks the address exactly when the peer was busy,
    every other address is as before, and a success goes to the peer store. *)
Lemma dialTask_result_ok s task err : Periodic.sinv (sv_dispatcher s) -> exists s', dialTask_result s task err = Ok s' /\
  Periodic.sinv (sv_dispatcher s') /\ sv_peers s' = sv_peers s /\ sv_EventCh s' = sv_EventCh s /\ sv_addPeer s' = sv_addPeer s /\ sv_config s' = sv_config s /\
  (Contains (disp (sv_dispatcher s')) task = bool_decide (err = Some ("too many peers")%string)) /\
  (forall t, t ≠ task -> tracked (disp (sv_dispatcher s')) !! t = tracked (disp (sv_dispatcher s)) !! t) /\
  sv_peerStore s' = match err with None => store_Update (sv_peerStore s) task PeerActive | Some _ => sv_peerStore s end.
Proof.
  intros I. pose proof (sinv_d _ I) as D. set (d := disp (sv_dispatcher s)) in *. unfold dialTask_result. fold d.
  set (busy := match err with Some e => bool_decide (e = ("too many peers")%string) | None => false end).
  assert (busy = bool_decide (err = Some ("too many peers")%string)) as Hbusy.
  { unfold busy. destruct err as [e|]; [|done]. apply bool_decide_ext. split; [by intros ->|by intros [= ->]]. }
  assert (exists d', (if busy then if negb (Contains d task) then '(d, _) ← Add d (clock (sv_dispatcher s)) task (c_DialBusyInterval (sv_config s)); Ok d else Ok d
      else if Contains d task then '(d, _) ← Remove d task; Ok d else Ok d) = Ok d' /\ dinv d' /\ enabled d' = enabled d /\ cancelCh d' = cancelCh d /\
      Contains d' task = busy /\ forall t, t ≠ task -> tracked d' !! t = tracked d !! t) as (d' & -> & D' & E1 & E2 & Hc & Ht).
  { destruct busy; destruct (Contains d task) eqn:Ec; cbn [negb].
    - by exists d.
    - destruct (Add_ok d (clock (sv_dispatcher s)) task (c_DialBusyInterval (sv_config s)) D) as (d' & e & -> & D' & E1 & E2 & _ & Et & _).
      exists d'. split_and!; try done; unfold Contains; rewrite Et; [by rewrite lookup_insert_eq|intros t Hne; by rewrite lookup_insert_ne].
    - destruct (Remove_ok d task D) as (d' & -> & D' & E1 & E2 & _ & Et & _).
      exists d'. split_and!; try done; unfold Contains; rewrite Et; [by rewrite lookup_delete_eq|intros t Hne; by rewrite lookup_delete_ne].
    - by exists d. }
  cbn [mbind outcome_bind]. eexists. split; [done|]. pose proof (sinv_set_disp _ _ I D' E1 E2) as I'.
  destruct err; cbn; split_and!; try done; by rewrite <-Hbusy.
Qed.

Lemma store_noop (s s' : Server) task err : sv_peerStore s = NoopPeerStore ->
  sv_peerStore s' = match err : option string with None => store_Update (sv_peerStore s) task PeerActive | Some _ => sv_peerStore s end -> sv_peerStore s' = NoopPeerStore.
Proof. intros Hs ->. rewrite Hs. by destruct err. Qed.

Lemma return_to_task_ok s task err : Periodic.sinv (sv_dispatcher s) -> sv_peerStore s = NoopPeerStore -> exists s', return_to_task s task err = Ok s' /\
  Periodic.sinv (sv_dispatcher s') /\ sv_peers s' = sv_peers s /\ sv_EventCh s' = sv_EventCh s /\ sv_addPeer s' = sv_addPeer s /\ sv_config s' = sv_config s /\
  sv_peerStore s' = NoopPeerStore.
Proof.
  intros I Hs. destruct task as [t|]; [|by exists s]. destruct (dialTask_result_ok s t err I) as (s' & HE & I' & H1 & H2 & H3 & H4 & _ & _ & H5).
  exists s'. split_and!; try done. by eapply store_noop.
Qed.

(** ** The steps *)

Lemma session_of_app n raw specs sid id : session_of n sid id -> forall n', nt_sess n' = nt_sess n ++ [(raw, specs)] -> session_of n' sid id.
Proof. intros (r & sp & Hs & Hid & Hl) n' Hn. exists r, sp. rewrite Hn. split; [by apply lookup_app_l_Some|done]. Qed.

(** A step that leaves the sessions, the peers and the goroutines of [addSession] alone. *)
Lemma ninv_frame n n' : ninv n -> Periodic.sinv (sv_dispatcher (nt_srv n')) -> sv_peers (nt_srv n') = sv_peers (nt_srv n) ->
  nt_sess n' = nt_sess n -> nt_closed n' = nt_closed n -> nt_adding n' = nt_adding n -> nt_watch n' = nt_watch n ->
  (length (sv_EventCh (nt_srv n')) <= 20)%nat -> (length (sv_addPeer (nt_srv n')) <= 20)%nat ->
  (length (nt_tasks n') <= c_DialTasks (sv_config (nt_srv n')))%nat -> sv_peerStore (nt_srv n') = NoopPeerStore -> ninv n'.
Proof.
  intros [] Hd Hp Hs Hc Ha Hw ? ? ? ?. split; try done; unfold session_of, watched; rewrite ?Hp, ?Hs, ?Hc, ?Ha, ?Hw; done.
Qed.

Lemma addSession_start_inv n task id specs : ninv n -> bytes_ok id -> length id = 64%nat -> exists n', addSession_start n task id specs = Ok n' /\ ninv n'.
Proof.
  intros I Hb Hl. unfold addSession_start. destruct (newPeer_eq (length (nt_sess n)) id Hb Hl) as (pretty & ->). cbn [mbind outcome_bind].
  eexists. split; [done|]. set (n' := mkNet _ _ _ _ _ _ _ _ _ _). assert (forall sid i, session_of n sid i -> session_of n' sid i) as Hs.
  { intros sid i Hx. by eapply session_of_app. }
  split; cbn; try apply I.
  - intros i p Hp. destruct (ni_peers _ I i p Hp) as (? & ? & ?). split_and!; [done|by apply Hs|done].
  - intros a. rewrite elem_of_app, list_elem_of_singleton. intros [Ha| ->].
    + destruct (ni_adding _ I a Ha) as (? & ? & ?). split_and!; [by apply Hs|done|done].
    + cbn. split_and!; [|intros _; lia|done]. exists id, specs. cbn. rewrite lookup_app_r, Nat.sub_diag by done. done.
  - intros sid i Hx. apply Hs. by apply (ni_watch _ I).
Qed.

Lemma handler_done_peer s a i spec res : ad_todo a !! i = Some spec -> let a' := handler_done s a i spec res in
  ad_peer a' = ad_peer a /\ ad_watched a' = ad_watched a /\ ad_left a' = ad_left a /\
  (length (ad_todo a') + length (ad_errs a') = length (ad_todo a) + length (ad_errs a))%nat.
Proof.
  intros Hi. apply delete_Permutation in Hi as Hp. apply Permutation_length in Hp. cbn [length] in Hp. unfold handler_done.
  destruct (Server_getProtocol _ _ _), res; cbn; rewrite length_app; cbn; split_and!; try done; lia.
Qed.

(** A session closes, or not; the calls of [addSession] change one by one, or return. *)
Lemma ninv_adding n s c ad w : ninv n -> Periodic.sinv (sv_dispatcher s) -> sv_peers s = sv_peers (nt_srv n) -> sv_EventCh s = sv_EventCh (nt_srv n) ->
  sv_addPeer s = sv_addPeer (nt_srv n) -> sv_config s = sv_config (nt_srv n) -> sv_peerStore s = NoopPeerStore -> nt_closed n ⊆ c -> nt_watch n ⊆ w ->
  (forall sid id, (sid, id) ∈ w -> session_of n sid id) ->
  (forall a, a ∈ ad -> a ∈ nt_adding n \/ (session_of n (peer_conn (ad_peer a)) (peer_ID (ad_peer a)) /\
     (ad_watched a = false -> (ad_left a = length (ad_todo a) + length (ad_errs a))%nat) /\
     (ad_watched a = true -> (peer_conn (ad_peer a), peer_ID (ad_peer a)) ∈ w \/ peer_conn (ad_peer a) ∈ c))) ->
  ninv (set_adding n s c ad w).
Proof.
  intros I Hd Hp He Ha Hcfg Hst Hc Hw Hwo Had. assert (forall sid id, watched n sid id -> (sid, id) ∈ w \/ sid ∈ c) as Hwat by (intros sid id [?|?]; [left|right]; auto).
  split; cbn; rewrite ?Hp, ?He, ?Ha, ?Hcfg; try apply I; try done.
  - intros id p Hx. destruct (ni_peers _ I id p Hx) as (? & ? & ?). split_and!; [done|done|]. by apply Hwat.
  - intros a Hx. destruct (Had a Hx) as [Hin|?]; [|done]. destruct (ni_adding _ I a Hin) as (? & ? & Hq). split_and!; [done|done|].
    intros Hy. by apply Hwat, Hq.
Qed.

Lemma elem_of_list_insert {A} (l : list A) k x y : x ∈ <[k := y]> l -> x ∈ l \/ x = y.
Proof.
  intros (i & Hi)%list_elem_of_lookup. destruct (decide (i = k)) as [->|Hne].
  - destruct (decide (k < length l)%nat) as [Hlt|Hge]; [rewrite list_lookup_insert_eq in Hi by done; right; congruence|].
    rewrite list_insert_ge in Hi by lia. left. by eapply list_elem_of_lookup_2.
  - rewrite list_lookup_insert_ne in Hi by done. left. by eapply list_elem_of_lookup_2.
Qed.

Lemma elem_of_list_delete {A} (l : list A) k x : x ∈ delete k l -> x ∈ l.
Proof. intros Hx. eapply elem_of_submseteq; [exact Hx|]. apply sublist_submseteq, sublist_delete. Qed.

Lemma errs_recv_inv n k a err errs : ninv n -> nt_adding n !! k = Some a -> ad_errs a = err :: errs -> ad_watched a = false ->
  exists n', errs_recv n k a err errs = Ok n' /\ ninv n'.
Proof.
  intros I Hk He Hw. assert (a ∈ nt_adding n) as Hin by (by eapply list_elem_of_lookup_2). destruct (ni_adding _ I a Hin) as (Hs & Hl & _). unfold errs_recv. destruct err as [e|].
  - destruct (return_to_task_ok (nt_srv n) (ad_task a) (Some e) (ni_disp _ I) (ni_store _ I)) as (s & -> & I' & ? & ? & ? & ? & ?). cbn [mbind outcome_bind].
    eexists. split; [done|]. apply ninv_adding; try done; [set_solver|by apply I|]. intros x Hx%elem_of_list_delete. by left.
  - eexists. split; [done|]. apply ninv_adding; try done; try apply I. intros x [?| ->]%elem_of_list_insert; [by left|right]. cbn.
    split_and!; [done| |by rewrite Hw]. intros _. rewrite Hl by done. rewrite He. cbn. lia.
Qed.

Lemma start_watcher_inv n k a : ninv n -> nt_adding n !! k = Some a -> ninv (start_watcher n k a).
Proof.
  intros I Hk. assert (a ∈ nt_adding n) as Hin by (by eapply list_elem_of_lookup_2). destruct (ni_adding _ I a Hin) as (Hs & _ & _).
  apply ninv_adding; try done; try apply I; [set_solver| |].
  - intros sid id. rewrite elem_of_app, list_elem_of_singleton. intros [?|[= -> ->]]; [by apply I|done].
  - intros x [?| ->]%elem_of_list_insert; [by left|right]. cbn. split_and!; [done|done|]. intros _. left. apply elem_of_app. right. by left.
Qed.

Lemma addSession_end_inv n k a : ninv n -> nt_adding n !! k = Some a -> ad_watched a = true -> exists n', addSession_end n k a = Ok n' /\ ninv n'.
Proof.
  intros I Hk Hw. assert (a ∈ nt_adding n) as Hin by (by eapply list_elem_of_lookup_2). destruct (ni_adding _ I a Hin) as (Hs & _ & Hwa).
  assert (length (sv_EventCh (insert_peer (nt_srv n) (ad_peer a))) <= 20)%nat as Hev.
  { unfold insert_peer. cbn [set_peers sv_EventCh]. destruct (Nat.ltb_spec (length (sv_EventCh (nt_srv n))) 20); [rewrite length_app; simpl; lia|apply I]. }
  assert (ninv (set_srv n (insert_peer (nt_srv n) (ad_peer a)))) as I1.
  { split; cbn; try apply I.
    - intros id p. rewrite lookup_insert_Some. intros [[<- <-]|[_ Hp]]; [|by apply (ni_peers _ I)]. split_and!; [done|done|by apply Hwa].
    - exact Hev. }
  unfold addSession_end. destruct (return_to_task_ok (insert_peer (nt_srv n) (ad_peer a)) (ad_task a) None (ni_disp _ I) (ni_store _ I)) as (s & -> & I' & ? & ? & ? & ? & ?).
  cbn [mbind outcome_bind]. eexists. split; [done|]. apply (ninv_adding (set_srv n (insert_peer (nt_srv n) (ad_peer a)))); try done.
  - apply I1.
  - intros x Hx%elem_of_list_delete. by left.
Qed.

Lemma watcher_run_inv n i sid id : ninv n -> nt_watch n !! i = Some (sid, id) -> sid ∈ nt_closed n -> ninv (watcher_run n i id).
Proof.
  intros I Hi Hc. pose proof (delete_Permutation _ _ _ Hi) as Hp.
  assert (forall s x, watched n s x -> (s, x) ∈ delete i (nt_watch n) \/ s ∈ nt_closed n) as Hw.
  { intros s x [Hin|?]; [|by right]. rewrite Hp in Hin. apply elem_of_cons in Hin as [[= -> ->]|?]; [by right|by left]. }
  split; cbn; try apply I.
  - intros x p. rewrite lookup_delete_Some. intros [_ Hx]. destruct (ni_peers _ I x p Hx) as (? & ? & ?). split_and!; [done|done|by apply Hw].
  - intros a Ha. destruct (ni_adding _ I a Ha) as (? & ? & Hq). split_and!; [done|done|]. intros Hy. by apply Hw, Hq.
  - intros s x Hx%elem_of_list_delete. by apply (ni_watch _ I).
Qed.

(** Only the transport is closed twice. *)
Lemma net_Close_inv n f werr : ninv n -> (exists n', net_Close n f werr = Ok n' /\ ninv n') \/ (net_Close n f werr = Panic /\ nt_down n = true).
Proof.
  intros I. unfold net_Close. cbn [Disconnect set_adding nt_srv nt_down]. rewrite (ni_store _ I). cbn [store_Close Noop_Close].
  destruct (nt_down n); [by right|left]. eexists. split; [done|].
  assert (ninv (Disconnect n)) as I1 by (apply ninv_adding; try done; [apply I..|set_solver|apply I|by left]). destruct I1. by split.
Qed.

Lemma net_step_inv n r : ninv n -> net_step n r -> (exists n', r = Ok n' /\ ninv n') \/ (r = Panic /\ nt_down n = true).
Proof.
  intros I Hst. pose proof (ni_disp _ I) as D. pose proof (ni_events _ I) as Bev. pose proof (ni_addPeer _ I) as Bad. pose proof (ni_tasks _ I) as Bt. pose proof (ni_store _ I) as St.
  assert (forall s, Periodic.sinv (sv_dispatcher s) -> sv_peers s = sv_peers (nt_srv n) -> (length (sv_EventCh s) <= 20)%nat -> (length (sv_addPeer s) <= 20)%nat ->
    sv_config s = sv_config (nt_srv n) -> sv_peerStore s = NoopPeerStore -> ninv (set_srv n s)) as Hsrv by (intros s ? ? ? ? Hcfg ?; apply (ninv_frame n); try done; cbn; by rewrite Hcfg).
  destruct Hst as [enode| |e es Hh Hq|e Hh|e es Hh Hq|e Hh Hlen|t ts Ht Hb Hk|t ts Ht Hb Hk|i t e Hi|i t id specs Hi Hib Hil|id specs Hib Hil|id specs Ha Hib Hil|Ha Hd
    |k a i spec res Hk Hi|k a err errs Hk He Hw|k a Hk Hl Hw|k a Hk Hw|i sid id Hi Hc|sid Hs| |f werr|e es He|i r Hr|t Ht]; try (by apply net_Close_inv); left.
  - eexists. split; [done|]. unfold Dial. destruct (Nat.ltb_spec (length (sv_addPeer (nt_srv n))) 20); apply Hsrv; try done. cbn. rewrite length_app. simpl. lia.
  - destruct (SetEnabled_inv _ true D) as (d & -> & D'). eexists. split; [done|]. by apply Hsrv.
  - eexists. split; [done|]. apply (ninv_frame n); try done. cbn. rewrite Hq in Bad. simpl in Bad. lia.
  - eexists. split; [done|]. by apply (ninv_frame n).
  - eexists. split; [done|]. apply (ninv_frame n); try done. cbn. apply sinv_set_disp; try done. unfold drain_event. apply dinv_drain; [apply D|..].
    + pose proof (inv_event _ (sinv_d _ D)) as Hl. rewrite Hq in *. simpl in *. lia.
    + apply (inv_update _ (sinv_d _ D)).
  - eexists. split; [done|]. apply (ninv_frame n); try done. cbn. rewrite length_app. simpl. lia.
  - destruct (dialTask_result_ok (nt_srv n) t None D) as (s & -> & D' & E1 & E2 & E3 & E4 & _ & _ & E5). cbn [mbind outcome_bind]. eexists. split; [done|].
    rewrite Ht in Bt. simpl in Bt. apply (ninv_frame n); try done; cbn; rewrite ?E2, ?E3, ?E4; try done; [lia|]. by eapply (store_noop _ s t None).
  - eexists. split; [done|]. rewrite Ht in Bt. simpl in Bt. apply (ninv_frame n); try done. cbn. lia.
  - destruct (dialTask_result_ok (nt_srv n) t (Some e) D) as (s & -> & D' & E1 & E2 & E3 & E4 & _ & _ & E5). cbn [mbind outcome_bind]. eexists. split; [done|].
    apply (ninv_frame n); try done; cbn; rewrite ?E2, ?E3, ?E4; try done. by eapply (store_noop _ s t (Some e)).
  - apply addSession_start_inv; try done. by apply (ninv_frame n).
  - by apply addSession_start_inv.
  - apply addSession_start_inv; try done. by apply (ninv_frame n).
  - eexists. split; [done|]. by apply (ninv_frame n).
  - eexists. split; [done|]. apply ninv_adding; try done; try apply I. intros x [?| ->]%elem_of_list_insert; [by left|right].
    assert (a ∈ nt_adding n) as Hin by (by eapply list_elem_of_lookup_2). destruct (ni_adding _ I a Hin) as (Hs & Hl & Hw).
    destruct (handler_done_peer (nt_srv n) a i spec res Hi) as (E1 & E2 & E3 & E4). rewrite E1, E2, E3, E4. by split_and!.
  - by eapply errs_recv_inv.
  - eexists. split; [done|]. by apply start_watcher_inv.
  - by apply addSession_end_inv.
  - eexists. split; [done|]. by eapply watcher_run_inv.
  - eexists. split; [done|]. apply ninv_adding; try done; [set_solver|apply I|by left].
  - eexists. split; [done|]. apply ninv_adding; try done; [set_solver|apply I|by left].
  - eexists. split; [done|]. apply Hsrv; try done. cbn. rewrite He in Bev. simpl in Bev. lia.
  - destruct (run_step_inv _ _ _ D Hr) as (d & -> & D'). eexists. split; [done|]. by apply Hsrv.
  - destruct (dstep_inv _ _ D (ds_tick _ t Ht)) as (d & [= <-] & D'). eexists. split; [done|]. by apply Hsrv.
Qed.

(** ** Reachable states *)

Lemma started pub opts now file : exists s s', NewServer pub opts now None = Ok s /\ Start s file None = Ok s' /\ ninv (net0 s') /\
  sv_peers s' = ∅ /\ sv_peerStore s' = NoopPeerStore.
Proof.
  unfold NewServer. rewrite PubkeyToEnode_eq. cbn [mbind outcome_bind]. eexists _, _. split; [done|]. split; [done|]. split_and!; [|done|done].
  split; cbn; try (intros *; by rewrite ?lookup_empty, ?elem_of_nil); try lia. exact (reachable_inv now _ (reach_0 now)).
Qed.

Lemma net_inv pub opts n : net_reachable pub opts n -> ninv n.
Proof.
  induction 1 as [now file s s' HN HS|n n' _ IH Hst].
  - destruct (started pub opts now file) as (s0 & s1 & HN' & HS' & I & _). rewrite HN in HN'. injection HN' as <-. rewrite HS in HS'. injection HS' as <-. done.
  - by destruct (net_step_inv _ _ IH Hst) as [(n1 & [= <-] & I)|[? _]].
Qed.

Definition net_ok_step (n n' : net) : Prop := net_step n (Ok n').

Lemma net_reachable_rtc pub opts n n' : net_reachable pub opts n -> rtc net_ok_step n n' -> net_reachable pub opts n'.
Proof. intros Hr. induction 1 as [|n1 n2 n3 Hst _ IH]; [done|]. apply IH. by eapply nr_step. Qed.

Lemma string_length_app a b : String.length (a ++ b) = (String.length a + String.length b)%nat.
Proof. induction a as [|c a IH]; [done|]. cbn. by rewrite <-IH. Qed.

(** The keys of the peers have 128 characters. *)
Lemma peer_key_length n id p : ninv n -> sv_peers (nt_srv n) !! id = Some p -> String.length id = 128%nat.
Proof.
  intros I Hp. destruct (ni_peers _ I id p Hp) as (_ & (raw & specs & _ & -> & Hl) & _). unfold ID_String. rewrite length_hex, Hl. done.
Qed.

Lemma not_connected n url : ninv n -> String.length url ≠ 128%nat -> already_connected (nt_srv n) url = false.
Proof.
  intros I Hl. unfold already_connected. apply bool_decide_eq_false_2. intros [p Hp]. by apply Hl, (peer_key_length n url p).
Qed.

(** A session without streams is added: the call, the watcher, the entry in the map. *)
Lemma session_starts n id : ninv n -> nt_adding n = [] -> bytes_ok id -> length id = 64%nat -> exists n' p,
  rtc net_ok_step n n' /\ nt_srv n' = nt_srv n /\ nt_sess n' = nt_sess n ++ [(id, [])] /\ nt_closed n' = nt_closed n /\
  nt_watch n' = nt_watch n ++ [(length (nt_sess n), ID_String id)] /\
  nt_adding n' = [mkAdding None p [] [] 0 [] true] /\ peer_ID p = ID_String id /\ peer_conn p = length (nt_sess n).
Proof.
  intros I Ha Hb Hl. destruct (newPeer_eq (length (nt_sess n)) id Hb Hl) as (pretty & HP).
  pose proof (ns_sync n id [] Hb Hl) as H1. unfold addSession_start in H1. rewrite HP in H1. cbn [mbind outcome_bind] in H1.
  eexists _, _. split.
  - eapply rtc_l; [exact H1|]. eapply rtc_l; [|apply rtc_refl].
    eapply (ns_watch _ 0%nat); cbn; [by rewrite Ha|done|done].
  - cbn. rewrite Ha. cbn. by split_and!.
Qed.

Lemma session_inserted n p : nt_adding n = [mkAdding None p [] [] 0 [] true] ->
  net_ok_step n (set_adding n (insert_peer (nt_srv n) p) (nt_closed n) [] (nt_watch n)).
Proof. intros Ha. unfold net_ok_step. pose proof (ns_insert n 0%nat (mkAdding None p [] [] 0 [] true)) as Hst. rewrite Ha in Hst. unfold addSession_end in Hst. rewrite Ha in Hst. by apply Hst. Qed.

(** ** Properties *)


Definition pub0 : PublicKey := mkPub 1 2.




(** a busy peer is not dialled again.  A peer that refuses with "too many peers" makes the handshake
    fail with an error that has a prefix, so that the comparison in the dial task fails and the
    address is dropped from the dispatcher instead of being scheduled. *)
Theorem busy_peer_dropped `{Keccak} `{Block} `{Snappy} `{FastRLP} pub opts n task (s s' : Session) remote c c' buf :
  net_reachable pub opts n -> Session_ReadMsg s c = Ok (s', c', (discMsg, buf)) -> Z.of_nat (length buf) <= baseProtocolMaxMsgSize ->
  decodeDiscMsg buf = (DiscTooManyPeers, None) ->
  exists e sv, readProtocolHandshake s remote c = Err e /\ dialTask_result (nt_srv n) task (Some e) = Ok sv /\
    Contains (disp (sv_dispatcher sv)) task = false.
Proof.
  intros Hr HR Hl HD. destruct (dialTask_result_ok (nt_srv n) task (Some ("disconnected: too many peers")%string) (ni_disp _ (net_inv _ _ _ Hr)))
    as (sv & HE & _ & _ & _ & _ & _ & Hc & _).
  exists ("disconnected: too many peers")%string, sv. split_and!; [|done|by rewrite Hc].
  unfold readProtocolHandshake. rewrite HR. cbn [mbind outcome_bind]. rewrite Z.gtb_ltb, (proj2 (Z.ltb_ge _ _)) by lia. cbn [Z.eqb discMsg Pos.eqb]. by rewrite HD.
Qed.

Lemma busy_peer_dropped_witness : exists n e sv c, net_reachable pub0 [] n /\ readProtocolHandshake sess0 (toy_pub 5) c = Err e /\
  dialTask_result (nt_srv n) "enode://a" (Some e) = Ok sv /\ Contains (disp (sv_dispatcher sv)) "enode://a" = false.
Proof.
  destruct (started pub0 [] 1 NoFile) as (s & s1 & HN & HS & _). pose proof (nr_start pub0 [] 1 NoFile s s1 HN HS) as Hr.
  destruct (read_frame (hc0 false) [1; 0xC1; 4] (replicate 32 0) eq_refl ltac:(vm_compute; discriminate)) as (h & HR).
  destruct (busy_peer_dropped pub0 [] (net0 s1) "enode://a" sess0 (set_in sess0 (after (hc0 false) [1; 0xC1; 4] (replicate 32 0) h)) (toy_pub 5)
    (fst (frame (hc0 false) [1; 0xC1; 4] (replicate 32 0)) ++ []) [] [0xC1; 4] Hr) as (e & sv & H1 & H2 & H3).
  - unfold Session_ReadMsg. change (ss_in sess0) with (hc0 false). rewrite HR. reflexivity.
  - vm_compute. discriminate.
  - reflexivity.
  - eexists (net0 s1), e, sv, _. split_and!; [exact Hr|exact H1|exact H2|exact H3].
Defined.

(** The check for connected peers never applies: peers are stored under ids of 128 characters, and the
    address of a node is longer. *)
Theorem connected_check_void pub opts n id rest : net_reachable pub opts n -> String.length id = 128%nat ->
  already_connected (nt_srv n) ("enode://" ++ id ++ rest) = false.
Proof.
  intros Hr Hl. apply not_connected; [by eapply net_inv|]. rewrite !string_length_app, Hl. cbn. lia.
Qed.

(** a second session with a peer is lost with the first.  The node can be connected to twice; the newer
    session replaces the older one in the map, and when the older one closes its watcher deletes the
    entry of the newer one, which is still open. *)
Theorem replaced_peer_lost pub opts id : bytes_ok id -> length id = 64%nat -> exists n n' p, net_reachable pub opts n /\
  sv_peers (nt_srv n) !! ID_String id = Some p /\ peer_conn p ∉ nt_closed n /\
  rtc net_ok_step n n' /\ sv_peers (nt_srv n') !! ID_String id = None /\ peer_conn p ∉ nt_closed n'.
Proof.
  intros Hb Hl. destruct (started pub opts 1 NoFile) as (s0 & s & HN & HS & I0 & _). pose proof (nr_start pub opts 1 NoFile s0 s HN HS) as R0.
  destruct (session_starts (net0 s) id I0 eq_refl Hb Hl) as (n1 & p1 & Hst1 & _ & Hse1 & Hcl1 & Hw1 & Ha1 & Hid1 & Hc1).
  pose proof (net_reachable_rtc _ _ _ _ R0 Hst1) as R1. pose proof (session_inserted n1 p1 Ha1) as Hst2. pose proof (nr_step _ _ _ _ R1 Hst2) as R2.
  set (n2 := set_adding n1 _ _ _ _) in *.
  destruct (session_starts n2 id (net_inv _ _ _ R2) eq_refl Hb Hl) as (n3 & p3 & Hst3 & _ & Hse3 & Hcl3 & Hw3 & Ha3 & Hid3 & Hc3).
  pose proof (net_reachable_rtc _ _ _ _ R2 Hst3) as R3. pose proof (session_inserted n3 p3 Ha3) as Hst4. pose proof (nr_step _ _ _ _ R3 Hst4) as R4.
  set (n4 := set_adding n3 _ _ _ _) in *.
  change (nt_closed n2) with (nt_closed n1) in Hcl3. change (nt_sess n2) with (nt_sess n1) in *. change (nt_watch n2) with (nt_watch n1) in Hw3.
  rewrite Hcl1 in Hcl3. rewrite Hse1 in Hse3, Hw3, Hc3. rewrite Hw1 in Hw3. cbn in Hcl3, Hse3, Hw3, Hc3.
  set (n5 := set_adding n4 (nt_srv n4) ({[0%nat]} ∪ nt_closed n4) (nt_adding n4) (nt_watch n4)).
  exists n4, (watcher_run n5 0 (ID_String id)), p3. split_and!.
  - done.
  - cbn. rewrite Hid3. by rewrite lookup_insert_eq.
  - cbn. rewrite Hcl3. set_solver.
  - eapply rtc_l; [apply (ns_close n4 0%nat); cbn; rewrite Hse3; simpl; lia|]. apply rtc_once. apply (ns_watcher _ 0%nat 0%nat); [cbn; by rewrite Hw3|cbn; set_solver].
  - cbn. by rewrite lookup_delete_eq.
  - cbn. rewrite Hcl3, Hc3. set_solver.
Qed.

Lemma replaced_peer_lost_witness : exists n n' p, net_reachable pub0 [] n /\ sv_peers (nt_srv n) !! ID_String (replicate 64 7) = Some p /\
  rtc net_ok_step n n' /\ sv_peers (nt_srv n') !! ID_String (replicate 64 7) = None /\ peer_conn p ∉ nt_closed n'.
Proof.
  destruct (replaced_peer_lost pub0 [] (replicate 64 7)) as (n & n' & p & H1 & H2 & _ & H3 & H4 & H5).
  - apply Forall_byte_replicate. unfold byte_ok. lia.
  - apply length_replicate.
  - exists n, n', p. split_and!; [exact H1|exact H2|exact H3|exact H4|exact H5].
Defined.

(** A session that closes before [addSession] has entered its peer into the map stays there: the watcher
    ran before, and nobody removes the entry. *)
Theorem closed_peer_stays pub opts id : bytes_ok id -> length id = 64%nat -> exists n p, net_reachable pub opts n /\
  sv_peers (nt_srv n) !! ID_String id = Some p /\ peer_conn p ∈ nt_closed n /\ nt_watch n = [] /\ nt_adding n = [].
Proof.
  intros Hb Hl. destruct (started pub opts 1 NoFile) as (s0 & s & HN & HS & I0 & _). pose proof (nr_start pub opts 1 NoFile s0 s HN HS) as R0.
  destruct (session_starts (net0 s) id I0 eq_refl Hb Hl) as (n1 & p1 & Hst1 & _ & Hse1 & Hcl1 & Hw1 & Ha1 & Hid1 & Hc1).
  pose proof (net_reachable_rtc _ _ _ _ R0 Hst1) as R1. cbn in Hse1, Hw1, Hc1, Hcl1.
  set (n2 := set_adding n1 (nt_srv n1) ({[0%nat]} ∪ nt_closed n1) (nt_adding n1) (nt_watch n1)).
  assert (net_reachable pub opts n2) as R2. { eapply nr_step; [exact R1|]. apply (ns_close n1 0%nat). rewrite Hse1. simpl. lia. }
  set (n3 := watcher_run n2 0 (ID_String id)).
  assert (net_reachable pub opts n3) as R3. { eapply nr_step; [exact R2|]. apply (ns_watcher n2 0%nat 0%nat); [cbn; by rewrite Hw1|cbn; set_solver]. }
  assert (nt_adding n3 = [mkAdding None p1 [] [] 0 [] true]) as Ha3 by exact Ha1.
  pose proof (nr_step _ _ _ _ R3 (session_inserted n3 p1 Ha3)) as R4. eexists _, p1. split; [exact R4|]. cbn. rewrite Hid1, Hw1, Hc1. split_and!; try done.
  - by rewrite lookup_insert_eq.
  - set_solver.
Qed.

(** What a JSON peer store has been told of is what the next one loads from its file, with the last status of
    each address; a file that cannot be read is an error of [Load], and one that cannot be written of [Close]. *)
Theorem peerstore_reload (us : list (string * Z)) (f : file) :
  let st := foldl (fun p u => store_Update p u.1 u.2) NewJSONPeerStore us in
  (exists m addrs, store_Close st f None = (PeerFile m, None) /\ store_Load NewJSONPeerStore (PeerFile m) = Ok (JSONPeerStore m, addrs) /\
    st = JSONPeerStore m /\ NoDup addrs /\ forall a, a ∈ addrs <-> a ∈ us.*1) /\
  (forall e, store_Load st (BadFile e) = Err e /\ exists f', store_Close st f (Some e) = (f', Some e)).
Proof.
  assert (forall m, exists m', foldl (fun p u => store_Update p u.1 u.2) (JSONPeerStore m) us = JSONPeerStore m' /\
    forall a, is_Some (m' !! a) <-> is_Some (m !! a) \/ a ∈ us.*1) as Hf.
  { induction us as [|[a st] us IH]; intros m; cbn.
    - exists m. split; [done|]. set_solver.
    - destruct (IH (<[a := st]> m)) as (m' & HE & Hm). exists m'. split; [exact HE|]. intros x. rewrite Hm, lookup_insert_is_Some, elem_of_cons.
      destruct (decide (a = x)); naive_solver. }
  destruct (Hf ∅) as (m & HE & Hm). unfold NewJSONPeerStore. rewrite HE. cbn. unfold JSON_Load, JSON_Close. split; [|intros e; split; [done|by eexists]].
  exists m. rewrite map_union_empty. eexists. split_and!; [done|done|done|apply NoDup_fst_map_to_list|].
  intros a. rewrite list_elem_of_fmap. split.
  - intros ([x v] & -> & Hx%elem_of_map_to_list). cbn. destruct (proj1 (Hm x)) as [[? Hs]|]; [by eexists|by rewrite lookup_empty in Hs|done].
  - intros Ha. destruct (proj2 (Hm a) (or_intror Ha)) as [v Hv]. exists (a, v). split; [done|]. by apply elem_of_map_to_list.
Qed.

(** ** Protocols whose handlers run for as long as the session *)

(** Every session has a stream and no handler has returned nil: the case of [wire/eth], whose handler
    is a loop that only an error ends. *)
Definition handlers_fail (n : net) : Prop :=
  (forall s, s ∈ nt_sess n -> s.2 ≠ []) /\ (forall a, a ∈ nt_adding n -> None ∉ ad_errs a).

Inductive net_failing (pub : PublicKey) (opts : list (Config -> Config)) : net -> Prop :=
| nf_start now file s s' : NewServer pub opts now None = Ok s -> Start s file None = Ok s' -> net_failing pub opts (net0 s')
| nf_step n n' : net_failing pub opts n -> net_step n (Ok n') -> handlers_fail n' -> net_failing pub opts n'.

Lemma net_failing_reachable pub opts n : net_failing pub opts n -> net_reachable pub opts n.
Proof. induction 1; [by eapply nr_start|by eapply nr_step]. Qed.

Lemma net_failing_fail pub opts n : net_failing pub opts n -> handlers_fail n.
Proof. destruct 1; [|done]. split; cbn; set_solver. Qed.

(** Nobody is in the map, and every call of [addSession] still waits for a result. *)
Record unregistered (n : net) : Prop := {
  un_peers : sv_peers (nt_srv n) = ∅;
  un_adding a : a ∈ nt_adding n -> ad_watched a = false /\ ad_left a ≠ 0%nat;
}.

Lemma unregistered_adding n s c ad w : unregistered n -> sv_peers s = sv_peers (nt_srv n) ->
  (forall a, a ∈ ad -> a ∈ nt_adding n \/ (ad_watched a = false /\ ad_left a ≠ 0%nat)) -> unregistered (set_adding n s c ad w).
Proof. intros [Hp Ha] Hs Had. split; cbn; [congruence|]. intros a [?|?]%Had; auto. Qed.

Lemma unregistered_frame n n' : unregistered n -> sv_peers (nt_srv n') = sv_peers (nt_srv n) -> nt_adding n' = nt_adding n -> unregistered n'.
Proof. intros [Hp Ha] Es Ea. split; rewrite ?Es, ?Ea; done. Qed.

Lemma addSession_start_unregistered n task id specs n' : unregistered n -> addSession_start n task id specs = Ok n' -> handlers_fail n' -> unregistered n'.
Proof.
  intros [Hp Ha] E [Hs _]. unfold addSession_start in E. invO E. split; [done|]. cbn. intros a'.
  rewrite elem_of_app, list_elem_of_singleton. intros [?| ->]; [auto|]. cbn. split; [done|].
  intros Hl%length_zero_iff_nil. apply (Hs (id, specs)); [|done]. cbn. set_solver.
Qed.

Lemma unregistered_step n n' : ninv n -> handlers_fail n -> unregistered n -> net_step n (Ok n') -> handlers_fail n' -> unregistered n'.
Proof.
  intros I [_ Hf] U Hstep Hf'. pose proof (un_adding _ U) as Ha.
  assert (forall k a, nt_adding n !! k = Some a -> a ∈ nt_adding n) as Hin by (intros; by eapply list_elem_of_lookup_2).
  assert (forall t err s, dialTask_result (nt_srv n) t err = Ok s -> sv_peers s = sv_peers (nt_srv n)) as Hdial.
  { intros t err s Es. destruct (dialTask_result_ok (nt_srv n) t err (ni_disp _ I)) as (s' & Es' & _ & ? & _). congruence. }
  remember (Ok n') as r eqn:Er. destruct Hstep; invO Er.
  all: try (apply (unregistered_frame n); [done|by cbn; eauto|done]).
  all: try (by eapply addSession_start_unregistered; [|exact Er|]; [by apply (unregistered_frame n)|]).
  all: try (by eapply addSession_start_unregistered).
  all: try (apply unregistered_adding; [done|done|by left]).
  - apply (unregistered_frame n); [done| |done]. cbn [set_srv nt_srv]. unfold Dial. by case_if.
  - apply unregistered_adding; [done|done|]. intros a' [?| ->]%elem_of_list_insert; [by left|right].
    pose proof (handler_done_peer (nt_srv n) a i spec res ltac:(eassumption)) as (_ & -> & -> & _). eauto.
  - destruct err as [e|]; [|exfalso; eapply (Hf a); [eauto|]; match goal with HE : ad_errs a = _ |- _ => rewrite HE end; by left]. cbn [errs_recv] in Er. invO Er.
    apply unregistered_adding; [done| |intros a' ?%elem_of_list_delete; by left].
    unfold return_to_task in *. destruct (ad_task a); [eauto|congruence].
  - exfalso. by eapply (proj2 (Ha a ltac:(eauto))).
  - exfalso. pose proof (proj1 (Ha a ltac:(eauto))). congruence.
  - split; [|exact Ha]. cbn. rewrite (un_peers _ U). apply delete_empty.
  - unfold net_Close in Er. cbn [Disconnect set_adding nt_srv nt_down] in Er. rewrite (ni_store _ I) in Er. cbn [store_Close Noop_Close] in Er.
    destruct (nt_down n); [done|]. injection Er as <-. by apply (unregistered_frame n).
Qed.

(** With a protocol whose handler returns only errors, as the handler of [wire/eth] does, no peer
    is ever registered: [addSession] waits for the handlers before it enters the peer into the map,
    so in every reachable state the server has no peers, announces none and watches no session. *)
Theorem no_peer_registered pub opts n : net_failing pub opts n ->
  GetPeers (nt_srv n) = [] /\ (forall id, GetPeer (nt_srv n) id = None) /\ forall a, a ∈ nt_adding n -> ad_watched a = false.
Proof.
  intros Hn. assert (unregistered n) as U.
  { induction Hn as [now file s s' HN HS|n n' Hn IH Hstep Hf]; [|eapply unregistered_step; eauto using net_inv, net_failing_reachable, net_failing_fail].
    destruct (started pub opts now file) as (s0 & s1 & HN' & HS' & _ & Hp & _). split; [|cbn; set_solver]. cbn. congruence. }
  unfold GetPeers, GetPeer. rewrite (un_peers _ U), map_to_list_empty. split_and!; try done. intros a Ha. by apply (un_adding _ U).
Qed.

Lemma no_peer_registered_witness : exists n, net_failing pub0 [] n /\ length (nt_adding n) = 1%nat /\ GetPeers (nt_srv n) = [].
Proof.
  destruct (started pub0 [] 1 NoFile) as (s0 & s & HN & HS & _ & Hp & _). pose proof (nf_start pub0 [] 1 NoFile s0 s HN HS) as Hr.
  set (id := replicate 64 7). assert (bytes_ok id) as Hb by (apply Forall_byte_replicate; unfold byte_ok; lia).
  destruct (newPeer_eq 0 id Hb (length_replicate _ _)) as (pretty & Hnew).
  set (n := mkNet s [(id, [mkSpec "eth" 66 17])] ∅ None [] [] [mkAdding None (mkSPeer (ID_String id) pretty PeerActive 0 []) [mkSpec "eth" 66 17] [] 1 [] false] [] true false).
  assert (net_failing pub0 [] n) as Hn.
  { apply (nf_step _ _ _ _ Hr).
    - assert (Ok n = addSession_start (net0 s) None id [mkSpec "eth" 66 17]) as ->. { unfold addSession_start. cbn [net0 nt_sess length]. rewrite Hnew. reflexivity. }
      apply ns_sync; [done|apply length_replicate].
    - split; cbn; intros x Hx%list_elem_of_singleton; subst x; [done|cbn; apply not_elem_of_nil]. }
  exists n. split_and!; [exact Hn|reflexivity|]. exact (proj1 (no_peer_registered pub0 [] n Hn)).
Defined.
