(* ===== verification/Node.v ===== *)
(** * The node

    A server with the transport and the discovery it is set up with: [NewServer] with [setupDiscovery],
    [Start] with the transport's [Setup] and the discovery's [Schedule], [connectWithEnode] with the
    transport's [DialTimeout], and [Close].  What [Server] takes from a transport is shown to hold of
    the sessions of [Rlpx]. *)

From stdpp Require Import base gmap sets strings numbers list relations.
From S2P Require Import Prelude GoStd Rlp Crypto RlpxMsg Enode Handshake RlpxFrame RlpxStream RlpxSession Rlpx Discv4 Discv4Theorems Discv4Sys Discv4Net Periodic Server ServerTheorems.
Local Open Scope Z_scope.

Section Node.
Context `{Keccak} `{Curve} `{!Ecies} `{FastRLP} `{Block} `{Snappy} `{GoNet} `{GoSort}.
Context (ip_String : bytes -> string).

(** The server, its transport and its discovery. *)
Record full := mkFull { fn_net : Server.net; fn_rlpx : Rlpx; fn_disc : Discv4Net.node }.

(** The [Enode] of [NewServer]. *)
Definition server_enode (pub : PublicKey) (c : Config) : Enode.Enode :=
  mkEnode (drop 1 (MarshallPublicKey pub)) (uint16 (c_BindPort c)) (uint16 (c_BindPort c)) (default [] (net_ParseIP (c_BindAddress c))).

Definition setupDiscovery (key : PrivateKey) (c : Config) (listen : Discv4Msg.UDPAddr -> option string) : outcome Discv4Net.node :=
  '(b, bootnodes) ← DiscV4 ip_String (server_enode (pub_of key) c) key (c_Bootnodes c) listen;
  Ok (mkNode (mkSys b [] [] []) bootnodes false false 0 [] []).

Definition NewServer_full (key : PrivateKey) (opts : list (Config -> Config)) (now : Z) (listen : Discv4Msg.UDPAddr -> option string)
    : outcome (Server * Discv4Net.node) :=
  d ← setupDiscovery key (foldl (fun c opt => opt c) DefaultConfig opts) listen;
  s ← NewServer (pub_of key) opts now None;
  Ok (s, d).

(** The configuration and the information [Start] hands to the transport. *)
Definition transport_config (c : Config) : gmap string dyn := <["addr" := DString (c_BindAddress c)]> {["port" := DInt (c_BindPort c)]}.
Definition server_info (pub : PublicKey) (s : Server.Server) : NetInfo :=
  mkNetInfo (c_Name (sv_config s)) (server_enode pub (sv_config s)) (c_Protocols (sv_config s)) 0.

Definition Start_full (key : PrivateKey) (s : Server.Server) (x : Rlpx) (d : Discv4Net.node) (f : Server.file) (listen : string -> option string)
    : outcome full :=
  s ← Start_load s f;
  '(x, e) ← Setup x key (c_Protocols (sv_config s)) (server_info (pub_of key) s) (transport_config (sv_config s)) listen;
  s ← Start_rest s e;
  Ok (mkFull (net0 s) x (Schedule d)).

(** The start of [addSession]: a session starts its handlers. *)
Definition addSession (n : Server.net) (task : option string) (s : session) : outcome Server.net :=
  info ← GetInfo s;
  addSession_start n task (en_ID (ni_Enode info)) (st_protocol <$> Streams s).

(** [connectWithEnode] after the dial. *)
Definition connect_end (n : Server.net) (task : option string) (res : result) : outcome Server.net :=
  match res with
  | Failed e _ _ => Err e
  | Connected s => addSession n task s
  end.

(** [connectWithEnode] up to the start of [addSession]: [None] if the address is known already. *)
Definition connectWithEnode (n : Server.net) (x : Rlpx) (task : option string) (net_Dial : string -> outcome (conn * string)) (rawURL : string)
    (r : rnd) (write_first : bool) : outcome (option Server.net) :=
  if already_connected (nt_srv n) rawURL then Ok None else
  res ← DialTimeout x net_Dial rawURL r write_first;
  n ← connect_end n task res;
  Ok (Some n).

(** [DialSync] and [connect] are the same call, without and with a task. *)
Definition DialSync (n : Server.net) (x : Rlpx) := connectWithEnode n x None.
Definition Server_connect (n : Server.net) (x : Rlpx) (task : string) := connectWithEnode n x (Some task).

(** [werr] is the error of writing the file of the peer store; that of the transport is only logged. *)
Definition Server_Close (fn : full) (f : Server.file) (werr : option string) : outcome (full * Server.file) :=
  let n := Server.Disconnect (fn_net fn) in
  match store_Close (sv_peerStore (nt_srv n)) f werr with
  | (_, Some _) => Panic
  | (f, None) =>
      match rx_step (fn_rlpx fn) LClose with
      | Some (Ok (x, _)) => Ok (mkFull n x (fn_disc fn), f)
      | _ => Panic
      end
  end.

(** ** Sessions of the transport *)

Lemma hex_Decode_bytes s : forall b, hex_DecodeString s = Some b -> bytes_ok b.
Proof.
  assert (forall c x, fromHexChar c = Some x -> 0 <= x < 16) as Hc.
  { intros c x. unfold fromHexChar. repeat case_match; intros [= <-]; blia. }
  assert (forall n s, (String.length s <= n)%nat -> forall b, hex_DecodeString s = Some b -> bytes_ok b) as Hn; [|by eapply Hn].
  induction n as [|n IH]; intros [|c [|d s']] Hl b E; cbn in Hl, E; try lia; try done; try (injection E as <-; constructor).
  destruct (fromHexChar c) as [hi|] eqn:Eh; [|done]. destruct (fromHexChar d) as [lo|] eqn:El; [|done]. cbn in E.
  destruct (hex_DecodeString s') as [r|] eqn:Er; [|done]. injection E as <-. constructor; [|apply (IH s'); [lia|done]].
  apply Hc in Eh, El. unfold byte_ok. rewrite Z.shiftl_mul_pow2 by lia.
  assert (Z.lor (hi * 2 ^ 4) lo = hi * 16 + lo) as ->; [|lia].
  rewrite <-Z.lxor_lor, <-Z.add_nocarry_lxor; [done|..]; apply Z.bits_inj'; intros k Hk; rewrite Z.bits_0, Z.land_spec;
    destruct (decide (k < 4)); [rewrite Z.mul_pow2_bits_low by lia; done| |rewrite Z.mul_pow2_bits_low by lia; done|].
  all: rewrite (Z.bits_above_log2 lo k), andb_false_r; try done; try lia; destruct (decide (lo = 0)) as [->|]; [cbn; lia|]; apply Z.log2_lt_pow2; [lia|];
    eapply Z.lt_le_trans with (m := 2 ^ 4); [lia|apply Z.pow_le_mono_r; lia].
Qed.

Lemma ParseURL_id raw n : ParseURL raw = Ok n -> length (en_ID n) = nodeIDBytes /\ bytes_ok (en_ID n).
Proof.
  unfold ParseURL. intros E. destruct (url_Parse raw) as [u|]; [|done]. cbn [of_option mbind outcome_bind] in E. case_match; [done|].
  destruct (u_User u) as [user|]; [|done]. cbn [mbind outcome_bind] in E. destruct (hex_DecodeString user) as [h|] eqn:Eh; [|done].
  cbn [of_option mbind outcome_bind] in E. destruct (Nat.eqb_spec (length h) nodeIDBytes) as [Hl|]; [|done]. cbn [negb] in E.
  assert (en_ID n = h) as ->.
  { rewrite copy_full in E by (unfold zero_ID; by rewrite length_replicate).
    destruct (net_SplitHostPort (u_Host u)) as [[host port]|]; [|done]. cbn [of_option mbind outcome_bind] in E.
    destruct (net_ParseIP host); [|done]. cbn [of_option mbind outcome_bind] in E.
    destruct (ParseUint16 port); [|done]. cbn [of_option mbind outcome_bind] in E.
    case_bool_decide; [|destruct (ParseUint16 (u_discport u)); [|done]]; cbn [of_option mbind outcome_bind] in E; by injection E as <-. }
  split; [done|by eapply hex_Decode_bytes].
Qed.

Lemma NodeIDToPubKey_bytes id p : bytes_ok id -> NodeIDToPubKey id = Ok p -> drop 1 (MarshallPublicKey p) = id.
Proof.
  unfold NodeIDToPubKey. intros Hb. destruct (Nat.eqb_spec (length id) nodeIDBytes) as [Hl|]; [|done]. cbn [negb]. rewrite Hl.
  change (nodeIDBytes / 2)%nat with 32%nat. case_match; [done|]. intros [= <-]. change (drop 1 (MarshallPublicKey ?p)) with (be_put 32 (pub_X p) ++ be_put 32 (pub_Y p)).
  cbn [pub_X pub_Y]. assert (length (take 32 id) = 32%nat /\ length (drop 32 id) = 32%nat) as [L1 L2] by (rewrite length_take, length_drop, Hl; done).
  transitivity (take 32 id ++ drop 32 id); [|apply take_drop]. f_equal.
  - rewrite <-L1 at 1. by apply be_get_put, Forall_take.
  - rewrite <-L2 at 1. by apply be_get_put, Forall_drop.
Qed.

(** The client's secrets are shared with the node it dialled. *)
Lemma handshakeClient_remote c r prv remote sec c' : handshakeClient c r prv remote = Ok (sec, c') -> RemoteID sec = Some remote.
Proof.
  unfold handshakeClient. cbv zeta. intros ([h1 m1] & Em & E)%bind_Ok. unfold makeAuthMsg in Em. cbv zeta in Em.
  apply bind_Ok in Em as (tok & _ & (signed & _ & (sig & _ & Em)%bind_Ok)%bind_Ok). injection Em as <- <-.
  apply bind_Ok in E as ([c1 p1] & _ & ([[c2 p2] m2] & _ & (h2 & Eh & (s & Es & E)%bind_Ok)%bind_Ok)%bind_Ok). injection E as <- <-.
  apply bind_Ok in Eh as (pub & _ & [= <-]). unfold hs_Secrets in Es. cbv zeta in Es. cbn [hs_randomPrivKey hs_remoteRandomPub hs_remote hs_isClient] in Es.
  by apply bind_Ok in Es as (sh & _ & (x1 & _ & (x2 & _ & [= <-])%bind_Ok)%bind_Ok).
Qed.

(** The session of a dial is one with the dialled node. *)
Definition dialled (node : Enode.Enode) (s : session) : Prop := en_ID (se_enode s) = en_ID node /\ drop 1 (MarshallPublicKey (se_RemoteID s)) = en_ID node.

Lemma p2pHandshake_dialled c addr ip port prv pub i r s node : Rlpx.addr_ok addr ip port -> drop 1 (MarshallPublicKey pub) = en_ID node ->
  p2pHandshake (Client c addr prv pub i) r = Ok s -> dialled node s /\ Streams s = [].
Proof.
  unfold p2pHandshake. cbn [Client ns_isClient ns_pub ns_conn ns_prv ns_RemoteAddr ns_Info]. intros (Ha & Hpipe & Hip & Hport) Hid E.
  destruct (handshakeClient _ _ _ _) as [[sec c1]| | |] eqn:Eh; try done. cbn [mbind outcome_bind] in E.
  rewrite (handshakeClient_remote _ _ _ _ _ _ Eh) in E. cbn [mbind outcome_bind] in E. rewrite PubkeyToEnode_eq in E. cbn [mbind outcome_bind] in E.
  rewrite bool_decide_eq_false_2, Ha in E by done. destruct (key_bytes_ok pub) as [Hl Hb].
  rewrite (ParseURL_parts _ (drop 1 (MarshallPublicKey pub)) ip port "" port) in E; [|by apply url_Parse_enode|done..|by left].
  cbn [mbind outcome_bind] in E. invO E. destruct (IngressMAC sec), (EgressMAC sec); try done. injection E as <-. done.
Qed.

Lemma readProtocolHandshake_id s k c s' rest i : readProtocolHandshake s k c = Ok (s', rest, i) -> info_ID i = drop 1 (MarshallPublicKey k).
Proof.
  unfold readProtocolHandshake. intros ([[s1 c1] [code buf]] & _ & E)%bind_Ok. rewrite PubkeyToEnode_eq in E.
  destruct (_ >? _); [done|]. destruct (code =? discMsg); [by repeat case_match|]. destruct (negb (code =? handshakeMsg)); [done|].
  destruct (Info_UnmarshalRLP zero_Info buf) as [info| | |]; try done. case_bool_decide; [done|]. cbn [mbind outcome_bind] in E. unfold bytes_equal in E.
  case_bool_decide as Hid; [|done]. by injection E as <- <- <-.
Qed.

Lemma doProtocolHandshake_id s k i c f s' rest i' : doProtocolHandshake s k i c f = Ok (s', rest, i') -> info_ID i' = drop 1 (MarshallPublicKey k).
Proof.
  unfold doProtocolHandshake. intros ([s1 [e|]] & _ & E)%bind_Ok; [by case_match|]. apply bind_Ok in E as ([[s2 c2] i2] & E & [= <- <- <-]).
  by eapply readProtocolHandshake_id.
Qed.

Lemma open_streams_protocols backends caps : forall off s,
  st_protocol <$> ss_streams (open_streams backends caps off s) = (st_protocol <$> ss_streams s) ++ matched backends caps.
Proof.
  induction caps as [|c caps IH]; intros off s; cbn [open_streams]; [by rewrite app_nil_r|].
  change (matched backends (c :: caps)) with
    (match getProtocol backends (cap_Name c) (cap_Version c) with Some p => p :: matched backends caps | None => matched backends caps end).
  destruct (getProtocol backends (cap_Name c) (cap_Version c)) as [b|]; [|apply IH]. rewrite IH. cbn. by rewrite fmap_app, <-app_assoc.
Qed.

(** What a session brings to the server: the dialled node's identifier and the protocols it announced that the node has. *)
Record brings (x : Rlpx) (node : Enode.Enode) (s : session) (info : Info) : Prop := {
  br_id : en_ID (se_enode s) = en_ID node;
  br_info : se_remoteInfo s = Some info;
  br_announced : info_ID info = en_ID node;
  br_protocols : st_protocol <$> Streams s = matched (rx_backends x) (info_Caps info);
  br_some : matched (rx_backends x) (info_Caps info) ≠ [];
}.

Definition dial_ok (dial : string -> outcome (conn * string)) : Prop :=
  forall a c addr, dial a = Ok (c, addr) -> exists ip port, Rlpx.addr_ok addr ip port.

Lemma DialTimeout_brings x dial url r f s : dial_ok dial -> DialTimeout x dial url r f = Ok (Connected s) ->
  exists node info, ParseURL url = Ok node /\ brings x node s info.
Proof.
  unfold DialTimeout. intros Hd E. destruct (ParseURL url) as [node| | |] eqn:Ep; try done. cbn [mbind outcome_bind TCPAddr] in E.
  destruct (dial _) as [[c a]| | |] eqn:Ed; try done. destruct (Hd _ _ _ Ed) as (ip & port & Ha). cbn [mbind outcome_bind] in E. unfold connect in E.
  destruct (Enode_PublicKey node) as [pub| | |] eqn:Ek; try done. apply NodeIDToPubKey_bytes in Ek; [|by eapply ParseURL_id]. unfold establish in E.
  destruct (Session_Handshake _ r f) as [s1| | |] eqn:Eh; try done. pose proof (Handshake_streams _ _ _ _ Eh) as Hs1. unfold Session_Handshake in Eh. invO Eh.
  destruct a1 as [[s2 c2] info]. injection Eh as <-. destruct (p2pHandshake_dialled _ _ _ _ _ _ _ _ _ _ Ha Ek E0) as [[Hid Hrem] _].
  apply doProtocolHandshake_id in E1. unfold negotiate, negotiateProtocols in E. cbn [se_remoteInfo se_sess se_id se_RemoteID se_enode se_Info se_rest] in E.
  destruct (length _ =? 0)%nat eqn:El; [done|]. injection E as <-. exists node, info. split; [done|]. unfold Streams in *. cbn [se_sess] in *.
  pose proof (open_streams_protocols (rx_backends x) (info_Caps info) BaseProtocolLength s2) as Hp. rewrite Hs1 in Hp. cbn in Hp.
  split; try done; [cbn; congruence|]. intros Hn. rewrite Hn in Hp. apply fmap_nil_inv in Hp. by rewrite Hp in El.
Qed.

(** A session starts the handlers of its protocols for the node it is with. *)
Lemma addSession_brings n task x node s info : brings x node s info -> length (en_ID node) = nodeIDBytes -> bytes_ok (en_ID node) ->
  exists n' p, addSession n task s = Ok n' /\ addSession_start n task (en_ID node) (matched (rx_backends x) (info_Caps info)) = Ok n' /\
    nt_adding n' = nt_adding n ++ [mkAdding task p (matched (rx_backends x) (info_Caps info)) [] (length (matched (rx_backends x) (info_Caps info))) [] false] /\
    peer_ID p = ID_String (en_ID node).
Proof.
  intros [Hid Hi _ Hp _] Hl Hb. unfold addSession, GetInfo. rewrite Hi. cbn [mbind outcome_bind ni_Enode]. rewrite Hid, Hp. unfold addSession_start.
  destruct (newPeer_eq (length (nt_sess n)) (en_ID node) Hb Hl) as (pretty & ->). cbn [mbind outcome_bind]. eexists _, _. by split_and!.
Qed.

Lemma layout_protocols l : forall off, st_protocol <$> layout off l = l.
Proof. induction l as [|p l IH]; intros off; [done|]. cbn. f_equal. apply IH. Qed.

Lemma DialTimeout_connect x dial n r f c addr : enode_ok n -> dial (TCPAddr_String (en_IP n) (en_TCP n)) = Ok (c, addr) ->
  DialTimeout x dial (Enode_String n) r f = connect x c addr n r f.
Proof. intros Hn Hd. unfold DialTimeout. rewrite Enode_roundtrip by done. cbn [mbind outcome_bind TCPAddr]. by rewrite Hd. Qed.

Lemma connection_brings x y ipc ips pc ps wc ws restc rests sc ss tcp udp : connection x y ipc ips pc ps wc ws restc rests sc ss ->
  info_ID (networkInfoToLocalInfo (rx_info y)) = id_of (rx_priv y) -> common (rx_backends x) (rx_info y) ≠ [] ->
  brings x (mkEnode (id_of (rx_priv y)) tcp udp ips) sc (networkInfoToLocalInfo (rx_info y)).
Proof.
  intros [[_ He Hi Hst _ _ _ _ _] _ _ _] Hid Hc. split; [by rewrite He|done|exact Hid| |exact Hc]. unfold Streams. rewrite Hst. apply layout_protocols.
Qed.

Lemma connection_swap x y ipc ips pc ps wc ws restc rests sc ss : connection x y ipc ips pc ps wc ws restc rests sc ss ->
  connection y x ips ipc ps pc ws wc rests restc ss sc.
Proof. intros [Mc Ms [P1 P2] [I1 I2]]. by split; [| |split|split]. Qed.
End Node.

(** ** Properties *)

Section Properties.
Context `{Keccak} `{Curve} `{!Ecies} `{FastRLP} `{Block} `{Snappy} `{GoNet} `{GoSort}.

(** C35: What the transport gives to the server.  Whatever the remote does, a dial of a URL through the RLPx
    transport that succeeds brings a session with the node of that URL: the identifier is the dialled one, which
    the remote also announced, and the streams are the non-empty list of the protocols the remote announced
    that the node has, in its order.  In every state of the server [addSession] then starts exactly their handlers
    for a peer of that identifier, which is a step of the server's model, of a dial task as of [DialSync];
    a dial that fails ends the task with its error, which is a step too.  Addresses of connections are
    printed as sockets print them. *)
Theorem connect_refines (x : Rlpx) dial url r f res : dial_ok dial -> DialTimeout x dial url r f = Ok res ->
  match res with
  | Connected s => exists node info, ParseURL url = Ok node /\ brings x node s info /\ forall n task, exists n' p,
      connect_end n task res = Ok n' /\ addSession_start n task (en_ID node) (matched (rx_backends x) (info_Caps info)) = Ok n' /\
      nt_adding n' = nt_adding n ++ [mkAdding task p (matched (rx_backends x) (info_Caps info)) [] (length (matched (rx_backends x) (info_Caps info))) [] false] /\
      peer_ID p = ID_String (en_ID node)
  | Failed e _ _ => forall n task, connect_end n task res = Err e
  end /\
  (forall n n', connect_end n None res = Ok n' -> net_step n (Ok n')) /\
  forall n i, nt_dialing n !! i = Some url -> let n0 := set_dial n (nt_srv n) (nt_tasks n) (delete i (nt_dialing n)) in
    match connect_end n0 (Some url) res with
    | Ok n' => net_step n (Ok n')
    | Err e => net_step n (s ← dialTask_result (nt_srv n) url (Some e); Ok (set_dial n s (nt_tasks n) (delete i (nt_dialing n))))
    | _ => False
    end.
Proof.
  intros Hd E. destruct res as [e o rn|s].
  { split_and!; [done|done|]. intros n i Hi. by apply ns_dial_failed. }
  destruct (DialTimeout_brings _ _ _ _ _ _ Hd E) as (node & info & Hp & Hb). destruct (ParseURL_id _ _ Hp) as [Hl Hbytes].
  pose proof (fun n task => addSession_brings n task _ _ _ _ Hb Hl Hbytes) as Hadd. split_and!.
  - exists node, info. split_and!; [done|done|exact Hadd].
  - intros n n' En. destruct (Hadd n None) as (n1 & p & H1' & H2' & _). cbn [connect_end] in En. rewrite H1' in En. injection En as <-. rewrite <-H2'. by apply ns_sync.
  - intros n i Hi n0. destruct (Hadd n0 (Some url)) as (n1 & p & H1' & H2' & _). cbn [connect_end]. rewrite H1', <-H2'. by eapply ns_dialed.
Qed.

(** C34: Two nodes meet.  For two transports with protocols in common, all keys, random draws and orders of the
    goroutines, there are the four messages of the handshakes such that, if the connection carries to each side what the
    other writes, the first packet whole in one segment and the rest cut anyhow, the dial of the one and [accept]
    of the other both return sessions, each of which has written exactly its two messages; the dialling
    server starts the handlers of its common protocols for a peer with the other's identifier, and
    [addSession] of the accepted session does the same on the other server. *)
Theorem dial_registers (n m : Server.net) (x y : Rlpx) rc rs ac as_ ipc ips pc ps tcp udp task :
  transports_ok x y rc rs ac as_ ipc ips pc ps -> common (rx_backends x) (rx_info y) ≠ [] -> common (rx_backends y) (rx_info x) ≠ [] ->
  u16_ok tcp -> u16_ok udp ->
  let node := mkEnode (id_of (rx_priv y)) tcp udp ips in already_connected (nt_srv n) (Enode_String node) = false ->
  exists A B Hc Hs, forall t l rest f t' l' rest' f' dial, t ++ concat l = Hc ++ rest -> t' ++ concat l' = Hs ++ rest' ->
    dial (TCPAddr_String ips tcp) = Ok (mkConn ((B ++ t') :: l') [] true, ac) ->
  exists sc ss n' m' p q, DialTimeout x dial (Enode_String node) rc f = Ok (Connected sc) /\
    accept y (mkConn ((A ++ t) :: l) [] true) as_ rs f' = Ok (Connected ss) /\
    connection x y ipc ips pc ps (A ++ Hc) (B ++ Hs) rest' rest sc ss /\
    connectWithEnode n x task dial (Enode_String node) rc f = Ok (Some n') /\
    nt_adding n' = nt_adding n ++ [mkAdding task p (common (rx_backends x) (rx_info y)) [] (length (common (rx_backends x) (rx_info y))) [] false] /\
    peer_ID p = ID_String (id_of (rx_priv y)) /\
    addSession m None ss = Ok m' /\
    nt_adding m' = nt_adding m ++ [mkAdding None q (common (rx_backends y) (rx_info x)) [] (length (common (rx_backends y) (rx_info x))) [] false] /\
    peer_ID q = ID_String (id_of (rx_priv x)).
Proof.
  intros Ht Hx Hy Htcp Hudp node Hna. destruct (transports_connect x y rc rs ac as_ ipc ips pc ps node Ht eq_refl) as (A & B & Hc & Hs & Hrun).
  exists A, B, Hc, Hs. intros t l rest f t' l' rest' f' dial Et Et' Hd. destruct (Hrun t l rest f t' l' rest' f' Et Et') as (sc & ss & Hcon & Hacc & Hcn).
  unfold ended in Hcon, Hacc. rewrite decide_False in Hcon by done. rewrite decide_False in Hacc by done.
  destruct Ht as ([_ _ [[_ Hic _ _] [_ His _ _]] _ [(_ & _ & Hip & _) _]] & _). destruct (key_bytes_ok (pub_of (rx_priv y))) as [Hly Hby].
  destruct (key_bytes_ok (pub_of (rx_priv x))) as [Hlx Hbx].
  assert (DialTimeout x dial (Enode_String node) rc f = Ok (Connected sc)) as HD.
  { rewrite (DialTimeout_connect x dial node rc f _ ac) by (first [exact Hd | by split_and!]). exact Hcon. }
  destruct (addSession_brings n task _ _ _ _ (connection_brings _ _ _ _ _ _ _ _ _ _ _ _ tcp udp Hcn His Hx) Hly Hby) as (n' & p & Hn & _ & Han & Hpn).
  destruct (addSession_brings m None _ _ _ _ (connection_brings _ _ _ _ _ _ _ _ _ _ _ _ tcp udp (connection_swap _ _ _ _ _ _ _ _ _ _ _ _ Hcn) Hic Hy) Hlx Hbx)
    as (m' & q & Hm & _ & Ham & Hqm).
  exists sc, ss, n', m', p, q. split_and!; [exact HD|exact Hacc|exact Hcn| |exact Han|exact Hpn|exact Hm|exact Ham|exact Hqm].
  unfold connectWithEnode. rewrite Hna, HD. cbn [mbind outcome_bind connect_end]. by rewrite Hn.
Qed.

(** The peer store of a new server is empty, and [Start] leaves its configuration as it is. *)
Lemma Start_loads pub opts now s f : NewServer pub opts now None = Ok s -> exists s', Start_load s f = Ok s' /\ sv_config s' = sv_config s.
Proof. unfold NewServer. rewrite PubkeyToEnode_eq. intros [= <-]. by eexists. Qed.

(** A node starts.  If both ports are free [NewServer] and [Start] succeed for every configuration:
    the type assertions of [Setup] hold, the server and the discovery are in initial states of their
    models, to which their safety theorems apply, and the queue of accepted sessions is empty. *)
Theorem node_starts ip_String key opts now file x0 listen_udp listen_tcp : (forall a, listen_udp a = None) -> (forall a, listen_tcp a = None) ->
  exists s d f addr, NewServer_full ip_String key opts now listen_udp = Ok (s, d) /\ Start_full key s x0 d file listen_tcp = Ok f /\
    net_reachable (pub_of key) opts (fn_net f) /\ node_reachable ip_String key addr (fn_disc f) /\
    rx_sessionCh (fn_rlpx f) = Some [] /\ rx_backends (fn_rlpx f) = c_Protocols (sv_config s).
Proof.
  intros Hu Ht. unfold NewServer_full, setupDiscovery, DiscV4. set (c := foldl _ _ opts). set (addr := Discv4Msg.mkAddr _ _).
  rewrite Hu. cbn [newUDPTransport u_addr]. destruct (NewBackend_inv key addr) as (b & HB & _). rewrite HB. cbn [mbind outcome_bind].
  destruct (NewServer (pub_of key) opts now None) as [s| | |] eqn:Es; try (unfold NewServer in Es; rewrite PubkeyToEnode_eq in Es; done).
  destruct (Start_loads _ _ _ _ file Es) as (s' & Hld & Hcf). assert (Start s file None = Ok s') as Est by (unfold Start; by rewrite Hld).
  cbn [mbind outcome_bind]. eexists _, _, _, addr. split; [reflexivity|]. unfold Start_full, Setup, transport_config.
  rewrite Hld. cbn [mbind outcome_bind]. rewrite lookup_insert_eq, lookup_insert_ne, lookup_singleton_eq by done. cbn [mbind outcome_bind]. rewrite Ht. cbn [mbind outcome_bind].
  cbn [Start_rest]. cbn [mbind outcome_bind]. split; [reflexivity|]. cbn [fn_net fn_disc fn_rlpx rx_sessionCh rx_backends].
  split_and!; [by eapply nr_start| |done|by rewrite Hcf].
  eexists. split; [by exists b, (c_Bootnodes c)|]. apply rtc_once. apply ns_schedule.
Qed.

(** A port that is taken: [NewServer] panics instead of returning an error. *)
Theorem NewServer_port_taken ip_String key opts now listen e : (forall a, listen a = Some e) -> NewServer_full ip_String key opts now listen = Panic.
Proof. intros Hl. unfold NewServer_full, setupDiscovery, DiscV4. by rewrite Hl. Qed.

(** [Close] closes the sessions of all peers, the peer store and the transport, and panics when it is called
    again, or when the file of the peer store cannot be written.  It stops nothing else: discovery and dialling go on. *)
Theorem Server_Close_correct (fn : full) f : rx_shutdownCh (fn_rlpx fn) = Some false -> is_Some (rx_listener (fn_rlpx fn)) ->
  exists fn', Server_Close fn f None = Ok (fn', (store_Close (sv_peerStore (nt_srv (fn_net fn))) f None).1) /\ rx_listener (fn_rlpx fn') = Some false /\
    (forall id p, sv_peers (nt_srv (fn_net fn)) !! id = Some p -> peer_conn p ∈ nt_closed (fn_net fn')) /\
    fn_disc fn' = fn_disc fn /\ nt_tasks (fn_net fn') = nt_tasks (fn_net fn) /\ nt_srv (fn_net fn') = nt_srv (fn_net fn) /\
    (forall f' e, Server_Close fn' f' e = Panic) /\
    forall m e, sv_peerStore (nt_srv (fn_net fn)) = JSONPeerStore m -> Server_Close fn f (Some e) = Panic.
Proof.
  intros Hs [o Ho]. assert (forall p f', (store_Close p f' None).2 = None) as Hst by (by intros []).
  unfold Server_Close. cbn [rx_step]. rewrite Hs, Ho. specialize (Hst (sv_peerStore (nt_srv (fn_net fn))) f). cbn [Server.Disconnect nt_srv] in *.
  destruct (store_Close _ f None) as [f1 e1]. cbn in Hst. subst e1. destruct (rx_sessionCh (fn_rlpx fn)) eqn:Eq;
    (eexists; split; [reflexivity|]; split_and!; try done; cbn).
  1,4: intros id p Hp; apply elem_of_union_l, elem_of_list_to_set, list_elem_of_fmap; exists p; split; [done|];
    apply list_elem_of_fmap; exists (id, p); split; [done|]; by apply elem_of_map_to_list.
  1,3: intros f' e; by destruct (store_Close _ f' e) as [? []].
  1,2: by intros m e ->.
Qed.
End Properties.

(** ** Two nodes *)

Module Demo.
#[local] Existing Instance toy_net.

Definition server : Server.net := net0 (mkServer (replicate 64 5) ∅ None DefaultConfig [] [] (Periodic.sys0 0) NoopPeerStore).

Definition url : string := Enode_String (mkEnode (id_of (rx_priv (Rlpx.Demo.node 6 2))) 30303 30303 (Rlpx.Demo.ip 2)).
Definition answers (l : list bytes) : string -> outcome (conn * string) := fun _ => Ok (mkConn l [] true, Rlpx.Demo.addr 2 30303).

(** The nodes of keys 5 and 6, each in one segment. *)
Lemma dial_registers_witness : exists A B Hc Hs ss n' m' p q,
  accept (Rlpx.Demo.node 6 2) (mkConn [A ++ Hc] [] true) (Rlpx.Demo.addr 1 50505) (toy_rnd 2 88) true = Ok (Connected ss) /\
  connectWithEnode server (Rlpx.Demo.node 5 1) None (answers [B ++ Hs]) url (toy_rnd 1 77) true = Ok (Some n') /\
  nt_adding n' = [mkAdding None p [eth; les] [] 2 [] false] /\ peer_ID p = ID_String (id_of (rx_priv (Rlpx.Demo.node 6 2))) /\
  addSession server None ss = Ok m' /\ nt_adding m' = [mkAdding None q [eth; les] [] 2 [] false] /\ peer_ID q = ID_String (id_of (rx_priv (Rlpx.Demo.node 5 1))).
Proof.
  destruct (dial_registers server server (Rlpx.Demo.node 5 1) (Rlpx.Demo.node 6 2) (toy_rnd 1 77) (toy_rnd 2 88) (Rlpx.Demo.addr 2 30303) (Rlpx.Demo.addr 1 50505)
    (Rlpx.Demo.ip 1) (Rlpx.Demo.ip 2) 50505 30303 30303 30303 None Rlpx.Demo.demo_ok) as (A & B & Hc & Hs & Hrun).
  - discriminate.
  - discriminate.
  - unfold u16_ok. lia.
  - unfold u16_ok. lia.
  - reflexivity.
  - destruct (Hrun Hc [] [] true Hs [] [] true (answers [B ++ Hs]) eq_refl eq_refl eq_refl) as (sc & ss & n' & m' & p & q & _ & H2 & _ & H4 & H5 & H6 & H7 & H8 & H9).
    exists A, B, Hc, Hs, ss, n', m', p, q. split_and!; [exact H2|exact H4|exact H5|exact H6|exact H7|exact H8|exact H9].
Defined.

Lemma dialled_ok : exists l s, dial_ok (answers l) /\ DialTimeout (Rlpx.Demo.node 5 1) (answers l) url (toy_rnd 1 77) true = Ok (Connected s).
Proof.
  destruct (transports_connect (Rlpx.Demo.node 5 1) (Rlpx.Demo.node 6 2) (toy_rnd 1 77) (toy_rnd 2 88) (Rlpx.Demo.addr 2 30303) (Rlpx.Demo.addr 1 50505)
    (Rlpx.Demo.ip 1) (Rlpx.Demo.ip 2) 50505 30303 (mkEnode (id_of (rx_priv (Rlpx.Demo.node 6 2))) 30303 30303 (Rlpx.Demo.ip 2)) Rlpx.Demo.demo_ok eq_refl) as (A & B & Hc & Hs & Hrun).
  destruct (Hrun Hc [] [] true Hs [] [] true eq_refl eq_refl) as (sc & ss & Hcon & _). exists [B ++ Hs], sc.
  assert (Rlpx.addr_ok (Rlpx.Demo.addr 2 30303) (Rlpx.Demo.ip 2) 30303) as Ha by (apply Rlpx.Demo.addr_is; unfold byte_ok, u16_ok; lia).
  split; [intros a c addr [= <- <-]; by exists (Rlpx.Demo.ip 2), 30303|]. unfold url.
  rewrite (DialTimeout_connect _ _ _ _ _ (mkConn [B ++ Hs] [] true) (Rlpx.Demo.addr 2 30303)); [exact Hcon| |reflexivity].
  destruct (key_bytes_ok (toy_pub 6)) as [Hl Hb]. split_and!; try done; by apply Ha.
Qed.

Lemma connect_refines_witness : exists l s n' p, DialTimeout (Rlpx.Demo.node 5 1) (answers l) url (toy_rnd 1 77) true = Ok (Connected s) /\
  net_step server (Ok n') /\ peer_ID p ∈ (fun a => peer_ID (ad_peer a)) <$> nt_adding n'.
Proof.
  destruct dialled_ok as (l & s & Hd & E).
  destruct (connect_refines (Rlpx.Demo.node 5 1) (answers l) url (toy_rnd 1 77) true (Connected s) Hd E) as ((node & info & _ & _ & Hadd) & Hstep & _).
  destruct (Hadd server None) as (n' & p & H1 & _ & H3 & _). exists l, s, n', p. split_and!; [exact E|exact (Hstep server n' H1)|].
  rewrite H3, fmap_app, elem_of_app. right. apply list_elem_of_singleton. reflexivity.
Defined.

Lemma node_starts_witness : exists s d f, NewServer_full (fun _ => EmptyString) (toy_key 5) [WithName "demo"] 0 (fun _ => None) = Ok (s, d) /\
  Start_full (toy_key 5) s (Rlpx.Demo.node 5 1) d NoFile (fun _ => None) = Ok f /\ rx_sessionCh (fn_rlpx f) = Some [].
Proof.
  destruct (node_starts (fun _ => EmptyString) (toy_key 5) [WithName "demo"] 0 NoFile (Rlpx.Demo.node 5 1) (fun _ => None) (fun _ => None)
    (fun _ => eq_refl) (fun _ => eq_refl)) as (s & d & f & addr & H1 & H2 & _ & _ & H3 & _).
  exists s, d, f. split_and!; [exact H1|exact H2|exact H3].
Defined.

Lemma Server_Close_correct_witness : exists f f', fn_net f = server /\ Server_Close f NoFile None = Ok (f', NoFile) /\ forall g e, Server_Close f' g e = Panic.
Proof.
  destruct (NewBackend_inv (toy_key 5) (Discv4Msg.mkAddr localhost 1)) as (b & _).
  destruct (Server_Close_correct (mkFull server (Rlpx.Demo.node 5 1) (mkNode (mkSys b [] [] []) [] false false 0 [] [])) NoFile eq_refl ltac:(by eexists))
    as (f' & H1 & _ & _ & _ & _ & _ & H2 & _).
  exists (mkFull server (Rlpx.Demo.node 5 1) (mkNode (mkSys b [] [] []) [] false false 0 [] [])), f'. split_and!; [reflexivity|exact H1|exact H2].
Defined.
End Demo.
