(* ===== verification/EthMsg.v ===== *)
(** * The messages of the eth protocol

    [wire/eth/messages.go] and the RLP codec of fork identifiers in [forkid/forkid.go].  The Go
    interfaces [Marshaler] and [Unmarshaler] are classes; a pointer receiver that is filled in is an
    argument and a result.  What a receiver holds after an error is not modelled: no caller reads it.
    [Codec] is what a message promises to the requests, responses and packets built from it: that
    it can be read back.  A [*big.Int] is a nonnegative integer; a nil one is not modelled. *)

From stdpp Require Import base strings numbers list.
From S2P Require Import Prelude GoStd Rlp ForkID Crypto RlpxMsg.
Local Open Scope Z_scope.

(** ** The interfaces *)

Class Marshaler `{FastRLP} (A : Type) := MarshalRLPWith : A -> Value.
Class Unmarshaler `{FastRLP} (A : Type) := UnmarshalRLPWith : A -> Value -> outcome A.

(** ** Data *)

Record Request (A : Type) := mkRequest { req_RequestId : Z; req_Body : A }.
Arguments mkRequest {A}.
Arguments req_RequestId {A}.
Arguments req_Body {A}.

(** [resp_Body] is [None] for a nil interface. *)
Record Response (V A : Type) := mkResponse { resp_RequestId : Z; resp_Body : option A; resp_BodyRaw : option V }.
Arguments mkResponse {V A}.
Arguments resp_RequestId {V A}.
Arguments resp_Body {V A}.
Arguments resp_BodyRaw {V A}.

Inductive EmptyArray := mkEmptyArray.

Record BlockHeadersPacket := mkBHP {
  bhp_Hash : option bytes;   (* *[32]byte *)
  bhp_Number : Z;
  bhp_Amount : Z;
  bhp_Skip : Z;
  bhp_Reverse : bool;
}.

(** [[][32]byte]; the type is a wrapper so that its methods are its own. *)
Record HashList := mkHashList { hashes : list bytes }.

Record RlpList (V : Type) := mkRlpList { rlps : list V }.
Arguments mkRlpList {V}.
Arguments rlps {V}.

Record NewBlockHash := mkNewBlockHash { nbh_Hash : bytes; nbh_Number : Z }.
Record newBlockHashesPacket := mkNewBlockHashes { packets : list NewBlockHash }.

Record Status := mkStatus {
  ProtocolVersion : Z;
  NetworkID : Z;
  TD : Z;
  Head : bytes;       (* [32]byte *)
  Genesis : bytes;    (* [32]byte *)
  status_ForkID : ID;
}.

Definition zero_hash : bytes := replicate 32 0.
Definition zero_forkid : ID := mkID [] 0.
Definition zero_BHP : BlockHeadersPacket := mkBHP None 0 0 0 false.
Definition zero_Status : Status := mkStatus 0 0 0 zero_hash zero_hash zero_forkid.

#[global] Instance BlockHeadersPacket_eq_dec : EqDecision BlockHeadersPacket.
Proof. solve_decision. Defined.
#[global] Instance NewBlockHash_eq_dec : EqDecision NewBlockHash.
Proof. solve_decision. Defined.
#[global] Instance Status_eq_dec : EqDecision Status.
Proof. solve_decision. Defined.

Definition Status_Equal (s ss : Status) : option string :=
  if negb (ProtocolVersion s =? ProtocolVersion ss) then Some "incorrect protocol version"%string
  else if negb (NetworkID s =? NetworkID ss) then Some "incorrect network"%string
  else if negb (bytes_equal (Genesis s) (Genesis ss)) then Some "incorrect genesis"%string
  else if negb (ID_Equal (status_ForkID s) (status_ForkID ss)) then Some "incorrect fork id"%string
  else None.

(** ** Operations *)

Section Codecs.
Context `{FastRLP}.

Definition MarshalRLP {A} `{!Marshaler A} (m : A) : bytes := MarshalTo (MarshalRLPWith m).

Definition UnmarshalRLP {A} `{!Unmarshaler A} (buf : bytes) (m : A) : outcome A :=
  v ← of_option rlp_error (Parse buf); UnmarshalRLPWith m v.

Definition Request_MarshalRLPWith {A} `{!Marshaler A} : Request A -> Value := fun e =>
  NewArray [NewUint (req_RequestId e); MarshalRLPWith (req_Body e)].
#[export] Instance Request_MarshalRLPWith_inst {A} `{!Marshaler A} : Marshaler (Request A) := Request_MarshalRLPWith.

Definition Response_UnmarshalRLPWith {A} `{!Unmarshaler A} : Response Value A -> Value -> outcome (Response Value A) := fun e v =>
  elems ← of_option rlp_error (GetElems v);
  if negb (length elems =? 2)%nat then Err "two items expected" else
  e0 ← idx elems 0; id ← of_option rlp_error (GetUint64 e0);
  e1 ← idx elems 1;
  match resp_Body e with
  | Some b => b ← UnmarshalRLPWith b e1; Ok (mkResponse id (Some b) (resp_BodyRaw e))
  | None => Ok (mkResponse id None (Some e1))
  end.
#[export] Instance Response_UnmarshalRLPWith_inst {A} `{!Unmarshaler A} : Unmarshaler (Response Value A) := Response_UnmarshalRLPWith.

Definition EmptyArray_MarshalRLPWith : EmptyArray -> Value := fun _ => NewArray [].
#[export] Instance EmptyArray_MarshalRLPWith_inst : Marshaler EmptyArray := EmptyArray_MarshalRLPWith.
Definition EmptyArray_UnmarshalRLPWith : EmptyArray -> Value -> outcome EmptyArray := fun _ _ => Panic.
#[export] Instance EmptyArray_UnmarshalRLPWith_inst : Unmarshaler EmptyArray := EmptyArray_UnmarshalRLPWith.

Definition BHP_MarshalRLPWith : BlockHeadersPacket -> Value := fun g =>
  NewArray [match bhp_Hash g with Some h => NewBytes h | None => NewUint (bhp_Number g) end;
            NewUint (bhp_Amount g); NewUint (bhp_Skip g); NewBool (bhp_Reverse g)].
#[export] Instance BHP_MarshalRLPWith_inst : Marshaler BlockHeadersPacket := BHP_MarshalRLPWith.

(** The origin: 32 bytes are a hash, anything else a number; the other field keeps its value. *)
Definition BHP_origin (g : BlockHeadersPacket) (v : Value) : outcome (option bytes * Z) :=
  buf ← of_option rlp_error (Value_Bytes v);
  if (length buf =? 32)%nat then Ok (Some (copy zero_hash buf), bhp_Number g)
  else n ← of_option rlp_error (GetUint64 v); Ok (bhp_Hash g, n).

Definition BHP_UnmarshalRLPWith : BlockHeadersPacket -> Value -> outcome BlockHeadersPacket := fun g v =>
  elems ← of_option rlp_error (GetElems v);
  if negb (length elems =? 4)%nat then Err ("4 items expected but found " ++ fmt_d (Z.of_nat (length elems)))%string else
  e0 ← idx elems 0; '(hash, number) ← BHP_origin g e0;
  e1 ← idx elems 1; amount ← of_option rlp_error (GetUint64 e1);
  e2 ← idx elems 2; skip ← of_option rlp_error (GetUint64 e2);
  e3 ← idx elems 3; reverse ← of_option rlp_error (GetBool e3);
  Ok (mkBHP hash number amount skip reverse).
#[export] Instance BHP_UnmarshalRLPWith_inst : Unmarshaler BlockHeadersPacket := BHP_UnmarshalRLPWith.

(** Both lists are appended to what the receiver already holds. *)
Definition HashList_UnmarshalRLPWith : HashList -> Value -> outcome HashList := fun h v =>
  elems ← of_option rlp_error (GetElems v);
  l ← mapO (fun elem => of_option rlp_error (GetHash elem)) elems;
  Ok (mkHashList (hashes h ++ l)).
#[export] Instance HashList_UnmarshalRLPWith_inst : Unmarshaler HashList := HashList_UnmarshalRLPWith.

Definition HashList_MarshalRLPWith : HashList -> Value := fun h => NewArray (NewBytes <$> hashes h).
#[export] Instance HashList_MarshalRLPWith_inst : Marshaler HashList := HashList_MarshalRLPWith.

Definition RlpList_UnmarshalRLPWith : RlpList Value -> Value -> outcome (RlpList Value) := fun h v =>
  elems ← of_option rlp_error (GetElems v); Ok (mkRlpList elems).
#[export] Instance RlpList_UnmarshalRLPWith_inst : Unmarshaler (RlpList Value) := RlpList_UnmarshalRLPWith.

Definition NewBlockHash_UnmarshalRLPWith (v : Value) : outcome NewBlockHash :=
  elems ← of_option rlp_error (GetElems v);
  if negb (length elems =? 2)%nat
  then Err ("wrong num of elements, expected 2 but found " ++ fmt_d (Z.of_nat (length elems)))%string else
  e0 ← idx elems 0; hash ← of_option rlp_error (GetHash e0);
  e1 ← idx elems 1; number ← of_option rlp_error (GetUint64 e1);
  Ok (mkNewBlockHash hash number).

Definition newBlockHashes_UnmarshalRLPWith : newBlockHashesPacket -> Value -> outcome newBlockHashesPacket := fun n v =>
  elems ← of_option rlp_error (GetElems v);
  l ← mapO NewBlockHash_UnmarshalRLPWith elems;
  Ok (mkNewBlockHashes (packets n ++ l)).
#[export] Instance newBlockHashes_UnmarshalRLPWith_inst : Unmarshaler newBlockHashesPacket := newBlockHashes_UnmarshalRLPWith.

(** [forkid.ID] *)
Definition ID_MarshalRLPWith : ID -> Value := fun i => NewArray [NewBytes (Hash i); NewUint (Next i)].
#[export] Instance ID_MarshalRLPWith_inst : Marshaler ID := ID_MarshalRLPWith.

Definition ID_UnmarshalRLPWith : ID -> Value -> outcome ID := fun i v =>
  elems ← of_option rlp_error (GetElems v);
  if negb (length elems =? 2)%nat
  then Err ("bad length, expected 2 items but found " ++ fmt_d (Z.of_nat (length elems)))%string else
  e0 ← idx elems 0; hash ← of_option rlp_error (GetBytes e0 (Some 4%nat));
  e1 ← idx elems 1; next ← of_option rlp_error (GetUint64 e1);
  Ok (mkID hash next).
#[export] Instance ID_UnmarshalRLPWith_inst : Unmarshaler ID := ID_UnmarshalRLPWith.

Definition Status_UnmarshalRLPWith : Status -> Value -> outcome Status := fun s v =>
  elems ← of_option rlp_error (GetElems v);
  if negb (length elems =? 6)%nat
  then Err ("bad length, expected 5 items but found " ++ fmt_d (Z.of_nat (length elems)))%string else
  e0 ← idx elems 0; version ← of_option rlp_error (GetUint64 e0);
  e1 ← idx elems 1; network ← of_option rlp_error (GetUint64 e1);
  e2 ← idx elems 2; td ← of_option rlp_error (GetBigInt e2);
  e3 ← idx elems 3; head ← of_option rlp_error (GetHash e3);
  e4 ← idx elems 4; genesis ← of_option rlp_error (GetHash e4);
  e5 ← idx elems 5; id ← UnmarshalRLPWith (status_ForkID s) e5;
  Ok (mkStatus version network td head genesis id).
#[export] Instance Status_UnmarshalRLPWith_inst : Unmarshaler Status := Status_UnmarshalRLPWith.

Definition Status_MarshalRLPWith : Status -> Value := fun s =>
  NewArray [NewUint (ProtocolVersion s); NewUint (NetworkID s); NewBigInt (TD s);
            NewBytes (Head s); NewBytes (Genesis s); MarshalRLPWith (status_ForkID s)].
#[export] Instance Status_MarshalRLPWith_inst : Marshaler Status := Status_MarshalRLPWith.

End Codecs.

(** ** What a message promises *)

(** A type whose well-formed values can be read back from their encoding into an empty receiver. *)
Class Codec `{FastRLP} (A : Type) `{!Marshaler A, !Unmarshaler A} := {
  empty_msg : A;
  wf_msg : A -> Prop;
  codec_valid a : wf_msg a -> valid (MarshalRLPWith a);
  codec_roundtrip a : wf_msg a -> UnmarshalRLPWith empty_msg (MarshalRLPWith a) = Ok a;
}.

Definition hash_ok (h : bytes) : Prop := length h = 32%nat /\ bytes_ok h.
Definition forkid_ok (i : ID) : Prop := length (Hash i) = 4%nat /\ bytes_ok (Hash i) /\ u64_ok (Next i).
Definition Status_ok (s : Status) : Prop :=
  u64_ok (ProtocolVersion s) /\ u64_ok (NetworkID s) /\ 0 <= TD s /\ hash_ok (Head s) /\ hash_ok (Genesis s) /\
  forkid_ok (status_ForkID s).
(** A request names its origin in one way: a packet with a hash carries no number. *)
Definition BHP_ok (g : BlockHeadersPacket) : Prop :=
  match bhp_Hash g with Some h => hash_ok h /\ bhp_Number g = 0 | None => u64_ok (bhp_Number g) end /\
  u64_ok (bhp_Amount g) /\ u64_ok (bhp_Skip g).
Definition HashList_ok (h : HashList) : Prop := Forall hash_ok (hashes h).

Section Theorems.
Context `{FastRLP}.

Lemma mapO_GetHash l : Forall hash_ok l ->
  mapO (fun elem => of_option rlp_error (GetHash elem)) (NewBytes <$> l) = Ok l.
Proof.
  intros Hl. apply mapO_Ok. induction Hl as [|h l [Hh _] _ IH]; constructor; [|done].
  by rewrite GetHash_bytes.
Qed.

Lemma ID_valid i : forkid_ok i -> valid (MarshalRLPWith i).
Proof. intros (? & ? & ?). apply valid_array. repeat constructor; auto with devp2p. Qed.

Lemma ID_roundtrip z i : forkid_ok i -> UnmarshalRLPWith z (MarshalRLPWith i) = Ok i.
Proof.
  intros (? & ? & ?). unfold UnmarshalRLPWith, ID_UnmarshalRLPWith_inst, ID_UnmarshalRLPWith, MarshalRLPWith,
    ID_MarshalRLPWith_inst, ID_MarshalRLPWith.
  rlp_get. by destruct i.
Qed.

#[export] Program Instance ID_Codec : Codec ID := {| empty_msg := zero_forkid; wf_msg := forkid_ok |}.
Next Obligation. apply ID_valid. Qed.
Next Obligation. apply ID_roundtrip. Qed.

#[export] Program Instance Status_Codec : Codec Status := {| empty_msg := zero_Status; wf_msg := Status_ok |}.
Next Obligation.
  intros s (? & ? & ? & [? ?] & [? ?] & ?). apply valid_array. repeat constructor; auto with devp2p. by apply ID_valid.
Qed.
Next Obligation.
  intros s (? & ? & ? & [? ?] & [? ?] & ?). unfold UnmarshalRLPWith, Status_UnmarshalRLPWith_inst, Status_UnmarshalRLPWith,
    MarshalRLPWith, Status_MarshalRLPWith_inst, Status_MarshalRLPWith.
  rlp_get. rewrite ID_roundtrip by done. by destruct s.
Qed.

Lemma BHP_origin_hash g h : hash_ok h -> BHP_origin g (NewBytes h) = Ok (Some h, bhp_Number g).
Proof.
  intros [Hl _]. unfold BHP_origin, Value_Bytes. rewrite GetBytes_bytes. cbn [of_option mbind outcome_bind].
  rewrite Hl, Nat.eqb_refl. by rewrite copy_full.
Qed.

Lemma BHP_origin_number g n : u64_ok n -> BHP_origin g (NewUint n) = Ok (bhp_Hash g, n).
Proof.
  intros Hn. unfold BHP_origin, Value_Bytes. destruct (GetBytes_uint n) as (b & -> & Hb). cbn [of_option mbind outcome_bind].
  destruct (Nat.eqb_spec (length b) 32); [lia|]. by rewrite GetUint64_uint.
Qed.

#[export] Program Instance BHP_Codec : Codec BlockHeadersPacket := {| empty_msg := zero_BHP; wf_msg := BHP_ok |}.
Next Obligation.
  intros [h n a s r] (Ho & Ha & Hs); cbn [bhp_Hash bhp_Number bhp_Amount bhp_Skip] in *. apply valid_array.
  repeat constructor; auto with devp2p. destruct h; cbn [bhp_Hash bhp_Number] in *; auto with devp2p.
  destruct Ho as [[? ?] _]. auto with devp2p.
Qed.
Next Obligation.
  intros [h n a s r] (Ho & Ha & Hs); cbn [bhp_Hash bhp_Number bhp_Amount bhp_Skip] in *.
  unfold UnmarshalRLPWith, BHP_UnmarshalRLPWith_inst, BHP_UnmarshalRLPWith,
    MarshalRLPWith, BHP_MarshalRLPWith_inst, BHP_MarshalRLPWith; cbn [bhp_Hash bhp_Number bhp_Amount bhp_Skip bhp_Reverse].
  rewrite GetElems_array. cbn [of_option mbind outcome_bind length Nat.eqb negb idx lookup list_lookup].
  destruct h as [h|].
  - destruct Ho as [Hh ->]. rewrite BHP_origin_hash by done. by rlp_get.
  - rewrite BHP_origin_number by done. by rlp_get.
Qed.

#[export] Program Instance HashList_Codec : Codec HashList := {| empty_msg := mkHashList []; wf_msg := HashList_ok |}.
Next Obligation.
  intros h Hh. apply valid_array, Forall_fmap. eapply Forall_impl; [exact Hh|]. intros b [? ?]. by apply valid_bytes.
Qed.
Next Obligation.
  intros [l] Hl. unfold UnmarshalRLPWith, HashList_UnmarshalRLPWith_inst, HashList_UnmarshalRLPWith,
    MarshalRLPWith, HashList_MarshalRLPWith_inst, HashList_MarshalRLPWith; cbn [hashes].
  rewrite GetElems_array. cbn [of_option mbind outcome_bind]. by rewrite mapO_GetHash.
Qed.

(** Any message can be read back from its bytes. *)
Lemma MarshalRLP_roundtrip {A} `{!Marshaler A, !Unmarshaler A, !Codec A} (a : A) : wf_msg a -> len_ok (MarshalRLP a) ->
  UnmarshalRLP (MarshalRLP a) empty_msg = Ok a.
Proof.
  intros Ha Hl. unfold UnmarshalRLP, MarshalRLP. rewrite Parse_MarshalTo'; [|by apply codec_valid|done].
  cbn [of_option mbind outcome_bind]. by apply codec_roundtrip.
Qed.

Lemma Request_valid {A} `{!Marshaler A, !Unmarshaler A, !Codec A} id (b : A) : u64_ok id -> wf_msg b -> valid (MarshalRLPWith (mkRequest id b)).
Proof. intros Hid Hb. apply valid_array. repeat constructor; [by apply valid_uint|by apply codec_valid]. Qed.

Lemma UnmarshalRLPWith_Response {A} `{!Unmarshaler A} (e : Response Value A) id v : u64_ok id ->
  UnmarshalRLPWith e (NewArray [NewUint id; v]) =
  match resp_Body e with
  | Some b => b ← UnmarshalRLPWith b v; Ok (mkResponse id (Some b) (resp_BodyRaw e))
  | None => Ok (mkResponse id None (Some v))
  end.
Proof.
  intros Hid. unfold UnmarshalRLPWith at 1, Response_UnmarshalRLPWith_inst, Response_UnmarshalRLPWith. by rlp_get.
Qed.

(** C27: A request read by the peer as a response (that is how requests are decoded) gives back the
    identifier and the body; read without a body to fill in, it gives the identifier and the
    undecoded body. *)
Theorem Request_roundtrip {A} `{!Marshaler A, !Unmarshaler A, !Codec A} id (b : A) : u64_ok id -> wf_msg b -> len_ok (MarshalRLP (mkRequest id b)) ->
  UnmarshalRLP (MarshalRLP (mkRequest id b)) (mkResponse 0 (Some empty_msg) None) = Ok (mkResponse id (Some b) None) /\
  UnmarshalRLP (MarshalRLP (mkRequest id b)) (mkResponse (A:=A) 0 None None) =
    Ok (mkResponse id None (Some (MarshalRLPWith b))).
Proof.
  intros Hid Hb Hl. unfold UnmarshalRLP, MarshalRLP.
  rewrite Parse_MarshalTo' by (done || by apply Request_valid). cbn [of_option mbind outcome_bind].
  change (MarshalRLPWith (mkRequest id b)) with (NewArray [NewUint id; MarshalRLPWith b]).
  rewrite !(UnmarshalRLPWith_Response _ id) by done. cbn [resp_Body resp_BodyRaw]. by rewrite codec_roundtrip.
Qed.

(** Bytes from the network make no decoder panic. *)
Lemma ID_safe (z : ID) v : safe (UnmarshalRLPWith z v).
Proof. unfold UnmarshalRLPWith, ID_UnmarshalRLPWith_inst, ID_UnmarshalRLPWith. solve_safe. Qed.
Lemma HashList_safe (z : HashList) v : safe (UnmarshalRLPWith z v).
Proof. unfold UnmarshalRLPWith, HashList_UnmarshalRLPWith_inst, HashList_UnmarshalRLPWith. solve_safe. Qed.
Lemma newBlockHashes_safe (z : newBlockHashesPacket) v : safe (UnmarshalRLPWith z v).
Proof.
  unfold UnmarshalRLPWith, newBlockHashes_UnmarshalRLPWith_inst, newBlockHashes_UnmarshalRLPWith, NewBlockHash_UnmarshalRLPWith.
  solve_safe.
Qed.
Lemma BHP_safe (z : BlockHeadersPacket) v : safe (UnmarshalRLPWith z v).
Proof. unfold UnmarshalRLPWith, BHP_UnmarshalRLPWith_inst, BHP_UnmarshalRLPWith, BHP_origin. solve_safe. Qed.
Lemma Status_safe (z : Status) v : safe (UnmarshalRLPWith z v).
Proof.
  unfold UnmarshalRLPWith at 1, Status_UnmarshalRLPWith_inst, Status_UnmarshalRLPWith. solve_safe. apply ID_safe.
Qed.
Lemma Response_safe {A} `{!Unmarshaler A} (e : Response Value A) v :
  (forall b, resp_Body e = Some b -> forall v, safe (UnmarshalRLPWith b v)) -> safe (UnmarshalRLPWith e v).
Proof.
  intros Hb. unfold UnmarshalRLPWith at 1, Response_UnmarshalRLPWith_inst, Response_UnmarshalRLPWith. solve_safe.
  destruct (resp_Body e) as [b|]; solve_safe.
Qed.
Lemma UnmarshalRLP_safe {A} `{!Unmarshaler A} buf (a : A) : (forall v, safe (UnmarshalRLPWith a v)) -> safe (UnmarshalRLP buf a).
Proof. intros Ha. unfold UnmarshalRLP. solve_safe. Qed.

(** The items of a status on the wire, in their order. *)
Definition status_items (s : Status) : list Value :=
  [NewUint (ProtocolVersion s); NewUint (NetworkID s); NewBigInt (TD s); NewBytes (Head s); NewBytes (Genesis s);
   NewArray [NewBytes (Hash (status_ForkID s)); NewUint (Next (status_ForkID s))]].

(** What the decoder takes from six items: each into its own field. *)
Definition status_reads (s : Status) (elems : list Value) : Prop :=
  exists version network td head genesis fork hash next,
    elems = [version; network; td; head; genesis; fork] /\ GetElems fork = Some [hash; next] /\
    GetUint64 version = Some (ProtocolVersion s) /\ GetUint64 network = Some (NetworkID s) /\ GetBigInt td = Some (TD s) /\
    GetHash head = Some (Head s) /\ GetHash genesis = Some (Genesis s) /\
    GetBytes hash (Some 4%nat) = Some (Hash (status_ForkID s)) /\ GetUint64 next = Some (Next (status_ForkID s)).

Lemma ID_reads z v i : UnmarshalRLPWith z v = Ok i <-> exists hash next, GetElems v = Some [hash; next] /\
  GetBytes hash (Some 4%nat) = Some (Hash i) /\ GetUint64 next = Some (Next i).
Proof.
  unfold UnmarshalRLPWith, ID_UnmarshalRLPWith_inst, ID_UnmarshalRLPWith. split.
  - intros (elems & He%of_option_Ok & E)%bind_Ok. destruct elems as [|e0 [|e1 [|]]]; try discriminate E. cbn in E.
    apply bind_Ok in E as (h & Hh%of_option_Ok & (n & Hn%of_option_Ok & [= <-])%bind_Ok). by exists e0, e1.
  - intros (e0 & e1 & -> & Hh & Hn). cbn. rewrite Hh. cbn. rewrite Hn. cbn. by destruct i.
Qed.

Lemma Status_reads z v s : UnmarshalRLPWith z v = Ok s <-> exists elems, GetElems v = Some elems /\ status_reads s elems.
Proof.
  unfold UnmarshalRLPWith at 1, Status_UnmarshalRLPWith_inst, Status_UnmarshalRLPWith, status_reads. split.
  - intros (elems & He%of_option_Ok & E)%bind_Ok. exists elems. split; [done|].
    destruct elems as [|e0 [|e1 [|e2 [|e3 [|e4 [|e5 [|]]]]]]]; try discriminate E. cbn in E.
    apply bind_Ok in E as (v0 & H0%of_option_Ok & (v1 & H1%of_option_Ok & (v2 & H2%of_option_Ok & (v3 & H3%of_option_Ok
      & (v4 & H4%of_option_Ok & (id & (h & n & Hf & Hh & Hn)%ID_reads & [= <-])%bind_Ok)%bind_Ok)%bind_Ok)%bind_Ok)%bind_Ok).
    exists e0, e1, e2, e3, e4, e5, h, n. by split_and!.
  - intros (elems & -> & e0 & e1 & e2 & e3 & e4 & e5 & h & n & -> & Hf & H0 & H1 & H2 & H3 & H4 & Hh & Hn). cbn.
    rewrite H0. cbn. rewrite H1. cbn. rewrite H2. cbn. rewrite H3. cbn. rewrite H4. cbn.
    rewrite (proj2 (ID_reads (status_ForkID z) e5 (status_ForkID s))) by (by exists h, n). cbn. by destruct s.
Qed.

(** C28: The status on the wire.  It is a list of version, network, difficulty, head, genesis and fork identifier, in this
    order; a well-formed status is read back from its encoding whatever the receiver held; and whatever bytes a peer sends,
    decoding does not panic and succeeds exactly if they are such a list of six items, each of which is
    taken into its own field. *)
Theorem Status_wire (s0 : Status) :
  (forall s, Status_ok s -> len_ok (MarshalRLP s) -> Parse (MarshalRLP s) = Some (NewArray (status_items s)) /\ UnmarshalRLP (MarshalRLP s) s0 = Ok s) /\
  (forall buf s, UnmarshalRLP buf s0 = Ok s <-> exists v elems, Parse buf = Some v /\ GetElems v = Some elems /\ status_reads s elems) /\
  (forall buf, safe (UnmarshalRLP buf s0)).
Proof.
  split_and!.
  - intros s Hs Hl. assert (Parse (MarshalRLP s) = Some (NewArray (status_items s))) as Hp by exact (Parse_MarshalTo' _ (codec_valid s Hs) Hl).
    split; [done|]. unfold UnmarshalRLP. rewrite Hp. cbn [of_option mbind outcome_bind]. apply Status_reads. exists (status_items s).
    destruct Hs as (? & ? & ? & [? ?] & [? ?] & ? & ? & ?). split; [apply GetElems_array|]. unfold status_items. eexists _, _, _, _, _, _, _, _. split; [reflexivity|].
    split_and!; auto using GetElems_array, GetUint64_uint, GetBigInt_bigint, GetHash_bytes, GetBytes_exact.
  - intros buf s. unfold UnmarshalRLP. split.
    + intros (v & Hv%of_option_Ok & (elems & He & Hr)%Status_reads)%bind_Ok. by exists v, elems.
    + intros (v & elems & -> & He & Hr). cbn [of_option mbind outcome_bind]. apply Status_reads. by exists elems.
  - intros buf. apply UnmarshalRLP_safe. apply Status_safe.
Qed.

End Theorems.

(** ** Examples *)

Definition sample_hash (x : Z) : bytes := replicate 32 x.
Definition sample_status : Status := mkStatus 66 1 (2 ^ 70) (sample_hash 7) (sample_hash 9) (mkID [1; 2; 3; 4] 12).

Lemma hash_ok_sample x : byte_ok x -> hash_ok (sample_hash x).
Proof. intros Hx. split; [apply length_replicate|by apply Forall_replicate]. Qed.

Lemma sample_status_ok : Status_ok sample_status.
Proof.
  unfold Status_ok, sample_status, forkid_ok, u64_ok; cbn [ProtocolVersion NetworkID TD Head Genesis status_ForkID Hash Next].
  split_and!; try lia; try (apply hash_ok_sample; unfold byte_ok; lia); try done.
  repeat constructor; unfold byte_ok; lia.
Qed.

Lemma Request_roundtrip_witness :
  UnmarshalRLP (MarshalRLP (mkRequest 5 sample_status)) (mkResponse 0 (Some empty_msg) None) =
  Ok (mkResponse 5 (Some sample_status) None).
Proof.
  refine (proj1 (Request_roundtrip 5 sample_status _ _ _)); [unfold u64_ok; lia|apply sample_status_ok|].
  vm_compute. reflexivity.
Defined.

Lemma Status_wire_witness : UnmarshalRLP (MarshalRLP sample_status) zero_Status = Ok sample_status /\
  GetElems (NewArray (status_items sample_status)) = Some (status_items sample_status).
Proof.
  split; [|reflexivity]. refine (proj2 (proj1 (Status_wire zero_Status) sample_status sample_status_ok _)). vm_compute. reflexivity.
Defined.

(** A list that is not empty keeps what it holds: reading a second answer into it appends. *)
Example HashList_appends :
  UnmarshalRLP (MarshalRLP (mkHashList [sample_hash 1])) (mkHashList [sample_hash 2]) =
  Ok (mkHashList [sample_hash 2; sample_hash 1]).
Proof. vm_compute. reflexivity. Qed.

(** [Status.Equal] inherits the fork comparison: statuses of different chains that agree on the
    genesis pass when their next forks differ. *)
Example Status_Equal_wrong_fork :
  Status_Equal sample_status (mkStatus 66 1 0 (sample_hash 0) (sample_hash 9) (mkID [9; 9; 9; 9] 13)) = None.
Proof. reflexivity. Qed.
