(* ===== verification/Eth.v ===== *)
(** * The eth protocol: one handler per peer

    [wire/eth/backend.go].  A [handler] runs in a goroutine per peer: it exchanges status messages,
    then reads and answers messages for ever.  Calls of [Peer.request] run in goroutines of the
    user; they share the table [inflight] with the reader, which hands them their responses over an
    unbuffered channel.  The goroutines are interleaved by [step], a function of the handler and a
    label that says which goroutine moves and what the connection answers.

    The backend [Impl] is code of the user: [Eth66Backend] has its answers, and the calls that only
    notify it are recorded in [h_events].  A [Marshaler] whose type the code does not know is the
    value it marshals to; an [Unmarshaler] given by the user is any type [D] of the class. *)

From stdpp Require Import base gmap strings numbers list.
From S2P Require Import Prelude GoStd Rlp ForkID Crypto RlpxMsg RlpxStream EthMsg.
Local Open Scope Z_scope.

(** ** Message codes: an [ethMessage] is an [int16] *)

Definition StatusMsg : Z := 0x00.
Definition NewBlockHashesMsg : Z := 0x01.
Definition TransactionsMsg : Z := 0x02.
Definition GetBlockHeadersMsg : Z := 0x03.
Definition BlockHeadersMsg : Z := 0x04.
Definition GetBlockBodiesMsg : Z := 0x05.
Definition BlockBodiesMsg : Z := 0x06.
Definition NewBlockMsg : Z := 0x07.
Definition NewPooledTransactionHashesMsg : Z := 0x08.
Definition GetPooledTransactionsMsg : Z := 0x09.
Definition PooledTransactionsMsg : Z := 0x0a.

(** [ethMessage(code)] of a [uint16]. *)
Definition ethMessage (code : Z) : Z := if code <? 2 ^ 15 then code else code - 2 ^ 16.

(** [Eth66().Spec] *)
Definition Eth66_Spec : ProtocolSpec := mkSpec "eth" 66 17.

(** ** The backend *)

Class Eth66Backend `{FastRLP} := {
  Impl_Status : Status;
  Impl_GetBlockHeader : BlockHeadersPacket -> Value;
  Impl_GetBlockBodies : list bytes -> Value;
  Impl_GetTransactions : list bytes -> Value;
}.

Section Eth.
Context `{FastRLP} `{!Eth66Backend} {D : Type} `{!Unmarshaler D}.

(** A [Marshaler] known by its value. *)
Definition Value_MarshalRLPWith : Marshaler Value := fun v => v.
Local Existing Instance Value_MarshalRLPWith.

Inductive event :=
| NotifyPeer (status : Status)
| NotifyTransactions (v : Value)
| NotifyBlockHashes (l : list NewBlockHash)
| NotifyTransactionHashes (l : list bytes).

(** ** Data *)

(** A call of [request] and [doRequest]: where it is, and what it will return. *)
Inductive call_state :=
| CWrite                          (* about to write the request *)
| CStore                          (* written, about to enter [inflight] *)
| CStored                         (* in [inflight], not yet in the [select] *)
| CWait                           (* in the [select] *)
| CLeave (res : option string)    (* about to run the deferred function *)
| CClosed (res : option string)   (* the channel is closed, the entry not yet deleted *)
| CDone (res : option string).    (* returned *)

(** The call with its [inflightRequest]: the channel is closed from [CClosed] on. *)
Record call := mkCall { c_id : Z; c_code : Z; c_body : Value; c_dst : D; c_st : call_state }.

Definition ch_closed (c : call) : bool :=
  match c_st c with CClosed _ | CDone _ => true | _ => false end.

(** The goroutine of [run]. *)
Inductive reader :=
| RHandshake                              (* in [ReadMsg] of [handshake] *)
| RRead                                   (* in [ReadMsg] of the loop *)
| RDeliver (i : nat) (err : option string) (* in the deferred function of [deliverResponse] *)
| RReturned (err : string).

Record handler := mkHandler {
  h_out : list (Z * bytes);              (* what was written to the connection *)
  h_inflight : gmap Z nat;               (* request id to call *)
  h_calls : list call;
  h_events : list event;
  h_status : option Status;              (* of the peer, once it was notified *)
  h_statusWriter : bool;                 (* the goroutine that writes the local status is pending *)
  h_reader : reader;
  h_closeCh : bool;                      (* [Peer.closeCh] was closed *)
  h_conn_closed : bool;                  (* [Close] was called *)
  h_log : list (Z * bytes);              (* what was read from the connection, a ghost *)
}.

Definition set_out (h : handler) (o : list (Z * bytes)) : handler :=
  mkHandler o (h_inflight h) (h_calls h) (h_events h) (h_status h) (h_statusWriter h) (h_reader h) (h_closeCh h) (h_conn_closed h) (h_log h).
Definition set_calls (h : handler) (m : gmap Z nat) (c : list call) : handler :=
  mkHandler (h_out h) m c (h_events h) (h_status h) (h_statusWriter h) (h_reader h) (h_closeCh h) (h_conn_closed h) (h_log h).
Definition set_reader (h : handler) (r : reader) : handler :=
  mkHandler (h_out h) (h_inflight h) (h_calls h) (h_events h) (h_status h) (h_statusWriter h) r (h_closeCh h) (h_conn_closed h) (h_log h).
Definition set_writer (h : handler) (b : bool) : handler :=
  mkHandler (h_out h) (h_inflight h) (h_calls h) (h_events h) (h_status h) b (h_reader h) (h_closeCh h) (h_conn_closed h) (h_log h).
Definition set_peer (h : handler) (s : Status) : handler :=
  mkHandler (h_out h) (h_inflight h) (h_calls h) (h_events h ++ [NotifyPeer s]) (Some s) (h_statusWriter h) RRead (h_closeCh h) (h_conn_closed h) (h_log h).
Definition notify (h : handler) (e : event) : handler :=
  mkHandler (h_out h) (h_inflight h) (h_calls h) (h_events h ++ [e]) (h_status h) (h_statusWriter h) (h_reader h) (h_closeCh h) (h_conn_closed h) (h_log h).
Definition log (h : handler) (m : Z * bytes) : handler :=
  mkHandler (h_out h) (h_inflight h) (h_calls h) (h_events h) (h_status h) (h_statusWriter h) (h_reader h) (h_closeCh h) (h_conn_closed h) (h_log h ++ [m]).
(** [run] returns [err]; the deferred call closes [closeCh]. *)
Definition run_return (h : handler) (err : string) (conn_closed : bool) : handler :=
  mkHandler (h_out h) (h_inflight h) (h_calls h) (h_events h) (h_status h) (h_statusWriter h) (RReturned err) true conn_closed (h_log h).

Definition set_st (c : call) (s : call_state) : call := mkCall (c_id c) (c_code c) (c_body c) (c_dst c) s.
Definition set_dst (c : call) (d : D) : call := mkCall (c_id c) (c_code c) (c_body c) d (c_st c).
Definition set_call (h : handler) (i : nat) (c : call) : handler := set_calls h (h_inflight h) (<[i := c]> (h_calls h)).

(** [HandlerFn]: the handler of a new stream. *)
Definition Eth66_HandlerFn : handler := mkHandler [] ∅ [] [] None false RHandshake false false [].

(** ** Writing *)

(** [h.Write(code, msg)]; [werr] is the answer of the connection. *)
Definition Write {A} `{!Marshaler A} (h : handler) (code : Z) (msg : A) (werr : option string) : handler * option string :=
  match werr with
  | Some e => (h, Some e)
  | None => (set_out h (h_out h ++ [(code, MarshalRLP msg)]), None)
  end.

(** ** Requests *)

(** [request] up to [doRequest]. *)
Definition request_write (h : handler) (i : nat) (c : call) (werr : option string) : handler :=
  let '(h, err) := Write h (c_code c) (mkRequest (c_id c) (c_body c)) werr in
  match err with
  | Some e => set_call h i (set_st c (CDone (Some e)))
  | None => set_call h i (set_st c CStore)
  end.

(** The pieces of [doRequest]: entering [inflight], and the deferred function. *)
Definition doRequest_store (h : handler) (i : nat) (c : call) : handler :=
  set_calls h (<[c_id c := i]> (h_inflight h)) (<[i := set_st c CStored]> (h_calls h)).
Definition doRequest_close (h : handler) (i : nat) (c : call) (res : option string) : outcome handler :=
  if ch_closed c then Panic else Ok (set_call h i (set_st c (CClosed res))).
Definition doRequest_delete (h : handler) (i : nat) (c : call) (res : option string) : handler :=
  set_calls h (delete (c_id c) (h_inflight h)) (<[i := set_st c (CDone res)]> (h_calls h)).

(** [deliverResponse]: the lookup and the decoding into the destination of the call. *)
Definition deliverResponse (h : handler) (resp : Response Value D) : outcome handler :=
  match h_inflight h !! resp_RequestId resp with
  | None => Err "id not found"
  | Some i =>
      c ← idx (h_calls h) i;
      raw ← match resp_BodyRaw resp with Some raw => Ok raw | None => Panic end;
      match UnmarshalRLPWith (c_dst c) raw with
      | Ok d => Ok (set_reader (set_call h i (set_dst c d)) (RDeliver i None))
      | Err e => Ok (set_reader h (RDeliver i (Some e)))
      | Panic => Panic
      | NoFuel => NoFuel
      end
  end.

(** [select { case req.ch <- err: default: }]: a send on a closed channel panics, also here. *)
Definition deliver_send (h : handler) (i : nat) (err : option string) : outcome handler :=
  c ← idx (h_calls h) i;
  if ch_closed c then Panic else
  match c_st c with
  | CWait => Ok (set_reader (set_call h i (set_st c (CLeave err))) RRead)
  | _ => Ok (set_reader h RRead)
  end.

(** ** Messages *)

(** The closure of [handleMsg] with the same name. *)
Definition handle_response (h : handler) (buf : bytes) : outcome handler :=
  msg ← UnmarshalRLP buf (mkResponse (A:=D) 0 None None);
  deliverResponse h msg.

(** A request: decoded, answered by the backend, written back under the same id. *)
Definition handle_request {A} `{!Unmarshaler A} (h : handler) (buf : bytes) (body : A) (answer : A -> Value)
    (code : Z) (werr : option string) : outcome handler :=
  msg ← UnmarshalRLP buf (mkResponse 0 (Some body) None);
  body ← match resp_Body msg with Some b => Ok b | None => Panic end;
  let '(h, err) := Write h code (mkRequest (resp_RequestId msg) (answer body)) werr in
  match err with Some e => Err e | None => Ok h end.

Definition handleMsg (h : handler) (code : Z) (buf : bytes) (werr : option string) : outcome handler :=
  let code := ethMessage code in
  if code =? TransactionsMsg then
    v ← of_option rlp_error (Parse buf);
    Ok (notify h (NotifyTransactions v))
  else if code =? NewBlockHashesMsg then
    msg ← UnmarshalRLP buf (mkNewBlockHashes []);
    Ok (notify h (NotifyBlockHashes (packets msg)))
  else if code =? NewPooledTransactionHashesMsg then
    msg ← UnmarshalRLP buf (mkHashList []);
    Ok (notify h (NotifyTransactionHashes (hashes msg)))
  else if code =? BlockBodiesMsg then handle_response h buf
  else if code =? GetBlockBodiesMsg then
    handle_request h buf (mkHashList []) (fun b => Impl_GetBlockBodies (hashes b)) BlockBodiesMsg werr
  else if code =? BlockHeadersMsg then handle_response h buf
  else if code =? GetBlockHeadersMsg then
    handle_request h buf zero_BHP Impl_GetBlockHeader BlockHeadersMsg werr
  else if code =? PooledTransactionsMsg then handle_response h buf
  else if code =? GetPooledTransactionsMsg then
    handle_request h buf (mkHashList []) (fun b => Impl_GetTransactions (hashes b)) PooledTransactionsMsg werr
  else if code =? NewBlockMsg then Ok h
  else Panic.

(** ** The handshake and the loop of [run] *)

(** [handshake] once a message, whatever its code, was read; then the rest of [run] up to the loop.
    The goroutine that writes the local status has been started. *)
Definition handshake (h : handler) (buf : bytes) : outcome handler :=
  let localStatus := Impl_Status in
  let h := set_writer h true in
  match UnmarshalRLP buf zero_Status with
  | Ok remote =>
      match Status_Equal localStatus remote with
      | Some e => Ok (run_return h e true)
      | None => Ok (set_peer h remote)
      end
  | Err _ => Panic
  | Panic => Panic
  | NoFuel => NoFuel
  end.

(** One turn of the loop: errors of [handleMsg] are printed. *)
Definition run_msg (h : handler) (code : Z) (buf : bytes) (werr : option string) : outcome handler :=
  match handleMsg h code buf werr with
  | Ok h => Ok h
  | Err _ => Ok h
  | Panic => Panic
  | NoFuel => NoFuel
  end.

(** ** Steps *)

Inductive label :=
| LRead (code : Z) (buf : bytes) (werr : option string)   (* [ReadMsg] returns a message *)
| LReadErr (e : string)                                  (* [ReadMsg] fails *)
| LDeliver                                               (* the deferred function of [deliverResponse] *)
| LStatus (werr : option string)                         (* the goroutine that writes the status *)
| LRequest (id code : Z) (body : Value) (dst : D)        (* the user calls [request]; [id] is random *)
| LWrite (i : nat) (werr : option string)
| LStore (i : nat)
| LSelect (i : nat)
| LTimeout (i : nat)                                     (* six seconds have passed *)
| LClose (i : nat)
| LDelete (i : nat).

(** The next state; [None] when the goroutine of the label is not there. *)
Definition step (h : handler) (l : label) : option (outcome handler) :=
  match l with
  | LRead code buf werr =>
      match h_reader h with
      | RHandshake => Some (handshake (log h (code, buf)) buf)
      | RRead => Some (run_msg (log h (code, buf)) code buf werr)
      | _ => None
      end
  | LReadErr e =>
      match h_reader h with
      | RHandshake | RRead => Some (Ok (run_return h e (h_conn_closed h)))
      | _ => None
      end
  | LDeliver => match h_reader h with RDeliver i err => Some (deliver_send h i err) | _ => None end
  | LStatus werr => if h_statusWriter h then Some (Ok (set_writer (fst (Write h StatusMsg Impl_Status werr)) false)) else None
  | LRequest id code body dst =>
      match h_status h with
      | Some _ => Some (Ok (set_calls h (h_inflight h) (h_calls h ++ [mkCall id code body dst CWrite])))
      | None => None
      end
  | LWrite i werr =>
      c ← h_calls h !! i; match c_st c with CWrite => Some (Ok (request_write h i c werr)) | _ => None end
  | LStore i =>
      c ← h_calls h !! i; match c_st c with CStore => Some (Ok (doRequest_store h i c)) | _ => None end
  | LSelect i =>
      c ← h_calls h !! i; match c_st c with CStored => Some (Ok (set_call h i (set_st c CWait))) | _ => None end
  | LTimeout i =>
      c ← h_calls h !! i;
      match c_st c with CWait => Some (Ok (set_call h i (set_st c (CLeave (Some "timeout"%string))))) | _ => None end
  | LClose i =>
      c ← h_calls h !! i; match c_st c with CLeave res => Some (doRequest_close h i c res) | _ => None end
  | LDelete i =>
      c ← h_calls h !! i; match c_st c with CClosed res => Some (Ok (doRequest_delete h i c res)) | _ => None end
  end.

(** The calls of a [Peer]. *)
Definition GetTransactions (dst : D) (hs : list bytes) (id : Z) : label :=
  LRequest id GetPooledTransactionsMsg (MarshalRLPWith (mkHashList hs)) dst.
Definition GetBlockByNumber (dst : D) (n : Z) (id : Z) : label :=
  LRequest id GetBlockHeadersMsg (MarshalRLPWith (mkBHP None n 1 0 false)) dst.

(** A sequence of steps. *)
Fixpoint steps (h : handler) (ls : list label) : option (outcome handler) :=
  match ls with
  | [] => Some (Ok h)
  | l :: ls => match step h l with Some (Ok h) => steps h ls | r => r end
  end.

Inductive reachable : handler -> Prop :=
| reach_init : reachable Eth66_HandlerFn
| reach_step h l h' : reachable h -> step h l = Some (Ok h') -> reachable h'.

End Eth.

Arguments call {_} D.
Arguments handler {_} D.
Arguments label {_} D.
