(* ===== verification/EthTheorems.v ===== *)
(** * The eth protocol: theorems

    The invariant of the table of requests in every reachable handler; what a successful request
    means; that requests end; the exact conditions under which a step panics; that a request and
    its answer meet end to end; and the handshake, which two nodes of this code cannot finish. *)

From stdpp Require Import base gmap strings numbers list.
From S2P Require Import Prelude GoStd Rlp ForkID Crypto RlpxMsg RlpxStream EthMsg Eth.
Local Open Scope Z_scope.

Section Theorems.
Context `{FastRLP} `{!Eth66Backend} {D : Type} `{!Unmarshaler D}.
Local Existing Instance Value_MarshalRLPWith.
Implicit Types (h : handler D) (c : call D) (l : label D).

(** ** What steps leave alone *)

Definition is_response (code : Z) : bool :=
  let code := ethMessage code in
  (code =? BlockBodiesMsg) || (code =? BlockHeadersMsg) || (code =? PooledTransactionsMsg).

(** Nothing but the output and the notifications differ. *)
Record frame h h' : Prop := {
  fr_inflight : h_inflight h' = h_inflight h;
  fr_calls : h_calls h' = h_calls h;
  fr_status : h_status h' = h_status h;
  fr_reader : h_reader h' = h_reader h;
  fr_closeCh : h_closeCh h' = h_closeCh h;
  fr_log : h_log h' = h_log h;
}.

Lemma frame_refl h : frame h h.
Proof. by split. Qed.
Lemma frame_notify h e : frame h (notify h e).
Proof. by split. Qed.

Lemma Write_frame {A} `{!Marshaler A} h code (m : A) werr : frame h (fst (Write h code m werr)).
Proof. by destruct werr; split. Qed.

Lemma handle_request_frame {A} `{!Unmarshaler A} h buf (body : A) answer code werr h' :
  handle_request h buf body answer code werr = Ok h' -> frame h h'.
Proof.
  unfold handle_request. intros E. invO E. destruct (Write _ _ _ _) as [h1 [e|]] eqn:Ew; [done|].
  injection E as <-. change h1 with (fst (h1, @None string)). rewrite <-Ew. apply Write_frame.
Qed.

(** A message changes the calls only if it is a response. *)
Lemma handleMsg_cases h code buf werr h' : handleMsg h code buf werr = Ok h' ->
  frame h h' \/ (is_response code = true /\ handle_response h buf = Ok h').
Proof.
  unfold handleMsg, is_response. intros E. repeat case_if; rewrite ?orb_true_r; try done; try (right; done).
  all: left; try (by apply handle_request_frame in E).
  all: invO E; auto using frame_refl, frame_notify.
Qed.

(** ** The invariant *)

Definition in_table (s : call_state) : bool :=
  match s with CStored | CWait | CLeave _ | CClosed _ => true | _ => false end.
Definition succeeded (s : call_state) : bool :=
  match s with CLeave None | CClosed None | CDone None => true | _ => false end.

(** A response with this id was read, and its body decoded. *)
Definition answered (log : list (Z * bytes)) (id : Z) : Prop :=
  exists code buf resp raw (d d' : D), (code, buf) ∈ log /\ is_response code = true /\
    UnmarshalRLP buf (mkResponse (A:=D) 0 None None) = Ok resp /\ resp_RequestId resp = id /\
    resp_BodyRaw resp = Some raw /\ UnmarshalRLPWith d raw = Ok d'.

Lemma answered_mono log x id : answered log id -> answered (log ++ [x]) id.
Proof. intros (code & buf & resp & raw & d & d' & ? & ?). exists code, buf, resp, raw, d, d'. split; [set_solver|done]. Qed.

Record inv h : Prop := {
  inv_table id i : h_inflight h !! id = Some i ->
    exists c, h_calls h !! i = Some c /\ c_id c = id /\ in_table (c_st c) = true;
  inv_reader i err : h_reader h = RDeliver i err ->
    exists c, h_calls h !! i = Some c /\ (err = None -> answered (h_log h) (c_id c));
  inv_done i c : h_calls h !! i = Some c -> succeeded (c_st c) = true -> answered (h_log h) (c_id c);
  inv_peer : h_reader h = RHandshake -> h_status h = None;
  inv_nopeer : h_status h = None -> h_calls h = [];
  inv_closeCh : h_closeCh h = true <-> exists e, h_reader h = RReturned e;
}.

Lemma inv_init : inv Eth66_HandlerFn.
Proof. split; try done. split; [done|by intros [? ?]]. Qed.

Lemma inv_frame h h' : frame h h' -> inv h -> inv h'.
Proof.
  intros [E1 E2 E3 E4 E5 E6] [I1 I2 I3 I4 I5 I6]. split; rewrite ?E1, ?E2, ?E3, ?E4, ?E5, ?E6; done.
Qed.

Lemma inv_log h m : inv h -> inv (log h m).
Proof.
  intros [I1 I2 I3 I4 I5 I6]. split; try done; cbn [log h_calls h_reader h_log].
  - intros i err (c & ? & Hc)%I2. exists c. split; [done|]. intros. by apply answered_mono, Hc.
  - intros. by eapply answered_mono, I3.
Qed.

(** A call that stays in the table, is in the log if it succeeds, and keeps its id. *)
Lemma inv_set_call h i c c' : inv h -> h_calls h !! i = Some c -> c_id c' = c_id c ->
  (in_table (c_st c) = true -> in_table (c_st c') = true) ->
  (succeeded (c_st c') = true -> answered (h_log h) (c_id c)) -> inv (set_call h i c').
Proof.
  intros [I1 I2 I3 I4 I5 I6] Hc Hid Ht Hs. pose proof (lookup_lt_Some _ _ _ Hc) as Hlt.
  assert (forall j c0, h_calls h !! j = Some c0 -> exists c1, <[i := c']> (h_calls h) !! j = Some c1 /\ c_id c1 = c_id c0 /\
      (in_table (c_st c0) = true -> in_table (c_st c1) = true)) as Hup.
  { intros j c0 Hj. destruct (decide (i = j)) as [<-|Hn]; [|rewrite list_lookup_insert_ne by done; eauto].
    rewrite list_lookup_insert_eq by done. simplify_eq. eauto. }
  split; try done; cbn [set_call set_calls h_calls h_reader h_log h_inflight h_status].
  - intros id j (c0 & Hj & <- & Hin)%I1. destruct (Hup _ _ Hj) as (c1 & ? & ? & ?). eauto.
  - intros j err (c0 & Hj & Ha)%I2. destruct (Hup _ _ Hj) as (c1 & ? & E & ?). exists c1. rewrite E. auto.
  - intros j c0 Hj Hc0. destruct (decide (i = j)) as [<-|Hn].
    + rewrite list_lookup_insert_eq in Hj by done. simplify_eq. rewrite Hid. auto.
    + rewrite list_lookup_insert_ne in Hj by done. eauto.
  - intros E. rewrite (I5 E) in Hc. done.
Qed.

Lemma inv_set_reader h r : inv h -> (forall i err, r = RDeliver i err -> exists c, h_calls h !! i = Some c /\ (err = None -> answered (h_log h) (c_id c))) ->
  (forall e, r ≠ RReturned e) -> r ≠ RHandshake -> (forall e, h_reader h ≠ RReturned e) -> inv (set_reader h r).
Proof.
  intros [I1 I2 I3 I4 I5 I6] Hr Hn Hh Ho. split; try done. cbn [set_reader h_closeCh h_reader].
  rewrite I6. split; intros [e He]; [by apply Ho in He|by apply Hn in He].
Qed.

Lemma inv_run_return h e b : inv h -> inv (run_return h e b).
Proof. intros [I1 I2 I3 I4 I5 I6]. split; try done. cbn. split; eauto. Qed.

Lemma inv_set_peer h s : inv h -> h_reader h = RHandshake -> inv (set_peer h s).
Proof.
  intros [I1 I2 I3 I4 I5 I6] Hr. split; try done. cbn. rewrite I6, Hr. split; intros [? ?]; done.
Qed.

(** ** Steps keep it *)

Lemma handle_response_Ok h buf h' : handle_response h buf = Ok h' ->
  exists resp i c raw, UnmarshalRLP buf (mkResponse (A:=D) 0 None None) = Ok resp /\
    h_inflight h !! resp_RequestId resp = Some i /\ h_calls h !! i = Some c /\ resp_BodyRaw resp = Some raw /\
    ((exists d, UnmarshalRLPWith (c_dst c) raw = Ok d /\ h' = set_reader (set_call h i (set_dst c d)) (RDeliver i None)) \/
     (exists e, UnmarshalRLPWith (c_dst c) raw = Err e /\ h' = set_reader h (RDeliver i (Some e)))).
Proof.
  unfold handle_response, deliverResponse. intros E. invO E. destruct (_ !! _) as [i|] eqn:Ei; [|done]. invO E.
  rename a0 into c. match goal with HE : idx _ _ = Ok _ |- _ => apply idx_Ok in HE as Hc end.
  match goal with HE : match resp_BodyRaw a with _ => _ end = Ok _ |- _ => rename HE into Hraw end.
  destruct (resp_BodyRaw a) as [raw|] eqn:Er; [|done]. injection Hraw as <-.
  exists a, i, c, raw. split_and!; try done.
  destruct (UnmarshalRLPWith (c_dst c) raw) eqn:Ed; try done; injection E as <-; [left|right]; eauto.
Qed.

Lemma handle_response_inv h code buf h' : inv h -> h_reader h = RRead -> (code, buf) ∈ h_log h -> is_response code = true ->
  handle_response h buf = Ok h' -> inv h'.
Proof.
  intros I Hr Hl Hc (resp & i & c & raw & Hu & Hi & Hci & Hraw & Hd)%handle_response_Ok.
  destruct (inv_table h I _ _ Hi) as (c' & Hc' & Hid & Hin).
  rewrite Hci in Hc'. injection Hc' as <-.
  destruct Hd as [(d & Hd & ->)|(e & Hd & ->)].
  - apply inv_set_reader; try done; [eapply inv_set_call; eauto using inv_done| |cbn; rewrite Hr; done].
    intros j err [= <- <-]. exists (set_dst c d). split; [by eapply list_lookup_insert_eq, lookup_lt_Some|].
    intros _. cbn. exists code, buf, resp, raw, (c_dst c), d. by rewrite Hid.
  - apply inv_set_reader; try done; [|rewrite Hr; done]. intros j err [= <- <-]. by exists c.
Qed.

Lemma run_msg_inv h code buf werr h' : inv h -> h_reader h = RRead -> run_msg (log h (code, buf)) code buf werr = Ok h' -> inv h'.
Proof.
  unfold run_msg. intros I Hr. apply (inv_log _ (code, buf)) in I.
  destruct (handleMsg _ _ _ _) as [h1|e| |] eqn:E; intros [= <-]; [|done].
  apply handleMsg_cases in E as [Hf|[Hc Hh]]; [by eapply inv_frame|].
  eapply handle_response_inv; [exact I|done| |exact Hc|exact Hh]. cbn. set_solver.
Qed.

Lemma handshake_inv h buf h' : inv h -> h_reader h = RHandshake -> handshake h buf = Ok h' -> inv h'.
Proof.
  unfold handshake. intros I Hr. assert (inv (set_writer h true)) as I' by (apply (inv_frame h); [by split|exact I]).
  destruct (UnmarshalRLP _ _) as [s| | |]; try done. destruct (Status_Equal _ s); intros [= <-].
  - by apply inv_run_return.
  - by apply inv_set_peer.
Qed.

Lemma deliver_send_inv h i err h' : inv h -> h_reader h = RDeliver i err -> deliver_send h i err = Ok h' -> inv h'.
Proof.
  unfold deliver_send. intros I Hr E. invO E. apply idx_Ok in E0. case_if; [done|].
  destruct (inv_reader h I _ _ Hr) as (c & Hc & Hans).
  rewrite E0 in Hc. injection Hc as ->.
  assert (inv (set_reader h RRead)) as Hd by (apply inv_set_reader; try done; by rewrite Hr).
  destruct (c_st c) eqn:Ec; injection E as <-; try done.
  apply inv_set_reader; try done; [|cbn; by rewrite Hr]. eapply inv_set_call; eauto. cbn.
  destruct err; [done|]. auto.
Qed.

Lemma call_bind h i (k : call D -> option (outcome (handler D))) r :
  (h_calls h !! i ≫= k) = Some r -> exists c, h_calls h !! i = Some c /\ k c = Some r.
Proof. destruct (h_calls h !! i) as [c|]; [|done]. simpl. eauto. Qed.

Lemma doRequest_store_inv h i c : inv h -> h_calls h !! i = Some c -> c_st c = CStore -> inv (doRequest_store h i c).
Proof.
  intros I Hc Hs. assert (inv (set_call h i (set_st c CStored))) as I' by (eapply inv_set_call; eauto; done).
  destruct I' as [I1 I2 I3 I4 I5 I6]. split; try done. cbn [doRequest_store set_calls h_inflight h_calls].
  intros id j [[<- <-]|[Hn Hj]]%lookup_insert_Some; [|eauto].
  eexists. split; [by eapply list_lookup_insert_eq, lookup_lt_Some|done].
Qed.

Lemma doRequest_delete_inv h i c res : inv h -> h_calls h !! i = Some c -> c_st c = CClosed res -> inv (doRequest_delete h i c res).
Proof.
  intros I Hc Hs. pose proof (lookup_lt_Some _ _ _ Hc) as Hlt. destruct I as [I1 I2 I3 I4 I5 I6].
  assert (forall j c0, j ≠ i -> h_calls h !! j = Some c0 -> <[i := set_st c (CDone res)]> (h_calls h) !! j = Some c0) as Hne.
  { intros. by rewrite list_lookup_insert_ne. }
  split; try done; cbn [doRequest_delete set_calls h_inflight h_calls h_reader h_log h_status].
  - intros id j [Hn (c0 & Hj & Hid & Hin)%I1]%lookup_delete_Some. exists c0. split; [|done].
    apply Hne; [|done]. intros ->. simplify_eq.
  - intros j err (c0 & Hj & Ha)%I2. destruct (decide (j = i)) as [->|]; [|eauto]. simplify_eq.
    rewrite list_lookup_insert_eq by done. eauto.
  - intros j c0 Hj Hok. destruct (decide (j = i)) as [->|].
    + rewrite list_lookup_insert_eq in Hj by done. simplify_eq. apply (I3 i c Hc). rewrite Hs. by destruct res.
    + rewrite list_lookup_insert_ne in Hj by done. eauto.
  - intros E. by rewrite (I5 E) in Hc.
Qed.

Lemma request_write_inv h i c werr : inv h -> h_calls h !! i = Some c -> c_st c = CWrite -> inv (request_write h i c werr).
Proof.
  intros I Hc Hs. unfold request_write, Write. destruct werr; eapply inv_set_call; eauto; try done; try (by rewrite Hs).
  eapply inv_frame; [|exact I]. by split.
Qed.

Lemma inv_request h id code body dst : inv h -> h_status h ≠ None -> inv (set_calls h (h_inflight h) (h_calls h ++ [mkCall id code body dst CWrite])).
Proof.
  intros [I1 I2 I3 I4 I5 I6] Hs. split; try done; cbn [set_calls h_inflight h_calls h_reader h_log h_status].
  - intros id' j (c & Hj & ?)%I1. exists c. split; [by apply lookup_app_l_Some|done].
  - intros j err (c & Hj & ?)%I2. exists c. split; [by apply lookup_app_l_Some|done].
  - intros j c [Hj|[_ Hj]]%lookup_app_Some; [eauto|]. by apply list_lookup_singleton_Some in Hj as [_ <-].
Qed.

Lemma step_inv h l h' : inv h -> step h l = Some (Ok h') -> inv h'.
Proof.
  intros I. destruct l; cbn [step].
  - destruct (h_reader h) eqn:Hr; intros [= E].
    + eapply handshake_inv; [by apply inv_log|done|exact E].
    + by eapply run_msg_inv.
  - destruct (h_reader h); intros [= <-]; by apply inv_run_return.
  - destruct (h_reader h) eqn:Hr; intros [= E]. by eapply deliver_send_inv.
  - case_if; intros [= <-]. eapply inv_frame; [|exact I]. by destruct werr; split.
  - destruct (h_status h) eqn:Hs; intros [= <-]. apply inv_request; [done|by rewrite Hs].
  - intros (c & Hc & E)%call_bind. destruct (c_st c) eqn:Hst; try done. injection E as <-. by apply request_write_inv.
  - intros (c & Hc & E)%call_bind. destruct (c_st c) eqn:Hst; try done. injection E as <-. by apply doRequest_store_inv.
  - intros (c & Hc & E)%call_bind. destruct (c_st c) eqn:Hst; try done. injection E as <-. by eapply inv_set_call.
  - intros (c & Hc & E)%call_bind. destruct (c_st c) eqn:Hst; try done. injection E as <-. by eapply inv_set_call.
  - intros (c & Hc & E)%call_bind. destruct (c_st c) eqn:Hst; try done. unfold doRequest_close in E. case_if; [done|]. injection E as <-.
    eapply inv_set_call; [done|done|done|by rewrite Hst|]. intros Hres. eapply inv_done; eauto. rewrite Hst. by destruct res.
  - intros (c & Hc & E)%call_bind. destruct (c_st c) eqn:Hst; try done. injection E as <-. by apply doRequest_delete_inv.
Qed.

Lemma handler_reachable_inv h : reachable h -> inv h.
Proof. induction 1; eauto using inv_init, step_inv. Qed.

(** C10: A request reports success only if a response with its id was read from the peer, under a
    response code, and its body was decoded into the destination without an error. *)
Theorem request_success_answered h i c : reachable h -> h_calls h !! i = Some c -> c_st c = CDone None ->
  answered (h_log h) (c_id c).
Proof. intros Hr Hc Hs. eapply inv_done; [by apply handler_reachable_inv|exact Hc|by rewrite Hs]. Qed.

(** ** Panics *)

Definition handled (code : Z) : bool := (1 <=? ethMessage code) && (ethMessage code <=? 10).

Lemma handle_request_safe {A} `{!Unmarshaler A} h buf (body : A) answer code werr :
  (forall v, safe (UnmarshalRLPWith body v)) -> safe (handle_request h buf body answer code werr).
Proof.
  intros Hb. unfold handle_request. destruct (UnmarshalRLP buf _) as [m| | |] eqn:E; try done.
  2,3: pose proof (UnmarshalRLP_safe buf (mkResponse (V:=Value) 0 (Some body) None)) as Hs; rewrite E in Hs;
    apply Hs; intros v; apply Response_safe; intros b [= <-]; apply Hb.
  cbn [mbind outcome_bind]. assert (exists b, resp_Body m = Some b) as [b ->].
  { unfold UnmarshalRLP, UnmarshalRLPWith at 1, Response_UnmarshalRLPWith_inst, Response_UnmarshalRLPWith in E.
    invO E. case_if; [done|]. invO E. eauto. }
  cbn [mbind outcome_bind]. unfold Write. by destruct werr.
Qed.

(** A response whose call is waiting in the table is decoded by the code of the user. *)
Definition user_panics h (buf : bytes) : Prop :=
  exists resp i c raw, UnmarshalRLP buf (mkResponse (A:=D) 0 None None) = Ok resp /\
    h_inflight h !! resp_RequestId resp = Some i /\ h_calls h !! i = Some c /\
    resp_BodyRaw resp = Some raw /\ UnmarshalRLPWith (c_dst c) raw = Panic.

Lemma handle_response_panic h buf : inv h -> handle_response h buf = Panic <-> user_panics h buf.
Proof.
  intros I. unfold handle_response, deliverResponse. split.
  - destruct (UnmarshalRLP buf _) as [resp| | |] eqn:E; try done.
    2: { pose proof (UnmarshalRLP_safe buf (mkResponse (V:=Value) (A:=D) 0 None None)) as Hs. rewrite E in Hs.
         exfalso. apply Hs. intros v. by apply Response_safe. }
    cbn [mbind outcome_bind]. destruct (_ !! _) as [i|] eqn:Ei; [|done].
    destruct (inv_table h I _ _ Ei) as (c & Hc & _). rewrite (proj2 (idx_Ok _ _ _) Hc). cbn [mbind outcome_bind].
    assert (exists raw, resp_BodyRaw resp = Some raw) as [raw Er].
    { unfold UnmarshalRLP, UnmarshalRLPWith at 1, Response_UnmarshalRLPWith_inst, Response_UnmarshalRLPWith in E.
      invO E. case_if; [done|]. invO E. eauto. }
    rewrite Er. cbn [mbind outcome_bind]. destruct (UnmarshalRLPWith _ raw) eqn:Ed; try done.
    intros _. exists resp, i, c, raw. done.
  - intros (resp & i & c & raw & -> & Ei & Hc & Er & Ed). cbn [mbind outcome_bind].
    rewrite Ei, (proj2 (idx_Ok _ _ _) Hc). cbn [mbind outcome_bind]. rewrite Er. cbn [mbind outcome_bind]. by rewrite Ed.
Qed.

Lemma handleMsg_panic h code buf werr : inv h ->
  handleMsg h code buf werr = Panic <-> handled code = false \/ (is_response code = true /\ user_panics h buf).
Proof.
  intros I. assert (forall o : outcome (handler D), safe o -> handled code = true -> is_response code = false ->
    o = Panic <-> handled code = false \/ (is_response code = true /\ user_panics h buf)) as Hsafe.
  { intros o Ho Hh Hr. rewrite Hh, Hr. split; [by intros ->|naive_solver]. }
  assert (handled code = true -> is_response code = true ->
    handle_response h buf = Panic <-> handled code = false \/ (is_response code = true /\ user_panics h buf)) as Hresp.
  { intros Hh Hr. rewrite Hh, Hr, handle_response_panic by done. naive_solver. }
  unfold handleMsg, handled, is_response in *. set (k := ethMessage code) in *. clearbody k.
  unfold TransactionsMsg, NewBlockHashesMsg, NewPooledTransactionHashesMsg, BlockBodiesMsg, GetBlockBodiesMsg, BlockHeadersMsg,
    GetBlockHeadersMsg, PooledTransactionsMsg, GetPooledTransactionsMsg, NewBlockMsg in *.
  destruct ((1 <=? k) && (k <=? 10)) eqn:Hk.
  - assert (k ∈ seqZ 1 10) as Hc by (apply elem_of_seqZ; blia). clear Hk. vm_compute in Hc.
    repeat (apply elem_of_cons in Hc as [?|Hc]); [..|by apply elem_of_nil in Hc];
    subst k; cbn [Z.eqb Pos.eqb] in *; try (apply Hresp; done).
    all: apply Hsafe; [|done..]; first
      [ solve [solve_safe] | apply handle_request_safe; auto using HashList_safe, BHP_safe
      | apply safe_bind; [apply UnmarshalRLP_safe; auto using HashList_safe, newBlockHashes_safe|done] ].
  - split; [by left|]. intros _. apply andb_false_iff in Hk.
    repeat rewrite (proj2 (Z.eqb_neq _ _)) by (destruct Hk; blia). done.
Qed.

(** C11: The exact conditions under which a goroutine of the handler panics (and with it the node):
    the first message is not a status; a later message has a code the switch does not handle, which
    includes a second status and the requests for receipts and node data; the destination the user
    gave panics; or a response is handed to a call that gave up and has closed its channel. *)
Theorem step_panics h l : reachable h -> step h l = Some Panic <->
  match l with
  | LRead code buf werr =>
      (h_reader h = RHandshake /\ forall s, UnmarshalRLP buf zero_Status ≠ Ok s) \/
      (h_reader h = RRead /\ handled code = false) \/
      (h_reader h = RRead /\ is_response code = true /\ user_panics h buf)
  | LDeliver => exists i err c res, h_reader h = RDeliver i err /\ h_calls h !! i = Some c /\
                  (c_st c = CClosed res \/ c_st c = CDone res)
  | _ => False
  end.
Proof.
  intros I%handler_reachable_inv. destruct l; cbn [step].
  1: { destruct (h_reader h) eqn:Hr.
    - unfold handshake. pose proof (UnmarshalRLP_safe buf zero_Status ltac:(apply Status_safe)) as Hs.
      destruct (UnmarshalRLP buf zero_Status) as [s| | |]; try done.
      + split; [destruct (Status_Equal _ s); done|]. intros [[_ Hn]|[[? ?]|[? ?]]]; [by destruct (Hn s)|done..].
      + split; [|done]. intros _. left. done.
    - unfold run_msg. apply (inv_log _ (code, buf)) in I. pose proof (handleMsg_panic _ code buf werr I) as Hp.
      change (user_panics (log h (code, buf)) buf) with (user_panics h buf) in Hp.
      destruct (handleMsg _ _ _ _); naive_solver.
    - naive_solver.
    - naive_solver. }
  2: { destruct (h_reader h) as [| |i err|] eqn:Hr; try (split; naive_solver).
    destruct (inv_reader h I _ _ Hr) as (c & Hc & _). unfold deliver_send. rewrite (proj2 (idx_Ok _ _ _) Hc).
    cbn [mbind outcome_bind]. unfold ch_closed. split.
    - destruct (c_st c) eqn:Ec; try done; intros _; exists i, err, c, res; auto.
    - intros (? & ? & c' & res & [= <- <-] & Hc' & Hs). simplify_eq. by destruct Hs as [->| ->]. }
  all: split; [|done]; try (destruct (h_reader h); done); try (case_if; done); try (destruct (h_status h); done).
  all: intros (c & Hc & E)%call_bind; destruct (c_st c) eqn:Hst; try done.
  unfold doRequest_close, ch_closed in E. by rewrite Hst in E.
Qed.

(** ** Requests end *)

Definition rank (s : call_state) : nat :=
  match s with
  | CWrite => 6 | CStore => 5 | CStored => 4 | CWait => 3 | CLeave _ => 2 | CClosed _ => 1 | CDone _ => 0
  end.

(** The steps of call [i] itself. *)
Definition own (i : nat) l : Prop :=
  match l with LWrite j _ | LStore j | LSelect j | LTimeout j | LClose j | LDelete j => j = i | _ => False end.

(** What a step may do to a call: its id stays and its rank does not grow. *)
Definition calls_le (cs cs' : list (call D)) : Prop :=
  forall i c, cs !! i = Some c -> exists c', cs' !! i = Some c' /\ c_id c' = c_id c /\ (rank (c_st c') <= rank (c_st c))%nat.

Lemma calls_le_refl cs : calls_le cs cs.
Proof. intros i c Hc. eauto. Qed.

Lemma calls_le_insert cs j c c' : cs !! j = Some c -> c_id c' = c_id c -> (rank (c_st c') <= rank (c_st c))%nat ->
  calls_le cs (<[j := c']> cs).
Proof.
  intros Hj Hid Hr i c0 Hi. destruct (decide (j = i)) as [->|]; [|rewrite list_lookup_insert_ne by done; eauto].
  simplify_eq. rewrite list_lookup_insert_eq by (by eapply lookup_lt_Some). eauto.
Qed.

Lemma run_msg_calls_le h code buf werr h' : inv h -> run_msg h code buf werr = Ok h' -> calls_le (h_calls h) (h_calls h').
Proof.
  intros I. unfold run_msg. destruct (handleMsg h code buf werr) as [h1| | |] eqn:E; intros [= <-]; [|apply calls_le_refl].
  apply handleMsg_cases in E as [Hf|[_ Hh]]; [rewrite (fr_calls _ _ Hf); apply calls_le_refl|].
  apply handle_response_Ok in Hh as (resp & i & c & raw & _ & _ & Hc & _ & [(d & _ & ->)|(e & _ & ->)]); [|apply calls_le_refl].
  by apply (calls_le_insert _ _ c).
Qed.

(** A step of a call lowers its rank. *)
Ltac own_step :=
  intros (c & Hc & E)%call_bind; destruct (c_st c) eqn:Hs; try done;
  try (unfold doRequest_close in E; case_if; [done|]); injection E as <-;
  apply (calls_le_insert _ _ c); try done; rewrite Hs; cbn; lia.

Lemma step_calls_le h l h' : inv h -> step h l = Some (Ok h') -> calls_le (h_calls h) (h_calls h').
Proof.
  intros I. destruct l; cbn [step].
  - destruct (h_reader h); intros [= E]; [|by apply run_msg_calls_le in E; [|apply inv_log]].
    unfold handshake in E. destruct (UnmarshalRLP _ _) as [s| | |]; try done.
    destruct (Status_Equal _ s); injection E as <-; apply calls_le_refl.
  - destruct (h_reader h); intros [= <-]; apply calls_le_refl.
  - destruct (h_reader h) as [| |i err|]; intros [= E]. unfold deliver_send in E. invO E. apply idx_Ok in E0. case_if; [done|].
    destruct (c_st a) eqn:Ha; injection E as <-; try apply calls_le_refl.
    apply (calls_le_insert _ _ a); [done|done|cbn; rewrite Ha; cbn; lia].
  - case_if; intros [= <-]. destruct werr; apply calls_le_refl.
  - destruct (h_status h); intros [= <-]. intros i c Hc. exists c. split; [by apply lookup_app_l_Some|done].
  - intros (c & Hc & E)%call_bind. destruct (c_st c) eqn:Hs; try done. injection E as <-.
    unfold request_write, Write. destruct werr; apply (calls_le_insert _ _ c); try done; rewrite Hs; cbn; lia.
  - own_step.
  - own_step.
  - own_step.
  - own_step.
  - own_step.
Qed.

(** C33: Every request ends: in any reachable state a call that has not returned has a step of its own
    that brings it closer to its end, whatever the reader and the connection are doing, and no step
    of another goroutine moves it back. *)
Theorem request_progress h i c : reachable h -> h_calls h !! i = Some c ->
  ((rank (c_st c) = 0%nat -> exists res, c_st c = CDone res) /\
   ((0 < rank (c_st c))%nat -> exists l h' c', own i l /\ step h l = Some (Ok h') /\
     h_calls h' !! i = Some c' /\ (rank (c_st c') < rank (c_st c))%nat)) /\
  (forall l h', step h l = Some (Ok h') -> exists c', h_calls h' !! i = Some c' /\ (rank (c_st c') <= rank (c_st c))%nat).
Proof.
  intros I%handler_reachable_inv Hc. pose proof (lookup_lt_Some _ _ _ Hc) as Hlt. split; [split|].
  - destruct (c_st c); cbn; try lia. eauto.
  - assert (forall l h1 s, own i l -> step h l = Some (Ok h1) -> h_calls h1 = <[i := set_st c s]> (h_calls h) ->
      (rank s < rank (c_st c))%nat -> exists l h' c', own i l /\ step h l = Some (Ok h') /\
      h_calls h' !! i = Some c' /\ (rank (c_st c') < rank (c_st c))%nat) as Hk.
    { intros l h1 s Ho Hs He Hr. exists l, h1, (set_st c s). split_and!; try done. rewrite He. by apply list_lookup_insert_eq. }
    destruct (c_st c) eqn:Hs; cbn [rank]; intros Hr; try lia.
    + apply (Hk (LWrite i None) (request_write h i c None) CStore); try done; try (cbn; lia). cbn. rewrite Hc. cbn. by rewrite Hs.
    + apply (Hk (LStore i) (doRequest_store h i c) CStored); try done; try (cbn; lia). cbn. rewrite Hc. cbn. by rewrite Hs.
    + apply (Hk (LSelect i) (set_call h i (set_st c CWait)) CWait); try done; try (cbn; lia). cbn. rewrite Hc. cbn. by rewrite Hs.
    + apply (Hk (LTimeout i) (set_call h i (set_st c (CLeave (Some "timeout"%string)))) (CLeave (Some "timeout"%string)));
        try done; try (cbn; lia). cbn. rewrite Hc. cbn. by rewrite Hs.
    + apply (Hk (LClose i) (set_call h i (set_st c (CClosed res))) (CClosed res)); try done; try (cbn; lia).
      cbn. rewrite Hc. cbn. rewrite Hs. unfold doRequest_close, ch_closed. by rewrite Hs.
    + apply (Hk (LDelete i) (doRequest_delete h i c res) (CDone res)); try done; try (cbn; lia). cbn. rewrite Hc. cbn. by rewrite Hs.
  - intros l h' Hstep. destruct (step_calls_le _ _ _ I Hstep i c Hc) as (c' & ? & _ & ?). eauto.
Qed.

(** ** Races between a request and its response *)

(** A response whose call timed out after the lookup is sent on a closed channel: the node panics. *)
Theorem late_response_panics h i err c : h_reader h = RDeliver i err -> h_calls h !! i = Some c -> c_st c = CWait ->
  steps h [LTimeout i; LClose i; LDeliver] = Some Panic.
Proof.
  intros Hr Hc Hs. pose proof (lookup_lt_Some _ _ _ Hc) as Hlt.
  cbn [steps step]. rewrite Hc. cbn [mbind option_bind]. rewrite Hs. cbn [h_calls set_call set_calls].
  rewrite list_lookup_insert_eq by done. cbn [mbind option_bind c_st set_st]. unfold doRequest_close, ch_closed. cbn [c_st set_st].
  cbn [h_reader set_call set_calls]. rewrite Hr. unfold deliver_send. cbn [h_calls set_call set_calls].
  rewrite (proj2 (idx_Ok _ i (set_st (set_st c (CLeave (Some "timeout"%string))) (CClosed (Some "timeout"%string))))); [done|].
  rewrite list_insert_insert_eq. by apply list_lookup_insert_eq.
Qed.

(** A response that comes before its call has entered the table is dropped, and one that comes before
    the call waits is decoded but not reported: in both cases the call can only time out. *)
Theorem early_response_lost h code buf resp werr : h_reader h = RRead -> is_response code = true ->
  UnmarshalRLP buf (mkResponse (A:=D) 0 None None) = Ok resp -> h_inflight h !! resp_RequestId resp = None ->
  step h (LRead code buf werr) = Some (Ok (log h (code, buf))).
Proof.
  intros Hr Hc Hu Hi. cbn [step]. rewrite Hr. unfold run_msg.
  assert (handleMsg (log h (code, buf)) code buf werr = handle_response (log h (code, buf)) buf) as ->.
  { unfold is_response, handleMsg in *. apply orb_true_iff in Hc as [[Hc|Hc]%orb_true_iff|Hc]; apply Z.eqb_eq in Hc; by rewrite Hc. }
  unfold handle_response. rewrite Hu. cbn [mbind outcome_bind]. unfold deliverResponse. cbn [h_inflight log]. by rewrite Hi.
Qed.

Theorem unready_call_not_told h i c : h_reader h = RDeliver i None -> h_calls h !! i = Some c -> c_st c = CStored ->
  step h LDeliver = Some (Ok (set_reader h RRead)).
Proof.
  intros Hr Hc Hs. cbn [step]. rewrite Hr. unfold deliver_send. rewrite (proj2 (idx_Ok _ _ _) Hc). cbn [mbind outcome_bind].
  unfold ch_closed. by rewrite Hs.
Qed.

End Theorems.

(** ** Two nodes *)

Section TwoNodes.
Context `{FastRLP} {D : Type} `{!Unmarshaler D}.
Local Existing Instance Value_MarshalRLPWith.

(** Two handlers joined by a connection that neither fails nor loses messages: [la_read] messages
    of the output of the other side have been read. *)
Record link := mkLink { la : handler D; lb : handler D; la_read : nat; lb_read : nat }.

(** A step of the first handler, reading what the second wrote. *)
Definition side_ok (l : label D) (peer : handler D) (read : nat) : Prop :=
  match l with
  | LRead code buf _ => h_out peer !! read = Some (code, buf)
  | LReadErr _ => False
  | _ => True
  end.
Definition reads (l : label D) (n : nat) : nat := match l with LRead _ _ _ => S n | _ => n end.

Inductive link_step (Ba Bb : Eth66Backend) (k : link) : link -> Prop :=
| link_a l h : side_ok l (lb k) (la_read k) -> @step _ Ba _ _ (la k) l = Some (Ok h) ->
    link_step Ba Bb k (mkLink h (lb k) (reads l (la_read k)) (lb_read k))
| link_b l h : side_ok l (la k) (lb_read k) -> @step _ Bb _ _ (lb k) l = Some (Ok h) ->
    link_step Ba Bb k (mkLink (la k) h (la_read k) (reads l (lb_read k))).

Definition link0 : link := mkLink Eth66_HandlerFn Eth66_HandlerFn 0 0.

Lemma start_stuck (B : Eth66Backend) l h : side_ok l (Eth66_HandlerFn (D:=D)) 0 -> step Eth66_HandlerFn l = Some (Ok h) -> False.
Proof. by destruct l. Qed.

(** Two nodes of this code cannot complete the eth handshake: each reads the status of the other
    before it writes its own, so from the start, with a connection that works, neither can move. *)
Theorem handshake_deadlock Ba Bb k : ~ link_step Ba Bb link0 k.
Proof. inversion 1; subst; cbn in *; [by eapply (start_stuck Ba)|by eapply (start_stuck Bb)]. Qed.

(** A peer that writes first is accepted when the statuses agree, is announced to the backend, and
    gets the local status back. *)
Theorem handshake_ok (B : Eth66Backend) h code s werr : h_reader (D:=D) h = RHandshake ->
  Status_ok s -> len_ok (MarshalRLP s) -> Status_Equal Impl_Status s = None ->
  exists h1, steps h [LRead code (MarshalRLP s) werr; LStatus None] = Some (Ok h1) /\
    h_reader h1 = RRead /\ h_status h1 = Some s /\ h_events h1 = h_events h ++ [NotifyPeer s] /\
    h_out h1 = h_out h ++ [(StatusMsg, MarshalRLP Impl_Status)].
Proof.
  intros Hr Hs Hl He. cbn [steps step]. rewrite Hr. unfold handshake.
  pose proof (MarshalRLP_roundtrip s Hs Hl) as Hd. cbn [empty_msg Status_Codec] in Hd. rewrite Hd, He. cbn. eauto 10.
Qed.

(** ** A request and its answer *)

Lemma handle_request_Ok (B : Eth66Backend) {A} `{!Marshaler A, !Unmarshaler A, !Codec A} (h : handler D) id (body : A) answer code :
  u64_ok id -> wf_msg body -> len_ok (MarshalRLP (mkRequest id body)) ->
  handle_request h (MarshalRLP (mkRequest id body)) empty_msg answer code None =
  Ok (set_out h (h_out h ++ [(code, MarshalRLP (mkRequest id (answer body)))])).
Proof.
  intros Hid Hb Hl. unfold handle_request, UnmarshalRLP, MarshalRLP at 1.
  rewrite Parse_MarshalTo' by (done || by apply Request_valid). cbn [of_option mbind outcome_bind].
  change (MarshalRLPWith (mkRequest id body)) with (NewArray [NewUint id; MarshalRLPWith body]).
  rewrite UnmarshalRLPWith_Response by done. cbn [resp_Body]. rewrite codec_roundtrip by done. done.
Qed.

Lemma handle_response_found (B : Eth66Backend) (h : handler D) id v i c d :
  u64_ok id -> valid v -> len_ok (MarshalRLP (mkRequest id v)) ->
  h_inflight h !! id = Some i -> h_calls h !! i = Some c -> UnmarshalRLPWith (c_dst c) v = Ok d ->
  handle_response h (MarshalRLP (mkRequest id v)) = Ok (set_reader (set_call h i (set_dst c d)) (RDeliver i None)).
Proof.
  intros Hid Hv Hl Hi Hc Hd. unfold handle_response, UnmarshalRLP, MarshalRLP at 1.
  rewrite Parse_MarshalTo'; [|apply valid_array; repeat constructor; auto with devp2p|done]. cbn [of_option mbind outcome_bind].
  change (MarshalRLPWith (mkRequest id v)) with (NewArray [NewUint id; v]).
  rewrite UnmarshalRLPWith_Response by done. cbn [resp_Body mbind outcome_bind].
  unfold deliverResponse. cbn [resp_RequestId resp_BodyRaw]. rewrite Hi, (proj2 (idx_Ok _ _ _) Hc).
  cbn [mbind outcome_bind]. by rewrite Hd.
Qed.

(** The first half: the call writes its request and waits. *)
Lemma request_sent (B : Eth66Backend) (a : handler D) s id code body dst : h_status a = Some s ->
  steps a [LRequest id code body dst; LWrite (length (h_calls a)) None; LStore (length (h_calls a)); LSelect (length (h_calls a))] =
  Some (Ok (mkHandler (h_out a ++ [(code, MarshalRLP (mkRequest id body))]) (<[id := length (h_calls a)]> (h_inflight a))
    (h_calls a ++ [mkCall id code body dst CWait]) (h_events a) (h_status a) (h_statusWriter a) (h_reader a) (h_closeCh a)
    (h_conn_closed a) (h_log a))).
Proof.
  intros Hs.
  assert (forall x y : call D, <[length (h_calls a) := y]> (h_calls a ++ [x]) = h_calls a ++ [y]) as Hins.
  { intros x y. rewrite insert_app_r_alt, Nat.sub_diag by done. done. }
  assert (forall x : call D, (h_calls a ++ [x]) !! length (h_calls a) = Some x) as Hlk by (intros; by apply list_lookup_middle).
  cbn [steps step]. rewrite Hs. cbn [h_calls set_calls]. rewrite Hlk. cbn [mbind option_bind c_st].
  unfold request_write, Write. cbn [set_call set_calls set_out h_calls c_code c_id c_body].
  unfold set_call. cbn [set_calls set_out h_calls]. rewrite Hins, Hlk. cbn [mbind option_bind c_st set_st].
  unfold doRequest_store. cbn [set_calls h_calls c_id set_st set_out]. rewrite Hins, Hlk. cbn [mbind option_bind c_st set_st].
  cbn [set_calls h_calls]. rewrite Hins. unfold set_calls, set_out. cbn. by rewrite Hs.
Qed.

(** The second half: a response that is decoded ends the call that waits for it. *)
Lemma response_received (B : Eth66Backend) (a : handler D) i c d code v :
  h_reader a = RRead -> h_inflight a !! c_id c = Some i -> h_calls a !! i = Some c -> c_st c = CWait ->
  u64_ok (c_id c) -> valid v -> len_ok (MarshalRLP (mkRequest (c_id c) v)) -> is_response code = true ->
  UnmarshalRLPWith (c_dst c) v = Ok d ->
  exists a', steps a [LRead code (MarshalRLP (mkRequest (c_id c) v)) None; LDeliver; LClose i; LDelete i] = Some (Ok a') /\
    h_calls a' !! i = Some (mkCall (c_id c) (c_code c) (c_body c) d (CDone None)) /\
    h_inflight a' !! c_id c = None /\ h_reader a' = RRead /\ h_out a' = h_out a.
Proof.
  intros Hr Hi Hc Hw Hid Hv Hl Hcode Hd. pose proof (lookup_lt_Some _ _ _ Hc) as Hlt.
  set (buf := MarshalRLP (mkRequest (c_id c) v)) in *. cbn [steps step]. rewrite Hr. unfold run_msg.
  assert (handleMsg (log a (code, buf)) code buf None = handle_response (log a (code, buf)) buf) as ->.
  { unfold is_response, handleMsg in *. apply orb_true_iff in Hcode as [[E|E]%orb_true_iff|E]; apply Z.eqb_eq in E; by rewrite E. }
  pose proof (handle_response_found B (log a (code, buf)) (c_id c) v i c d Hid Hv Hl Hi Hc Hd) as Hf.
  fold buf in Hf. rewrite Hf. cbn [h_reader set_reader].
  unfold deliver_send. cbn [h_calls set_reader set_call set_calls log].
  rewrite (proj2 (idx_Ok _ i (set_dst c d))) by (by apply list_lookup_insert_eq). cbn [mbind outcome_bind].
  unfold ch_closed. cbn [c_st set_dst]. rewrite Hw. cbn [h_calls set_reader set_call set_calls].
  rewrite list_insert_insert_eq, list_lookup_insert_eq by done. cbn [mbind option_bind c_st set_st].
  unfold doRequest_close, ch_closed. cbn [c_st set_st set_call set_calls h_calls set_reader].
  rewrite !list_insert_insert_eq, list_lookup_insert_eq by done. cbn [mbind option_bind c_st set_st].
  unfold doRequest_delete. cbn [c_st set_st set_calls h_calls set_reader h_inflight log c_id set_dst].
  eexists. split; [done|]. cbn.
  rewrite ?list_insert_insert_eq, list_lookup_insert_eq by done. by rewrite lookup_delete_eq.
Qed.

(** A request meets its answer in the schedule without interference: a handler [a] whose peer's status has been read
    asks a peer that answers as [b] does for pooled transactions; the bytes [a] writes make [b] write, under the
    same id, what its backend has for exactly those hashes; and those bytes, read by [a] after the request was stored,
    end the call with success and the decoded answer in its destination, leaving no entry behind.  Two handlers of this
    code do not get past their handshake on their own: [handshake_deadlock]. *)
Theorem GetTransactions_end_to_end (Ba Bb : Eth66Backend) (a b : handler D) s id hs dst d :
  h_status a = Some s -> h_reader a = RRead -> h_reader b = RRead -> u64_ok id -> Forall hash_ok hs ->
  let i := length (h_calls a) in
  let request := MarshalRLP (mkRequest id (mkHashList hs)) in
  let answer := @Impl_GetTransactions _ Bb hs in
  let response := MarshalRLP (mkRequest id answer) in
  len_ok request -> valid answer -> len_ok response -> UnmarshalRLPWith dst answer = Ok d ->
  exists a1 b1 a2,
    @steps _ Ba _ _ a [GetTransactions dst hs id; LWrite i None; LStore i; LSelect i] = Some (Ok a1) /\
    h_out a1 = h_out a ++ [(GetPooledTransactionsMsg, request)] /\
    @step _ Bb _ _ b (LRead GetPooledTransactionsMsg request None) = Some (Ok b1) /\
    h_out b1 = h_out b ++ [(PooledTransactionsMsg, response)] /\
    @steps _ Ba _ _ a1 [LRead PooledTransactionsMsg response None; LDeliver; LClose i; LDelete i] = Some (Ok a2) /\
    h_calls a2 !! i = Some (mkCall id GetPooledTransactionsMsg (MarshalRLPWith (mkHashList hs)) d (CDone None)) /\
    h_inflight a2 !! id = None /\ h_reader a2 = RRead.
Proof.
  intros Hs Ha Hb Hid Hhs i request answer response Hl1 Hv Hl2 Hd.
  pose proof (request_sent Ba a s id GetPooledTransactionsMsg (MarshalRLPWith (mkHashList hs)) dst Hs) as H1.
  set (a1 := mkHandler _ _ _ _ _ _ _ _ _ _) in H1.
  destruct (response_received Ba a1 i (mkCall id GetPooledTransactionsMsg (MarshalRLPWith (mkHashList hs)) dst CWait) d PooledTransactionsMsg answer)
    as (a2 & H2 & Hc2 & Hi2 & Hr2 & _); try done.
  { subst a1. cbn [h_inflight]. by rewrite lookup_insert_eq. }
  { subst a1. cbn [h_calls]. by rewrite lookup_app_r, Nat.sub_diag by done. }
  exists a1, (set_out (log b (GetPooledTransactionsMsg, request)) (h_out b ++ [(PooledTransactionsMsg, response)])), a2.
  split_and!; try done. cbn [step]. rewrite Hb. unfold run_msg.
  change (handleMsg (log b (GetPooledTransactionsMsg, request)) GetPooledTransactionsMsg request None) with
    (handle_request (log b (GetPooledTransactionsMsg, request)) request empty_msg (fun x => @Impl_GetTransactions _ Bb (hashes x)) PooledTransactionsMsg None).
  pose proof (handle_request_Ok Bb (log b (GetPooledTransactionsMsg, request)) id (mkHashList hs)
    (fun x => @Impl_GetTransactions _ Bb (hashes x)) PooledTransactionsMsg Hid Hhs Hl1) as Hq.
  fold request in Hq. by rewrite Hq.
Qed.

End TwoNodes.

(** ** A run *)

Module Demo.

#[local] Existing Instance Value_MarshalRLPWith.

(** A backend that answers a request for transactions with the hashes it was asked for. *)
Definition backend : Eth66Backend := {|
  Impl_Status := sample_status;
  Impl_GetBlockHeader _ := NewArray [];
  Impl_GetBlockBodies _ := NewArray [];
  Impl_GetTransactions hs := MarshalRLPWith (mkHashList hs);
|}.
#[local] Existing Instance backend.

Abbreviation H := (handler HashList).

Definition after (h : H) (ls : list (label HashList)) : H :=
  match steps h ls with Some (Ok h') => h' | _ => h end.

Lemma after_reachable ls : forall h : H, reachable h -> reachable (after h ls).
Proof.
  intros h Hr. unfold after. destruct (steps h ls) as [[h'| | |]|] eqn:E; try done.
  revert h Hr E. induction ls as [|l ls IH]; intros h Hr E; [by injection E as <-|]. cbn [steps] in E.
  destruct (step h l) as [[h1| | |]|] eqn:E1; try done. eapply IH; [|done]. by eapply reach_step.
Qed.

(** The handshake is done. *)
Definition ready : H := after Eth66_HandlerFn [LRead 0 (MarshalRLP sample_status) None; LStatus None].
Definition ask : list (label HashList) :=
  [GetTransactions (mkHashList []) [sample_hash 3] 77; LWrite 0 None; LStore 0; LSelect 0].
Definition waiting : H := after ready ask.
Definition answer : list (label HashList) :=
  [LRead PooledTransactionsMsg (MarshalRLP (mkRequest 77 (mkHashList [sample_hash 3]))) None; LDeliver; LClose 0; LDelete 0].
Definition finished : H := after waiting answer.

Lemma ready_reachable : reachable ready.
Proof. apply after_reachable, reach_init. Qed.
Lemma waiting_reachable : reachable waiting.
Proof. apply after_reachable, ready_reachable. Qed.
Lemma finished_reachable : reachable finished.
Proof. apply after_reachable, waiting_reachable. Qed.

Definition done_call : call HashList :=
  mkCall 77 9 (MarshalRLPWith (mkHashList [sample_hash 3])) (mkHashList [sample_hash 3]) (CDone None).
Lemma finished_call : h_calls finished !! 0%nat = Some done_call.
Proof. reflexivity. Qed.

Lemma request_success_answered_witness : answered (D:=HashList) (h_log finished) 77.
Proof. exact (request_success_answered finished 0 done_call finished_reachable finished_call eq_refl). Defined.

Lemma step_panics_witness : step ready (LRead 13 [] None) = Some Panic.
Proof. apply (proj2 (step_panics ready (LRead 13 [] None) ready_reachable)). right. left. split; reflexivity. Defined.

Lemma request_progress_witness :
  exists l h' c', own 0 l /\ step waiting l = Some (Ok h') /\ h_calls h' !! 0%nat = Some c' /\ (rank (c_st c') < 3)%nat.
Proof.
  refine (proj2 (proj1 (request_progress waiting 0
    (mkCall 77 9 (MarshalRLPWith (mkHashList [sample_hash 3])) (mkHashList []) CWait) waiting_reachable _)) _).
  - reflexivity.
  - cbn. lia.
Defined.

Lemma GetTransactions_end_to_end_witness :
  exists a1 b1 a2 : H, steps ready ask = Some (Ok a1) /\
    step ready (LRead 9 (MarshalRLP (mkRequest 77 (mkHashList [sample_hash 3]))) None) = Some (Ok b1) /\
    steps a1 answer = Some (Ok a2) /\ h_calls a2 !! 0%nat = Some done_call.
Proof.
  destruct (GetTransactions_end_to_end backend backend ready ready sample_status 77 [sample_hash 3] (mkHashList []) (mkHashList [sample_hash 3]))
    as (a1 & b1 & a2 & E1 & _ & E2 & _ & E3 & E4 & _); try reflexivity.
  - unfold u64_ok. lia.
  - repeat constructor; try reflexivity; unfold byte_ok; lia.
  - repeat constructor; unfold byte_ok; lia.
  - exists a1, b1, a2. split_and!; [exact E1|exact E2|exact E3|exact E4].
Defined.

(** A response that arrives while its call gives up: the whole race, from the start. *)
Example late_response_run :
  steps waiting [LRead PooledTransactionsMsg (MarshalRLP (mkRequest 77 (mkHashList []))) None; LTimeout 0; LClose 0; LDeliver] = Some Panic.
Proof. reflexivity. Qed.

End Demo.
