(* ===== verification/EthRlpx.v ===== *)
(** * The eth protocol over a connection

    A handler of [wire/eth/backend.go] on a stream of a session of [rlpx/session.go], with the bytes in
    flight between it and its peer.  [Eth] says what the handler does with the messages it reads and
    writes, [Link] what becomes of messages on the way; here the two run together: every message the
    handler reads was taken from its stream, and every message it writes goes through the session.
    The peer is anything that sends messages over the other session.  The other streams of the
    session, its pings and its receive loop run in between. *)

From stdpp Require Import base gmap strings numbers list.
From S2P Require Import Prelude GoStd Rlp ForkID Crypto RlpxMsg Enode Handshake RlpxFrame RlpxStream RlpxSession Rlpx EthMsg Eth EthTheorems Link.
Local Open Scope Z_scope.

Section EthRlpx.
Context `{FastRLP} `{!Eth66Backend} {D : Type} `{!Unmarshaler D}.
Context `{Keccak} `{Block} `{Snappy}.
Local Existing Instance Value_MarshalRLPWith.
Context (i : nat).                         (* the number of the stream *)
Implicit Types (h : handler D) (l : Eth.label D) (k : link) (tr : list act).

(** ** The handler on its stream *)

(** What a step of the handler takes from the stream. *)
Definition taken l : list act := match l with LRead code buf _ => [ARecv true i (code, buf)] | _ => [] end.
(** Messages it puts there, in order. *)
Definition put (ms : list smsg) : list act := ASend true i <$> ms.

(** Steps on the stream are the handler's only. *)
Definition others (x : act) : Prop := forall m, x ≠ ASend true i m /\ x ≠ ARecv true i m.

(** The handler and the connection.  A read of the handler may fail at any time: that is what it sees of a session that
    ends, be it by a disconnect, a frame that is refused or an error of the network; the connection then takes no more
    steps.  Until then the other end is a session of this code whose clients send what fits. *)
Inductive stack_step : handler D * link -> list act -> handler D * link -> Prop :=
| sk_handler h k l h' k' ms : step h l = Some (Ok h') -> h_out h' = h_out h ++ ms ->
    link_run k (taken l ++ put ms) k' -> stack_step (h, k) (taken l ++ put ms) (h', k')
| sk_link h k x k' : others x -> link_step k x k' -> stack_step (h, k) [x] (h, k').

Inductive stack_run : handler D * link -> list act -> handler D * link -> Prop :=
| sr_nil s : stack_run s [] s
| sr_cons s xs s' tr s'' : stack_step s xs s' -> stack_run s' tr s'' -> stack_run s (xs ++ tr) s''.

(** ** What a run is to the parts *)

Lemma stack_run_link s tr s' : stack_run s tr s' -> link_run s.2 tr s'.2.
Proof.
  induction 1 as [s|s xs s' tr s'' Hx _ IH]; [constructor|]. eapply link_run_app; [|exact IH].
  destruct Hx; cbn; [done|]. econstructor; [done|constructor].
Qed.

Lemma stack_run_app s tr s' tr' s'' : stack_run s tr s' -> stack_run s' tr' s'' -> stack_run s (tr ++ tr') s''.
Proof. induction 1 as [|s xs s' tr s1 Hx _ IH]; intros Hr; [done|]. rewrite <-app_assoc. econstructor; [done|]. by apply IH. Qed.

(** The steps of the connection alone. *)
Lemma stack_run_others h k tr k' : Forall others tr -> link_run k tr k' -> stack_run (h, k) tr (h, k').
Proof.
  intros Ho Hr. induction Hr as [|k x k1 tr k2 Hx Hr IH]; [constructor|]. apply Forall_cons in Ho as [Hox Ho].
  change (x :: tr) with ([x] ++ tr). econstructor; [by apply sk_link|by apply IH].
Qed.

(** The log has what was read. *)
Lemma run_msg_log h code buf werr h' : run_msg h code buf werr = Ok h' -> h_log h' = h_log h.
Proof.
  unfold run_msg. destruct (handleMsg h code buf werr) as [h1| | |] eqn:E; intros [= <-]; [|done].
  apply handleMsg_cases in E as [Hf|[_ Hh]]; [apply Hf|].
  by apply handle_response_Ok in Hh as (resp & j & c & raw & _ & _ & _ & _ & [(d & _ & ->)|(e & _ & ->)]).
Qed.

Lemma step_log h l h' : step h l = Some (Ok h') -> h_log h' = h_log h ++ omap (received_on true i) (taken l).
Proof.
  destruct l; cbn [step taken]; rewrite ?app_nil_r.
  1: { destruct (h_reader h); intros [= E]; cbn; rewrite decide_True by done.
    - unfold handshake in E. destruct (UnmarshalRLP _ _) as [s| | |]; try done. by destruct (Status_Equal _ s); injection E as <-.
    - by apply run_msg_log in E. }
  1: by destruct (h_reader h); intros [= <-].
  1: { destruct (h_reader h) as [| |j err|]; intros [= E]. unfold deliver_send in E. invO E. case_if; [done|].
    by destruct (c_st a); injection E as <-. }
  1: by case_if; intros [= <-]; destruct werr.
  1: by destruct (h_status h); intros [= <-].
  all: intros (c & Hc & E)%call_bind; destruct (c_st c); try done; try (unfold doRequest_close in E; case_if; [done|]); injection E as <-; try done.
  unfold request_write. by destruct werr.
Qed.

Lemma others_quiet x : others x -> sent_on true i x = None /\ received_on true i x = None.
Proof.
  intros Hx. destruct x as [a j m|a j m|]; cbn; [| |done]; (split; [|try done]); try done; case_decide as E; try done; simplify_eq; by destruct (Hx m).
Qed.

Lemma put_sent ms : omap (sent_on true i) (put ms) = ms /\ omap (received_on true i) (put ms) = [].
Proof.
  unfold put. induction ms as [|m ms [IH1 IH2]]; [done|]. rewrite fmap_cons. cbn [omap list_omap sent_on received_on]. rewrite decide_True by done.
  split; [by f_equal|done].
Qed.

Lemma taken_sent l : omap (sent_on true i) (taken l) = [].
Proof. by destruct l. Qed.

Lemma stack_step_logs s xs s' : stack_step s xs s' -> h_log s'.1 = h_log s.1 ++ omap (received_on true i) xs /\ h_out s'.1 = h_out s.1 ++ omap (sent_on true i) xs.
Proof.
  destruct 1 as [h k l h' k' ms Hs Ho _|h k x k' Hx _]; cbn [fst].
  - rewrite !omap_app, taken_sent. destruct (put_sent ms) as [-> ->]. rewrite app_nil_r. split; [by apply step_log|done].
  - destruct (others_quiet x Hx) as [E1 E2]. cbn. rewrite E1, E2. by rewrite !app_nil_r.
Qed.

Lemma stack_run_logs s tr s' : stack_run s tr s' -> h_log s'.1 = h_log s.1 ++ omap (received_on true i) tr /\ h_out s'.1 = h_out s.1 ++ omap (sent_on true i) tr.
Proof.
  induction 1 as [s|s xs s' tr s'' Hx _ [IH1 IH2]]; [by rewrite !app_nil_r|]. destruct (stack_step_logs _ _ _ Hx) as [E1 E2].
  by rewrite !omap_app, IH1, IH2, E1, E2, <-!app_assoc.
Qed.

Lemma stack_run_reachable s tr s' : stack_run s tr s' -> reachable s.1 -> reachable s'.1.
Proof. induction 1 as [s|s xs s' tr s'' Hx _ IH]; [done|]. intros Hr. apply IH. destruct Hx; cbn in *; [by eapply reach_step|done]. Qed.

Lemma answered_sub log log' id : log ⊆ log' -> answered (D:=D) log id -> answered (D:=D) log' id.
Proof. intros Hs (code & buf & resp & raw & d & d' & Hin & Hr). exists code, buf, resp, raw, d, d'. split; [by apply Hs|done]. Qed.

(** ** Runs of the handler *)

(** What is written is never taken back. *)
Lemma handleMsg_out h code buf werr h' : handleMsg h code buf werr = Ok h' -> exists ms, h_out h' = h_out h ++ ms.
Proof.
  assert (forall A (U : Unmarshaler A) (body : A) answer c1, handle_request h buf body answer c1 werr = Ok h' -> exists ms, h_out h' = h_out h ++ ms) as Hreq.
  { intros A U body answer c1 E. unfold handle_request in E. invO E. unfold Write in E. destruct werr; [done|]. injection E as <-. by eexists. }
  assert (handle_response h buf = Ok h' -> exists ms, h_out h' = h_out h ++ ms) as Hresp.
  { intros (resp & j & c & raw & _ & _ & _ & _ & [(d & _ & ->)|(e & _ & ->)])%handle_response_Ok; exists []; by rewrite app_nil_r. }
  unfold handleMsg. intros E. repeat case_if; try done; try (by apply Hresp); try (exact (Hreq _ _ _ _ _ E)); invO E; simplify_eq; exists []; by rewrite app_nil_r.
Qed.

Lemma step_out h l h' : step h l = Some (Ok h') -> exists ms, h_out h' = h_out h ++ ms.
Proof.
  assert (forall h0, h_out h0 = h_out h -> exists ms, h_out h0 = h_out h ++ ms) as Hid by (intros h0 ->; exists []; by rewrite app_nil_r).
  destruct l; cbn [step].
  1: { destruct (h_reader h); intros [= E].
    - apply Hid. unfold handshake in E. destruct (UnmarshalRLP _ _) as [s| | |]; try done. by destruct (Status_Equal _ s); injection E as <-.
    - unfold run_msg in E. destruct (handleMsg _ _ _ _) as [h1| | |] eqn:Em; try done; injection E as <-; [|by apply Hid]. by apply handleMsg_out in Em. }
  1: destruct (h_reader h); intros [= <-]; by apply Hid.
  1: { destruct (h_reader h) as [| |j err|]; intros [= E]. unfold deliver_send in E. invO E. case_if; [done|].
    apply Hid. by destruct (c_st a); injection E as <-. }
  1: case_if; intros [= <-]; destruct werr; [by apply Hid|by eexists].
  1: destruct (h_status h); intros [= <-]; by apply Hid.
  all: intros (c & Hc & E)%call_bind; destruct (c_st c); try done; try (unfold doRequest_close in E; case_if; [done|]); injection E as <-; try (by apply Hid).
  unfold request_write, Write. destruct werr; [by apply Hid|by eexists].
Qed.

Lemma steps_out ls : forall h h', steps h ls = Some (Ok h') -> exists ms, h_out h' = h_out h ++ ms.
Proof.
  induction ls as [|l ls IH]; intros h h' E; [injection E as <-; exists []; by rewrite app_nil_r|]. cbn [steps] in E.
  destruct (step h l) as [[h1| | |]|] eqn:E1; try done. destruct (step_out _ _ _ E1) as [ms1 Ho1]. destruct (IH _ _ E) as [ms2 Ho2].
  exists (ms1 ++ ms2). by rewrite Ho2, Ho1, app_assoc.
Qed.

(** Writes of the handler go through while the sessions are linked. *)
Lemma linked_put ms : forall k c st, linked k c -> ss_streams (l_a k) !! i = Some st -> Forall (sendable st) ms ->
  exists k' q, link_run k (put ms) k' /\ c.1 !! i = Some q /\ linked k' (<[i := q ++ ms]> c.1, c.2) /\ ss_streams (l_a k') = ss_streams (l_a k).
Proof.
  induction ms as [|m ms IH]; intros k c st HL Hst Hms.
  - destruct (Forall2_lookup_l _ _ _ i st (lk_ranges _ _ HL) Hst) as (stb & Hstb & _). destruct (direction_stream _ _ _ _ _ i stb (lk_to _ _ HL) Hstb) as [q Hq].
    exists k, q. split_and!; [constructor|done| |done]. rewrite app_nil_r, list_insert_id by done. by destruct c.
  - apply Forall_cons in Hms as [Hm Hms]. destruct (linked_send k c i st m HL Hst Hm) as (s' & q & HW & Hq & HL').
    pose proof (WriteRawMsg_streams _ _ _ _ _ HW) as Hstr. destruct (IH _ _ st HL') as (k' & q' & Hr & Hq' & HL'' & Hs'); [cbn; by rewrite Hstr|done|].
    cbn in Hq'. rewrite list_lookup_insert_eq in Hq' by (by eapply lookup_lt_Some). injection Hq' as <-. exists k', q. split_and!; [|done| |].
    + econstructor; [by eapply ls_write|exact Hr].
    + cbn in HL''. by rewrite list_insert_insert_eq, <-app_assoc in HL''.
    + rewrite Hs'. exact Hstr.
Qed.

(** Steps of the handler that read nothing. *)
Definition internal l : Prop := taken l = [].

Lemma stack_run_steps ls : forall h k c st ms h', Forall internal ls -> steps h ls = Some (Ok h') -> h_out h' = h_out h ++ ms ->
  linked k c -> ss_streams (l_a k) !! i = Some st -> Forall (sendable st) ms ->
  exists k' q, stack_run (h, k) (put ms) (h', k') /\ c.1 !! i = Some q /\ linked k' (<[i := q ++ ms]> c.1, c.2) /\ ss_streams (l_a k') = ss_streams (l_a k).
Proof.
  induction ls as [|l ls IH]; intros h k c st ms h' Hin Hs Ho HL Hst Hms.
  - injection Hs as <-. replace ms with (@nil smsg) in * by (apply (app_inv_head (h_out h)); by rewrite app_nil_r).
    destruct (linked_put [] k c st HL Hst Hms) as (k' & q & Hr & Hq & HL' & Hs'). exists k', q. split_and!; try done. inversion Hr; subst. constructor.
  - apply Forall_cons in Hin as [Ht Hin]. cbn [steps] in Hs. destruct (step h l) as [[h1| | |]|] eqn:E1; try done.
    destruct (step_out _ _ _ E1) as [ms1 Ho1]. destruct (steps_out ls h1 h' Hs) as [ms2 Ho2].
    assert (ms = ms1 ++ ms2) as -> by (apply (app_inv_head (h_out h)); rewrite <-Ho, Ho2, Ho1; by rewrite app_assoc).
    apply Forall_app in Hms as [Hms1 Hms2]. destruct (linked_put ms1 k c st HL Hst Hms1) as (k1 & q & Hr & Hq & HL1 & Hs1).
    destruct (IH h1 k1 _ st ms2 h' Hin Hs Ho2 HL1) as (k2 & q2 & Hr2 & Hq2 & HL2 & Hs2); [by rewrite Hs1|done|].
    cbn in Hq2. rewrite list_lookup_insert_eq in Hq2 by (by eapply lookup_lt_Some). injection Hq2 as <-. exists k2, q. split_and!; [|done| |by rewrite Hs2].
    + unfold put. rewrite fmap_app. econstructor; [|exact Hr2]. change (ASend true i <$> ms1) with ([] ++ put ms1). rewrite <-Ht. apply sk_handler; try done. by rewrite Ht.
    + cbn in HL2. by rewrite list_insert_insert_eq, <-app_assoc in HL2.
Qed.

(** ** A request and its answer *)

Lemma link_run_split k tr tr' k' : link_run k (tr ++ tr') k' -> exists k1, link_run k tr k1 /\ link_run k1 tr' k'.
Proof.
  revert k. induction tr as [|x tr IH]; intros k Hr; [exists k; split; [constructor|done]|]. inversion Hr as [|? ? k1 ? ? Hx Hr' ]; subst.
  destruct (IH _ Hr') as (k2 & Hr1 & Hr2). exists k2. split; [by econstructor|done].
Qed.

(** The peer takes everything that is on its way to it. *)
Lemma peer_drains h k c q : linked k c -> c.1 !! i = Some q ->
  exists tr k', stack_run (h, k) tr (h, k') /\ omap (received_on false i) tr = q /\ omap (received_on true i) tr = [] /\ omap (sent_on false i) tr = [] /\ link_run k tr k'.
Proof.
  intros HL Hq. destruct (linked_drain i q (flip_link k) (flip_channels c) (linked_flip _ _ HL) Hq) as (tr & k' & Hr & HF & E).
  apply link_run_flip in Hr. rewrite flip_link_id in Hr. exists (flip_act <$> tr), (flip_link k').
  assert (Forall (fun x => x = ATau \/ exists m, x = ARecv false i m) (flip_act <$> tr)) as HF'.
  { apply Forall_fmap. eapply Forall_impl; [exact HF|]. intros z [->|[m ->]]; [by left|right; by exists m]. }
  split_and!; [| | | |exact Hr].
  - apply stack_run_others; [|done]. eapply Forall_impl; [exact HF'|]. intros z [->|[m ->]] m'; done.
  - rewrite <-E. clear. induction tr as [|z tr IH]; [done|]. cbn. rewrite received_on_flip. cbn [negb]. destruct (received_on true i z); by rewrite IH.
  - clear -HF'. induction HF' as [|z l [->|[m ->]] _ IH]; [done|exact IH|]. cbn. exact IH.
  - clear -HF'. induction HF' as [|z l [->|[m ->]] _ IH]; [done|exact IH|]. cbn. exact IH.
Qed.

(** The handler reads a message that is on its way to it, and the steps after it are internal. *)
Lemma handler_reads h k c m q werr ls h' : linked k c -> c.2 !! i = Some (m :: q) -> steps h (LRead m.1 m.2 werr :: ls) = Some (Ok h') ->
  Forall internal ls -> h_out h' = h_out h -> exists tr k', stack_run (h, k) tr (h', k').
Proof.
  intros HL Hq Hs Hin Ho. destruct (linked_recv_fuel _ k c i m q (Nat.lt_succ_diag_r _) HL Hq) as (n & k2 & Hr & HL2).
  destruct (link_run_split _ _ _ _ Hr) as (k1 & Ht & Hx). cbn [steps] in Hs. destruct (step h (LRead m.1 m.2 werr)) as [[h1| | |]|] eqn:E1; try done.
  destruct (step_out _ _ _ E1) as [ms1 Ho1]. destruct (steps_out ls h1 h' Hs) as [ms2 Ho2].
  assert (ms1 ++ ms2 = []) as [-> ->]%app_nil by (apply (app_inv_head (h_out h)); rewrite app_assoc, <-Ho1, <-Ho2, Ho; by rewrite app_nil_r).
  assert (exists st, ss_streams (l_a k2) !! i = Some st) as [st Hst].
  { pose proof (lk_from _ _ HL2) as (its & _ & _ & HF). destruct (Forall2_lookup_r _ _ _ i q HF) as ([j st] & Hj & _).
    - cbn. apply list_lookup_insert_eq. by eapply lookup_lt_Some.
    - rewrite list_lookup_imap in Hj. destruct (ss_streams (l_a k2) !! i); [by eexists|done]. }
  destruct (stack_run_steps ls h1 k2 _ st [] h' Hin Hs Ho2 HL2 Hst) as (k3 & _ & Hr3 & _); [constructor|].
  eexists (replicate n ATau ++ ((taken (LRead m.1 m.2 werr) ++ put []) ++ put [])), k3. eapply stack_run_app.
  - apply stack_run_others; [|exact Ht]. apply Forall_replicate. intros m'. done.
  - econstructor; [|exact Hr3]. apply sk_handler; [exact E1|exact Ho1|]. destruct m. exact Hx.
Qed.

Lemma sendable_range st st' m : st_offset st = st_offset st' -> st_length st = st_length st' -> sendable st m -> sendable st' m.
Proof. unfold sendable. by intros -> ->. Qed.
End EthRlpx.

(** ** Properties *)

Ltac all_internal := repeat first [apply Forall_nil_2 | apply Forall_cons_2; [reflexivity|]].

Section Properties.
Context `{FastRLP} `{!Eth66Backend} {D : Type} `{!Unmarshaler D}.
Context `{Keccak} `{Curve} `{!Ecies} `{Block} `{Snappy} `{GoNet}.
Local Existing Instance Value_MarshalRLPWith.

(** C14: eth sees its peer through the transport unchanged.  Two nodes that lay the common protocols out alike
    (which nodes that list them in different orders do not) have connected; on either end a handler is
    started on stream [i], and it runs with the rest of the sessions and a peer that puts any messages of the protocol on
    the stream, with codes of its range and payloads below the limit of a frame; a read of the handler may
    fail at any time.  Whatever the schedule: the handler is in a state [reachable] in its own model; what it
    has read is, in order, a prefix of what the peer sent on the stream; what the peer has received is
    a prefix of what the handler wrote; and a request that reported success was answered by the peer,
    with a response under its id that decoded. *)
Theorem eth_over_rlpx (x y : Rlpx) ipc ips pc ps wc ws sc ss k0 i tr (h : handler D) k :
  connection x y ipc ips pc ps wc ws [] [] sc ss -> protocols_ok (rx_backends x) (rx_info y) ->
  common (rx_backends x) (rx_info y) = common (rx_backends y) (rx_info x) ->
  k0 = fresh_link sc ss \/ k0 = fresh_link ss sc -> (i < length (Streams sc))%nat ->
  stack_run i (Eth66_HandlerFn, k0) tr (h, k) ->
  reachable h /\ h_log h `prefix_of` omap (sent_on false i) tr /\ omap (received_on false i) tr `prefix_of` h_out h /\
  forall n c, h_calls h !! n = Some c -> c_st c = CDone None -> answered (D:=D) (omap (sent_on false i) tr) (c_id c).
Proof.
  intros Hcn Hp Hcm Hk Hi Hr. pose proof (fresh_linked _ _ _ _ _ _ _ _ _ _ _ _ Hcn Hp Hcm) as HL.
  assert (linked k0 (replicate (length (Streams sc)) [], replicate (length (Streams sc)) [])) as HL0 by (destruct Hk as [->| ->]; [exact HL|exact (linked_flip _ _ HL)]).
  pose proof (stack_run_reachable i _ _ _ Hr (reach_init)) as Hreach. destruct (stack_run_logs i _ _ _ Hr) as [E1 E2]. cbn [fst] in *.
  destruct (linked_run _ _ _ (stack_run_link i _ _ _ Hr) _ HL0) as (c' & _ & Hf).
  destruct (Hf true i []) as (q1 & _ & F1); [by apply lookup_replicate|]. destruct (Hf false i []) as (q2 & _ & F2); [by apply lookup_replicate|]. cbn in *.
  assert (h_log h `prefix_of` omap (sent_on false i) tr) as Hpre by (exists q2; by rewrite F2, E1).
  split_and!; [done|done|exists q1; by rewrite E2, F1|]. intros n c Hc Hs. eapply answered_sub; [|eapply inv_done; [by apply handler_reachable_inv|exact Hc|by rewrite Hs]].
  destruct Hpre as [q ->]. intros m Hm. apply elem_of_app. by left.
Qed.

(** C15: A request crosses the connection and so does its answer.  A handler past its handshake,
    on a stream with nothing on its way to it, asks for pooled transactions: there is a run after
    which the peer has received exactly the request, after what was written before it.  Whatever
    the peer then answers under the id of the request, if it decodes: there is a run from the
    peer's write to the return of the call with success and the answer in its destination. *)
Theorem request_crosses i (h : handler D) k c st s id hs dst :
  linked k c -> c.2 !! i = Some [] -> ss_streams (l_a k) !! i = Some st -> h_status h = Some s -> h_reader h = RRead -> u64_ok id ->
  let n := length (h_calls h) in
  let request := MarshalRLP (mkRequest id (mkHashList hs)) in
  sendable st (GetPooledTransactionsMsg, request) ->
  exists q tr h1 k1, c.1 !! i = Some q /\ stack_run i (h, k) tr (h1, k1) /\
    omap (received_on false i) tr = q ++ [(GetPooledTransactionsMsg, request)] /\
    forall answer d, let response := MarshalRLP (mkRequest id answer) in
      valid answer -> UnmarshalRLPWith dst answer = Ok d -> sendable st (PooledTransactionsMsg, response) ->
      exists k2 tr' h3 k3, link_step k1 (ASend false i (PooledTransactionsMsg, response)) k2 /\ stack_run i (h1, k2) tr' (h3, k3) /\
        h_calls h3 !! n = Some (mkCall id GetPooledTransactionsMsg (MarshalRLPWith (mkHashList hs)) d (CDone None)) /\
        h_inflight h3 !! id = None /\ h_reader h3 = RRead.
Proof.
  intros HL Hc2 Hst Hs Hr Hid n request Hreq.
  pose proof (request_sent _ h s id GetPooledTransactionsMsg (MarshalRLPWith (mkHashList hs)) dst Hs) as H1'. set (h1 := mkHandler _ _ _ _ _ _ _ _ _ _) in H1'.
  destruct (stack_run_steps i [GetTransactions dst hs id; LWrite n None; LStore n; LSelect n] h k c st [(GetPooledTransactionsMsg, request)] h1)
    as (k1 & q & Hr1 & Hq & HL1 & Hs1); [all_internal|exact H1'|done|done|done|by constructor|].
  destruct (peer_drains i h1 k1 _ (q ++ [(GetPooledTransactionsMsg, request)]) HL1) as (tr & k2 & Hr2 & Ercv & Eus & Esent & Hlr); [cbn; apply list_lookup_insert_eq; by eapply lookup_lt_Some|].
  exists q, (put i [(GetPooledTransactionsMsg, request)] ++ tr), h1, k2. split_and!; [done|by eapply stack_run_app| |].
  { rewrite omap_app, Ercv. done. }
  intros answer d response Hv Hd Hresp. destruct (linked_run _ _ _ Hlr _ HL1) as (c3 & HL3 & Hf).
  destruct (Hf false i []) as (q3 & Hq3 & E3); [cbn; done|]. cbn [negb] in E3. rewrite Eus, Esent in E3. cbn in E3, Hq3. subst q3.
  (* the stream of the peer *)
  assert (exists stb, ss_streams (l_b k2) !! i = Some stb /\ sendable stb (PooledTransactionsMsg, response)) as (stb & Hstb & Hsb).
  { destruct (link_run_ranges _ _ _ Hlr) as [Hra _]. rewrite Hs1 in Hra. destruct (Forall2_lookup_l _ _ _ i st Hra Hst) as (st2 & Hst2 & Ho2 & Hl2).
    destruct (Forall2_lookup_l _ _ _ i st2 (lk_ranges _ _ HL3) Hst2) as (stb & Hstb & Ho3 & Hl3). exists stb. split; [done|].
    by apply (sendable_range st2); [..|apply (sendable_range st)]. }
  destruct (linked_send (flip_link k2) (flip_channels c3) i stb _ (linked_flip _ _ HL3) Hstb Hsb) as (s' & q4 & HW & Hq4 & HL4).
  pose proof (eq_trans (eq_sym Hq3) Hq4) as [= <-]. apply linked_flip in HL4. cbn [flip_channels fst snd] in HL4.
  destruct (response_received _ h1 n (mkCall id GetPooledTransactionsMsg (MarshalRLPWith (mkHashList hs)) dst CWait) d PooledTransactionsMsg answer) as (h3 & Hst3 & Hc3 & Hi3 & Hr3 & Ho3); try done.
  { subst h1. cbn [h_inflight c_id]. by rewrite lookup_insert_eq. }
  { subst h1 n. cbn [h_calls]. by rewrite lookup_app_r, Nat.sub_diag by done. }
  { destruct Hresp as (_ & _ & _ & Hlen). unfold len_ok. cbn in Hlen |- *. unfold response in Hlen. lia. }
  edestruct (handler_reads i h1 _ _ (PooledTransactionsMsg, response) [] None [LDeliver; LClose n; LDelete n] h3 HL4) as (tr' & k3 & Hr4); [|exact Hst3|all_internal|exact Ho3|].
  { cbn. apply list_lookup_insert_eq. by eapply lookup_lt_Some. }
  eexists _, tr', h3, k3. split_and!; [|exact Hr4|done|done|done]. apply ls_flip. rewrite flip_link_id. by eapply ls_write.
Qed.
End Properties.

(** ** Two nodes and a request *)

Module Demo.
#[local] Existing Instance toy_net.
#[local] Existing Instance EthTheorems.Demo.backend.
#[local] Existing Instance Value_MarshalRLPWith.

Definition node : N -> Z -> Rlpx := Rlpx.Demo.node_with [Eth66_Spec].
Definition st0 : Stream := NewStream 16 17 Eth66_Spec.

Lemma nodes_ok : transports_ok (node 5 1) (node 6 2) (toy_rnd 1 77) (toy_rnd 2 88) (Rlpx.Demo.addr 2 30303) (Rlpx.Demo.addr 1 50505)
  (Rlpx.Demo.ip 1) (Rlpx.Demo.ip 2) 50505 30303.
Proof.
  split; [|split; (split; [repeat constructor; cbn; lia|vm_compute; reflexivity])].
  split; [split; apply toy_rnd_ok; unfold byte_ok; lia|split; apply toy_not_plain| |done|split; apply Rlpx.Demo.addr_is; unfold byte_ok, u16_ok; lia].
  split; (apply Rlpx.Demo.hello; [repeat constructor; cbn; unfold u64_ok; lia|vm_compute|vm_compute]); discriminate.
Qed.

(** The nodes connect; both have one stream, for eth. *)
Lemma connected : exists wc ws sc ss, connection (node 5 1) (node 6 2) (Rlpx.Demo.ip 1) (Rlpx.Demo.ip 2) 50505 30303 wc ws [] [] sc ss /\
  Streams sc = [st0] /\ Streams ss = [st0] /\ linked (fresh_link sc ss) ([[]], [[]]).
Proof.
  destruct (transports_connect _ _ _ _ _ _ _ _ _ _ (ni_Enode (rx_info (node 6 2))) nodes_ok eq_refl) as (A & B & Hc & Hs & Hrun).
  destruct (Hrun Hc [] [] true Hs [] [] true) as (sc & ss & _ & _ & Hcn); [reflexivity|reflexivity|]. exists (A ++ Hc), (B ++ Hs), sc, ss.
  assert (Streams sc = [st0]) as E by (unfold Streams; rewrite (ms_streams _ _ _ _ _ _ _ _ (cn_client _ _ _ _ _ _ _ _ _ _ _ _ Hcn)); reflexivity).
  split_and!; [exact Hcn|exact E| |].
  - unfold Streams. rewrite (ms_streams _ _ _ _ _ _ _ _ (cn_server _ _ _ _ _ _ _ _ _ _ _ _ Hcn)). reflexivity.
  - pose proof (fresh_linked _ _ _ _ _ _ _ _ _ _ _ _ Hcn (proj1 (proj2 nodes_ok)) eq_refl) as HL. by rewrite E in HL.
Qed.

Definition status_msg : smsg := (0, MarshalRLP sample_status).
Definition request_msg : smsg := (9, MarshalRLP (mkRequest 77 (mkHashList [sample_hash 3]))).
Definition response_msg : smsg := (10, MarshalRLP (mkRequest 77 (MarshalRLPWith (mkHashList [sample_hash 3])))).

Lemma msgs_sendable : sendable st0 status_msg /\ sendable st0 request_msg /\ sendable st0 response_msg.
Proof.
  assert (forall b : bytes, forallb (fun x => (0 <=? x) && (x <? 256)) b = true -> bytes_ok b) as Hb.
  { intros b E. apply Forall_forall. intros x Hx%list_elem_of_In. rewrite forallb_forall in E. specialize (E x Hx). unfold byte_ok. lia. }
  split_and!; (split_and!; [cbn; lia|cbn; lia|cbn; lia|apply Hb; vm_compute; reflexivity|vm_compute; reflexivity]).
Qed.

(** The peer writes its status and the handler of the client reads it. *)
Lemma status_read sc ss : Streams ss = [st0] -> linked (fresh_link sc ss) ([[]], [[]]) ->
  exists tr (h : EthTheorems.Demo.H) k, stack_run 0 (Eth66_HandlerFn, fresh_link sc ss) tr (h, k) /\ h_status h = Some sample_status.
Proof.
  intros Es HL. destruct msgs_sendable as (Hm & _ & _).
  destruct (linked_send _ _ 0 st0 status_msg (linked_flip _ _ HL)) as (s' & q & HW & Hq & HL1); [cbn; unfold Streams in Es; by rewrite Es|exact Hm|].
  injection Hq as <-. set (k1 := mkLink _ _ _ _) in HL1. assert (link_step (fresh_link sc ss) (ASend false 0 status_msg) (flip_link k1)) as Hx.
  { apply ls_flip. rewrite flip_link_id. eapply ls_write; [|exact Hm|exact HW]. cbn. unfold Streams in Es. by rewrite Es. }
  destruct (handler_reads 0 Eth66_HandlerFn (flip_link k1) _ status_msg [] None [] (EthTheorems.Demo.after Eth66_HandlerFn [LRead 0 (MarshalRLP sample_status) None])
    (linked_flip _ _ HL1)) as (tr & k2 & Hr); [reflexivity|reflexivity|constructor|reflexivity|].
  exists ([ASend false 0 status_msg] ++ tr), (EthTheorems.Demo.after Eth66_HandlerFn [LRead 0 (MarshalRLP sample_status) None]), k2. split; [|reflexivity].
  econstructor; [|exact Hr]. apply sk_link; [intros m; done|exact Hx].
Qed.

Lemma eth_over_rlpx_witness : exists sc ss tr (h : EthTheorems.Demo.H) k, stack_run 0 (Eth66_HandlerFn, fresh_link sc ss) tr (h, k) /\
  h_status h = Some sample_status /\ reachable h /\ h_log h `prefix_of` omap (sent_on false 0) tr.
Proof.
  destruct connected as (wc & ws & sc & ss & Hcn & Ec & Es & HL). destruct (status_read sc ss Es HL) as (tr & h & k & Hr & Hh).
  destruct (eth_over_rlpx (node 5 1) (node 6 2) _ _ _ _ wc ws sc ss (fresh_link sc ss) 0 tr h k Hcn) as (H1 & H2 & _).
  - exact (proj1 (proj2 nodes_ok)).
  - reflexivity.
  - left. reflexivity.
  - rewrite Ec. cbn. lia.
  - exact Hr.
  - exists sc, ss, tr, h, k. split_and!; [exact Hr|exact Hh|exact H1|exact H2].
Defined.

Lemma request_crosses_witness : exists sc ss tr (h1 : EthTheorems.Demo.H) k1 k2 tr' h3 k3,
  stack_run 0 (EthTheorems.Demo.ready, fresh_link sc ss) tr (h1, k1) /\ omap (received_on false 0) tr = [request_msg] /\
  link_step k1 (ASend false 0 response_msg) k2 /\ stack_run 0 (h1, k2) tr' (h3, k3) /\
  c_st <$> h_calls h3 !! 0%nat = Some (CDone None).
Proof.
  destruct connected as (wc & ws & sc & ss & _ & Ec & _ & HL). destruct msgs_sendable as (_ & Hreq & Hresp).
  destruct (request_crosses 0 EthTheorems.Demo.ready (fresh_link sc ss) ([[]], [[]]) st0 sample_status 77 [sample_hash 3] (mkHashList []) HL)
    as (q & tr & h1 & k1 & Hq & Hr & Er & Hans).
  - reflexivity.
  - unfold Streams in Ec. cbn. rewrite Ec. reflexivity.
  - reflexivity.
  - reflexivity.
  - unfold u64_ok. lia.
  - exact Hreq.
  - injection Hq as <-. destruct (Hans (MarshalRLPWith (mkHashList [sample_hash 3])) (mkHashList [sample_hash 3])) as (k2 & tr' & h3 & k3 & Hx & Hr' & Hc & _).
    + repeat constructor; unfold byte_ok; lia.
    + reflexivity.
    + exact Hresp.
    + exists sc, ss, tr, h1, k1, k2, tr', h3, k3. split_and!; [exact Hr|exact Er|exact Hx|exact Hr'|]. change 0%nat with (length (h_calls EthTheorems.Demo.ready)). rewrite Hc. reflexivity.
Defined.
End Demo.
