(* ===== verification/Enr.v ===== *)
(** * Node records

    [enr/enr.go] and [enr/entries.go]: records with sorted entries, their RLP and text forms, and the
    types of entries.  What a receiver holds after an error is not modelled.  [GetBytes] replaces the
    contents of the slice it is given.  A value that marshals to nil (an address of the wrong length)
    is [None]; adding it to a record is not modelled, since what the RLP library does with a nil
    element is not documented.  Signatures are carried, and not checked, as in the code. *)

From stdpp Require Import base sets sorting strings numbers list.
From Stdlib Require Import Ascii.
From S2P Require Import Prelude GoStd GoEnc Rlp Crypto RlpxMsg.
Local Open Scope Z_scope.

Definition string_less (a b : string) : bool := bytes_less (string_bytes a) (string_bytes b).

(** ** Data *)

Record entry (V : Type) := mkEntry { e_k : string; e_v : V }.
Arguments mkEntry {V}.
Arguments e_k {V}.
Arguments e_v {V}.

(** [enr.Record] *)
Record NodeRecord (V : Type) := mkRecord { seq : Z; signature : bytes; entries : list (entry V) }.
Arguments mkRecord {V}.
Arguments seq {V}.
Arguments signature {V}.
Arguments entries {V}.

Definition entries_Less {V} (a b : entry V) : bool := string_less (e_k a) (e_k b).

(** The interface of the values: [MarshalRLPWith] and [UnmarshalRLPWith]. *)
Class Entry `{FastRLP} (A : Type) := {
  entry_Marshal : A -> option Value;
  entry_Unmarshal : A -> Value -> outcome A;
}.

Section Enr.
Context `{FastRLP} `{GoSort}.
Notation R := (NodeRecord Value).

(** ** Operations *)

Definition empty_record : R := mkRecord 0 [] [].

Definition SetSeq (r : R) (i : Z) : R := mkRecord i (signature r) (entries r).

Definition Reset (r : R) : R := mkRecord (uint64 (seq r + 1)) [] [].

Definition Load {A} `{!Entry A} (r : R) (k : string) (v : A) : outcome A :=
  match list_find (fun e => e_k e = k) (entries r) with
  | None => Err ("key " ++ k ++ " not found")
  | Some (_, found) => entry_Unmarshal v (e_v found)
  end.

Definition AddEntry (r : R) (k : string) (v : Value) : R :=
  mkRecord (seq r) (signature r) (sort_Sort entries_Less (entries r ++ [mkEntry k v])).

Definition Record_MarshalRLP (r : R) : bytes :=
  MarshalTo (NewArray (NewBytes (signature r) :: NewUint (seq r) ::
    concat ((fun e => [NewString (e_k e); e_v e]) <$> entries r))).

Definition Marshal (r : R) : string := "enr:" ++ base64_EncodeToString (Record_MarshalRLP r).

(** The loop over the elements after the first two, in steps of two. *)
Fixpoint read_entries (elems : list Value) : outcome (list (entry Value)) :=
  match elems with
  | [] => Ok []
  | [_] => Panic
  | k :: v :: elems' =>
      dst ← of_option rlp_error (GetBytes k None);
      l ← read_entries elems';
      Ok (mkEntry (bytes_string dst) v :: l)
  end.

Fixpoint check_entries (l : list (entry Value)) : outcome unit :=
  match l with
  | a :: (b :: _) as l' =>
      if bool_decide (e_k a = e_k b) then Err ("duplicated key " ++ e_k a)
      else if string_less (e_k b) (e_k a) then Err ("keys not sorted " ++ e_k a ++ " " ++ e_k b)
      else check_entries l'
  | _ => Ok tt
  end.

Definition Record_UnmarshalRLP (b : bytes) : outcome R :=
  v ← of_option rlp_error (Parse b);
  elems ← of_option rlp_error (GetElems v);
  if (length elems <? 2)%nat then Err "at least two items expected" else
  if negb (length elems mod 2 =? 0)%nat then Err "an even number of items expected" else
  e0 ← idx elems 0; signature ← of_option rlp_error (GetBytes e0 None);
  e1 ← idx elems 1; seq ← of_option rlp_error (GetUint64 e1);
  l ← read_entries (drop 2 elems);
  _ ← check_entries l;
  Ok (mkRecord seq signature l).

(** [Record.Unmarshal], and the function [Unmarshal] that makes a new record. *)
Definition Unmarshal (s : string) : outcome R :=
  if negb (HasPrefix s "enr:") then Err "there is no enr prefix" else
  raw ← of_option "illegal base64 data" (base64_DecodeString (str_drop 4 s));
  Record_UnmarshalRLP raw.

(** ** Entries *)

Definition Uint16_MarshalRLPWith (u : Z) : option Value := Some (NewUint u).
(** The conversion to [uint16] truncates. *)
Definition Uint16_UnmarshalRLPWith (u : Z) (v : Value) : outcome Z :=
  uu ← of_option rlp_error (GetUint64 v); Ok (uint16 uu).

Definition String_MarshalRLPWith (s : string) : option Value := Some (NewString s).
Definition String_UnmarshalRLPWith (s : string) (v : Value) : outcome string :=
  buf ← of_option rlp_error (GetBytes v None); Ok (bytes_string buf).

(** [net.IP]: the prefix of IPv4 addresses among the 16-byte ones, [To4] and [To16]. *)
Definition v4InV6Prefix : bytes := replicate 10 0 ++ [255; 255].
Definition To4 (ip : bytes) : option bytes :=
  if (length ip =? 4)%nat then Some ip
  else if (length ip =? 16)%nat && bytes_equal (take 12 ip) v4InV6Prefix then Some (drop 12 ip)
  else None.
Definition To16 (ip : bytes) : option bytes :=
  if (length ip =? 4)%nat then Some (v4InV6Prefix ++ ip)
  else if (length ip =? 16)%nat then Some ip
  else None.

Definition IPv4_MarshalRLPWith (i : bytes) : option Value := NewBytes <$> To4 i.
Definition IPv6_MarshalRLPWith (i : bytes) : option Value := NewBytes <$> To16 i.

(** The length is tested before the error, so that of a failed read is not the library's own. *)
Definition IPv4_UnmarshalRLPWith (i : bytes) (v : Value) : outcome bytes :=
  let buf := default [] (GetBytes v None) in
  if negb (length buf =? 4)%nat then Err ("4 bytes expected for ipv6: " ++ fmt_d (Z.of_nat (length buf)))
  else of_option rlp_error (GetBytes v None).
Definition IPv6_UnmarshalRLPWith (i : bytes) (v : Value) : outcome bytes :=
  let buf := default [] (GetBytes v None) in
  if negb (length buf =? 16)%nat then Err ("16 bytes expected for ipv4: " ++ fmt_d (Z.of_nat (length buf)))
  else of_option rlp_error (GetBytes v None).

End Enr.

(** The types of entries as instances of the interface. *)
Record Uint16 := mkUint16 { u16 : Z }.
Record IPv4 := mkIPv4 { ip4 : bytes }.
Record IPv6 := mkIPv6 { ip6 : bytes }.
#[export] Instance Uint16_Entry `{FastRLP} : Entry Uint16 :=
  {| entry_Marshal u := Uint16_MarshalRLPWith (u16 u); entry_Unmarshal u v := mkUint16 <$> Uint16_UnmarshalRLPWith (u16 u) v |}.
#[export] Instance String_Entry `{FastRLP} : Entry string :=
  {| entry_Marshal := String_MarshalRLPWith; entry_Unmarshal := String_UnmarshalRLPWith |}.
#[export] Instance IPv4_Entry `{FastRLP} : Entry IPv4 :=
  {| entry_Marshal i := IPv4_MarshalRLPWith (ip4 i); entry_Unmarshal i v := mkIPv4 <$> IPv4_UnmarshalRLPWith (ip4 i) v |}.
#[export] Instance IPv6_Entry `{FastRLP} : Entry IPv6 :=
  {| entry_Marshal i := IPv6_MarshalRLPWith (ip6 i); entry_Unmarshal i v := mkIPv6 <$> IPv6_UnmarshalRLPWith (ip6 i) v |}.

(** ** Lemmas: keys *)

Lemma string_less_irrefl a : string_less a a = false.
Proof. apply bytes_less_irrefl. Qed.
Lemma string_less_trans a b c : string_less a b = true -> string_less b c = true -> string_less a c = true.
Proof. apply bytes_less_trans. Qed.
Lemma string_bytes_inj a b : string_bytes a = string_bytes b -> a = b.
Proof. intros E. apply (f_equal bytes_string) in E. by rewrite !bytes_string_bytes in E. Qed.
Lemma string_less_total a b : string_less a b = false -> string_less b a = false -> a = b.
Proof. intros H1 H2. apply string_bytes_inj, bytes_less_total; done. Qed.
Lemma string_less_asym a b : string_less a b = true -> string_less b a = false.
Proof.
  intros Hab. destruct (string_less b a) eqn:Hba; [|done].
  pose proof (string_less_trans _ _ _ Hab Hba) as Hx. by rewrite string_less_irrefl in Hx.
Qed.

Lemma entries_Less_weak {V} : strict_weak (@entries_Less V).
Proof.
  split; unfold entries_Less.
  - intros. apply string_less_irrefl.
  - intros ???. apply string_less_trans.
  - intros x y z Hxy Hyz. destruct (string_less (e_k x) (e_k z)) eqn:Hxz; [|done].
    destruct (string_less (e_k y) (e_k x)) eqn:Hyx.
    + by rewrite (string_less_trans _ _ _ Hyx Hxz) in Hyz.
    + by rewrite (string_less_total _ _ Hxy Hyx), Hyz in Hxz.
Qed.

(** Keys in ascending order, none twice. *)
Definition keys_sorted {V} (l : list (entry V)) : Prop := StronglySorted (fun a b => string_less (e_k a) (e_k b) = true) l.

Lemma keys_sorted_NoDup {V} (l : list (entry V)) : keys_sorted l -> NoDup (e_k <$> l).
Proof.
  induction 1 as [|a l Hl IH Ha]; [constructor|]. rewrite fmap_cons. constructor; [|done].
  intros (b & E & Hb)%list_elem_of_fmap. rewrite Forall_forall in Ha. specialize (Ha b Hb).
  by rewrite E, string_less_irrefl in Ha.
Qed.

(** Sorting entries with distinct keys sorts them strictly. *)
Lemma ascending_keys_sorted {V} (l : list (entry V)) : NoDup (e_k <$> l) -> ascending entries_Less l -> keys_sorted l.
Proof.
  intros Hnd Ha. induction Ha as [|a l Hl IH Ha]; [constructor|]. rewrite fmap_cons in Hnd. apply NoDup_cons in Hnd as [Hn Hnd].
  constructor; [by apply IH|]. rewrite Forall_forall in *. intros b Hb.
  destruct (string_less (e_k a) (e_k b)) eqn:E; [done|]. destruct Hn.
  rewrite (string_less_total _ _ E (Ha b Hb)). by apply list_elem_of_fmap_2.
Qed.

Definition find_key {V} (l : list (entry V)) (k : string) : option (entry V) := snd <$> list_find (fun e => e_k e = k) l.

Lemma find_key_Some {V} (l : list (entry V)) k e : NoDup (e_k <$> l) -> find_key l k = Some e <-> e ∈ l /\ e_k e = k.
Proof.
  intros Hnd. unfold find_key. rewrite fmap_Some. split.
  - intros ([i x] & (Hx & <- & _)%list_find_Some & ->). split; [by eapply list_elem_of_lookup_2|done].
  - intros [[i Hi]%list_elem_of_lookup <-].
    destruct (list_find (fun x => e_k x = e_k e) l) as [[j x]|] eqn:E.
    + apply list_find_Some in E as (Hj & Hk & _). exists (j, x). split; [done|]. cbn.
      assert (j = i) as -> by (eapply NoDup_lookup; [exact Hnd| |]; rewrite list_lookup_fmap; [by rewrite Hj; cbn; rewrite Hk|by rewrite Hi]).
      congruence.
    + apply list_find_None in E. rewrite Forall_forall in E. by destruct (E e (list_elem_of_lookup_2 _ _ _ Hi)).
Qed.

Lemma find_key_perm {V} (l l' : list (entry V)) k : NoDup (e_k <$> l) -> l ≡ₚ l' -> find_key l k = find_key l' k.
Proof.
  intros Hnd Hp. apply option_eq. intros e. rewrite !find_key_Some; [by rewrite Hp|by rewrite <-Hp|done].
Qed.

Section Theorems.
Context `{FastRLP} `{GoSort}.
Notation R := (NodeRecord Value).

Lemma Load_find {A} `{!Entry A} (r : R) k (v : A) :
  Load r k v = match find_key (entries r) k with Some e => entry_Unmarshal v (e_v e) | None => Err ("key " ++ k ++ " not found") end.
Proof. unfold Load, find_key. by destruct (list_find _ _) as [[i e]|]. Qed.

Lemma check_entries_sorted l : check_entries l = Ok tt <-> keys_sorted l.
Proof.
  induction l as [|a l IH]; [by split; [constructor|]|]. destruct l as [|b l]; [by split; [repeat constructor|]|].
  cbn [check_entries]. destruct (bool_decide_reflect (e_k a = e_k b)) as [E|E].
  { split; [done|]. intros [_ Hx]%StronglySorted_inv. apply Forall_cons in Hx as [Hx _]. by rewrite E, string_less_irrefl in Hx. }
  destruct (string_less (e_k b) (e_k a)) eqn:Hba.
  { split; [done|]. intros [_ Hx]%StronglySorted_inv. apply Forall_cons in Hx as [Hx _]. by rewrite (string_less_asym _ _ Hx) in Hba. }
  assert (string_less (e_k a) (e_k b) = true) as Hab.
  { destruct (string_less (e_k a) (e_k b)) eqn:Hab; [done|]. by destruct E, (string_less_total _ _ Hab Hba). }
  change (check_entries (b :: l) = Ok tt <-> keys_sorted (a :: b :: l)). rewrite IH. split.
  - intros Hs. constructor; [done|]. constructor; [done|]. apply StronglySorted_inv in Hs as [_ Hb].
    eapply Forall_impl; [exact Hb|]. intros c Hc. by eapply string_less_trans.
  - by intros [? _]%StronglySorted_inv.
Qed.

Lemma read_entries_concat l : read_entries (concat ((fun e => [NewString (e_k e); e_v e]) <$> l)) = Ok l.
Proof.
  induction l as [|[k v] l IH]; [done|]. rewrite fmap_cons. cbn [concat app read_entries e_k e_v].
  change (GetBytes (NewString k) None) with (GetBytes (NewBytes (string_bytes k)) None). rewrite GetBytes_bytes.
  cbn [of_option mbind outcome_bind]. rewrite IH. cbn [mbind outcome_bind].
  by rewrite bytes_string_bytes.
Qed.

Lemma length_pairs (l : list (entry Value)) : length (concat ((fun e => [NewString (e_k e); e_v e]) <$> l)) = (2 * length l)%nat.
Proof. induction l as [|e l IH]; [done|]. rewrite fmap_cons. cbn [concat app length]. rewrite IH. lia. Qed.

Definition Record_ok (r : R) : Prop :=
  u64_ok (seq r) /\ bytes_ok (signature r) /\ Forall (fun e => valid (e_v e)) (entries r) /\ keys_sorted (entries r).

Lemma Record_valid r : u64_ok (seq r) -> bytes_ok (signature r) -> Forall (fun e => valid (e_v e)) (entries r) ->
  valid (NewArray (NewBytes (signature r) :: NewUint (seq r) :: concat ((fun e => [NewString (e_k e); e_v e]) <$> entries r))).
Proof.
  intros Hs Hg Hv. apply valid_array. constructor; [by apply valid_bytes|]. constructor; [by apply valid_uint|].
  induction Hv as [|e l He _ IH]; [constructor|]. rewrite fmap_cons. cbn [concat app].
  constructor; [apply valid_string|]. by constructor.
Qed.

Lemma read_entries_safe l : Nat.Even (length l) -> safe (read_entries l).
Proof.
  intros Hev. assert (forall m l, (length l <= m)%nat -> Nat.Even (length l) -> safe (read_entries l)) as Hm.
  { clear. induction m as [|m IH]; intros [|k [|v l]] Hl He; cbn [length] in *; try done; try lia.
    - by apply Nat.even_spec in He.
    - cbn [read_entries]. solve_safe. apply IH; [lia|]. by apply Nat.Even_succ_succ. }
  by apply (Hm (length l)).
Qed.

Lemma check_entries_safe l : safe (check_entries l).
Proof. induction l as [|a l IH]; [done|]. destruct l as [|b l]; [done|]. cbn [check_entries] in *. solve_safe. Qed.

(** Reading back the bytes of a record, up to the test of its keys. *)
Lemma UnmarshalRLP_MarshalRLP r : u64_ok (seq r) -> bytes_ok (signature r) -> Forall (fun e => valid (e_v e)) (entries r) ->
  len_ok (Record_MarshalRLP r) -> Record_UnmarshalRLP (Record_MarshalRLP r) = (_ ← check_entries (entries r); Ok r).
Proof.
  intros Hs Hg Hv Hl. unfold Record_UnmarshalRLP, Record_MarshalRLP in *. rewrite Parse_MarshalTo' by (done || by apply Record_valid).
  cbn [of_option mbind outcome_bind]. rewrite GetElems_array. cbn [of_option mbind outcome_bind length]. rewrite length_pairs.
  rewrite (proj2 (Nat.ltb_ge _ _)) by lia.
  replace (S (S (2 * length (entries r)))) with ((1 + length (entries r)) * 2)%nat by lia. rewrite Nat.Div0.mod_mul.
  cbn [Nat.eqb negb idx lookup list_lookup mbind outcome_bind]. rewrite GetBytes_bytes. cbn [of_option mbind outcome_bind].
  rewrite GetUint64_uint by done. cbn [of_option mbind outcome_bind]. cbn [drop]. rewrite ?drop_0. rewrite read_entries_concat. by destruct r.
Qed.

Lemma Unmarshal_Marshal r : u64_ok (seq r) -> bytes_ok (signature r) -> Forall (fun e => valid (e_v e)) (entries r) ->
  len_ok (Record_MarshalRLP r) -> Unmarshal (Marshal r) = (_ ← check_entries (entries r); Ok r).
Proof.
  intros Hs Hg Hv Hl. unfold Unmarshal, Marshal. rewrite HasPrefix_app. cbn [negb].
  change (str_drop 4 ("enr:" ++ base64_EncodeToString (Record_MarshalRLP r))) with (base64_EncodeToString (Record_MarshalRLP r)).
  rewrite base64_roundtrip by (apply MarshalTo_ok; by apply Record_valid). cbn [of_option mbind outcome_bind].
  by apply UnmarshalRLP_MarshalRLP.
Qed.

(** C29: A record whose keys are in order and distinct comes back from its text, field by field. *)
Theorem Record_roundtrip r : Record_ok r -> len_ok (Record_MarshalRLP r) -> Unmarshal (Marshal r) = Ok r.
Proof.
  intros (Hs & Hg & Hv & Hk) Hl. rewrite Unmarshal_Marshal by done. by rewrite (proj2 (check_entries_sorted _) Hk).
Qed.

Lemma Unmarshal_safe s : safe (Unmarshal s).
Proof.
  unfold Unmarshal, Record_UnmarshalRLP. solve_safe.
  - apply read_entries_safe. rewrite length_drop.
    match goal with HE : negb (length ?l mod 2 =? 0)%nat = false |- _ =>
      apply negb_false_iff, Nat.eqb_eq, Nat.Div0.div_exact in HE as Hd; exists (length l / 2 - 1)%nat; lia end.
  - apply check_entries_safe.
Qed.

(** Whatever text is given, reading it does not panic, and a record that is read has a 64-bit
    sequence number and its keys in strictly ascending order. *)
Theorem Unmarshal_canonical s : safe (Unmarshal s) /\ forall r, Unmarshal s = Ok r -> u64_ok (seq r) /\ keys_sorted (entries r).
Proof.
  split; [apply Unmarshal_safe|]. unfold Unmarshal, Record_UnmarshalRLP.
  intros r E. case_if; [done|]. invO E. case_if; [done|]. case_if; [done|]. invO E. cbn.
  split; [by eapply GetUint64_range, of_option_Ok|]. apply check_entries_sorted.
  match goal with HE : check_entries _ = Ok ?u |- _ => destruct u; exact HE end.
Qed.

(** Entries can be looked up: adding one under a new key keeps the keys in order, the value can be
    loaded under the key, and every other key loads what it did before. *)
Theorem AddEntry_Load {A} `{!Entry A} (r : R) k v (d : A) : keys_sorted (entries r) -> k ∉ (e_k <$> entries r) ->
  keys_sorted (entries (AddEntry r k v)) /\ Load (AddEntry r k v) k d = entry_Unmarshal d v /\
  forall k', k' ≠ k -> Load (AddEntry r k v) k' d = Load r k' d.
Proof.
  intros Hs Hk. pose proof (keys_sorted_NoDup _ Hs) as Hnd.
  assert (NoDup (e_k <$> (entries r ++ [mkEntry k v]))) as Hnd'.
  { rewrite fmap_app. apply NoDup_app. split_and!; [done| |apply NoDup_singleton]. intros x Hx ->%list_elem_of_singleton. done. }
  pose proof (sort_perm entries_Less (entries r ++ [mkEntry k v])) as Hp. split_and!.
  - apply ascending_keys_sorted; [|apply sort_ascending, entries_Less_weak]. cbn [AddEntry entries]. by rewrite Hp.
  - rewrite Load_find. cbn [AddEntry entries]. rewrite <-(find_key_perm _ _ k Hnd' (symmetry Hp)).
    rewrite (proj2 (find_key_Some _ k (mkEntry k v) Hnd')); [done|]. split; [set_solver|done].
  - intros k' Hne. rewrite !Load_find. cbn [AddEntry entries]. rewrite <-(find_key_perm _ _ k' Hnd' (symmetry Hp)).
    assert (find_key (entries r ++ [mkEntry k v]) k' = find_key (entries r) k') as ->; [|done].
    apply option_eq. intros e. rewrite !find_key_Some by done. rewrite elem_of_app, list_elem_of_singleton. naive_solver.
Qed.

(** A key that is added twice is kept twice: the text of the record is refused when it is read. *)
Theorem AddEntry_twice (r : R) k v : k ∈ (e_k <$> entries r) -> u64_ok (seq r) -> bytes_ok (signature r) ->
  Forall (fun e => valid (e_v e)) (entries r) -> valid v -> len_ok (Record_MarshalRLP (AddEntry r k v)) ->
  forall r', Unmarshal (Marshal (AddEntry r k v)) ≠ Ok r'.
Proof.
  intros Hk Hs Hg Hv Hv' Hl r' E. pose proof (sort_perm entries_Less (entries r ++ [mkEntry k v])) as Hp.
  rewrite Unmarshal_Marshal in E; try done.
  2: { cbn [AddEntry entries]. rewrite Hp. apply Forall_app. split; [done|]. by repeat constructor. }
  invO E. destruct a. apply check_entries_sorted, keys_sorted_NoDup in E0. cbn [AddEntry entries] in E0.
  rewrite Hp, fmap_app in E0. apply NoDup_app in E0 as (_ & Hd & _). apply (Hd k Hk). cbn. set_solver.
Qed.

(** *** Entries *)

Theorem Uint16_roundtrip u : u16_ok u -> exists v, Uint16_MarshalRLPWith u = Some v /\ forall d, Uint16_UnmarshalRLPWith d v = Ok u.
Proof.
  intros Hu. eexists. split; [done|]. intros d. unfold Uint16_UnmarshalRLPWith. rewrite GetUint64_uint by (unfold u16_ok, u64_ok in *; lia).
  cbn. f_equal. unfold uint16. by apply Z.mod_small.
Qed.

(** A number of more than 16 bits is cut, not refused. *)
Theorem Uint16_truncates n d : u64_ok n -> Uint16_UnmarshalRLPWith d (NewUint n) = Ok (n mod 2 ^ 16).
Proof. intros Hn. unfold Uint16_UnmarshalRLPWith. by rewrite GetUint64_uint. Qed.

Theorem IPv4_roundtrip ip : length ip = 4%nat -> exists v, IPv4_MarshalRLPWith ip = Some v /\ forall d, IPv4_UnmarshalRLPWith d v = Ok ip.
Proof.
  intros Hl. exists (NewBytes ip). unfold IPv4_MarshalRLPWith, To4, IPv4_UnmarshalRLPWith. rewrite Hl. split; [done|]. intros d.
  rewrite GetBytes_bytes. cbn [from_option id]. by rewrite Hl.
Qed.

Theorem IPv6_roundtrip ip : length ip = 16%nat -> exists v, IPv6_MarshalRLPWith ip = Some v /\ forall d, IPv6_UnmarshalRLPWith d v = Ok ip.
Proof.
  intros Hl. exists (NewBytes ip). unfold IPv6_MarshalRLPWith, To16, IPv6_UnmarshalRLPWith. rewrite Hl. split; [done|]. intros d.
  rewrite GetBytes_bytes. cbn [from_option id]. by rewrite Hl.
Qed.

End Theorems.

(** ** Examples *)

Module Demo.

(** The record of [enr_test.go]. *)
Definition enrStr : string :=
  "enr:-IS4QHCYrYZbAKWCBRlAy5zzaDZXJBGkcnh4MHcBFZntXNFrdvJjX04jRzjzCBOonrkTfj499SZuOh8R33Ls8RRcy5wBgmlkgnY0gmlwhH8AAAGJc2VjcDI1NmsxoQPKY0yuDUmstAHYpMa2_oxVtw0RW_QAdpzBQA8yWM0xOIN1ZHCCdl8".

(** The test, run: the address, the port, and the same text again. *)
Example enr_vector : exists r, Unmarshal enrStr = Ok r /\ Load r "ip" (mkIPv4 []) = Ok (mkIPv4 [127; 0; 0; 1]) /\
  Load r "udp" (mkUint16 0) = Ok (mkUint16 30303) /\ Marshal r = enrStr.
Proof. eexists. split; [vm_compute; reflexivity|]. split_and!; vm_compute; reflexivity. Qed.

Definition sample : NodeRecord Value :=
  mkRecord 7 [1; 2; 3] [mkEntry "id" (NewString "v4"); mkEntry "udp" (NewUint 30303)].

Lemma sample_ok : Record_ok sample.
Proof.
  unfold Record_ok, sample, u64_ok. cbn [seq signature entries]. split_and!; try lia.
  - repeat constructor; unfold byte_ok; lia.
  - apply Forall_cons; split; [apply valid_string|]. apply Forall_singleton, valid_uint. unfold u64_ok. lia.
  - repeat constructor.
Qed.

Lemma Record_roundtrip_witness : Unmarshal (Marshal sample) = Ok sample.
Proof. apply (Record_roundtrip sample sample_ok). vm_compute. reflexivity. Defined.

Lemma Unmarshal_canonical_witness : keys_sorted (entries sample).
Proof. apply (proj2 (Unmarshal_canonical (Marshal sample)) sample). vm_compute. reflexivity. Defined.

Lemma AddEntry_Load_witness : Load (AddEntry sample "ip" (NewBytes [127; 0; 0; 1])) "ip" (mkIPv4 []) = Ok (mkIPv4 [127; 0; 0; 1]).
Proof.
  refine (eq_trans (proj1 (proj2 (AddEntry_Load sample "ip" (NewBytes [127; 0; 0; 1]) (mkIPv4 []) _ _))) _).
  - exact (proj2 (proj2 (proj2 sample_ok))).
  - cbn. set_solver.
  - reflexivity.
Defined.

End Demo.
