(* ===== verification/DnsDisc.v ===== *)
(** * DNS discovery

    [dnsdisc/entries.go] (the four kinds of entries of a tree in the DNS, parsed and printed) and
    [dnsdisc/dnsdisc.go] (the walk through the tree), with the compressed keys of [crypto/crypto.go].
    The resolver is an interface of the program: here a function from names to their texts, fixed
    during a call.  The loop of [nextNode] can be made endless by who publishes the tree, so it takes
    fuel; [walk] below shows how much is enough for a tree.  Texts are ASCII. *)

From stdpp Require Import base gmap sets strings numbers list.
From Stdlib Require Import Ascii.
From S2P Require Import Prelude GoStd GoEnc Rlp Crypto RlpxMsg Enr.
Local Open Scope Z_scope.

(** ** Compressed public keys: btcec *)

Class CompressedKeys := {
  SerializeCompressed : PublicKey -> bytes;
  ParsePubKey : bytes -> option PublicKey;
  key_valid : PublicKey -> Prop;              (* a point of the curve *)
  SerializeCompressed_ok p : bytes_ok (SerializeCompressed p);
  ParsePubKey_Serialize p : key_valid p -> ParsePubKey (SerializeCompressed p) = Some p;
}.

Definition CompressPubKey `{CompressedKeys} (pub : PublicKey) : bytes := SerializeCompressed pub.
Definition ParseCompressedPubKey `{CompressedKeys} (d : bytes) : outcome PublicKey :=
  of_option "invalid public key" (ParsePubKey d).

(** ** Entries *)

Definition entryENRPrefix : string := "enr:".
Definition entryRootPrefix : string := "enrtree-root:v1".
Definition entryBranchPrefix : string := "enrtree-branch:".
Definition entryLinkPrefix : string := "enrtree://".

Record entryRoot := mkRoot { eroot : string; lroot : string; sig : string; root_seq : Z }.
Record entryLink := mkLink { link_pubKey : PublicKey; link_domain : string }.

Inductive tree_entry (V : Type) :=
| TRoot (r : entryRoot)
| TBranch (hashes : list string)
| TENR (record : NodeRecord V)
| TLink (l : entryLink).
Arguments TRoot {V}.
Arguments TBranch {V}.
Arguments TENR {V}.
Arguments TLink {V}.

Definition validateHash (s : string) : outcome unit :=
  buf ← of_option "illegal base32 data" (base32_DecodeString s);
  if (length buf <? 12)%nat || (32 <? length buf)%nat
  then Err ("incorrect length, expected [12,32] but found " ++ fmt_d (Z.of_nat (length buf)))
  else Ok tt.

Definition checkAndTrimPrefix (s prefix : string) : outcome string :=
  if negb (HasPrefix s prefix) then Err ("entry does not have correct prefix '" ++ prefix ++ "'")
  else Ok (str_drop (String.length prefix) s).

Definition entryRoot_String (e : entryRoot) : string :=
  entryRootPrefix ++ " e=" ++ eroot e ++ " l=" ++ lroot e ++ " seq=" ++ fmt_d (root_seq e) ++ " sig=" ++ sig e.

Definition parseEntryRoot (s : string) : outcome entryRoot :=
  if negb (HasPrefix s entryRootPrefix) then Err ("root entry does not have correct prefix '" ++ entryRootPrefix ++ "'") else
  l ← Sscanf (chars s) (chars (entryRootPrefix ++ " e=%s l=%s seq=%d sig=%s"));
  match l with
  | [SStr eroot; SStr lroot; SNum seq; SStr sig] =>
      _ ← validateHash eroot;
      _ ← validateHash lroot;
      Ok (mkRoot eroot lroot sig seq)
  | _ => Panic
  end.

(** [Sprintf] without operands: the hashes have no percent signs. *)
Definition entryBranch_String (hashes : list string) : string := entryBranchPrefix ++ Join hashes ",".

Definition parseBranchRoot (s : string) : outcome (list string) :=
  s ← checkAndTrimPrefix s entryBranchPrefix;
  mapO (fun hash => _ ← validateHash hash; Ok hash) (Split s ",").

Section DnsDisc.
Context `{FastRLP} `{CompressedKeys} `{Keccak}.

Definition entryLink_String (e : entryLink) : string :=
  entryLinkPrefix ++ base32_EncodeToString (CompressPubKey (link_pubKey e)) ++ "@" ++ link_domain e.

Definition parseEntryLink (s : string) : outcome entryLink :=
  s ← checkAndTrimPrefix s entryLinkPrefix;
  let parts := Split s "@" in
  if negb (length parts =? 2)%nat then Err "incorrect format" else
  pubKeyBase64 ← idx parts 0; domain ← idx parts 1;
  pubKey ← of_option "illegal base32 data" (base32_DecodeString pubKeyBase64);
  key ← match ParseCompressedPubKey pubKey with Err e => Err ("failed to process pub key: " ++ e) | r => r end;
  Ok (mkLink key domain).

Definition entry_String (e : tree_entry Value) : string :=
  match e with
  | TRoot r => entryRoot_String r
  | TBranch hashes => entryBranch_String hashes
  | TENR r => Marshal r
  | TLink l => entryLink_String l
  end.

Definition parseEntry (s : string) : outcome (tree_entry Value) :=
  if HasPrefix s entryENRPrefix then r ← Unmarshal s; Ok (TENR r)
  else if HasPrefix s entryBranchPrefix then l ← parseBranchRoot s; Ok (TBranch l)
  else if HasPrefix s entryLinkPrefix then l ← parseEntryLink s; Ok (TLink l)
  else if HasPrefix s entryRootPrefix then r ← parseEntryRoot s; Ok (TRoot r)
  else Err ("BUG: entry type not expected " ++ s).

(** ** The walk *)

Record DnsDisc := mkDisc {
  dns : string;
  root : option entryRoot;
  missing : list string;
  current : option (NodeRecord Value);
}.

Definition NewDnsDiscovery (dnsRoot : string) : DnsDisc := mkDisc dnsRoot None [] None.

Section Resolver.
(** [Resolver.LookupTXT] *)
Context (LookupTXT : string -> outcome (list string)).

Definition resolveRoot (d : DnsDisc) : outcome DnsDisc :=
  res ← LookupTXT (dns d);
  r0 ← idx res 0;
  entryRoot ← parseEntryRoot r0;
  Ok (mkDisc (dns d) (Some entryRoot) [eroot entryRoot] (current d)).

(** The texts of one answer: branches are put in front, the first record ends the call. *)
Fixpoint answer_loop (expectedPrefix : bytes) (data : list string) (missing : list string) :
    outcome (option (NodeRecord Value)) * list string :=
  match data with
  | [] => (Ok None, missing)
  | i :: data' =>
      match parseEntry i with
      | Ok res =>
          if negb (bytes_equal (take (length expectedPrefix) (Keccak256 [string_bytes i])) expectedPrefix)
          then (Err "incorrect hash", missing)
          else match res with
               | TBranch hashes => answer_loop expectedPrefix data' (hashes ++ missing)
               | TENR record => (Ok (Some record), missing)
               | _ => answer_loop expectedPrefix data' missing
               end
      | Err e => (Err e, missing)
      | Panic => (Panic, missing)
      | NoFuel => (NoFuel, missing)
      end
  end.

(** One turn of the loop: a result for the caller, or [Ok None] to go on.  The target is taken off the
    list whatever happens. *)
Definition visit (d : DnsDisc) (target : string) (rest : list string) : outcome (option (NodeRecord Value)) * list string :=
  match LookupTXT (target ++ "." ++ dns d) with
  | Ok data =>
      match base32_DecodeString target with
      | Some expectedPrefix => answer_loop expectedPrefix data rest
      | None => (Err "illegal base32 data", rest)
      end
  | Err e => (Err e, rest)
  | Panic => (Panic, rest)
  | NoFuel => (NoFuel, rest)
  end.

Definition set_missing (d : DnsDisc) (m : list string) : DnsDisc := mkDisc (dns d) (root d) m (current d).

Fixpoint next_loop (fuel : nat) (d : DnsDisc) : outcome (option (NodeRecord Value)) * DnsDisc :=
  match missing d with
  | [] => (Ok None, d)
  | target :: rest =>
      match fuel with
      | O => (NoFuel, d)
      | S f =>
          let '(r, m) := visit d target rest in
          match r with
          | Ok None => next_loop f (set_missing d m)
          | _ => (r, set_missing d m)
          end
      end
  end.

Definition nextNode (fuel : nat) (d : DnsDisc) : outcome (option (NodeRecord Value)) * DnsDisc :=
  match root d with
  | Some _ => next_loop fuel d
  | None =>
      match resolveRoot d with
      | Ok d => next_loop fuel d
      | Err e => (Err e, d)
      | Panic => (Panic, d)
      | NoFuel => (NoFuel, d)
      end
  end.

(** An error is logged: the record is nil then, and [Has] is false as at the end. *)
Definition Has (fuel : nat) (d : DnsDisc) : outcome (bool * DnsDisc) :=
  let '(r, d) := nextNode fuel d in
  current ← match r with Ok c => Ok c | Err _ => Ok None | Panic => Panic | NoFuel => NoFuel end;
  Ok (match current with Some _ => true | None => false end, mkDisc (dns d) (root d) (missing d) current).

Definition Next (d : DnsDisc) : option (NodeRecord Value) := current d.

End Resolver.

(** The resolver of the tests: a map. *)
Definition local_LookupTXT (entries : gmap string string) (name : string) : outcome (list string) :=
  match entries !! name with
  | Some v => Ok [v]
  | None => Err ("entry '" ++ name ++ "' not found")
  end.

(** [for d.Has() { ... d.Next() ... }], at most [n] times. *)
Fixpoint walk (LookupTXT : string -> outcome (list string)) (fuel n : nat) (d : DnsDisc) : outcome (list (NodeRecord Value) * DnsDisc) :=
  match n with
  | O => NoFuel
  | S k =>
      '(more, d) ← Has LookupTXT fuel d;
      if more : bool then '(l, d') ← walk LookupTXT fuel k d; Ok (option_list (Next d) ++ l, d') else Ok ([], d)
  end.

End DnsDisc.

Arguments DnsDisc {_}.
