(* ===== verification/DnsDiscTheorems.v ===== *)
(** * DNS discovery: theorems

    Entries are read back as they were printed; a tree that is published is walked completely, in
    order, and the walk ends; a record that is returned is vouched for by a chain of hashes from the
    root; the names that are asked for have hashes of 12 to 32 bytes; the one panic. *)

From stdpp Require Import base gmap sets strings numbers list.
From Stdlib Require Import Ascii.
From S2P Require Import Prelude GoStd GoEnc Rlp Crypto RlpxMsg Enode Enr DnsDisc.
Local Open Scope Z_scope.

(** ** Hashes *)

Lemma base32_chars (p : ascii -> bool) b : bytes_ok b -> forallb (fun d => p (digit_char base32_std d)) (seqZ 0 32) = true ->
  Forall (fun c => p c = true) (chars (base32_EncodeToString b)).
Proof.
  intros Hb Hp. unfold base32_EncodeToString. rewrite chars_of_chars. apply Forall_fmap.
  eapply Forall_impl; [by apply b32_digits_range|]. intros d Hd. by apply (digit_cases 32 _ Hp).
Qed.

Lemma validateHash_Ok s : validateHash s = Ok tt <-> exists b, base32_DecodeString s = Some b /\ (12 <= length b <= 32)%nat.
Proof.
  unfold validateHash. destruct (base32_DecodeString s) as [b|]; cbn [of_option mbind outcome_bind]; [|naive_solver].
  split; [case_if; [done|]; intros _; exists b; split; [done|blia]|].
  intros (b' & [= <-] & Hb). rewrite (proj2 (Nat.ltb_ge _ _)), (proj2 (Nat.ltb_ge _ _)) by lia. done.
Qed.

(** A hash as it is printed: sixteen bytes, or any number from 12 to 32. *)
Lemma validateHash_encoded b : bytes_ok b -> (12 <= length b <= 32)%nat -> validateHash (base32_EncodeToString b) = Ok tt.
Proof. intros Hb Hl. apply validateHash_Ok. exists b. by rewrite base32_roundtrip. Qed.

(** A string that holds a hash and nothing else. *)
Definition hash_word (s : string) : Prop := validateHash s = Ok tt /\ word s /\ ","%char ∉ chars s.

Lemma hash_word_encoded b : bytes_ok b -> (12 <= length b <= 32)%nat -> hash_word (base32_EncodeToString b).
Proof.
  intros Hb Hl. split_and!; [by apply validateHash_encoded|split|].
  - intros E. pose proof (base32_roundtrip b Hb) as Hr. unfold base32_DecodeString in Hr. rewrite E in Hr. injection Hr as <-. cbn in Hl. lia.
  - eapply Forall_impl; [apply (base32_chars (fun c => negb (isSpace c)) b Hb); reflexivity|]. by intros c ?%negb_true_iff.
  - pose proof (base32_chars (fun c => negb (bool_decide (c = ","%char))) b Hb eq_refl) as Hc. rewrite Forall_forall in Hc.
    intros Hx. by apply Hc in Hx.
Qed.

Section Theorems.
Context `{FastRLP} `{CompressedKeys} `{Keccak}.
Notation R := (NodeRecord Value).

(** ** Entries are read back *)

Lemma parseBranchRoot_String hs : hs ≠ [] -> Forall hash_word hs -> parseBranchRoot (entryBranch_String hs) = Ok hs.
Proof.
  intros Hne Hh. unfold parseBranchRoot, checkAndTrimPrefix, entryBranch_String. rewrite HasPrefix_app, str_drop_app. cbn [negb mbind outcome_bind].
  rewrite Split_Join; [|done|eapply Forall_impl; [exact Hh|]; by intros s (_ & _ & ?)].
  apply mapO_Ok. clear Hne. induction Hh as [|s l (Hs & _) _ IH]; constructor; [by rewrite Hs|done].
Qed.

Lemma parseEntryLink_String l : key_valid (link_pubKey l) -> "@"%char ∉ chars (link_domain l) ->
  parseEntryLink (entryLink_String l) = Ok l.
Proof.
  intros Hk Hd. unfold parseEntryLink, checkAndTrimPrefix, entryLink_String. rewrite HasPrefix_app, str_drop_app. cbn [negb mbind outcome_bind].
  set (k := base32_EncodeToString _). change (k ++ "@" ++ link_domain l)%string with (Join [k; link_domain l] "@").
  pose proof (SerializeCompressed_ok (link_pubKey l)) as Hb.
  rewrite Split_Join; [|done|].
  - cbn [length Nat.eqb negb idx lookup list_lookup mbind outcome_bind]. unfold k. rewrite base32_roundtrip by done.
    cbn [of_option mbind outcome_bind]. unfold ParseCompressedPubKey, CompressPubKey. rewrite ParsePubKey_Serialize by done. by destruct l.
  - repeat constructor; [|done]. pose proof (base32_chars (fun c => negb (bool_decide (c = "@"%char))) _ Hb eq_refl) as Hc.
    rewrite Forall_forall in Hc. intros Hx. by apply Hc in Hx.
Qed.

Definition root_ok (r : entryRoot) : Prop := hash_word (eroot r) /\ hash_word (lroot r) /\ word (sig r) /\ u64_ok (root_seq r).

Lemma parseEntryRoot_String r : root_ok r -> parseEntryRoot (entryRoot_String r) = Ok r.
Proof.
  intros ((He & We & _) & (Hl & Wl & _) & Ws & Hq). unfold parseEntryRoot, entryRoot_String. rewrite HasPrefix_app. cbn [negb].
  destruct (fmt_d_digits (root_seq r)) as (Dn & Dd & Dv); [unfold u64_ok in Hq; lia|].
  rewrite !chars_app, Sscanf_literal by (repeat constructor; done).
  change (chars " e=%s l=%s seq=%d sig=%s") with (" "%char :: chars "e=" ++ "%"%char :: "s"%char :: " "%char :: chars "l=" ++
    "%"%char :: "s"%char :: " "%char :: chars "seq=" ++ "%"%char :: "d"%char :: " "%char :: chars "sig=" ++ ["%"%char; "s"%char]).
  change (chars " e=") with (" "%char :: chars "e="). change (chars " l=") with (" "%char :: chars "l=").
  change (chars " seq=") with (" "%char :: chars "seq="). change (chars " sig=") with (" "%char :: chars "sig=").
  rewrite <-!app_comm_cons.
  assert (literal (chars "e=") /\ literal (chars "l=") /\ literal (chars "seq=") /\ literal (chars "sig=")) as (? & ? & ? & ?)
    by (split_and!; (split; [done|by repeat constructor])).
  rewrite Sscanf_field_string, Sscanf_field_string by (done || right; by eexists).
  rewrite Sscanf_field, Sscanf_number by (done || unfold MaxUint64, u64_ok in *; lia).
  rewrite <-(app_nil_r (chars (sig r))), Sscanf_field_string by (done || by left).
  cbn [Sscanf mbind outcome_bind]. rewrite He, Hl. cbn [mbind outcome_bind]. rewrite Dv. by destruct r.
Qed.

Definition entry_ok (e : tree_entry Value) : Prop :=
  match e with
  | TRoot r => root_ok r
  | TBranch hs => hs ≠ [] /\ Forall hash_word hs
  | TENR r => Record_ok r /\ len_ok (Record_MarshalRLP r)
  | TLink l => key_valid (link_pubKey l) /\ "@"%char ∉ chars (link_domain l)
  end.

Lemma parseEntry_String_lemma e : entry_ok e -> parseEntry (entry_String e) = Ok e.
Proof.
  destruct e as [r|hs|r|l]; cbn [entry_ok entry_String]; intros He.
  - change (parseEntry (entryRoot_String r)) with (r ← parseEntryRoot (entryRoot_String r); Ok (TRoot (V:=Value) r)).
    by rewrite parseEntryRoot_String.
  - destruct He as [Hne Hh]. unfold parseEntry, entryBranch_String. change (HasPrefix (entryBranchPrefix ++ _) entryENRPrefix) with false.
    rewrite HasPrefix_app. cbn [mbind outcome_bind]. fold (entryBranch_String hs). by rewrite parseBranchRoot_String.
  - destruct He as [(Hs & Hg & Hv & Hk) Hl]. unfold parseEntry. unfold Marshal at 1. rewrite (HasPrefix_app entryENRPrefix).
    rewrite Unmarshal_Marshal by done. by rewrite (proj2 (check_entries_sorted _) Hk).
  - destruct He as [Hk Hd]. unfold parseEntry. change (HasPrefix (entryLink_String l) entryENRPrefix) with false.
    change (HasPrefix (entryLink_String l) entryBranchPrefix) with false. assert (HasPrefix (entryLink_String l) entryLinkPrefix = true) as -> by apply HasPrefix_app. by rewrite parseEntryLink_String.
Qed.

(** C31: Every kind of entry of a tree, printed as the code prints it, is parsed back to itself. *)
Theorem parseEntry_String e : entry_ok e -> parseEntry (entry_String e) = Ok e.
Proof. apply parseEntry_String_lemma. Qed.

(** ** Trees *)

Inductive tree := Leaf (r : R) | Node (ts : list tree).

(** The name of a text: its hash, cut to sixteen bytes. *)
Definition label_of (s : string) : string := base32_EncodeToString (take 16 (Keccak256 [string_bytes s])).

Fixpoint text (t : tree) : string :=
  match t with
  | Leaf r => Marshal r
  | Node ts => entryBranch_String ((fun t => label_of (text t)) <$> ts)
  end.
Definition label (t : tree) : string := label_of (text t).

Fixpoint leaves (t : tree) : list R :=
  match t with Leaf r => [r] | Node ts => concat (leaves <$> ts) end.
Fixpoint size (t : tree) : nat :=
  match t with Leaf _ => 1 | Node ts => S (sum_list (size <$> ts)) end.
Definition forest_size (ts : list tree) : nat := sum_list (size <$> ts).
Definition forest_leaves (ts : list tree) : list R := concat (leaves <$> ts).

(** The tree is in the DNS, and branches are not empty. *)
Inductive published (LookupTXT : string -> outcome (list string)) (domain : string) : tree -> Prop :=
| pub_leaf r : Record_ok r -> len_ok (Record_MarshalRLP r) ->
    LookupTXT (label (Leaf r) ++ "." ++ domain)%string = Ok [text (Leaf r)] -> published LookupTXT domain (Leaf r)
| pub_node ts : ts ≠ [] -> Forall (published LookupTXT domain) ts ->
    LookupTXT (label (Node ts) ++ "." ++ domain)%string = Ok [text (Node ts)] -> published LookupTXT domain (Node ts).

Lemma Keccak256_prefix s : bytes_ok (take 16 (Keccak256 [string_bytes s])) /\ length (take 16 (Keccak256 [string_bytes s])) = 16%nat.
Proof.
  unfold Keccak256, hash_Sum. split; [apply bytes_ok_take, keccak_ok|]. rewrite length_take, keccak_length. lia.
Qed.

Lemma label_word t : hash_word (label t).
Proof. destruct (Keccak256_prefix (text t)) as [Hb Hl]. apply hash_word_encoded; [done|lia]. Qed.

Section Walk.
Context (LookupTXT : string -> outcome (list string)) (domain : string).
Notation pub := (published LookupTXT domain).

Lemma answer_of_text t e rest : parseEntry (text t) = Ok e ->
  answer_loop (take 16 (Keccak256 [string_bytes (text t)])) [text t] rest =
  match e with TBranch hs => (Ok None, hs ++ rest) | TENR r => (Ok (Some r), rest) | _ => (Ok None, rest) end.
Proof.
  intros Ht. cbn [answer_loop]. rewrite Ht. destruct (Keccak256_prefix (text t)) as [_ ->].
  unfold bytes_equal. rewrite bool_decide_eq_true_2 by done.
  cbn [negb]. by destruct e.
Qed.

(** One turn: a leaf gives its record, a node its children. *)
Lemma visit_tree d t rest : dns d = domain -> pub t -> visit LookupTXT d (label t) rest =
  match t with Leaf r => (Ok (Some r), rest) | Node ts => (Ok None, (label <$> ts) ++ rest) end.
Proof.
  intros Hd Ht. unfold visit. rewrite Hd. pose proof (Keccak256_prefix (text t)) as [Hb _].
  assert (base32_DecodeString (label t) = Some (take 16 (Keccak256 [string_bytes (text t)]))) as Hdec by (by apply base32_roundtrip).
  destruct Ht as [r Hr Hl E|ts Hne Hts E]; rewrite E, Hdec.
  - rewrite (answer_of_text (Leaf r) (TENR r)); [done|]. by apply (parseEntry_String_lemma (TENR r)).
  - rewrite (answer_of_text (Node ts) (TBranch (label <$> ts))); [done|]. apply (parseEntry_String_lemma (TBranch (label <$> ts))).
    split; [by destruct ts|]. apply Forall_fmap, Forall_true. intros. apply label_word.
Qed.

Lemma next_loop_forest fuel : forall d ts, dns d = domain -> missing d = label <$> ts -> Forall pub ts -> (forest_size ts <= fuel)%nat ->
  match forest_leaves ts with
  | [] => ts = [] /\ next_loop LookupTXT fuel d = (Ok None, d)
  | r :: rs => exists ts', next_loop LookupTXT fuel d = (Ok (Some r), set_missing d (label <$> ts')) /\
      forest_leaves ts' = rs /\ Forall pub ts' /\ (forest_size ts' <= forest_size ts)%nat
  end.
Proof.
  induction fuel as [|fuel IH]; intros d ts Hd Hm Hp Hf.
  { destruct ts as [|t ts]; [|destruct t; cbn in Hf; lia]. split; [done|]. cbn [next_loop]. by rewrite Hm. }
  destruct ts as [|t ts]; [split; [done|]; cbn [next_loop]; by rewrite Hm|].
  apply Forall_cons in Hp as [Ht Hts]. rewrite fmap_cons in Hm. cbn [next_loop]. rewrite Hm.
  rewrite visit_tree by done. destruct t as [r|us].
  - cbn [forest_leaves leaves fmap list_fmap concat app]. exists ts. split_and!; try done. unfold forest_size. cbn. lia.
  - assert (forest_leaves (Node us :: ts) = forest_leaves (us ++ ts)) as Hfl.
    { unfold forest_leaves. rewrite fmap_cons, fmap_app, concat_app. done. }
    assert (S (forest_size (us ++ ts)) = forest_size (Node us :: ts)) as Hsz.
    { unfold forest_size. rewrite fmap_app, fmap_cons. cbn. rewrite sum_list_with_app. done. }
    inversion Ht as [|us' Hne Hus _]; subst.
    specialize (IH (set_missing d ((label <$> us) ++ (label <$> ts))) (us ++ ts) eq_refl).
    cbn [set_missing missing] in IH. rewrite fmap_app in IH. specialize (IH eq_refl ltac:(by apply Forall_app) ltac:(lia)).
    rewrite Hfl. destruct (forest_leaves (us ++ ts)) as [|r rs].
    + destruct IH as [[-> _]%app_eq_nil _]. done.
    + destruct IH as (ts' & -> & Hrs & Hp' & Hle). exists ts'. split_and!; try done. lia.
Qed.

Lemma walk_forest n fuel : forall d ts, dns d = domain -> root d ≠ None -> missing d = label <$> ts -> Forall pub ts -> (forest_size ts <= fuel)%nat ->
  (length (forest_leaves ts) < n)%nat -> exists d', walk LookupTXT fuel n d = Ok (forest_leaves ts, d') /\ missing d' = [].
Proof.
  induction n as [|n IH]; intros d ts Hd Hr Hm Hp Hf Hn; [lia|]. cbn [walk]. unfold Has, nextNode. destruct (root d) as [rt|] eqn:Er; [|done].
  pose proof (next_loop_forest fuel d ts Hd Hm Hp Hf) as Hl. destruct (forest_leaves ts) as [|r rs].
  - destruct Hl as [-> ->]. cbn. eexists. split; [done|]. by rewrite Hm.
  - destruct Hl as (ts' & -> & Hrs & Hp' & Hle). cbn [mbind outcome_bind].
    destruct (IH (mkDisc (dns (set_missing d (label <$> ts'))) (root (set_missing d (label <$> ts'))) (missing (set_missing d (label <$> ts'))) (Some r)) ts')
      as (d' & Hw & Hm'); try done; [cbn; by rewrite Er|lia|rewrite Hrs; cbn in Hn; lia|].
    rewrite Hw, Hrs. cbn. eauto.
Qed.

Lemma resolveRoot_Ok d s rt more : LookupTXT (dns d) = Ok (s :: more) -> parseEntryRoot s = Ok rt ->
  resolveRoot LookupTXT d = Ok (mkDisc (dns d) (Some rt) [eroot rt] (current d)).
Proof. intros E1 E2. unfold resolveRoot. rewrite E1. cbn [mbind outcome_bind]. rewrite (proj2 (idx_Ok (s :: more) 0 s) eq_refl). cbn [mbind outcome_bind]. by rewrite E2. Qed.

Lemma nextNode_start rt more fuel : root_ok rt -> LookupTXT domain = Ok (entryRoot_String rt :: more) ->
  nextNode LookupTXT fuel (NewDnsDiscovery domain) = nextNode LookupTXT fuel (mkDisc domain (Some rt) [eroot rt] None).
Proof.
  intros Hrt Hroot. unfold nextNode. cbn [root NewDnsDiscovery].
  by rewrite (resolveRoot_Ok (NewDnsDiscovery domain) (entryRoot_String rt) rt more Hroot (parseEntryRoot_String rt Hrt)).
Qed.

(** The first call of [Has] on a published tree. *)
Lemma Has_start rt t more fuel r rs : root_ok rt -> eroot rt = label t -> LookupTXT domain = Ok (entryRoot_String rt :: more) -> pub t ->
  (size t <= fuel)%nat -> leaves t = r :: rs ->
  exists ts, Has LookupTXT fuel (NewDnsDiscovery domain) = Ok (true, mkDisc domain (Some rt) (label <$> ts) (Some r)) /\ forest_leaves ts = rs.
Proof.
  intros Hrt He Hroot Ht Hf Hl. set (d0 := mkDisc domain (Some rt) [label t] None).
  pose proof (next_loop_forest fuel d0 [t] eq_refl eq_refl ltac:(by apply Forall_singleton) ltac:(unfold forest_size; cbn; lia)) as Hn.
  unfold forest_leaves at 1 in Hn. cbn [fmap list_fmap concat] in Hn. rewrite app_nil_r, Hl in Hn. destruct Hn as (ts & E & Hrs & _).
  exists ts. split; [|done]. unfold Has. rewrite (nextNode_start rt more fuel Hrt Hroot), He. unfold nextNode. cbn [root]. fold d0. by rewrite E.
Qed.

(** C12: A published tree is walked completely: starting from the domain, with enough fuel for the
    number of its nodes, the loop [for d.Has()] ends, and [Next] has given the records of the leaves,
    each once and in order. *)
Theorem walk_tree rt t more fuel n : root_ok rt -> eroot rt = label t -> LookupTXT domain = Ok (entryRoot_String rt :: more) -> pub t ->
  (size t <= fuel)%nat -> (length (leaves t) < n)%nat ->
  exists d, walk LookupTXT fuel n (NewDnsDiscovery domain) = Ok (leaves t, d) /\ missing d = [].
Proof.
  intros Hrt He Hroot Ht Hf Hn. set (d0 := mkDisc domain (Some rt) [label t] None).
  destruct (walk_forest n fuel d0 [t]) as (d & Hw & Hm); try done.
  - by repeat constructor.
  - unfold forest_size. cbn. lia.
  - unfold forest_leaves. cbn. rewrite app_nil_r. done.
  - exists d. split; [|done]. destruct n as [|n]; [lia|]. unfold forest_leaves in Hw. cbn [fmap list_fmap concat] in Hw.
    rewrite app_nil_r in Hw. rewrite <-Hw. cbn [walk]. unfold Has. by rewrite (nextNode_start rt more fuel Hrt Hroot), He.
Qed.

End Walk.

(** ** What the walk trusts *)

Section Trust.
Context (LookupTXT : string -> outcome (list string)).

(** The text [i], found under the name [target], has the hash the name asks for. *)
Definition hashed_by (domain target i : string) : Prop :=
  exists data p, LookupTXT (target ++ "." ++ domain)%string = Ok data /\ i ∈ data /\
    base32_DecodeString target = Some p /\ take (length p) (Keccak256 [string_bytes i]) = p.

(** Names vouched for by a chain of hashes from the root: the root's own, and those a branch lists that
    was found with the right hash under such a name. *)
Inductive vouched (domain eroot : string) : string -> Prop :=
| vouched_root : vouched domain eroot eroot
| vouched_branch target i hs h : vouched domain eroot target -> hashed_by domain target i ->
    parseEntry i = Ok (TBranch hs) -> h ∈ hs -> vouched domain eroot h.

Definition authentic (domain eroot : string) (r : R) : Prop :=
  exists target i, vouched domain eroot target /\ hashed_by domain target i /\ parseEntry i = Ok (TENR r).

(** A name that may be asked for: vouched, and of a hash of 12 to 32 bytes. *)
Definition good_name (domain eroot h : string) : Prop :=
  vouched domain eroot h /\ validateHash h = Ok tt.

Definition disc_inv (d : DnsDisc) : Prop :=
  match root d with
  | None => missing d = [] /\ current d = None
  | Some rt => Forall (good_name (dns d) (eroot rt)) (missing d) /\ forall r, current d = Some r -> authentic (dns d) (eroot rt) r
  end.

Lemma parseBranch_valid i hs : parseEntry i = Ok (TBranch hs) -> Forall (fun h => validateHash h = Ok tt) hs.
Proof.
  unfold parseEntry. intros E. repeat case_if; invO E; try done. unfold parseBranchRoot in *.
  match goal with HE : _ ≫= _ = Ok _ |- _ => invO HE; rename HE into Hm end. apply mapO_Ok in Hm.
  induction Hm as [|h h' l l' Hh _ IH]; constructor; [|done]. invO Hh. by destruct a0.
Qed.

Lemma parseEntryRoot_valid s rt : parseEntryRoot s = Ok rt -> validateHash (eroot rt) = Ok tt.
Proof.
  unfold parseEntryRoot. intros Hp. case_if; [done|]. destruct (Sscanf _ _) as [l| | |]; try done. cbn [mbind outcome_bind] in Hp.
  destruct l as [|[e|] [|[l|] [|[|q] [|[g|] [|]]]]]; try done. invO Hp. by destruct a.
Qed.

Lemma answer_loop_inv domain er target p data0 data m r m' : vouched domain er target ->
  LookupTXT (target ++ "." ++ domain)%string = Ok data0 -> data ⊆ data0 -> base32_DecodeString target = Some p ->
  Forall (good_name domain er) m -> answer_loop p data m = (r, m') ->
  Forall (good_name domain er) m' /\ forall x, r = Ok (Some x) -> authentic domain er x.
Proof.
  intros Ht Hl Hsub Hd. revert m. induction data as [|i data IH]; intros m Hm E; cbn [answer_loop] in E.
  { injection E as <- <-. done. }
  assert (i ∈ data0) as Hi by (apply Hsub; by left). assert (data ⊆ data0) as Hsub' by (intros x Hx; apply Hsub; by right).
  destruct (parseEntry i) as [e| | |] eqn:Ep; try (injection E as <- <-; done).
  case_if; [injection E as <- <-; done|]. apply negb_false_iff, bool_decide_eq_true_1 in E0.
  assert (hashed_by domain target i) as Hh by (exists data0, p; done).
  destruct e as [rt|hs|x|l]; try (by eapply IH).
  - eapply IH; [done| |exact E]. apply Forall_app. split; [|done]. apply Forall_forall. intros h Hx.
    split; [by eapply vouched_branch|]. pose proof (parseBranch_valid _ _ Ep) as Hv. rewrite Forall_forall in Hv. by apply Hv.
  - injection E as <- <-. split; [done|]. intros y [= <-]. exists target, i. done.
Qed.

Lemma next_loop_inv fuel : forall d rt r d', root d = Some rt -> Forall (good_name (dns d) (eroot rt)) (missing d) ->
  next_loop LookupTXT fuel d = (r, d') -> root d' = Some rt /\ dns d' = dns d /\ Forall (good_name (dns d) (eroot rt)) (missing d') /\
  forall x, r = Ok (Some x) -> authentic (dns d) (eroot rt) x.
Proof.
  induction fuel as [|fuel IH]; intros d rt r d' Hr Hm E; cbn [next_loop] in E; destruct (missing d) as [|t rest] eqn:Em;
    try (injection E as <- <-; rewrite Em; done).
  apply Forall_cons in Hm as [[Ht _] Hrest]. destruct (visit LookupTXT d t rest) as [r1 m1] eqn:Ev.
  assert (Forall (good_name (dns d) (eroot rt)) m1 /\ forall x, r1 = Ok (Some x) -> authentic (dns d) (eroot rt) x) as [Hm1 Ha].
  { unfold visit in Ev. destruct (LookupTXT _) as [data| | |] eqn:El; try (injection Ev as <- <-; done).
    destruct (base32_DecodeString t) as [p|] eqn:Ed; [|injection Ev as <- <-; done]. by eapply answer_loop_inv. }
  destruct r1 as [[x|]| | |]; try (injection E as <- <-; split_and!; try done; by apply Ha).
  by apply (IH (set_missing d m1)).
Qed.

Lemma Has_inv fuel d b d' : disc_inv d -> Has LookupTXT fuel d = Ok (b, d') -> disc_inv d' /\ dns d' = dns d.
Proof.
  intros I E. unfold Has in E. destruct (nextNode LookupTXT fuel d) as [r d1] eqn:En. invO E.
  assert (forall rt, root d1 = Some rt -> dns d1 = dns d -> Forall (good_name (dns d) (eroot rt)) (missing d1) ->
    (forall x, r = Ok (Some x) -> authentic (dns d) (eroot rt) x) -> disc_inv (mkDisc (dns d1) (root d1) (missing d1) a) /\ dns d1 = dns d) as Hk.
  { intros rt Hr Hdn Hm Ha. split; [|done]. unfold disc_inv. cbn. rewrite Hr, Hdn. split; [done|]. intros x ->.
    apply Ha. by destruct r; simplify_eq. }
  unfold nextNode in En. unfold disc_inv in I. destruct (root d) as [rt|] eqn:Er.
  - destruct I as [Hm _]. destruct (next_loop_inv _ _ _ _ _ Er Hm En) as (? & ? & ? & ?). by eapply Hk.
  - destruct I as [Hm Hc]. destruct (resolveRoot LookupTXT d) as [d2| | |] eqn:E2.
    2-4: injection En as <- <-; cbn; split; [|done]; unfold disc_inv; cbn; rewrite Er, Hm; by destruct a; simplify_eq.
    unfold resolveRoot in E2. invO E2.
    match goal with HE : parseEntryRoot _ = Ok ?x |- _ => rename x into rt; pose proof (parseEntryRoot_valid _ _ HE) as Hv end.
    destruct (next_loop_inv fuel (mkDisc (dns d) (Some rt) [eroot rt] (current d)) rt r d1 eq_refl) as (? & ? & ? & ?); [|exact En|by eapply Hk].
    by apply Forall_singleton; split; [constructor|].
Qed.

(** States of a walk: calls of [Has] from the start, with whatever fuel they needed. *)
Inductive walked (domain : string) : DnsDisc -> Prop :=
| walked_start : walked domain (NewDnsDiscovery domain)
| walked_Has fuel d b d' : walked domain d -> Has LookupTXT fuel d = Ok (b, d') -> walked domain d'.

Lemma walked_inv domain d : walked domain d -> disc_inv d /\ dns d = domain.
Proof. induction 1 as [|fuel d b d' _ [I Hd] E]; [done|]. apply Has_inv in E as [? ?]; [|done]. split; [done|congruence]. Qed.

(** C13: A record that [Next] gives is vouched for by a chain of hashes: it is the text found under a
    name with the hash of that name, and the name is the root's or listed by a branch that is vouched
    for in the same way.  Who answers for the names below the root cannot slip in other records. *)
Theorem Next_authentic domain d r : walked domain d -> Next d = Some r ->
  exists rt, root d = Some rt /\ authentic domain (eroot rt) r.
Proof.
  intros [I <-]%walked_inv Hn. unfold disc_inv in I. unfold Next in Hn. destruct (root d) as [rt|].
  - exists rt. split; [done|]. by apply I.
  - destruct I as [_ E]. congruence.
Qed.

(** C32: The names a walk still has to ask for are hashes of 12 to 32 bytes, so that a name never
    matches a text by fewer than 96 bits. *)
Theorem names_bounded domain d h : walked domain d -> h ∈ missing d ->
  exists b, base32_DecodeString h = Some b /\ (12 <= length b <= 32)%nat.
Proof.
  intros [I _]%walked_inv Hh. apply validateHash_Ok. unfold disc_inv in I. destruct (root d) as [rt|].
  - destruct I as [Hm _]. rewrite Forall_forall in Hm. by apply Hm.
  - destruct I as [E _]. rewrite E in Hh. by apply elem_of_nil in Hh.
Qed.

(** A lookup that fails, or a text with the wrong hash: [Has] is false as at the end of the tree, and the
    name is not asked for again. *)
Theorem failed_name_dropped fuel d rt target rest : root d = Some rt -> missing d = target :: rest ->
  (exists e, LookupTXT (target ++ "." ++ dns d)%string = Err e) \/
  (exists i p res, LookupTXT (target ++ "." ++ dns d)%string = Ok [i] /\ base32_DecodeString target = Some p /\ parseEntry i = Ok res /\
    take (length p) (Keccak256 [string_bytes i]) ≠ p) ->
  Has LookupTXT (S fuel) d = Ok (false, mkDisc (dns d) (Some rt) rest None).
Proof.
  intros Hr Hm Hf. unfold Has, nextNode. rewrite Hr. cbn [next_loop]. rewrite Hm. unfold visit.
  destruct Hf as [[e ->]|(i & p & res & -> & -> & Hp & Hh)]; [cbn; by rewrite Hr|].
  cbn [answer_loop]. rewrite Hp. unfold bytes_equal. rewrite bool_decide_eq_false_2 by done. cbn. by rewrite Hr.
Qed.

(** ** Panics *)

Lemma validateHash_safe s : safe (validateHash s).
Proof. unfold validateHash. solve_safe. Qed.

Lemma checkAndTrimPrefix_safe s p : safe (checkAndTrimPrefix s p).
Proof. unfold checkAndTrimPrefix. solve_safe. Qed.

#[local] Hint Resolve validateHash_safe checkAndTrimPrefix_safe Unmarshal_safe : devp2p.

(** What [Sscanf] returns has the shape of the format. *)
Lemma parseEntryRoot_safe s : safe (parseEntryRoot s).
Proof.
  unfold parseEntryRoot. case_if; [done|].
  pose proof (Sscanf_scanned (chars (entryRootPrefix ++ " e=%s l=%s seq=%d sig=%s")) (chars s)) as [Hs Hl].
  destruct (Sscanf _ _) as [l| | |]; try done. specialize (Hl l eq_refl). change (verbs _) with ["s"; "s"; "d"; "s"]%char in Hl.
  cbn [mbind outcome_bind].
  apply Forall2_cons_inv_l in Hl as ([e|] & l1 & H1' & Hl & ->); [|by destruct H1'].
  apply Forall2_cons_inv_l in Hl as ([k|] & l2 & H2' & Hl & ->); [|by destruct H2'].
  apply Forall2_cons_inv_l in Hl as ([|q] & l3 & H3' & Hl & ->); [done|].
  apply Forall2_cons_inv_l in Hl as ([g|] & l4 & H4' & Hl & ->); [|by destruct H4'].
  apply Forall2_nil_inv_l in Hl as ->. solve_safe.
Qed.

Lemma parseEntryLink_safe s : safe (parseEntryLink s).
Proof. unfold parseEntryLink, ParseCompressedPubKey. solve_safe. by destruct (ParsePubKey _). Qed.

Lemma parseEntry_safe s : safe (parseEntry s).
Proof. unfold parseEntry, parseBranchRoot. solve_safe; auto using parseEntryRoot_safe, parseEntryLink_safe. Qed.

Lemma answer_loop_safe p data m : safe (answer_loop p data m).1.
Proof.
  revert m. induction data as [|i data IH]; intros m; cbn [answer_loop]; [done|]. pose proof (parseEntry_safe i).
  destruct (parseEntry i) as [[]| | |]; try done; case_if; try done; apply IH.
Qed.

Lemma next_loop_no_panic fuel d : (forall n, safe (LookupTXT n)) -> (next_loop LookupTXT fuel d).1 ≠ Panic.
Proof.
  intros Hs. revert d. induction fuel as [|fuel IH]; intros d; cbn [next_loop]; destruct (missing d) as [|t rest]; try done.
  assert (safe (visit LookupTXT d t rest).1) as Hv.
  { unfold visit. pose proof (Hs (t ++ "." ++ dns d)%string). destruct (LookupTXT _); try done.
    destruct (base32_DecodeString t); [apply answer_loop_safe|done]. }
  destruct (visit LookupTXT d t rest) as [[[x|]| | |] m]; try done; apply IH.
Qed.

(** With a resolver that returns texts or errors, the only panic of the walk is that of a domain
    with no texts at all, whose first text the code takes without looking. *)
Theorem Has_panics fuel d : (forall n, safe (LookupTXT n)) ->
  Has LookupTXT fuel d = Panic <-> root d = None /\ LookupTXT (dns d) = Ok [].
Proof.
  intros Hs. unfold Has, nextNode. destruct (root d) as [rt|].
  { pose proof (next_loop_no_panic fuel d Hs) as Hn. destruct (next_loop _ _ _) as [[]]; cbn in *; naive_solver. }
  unfold resolveRoot. pose proof (Hs (dns d)) as Hd. destruct (LookupTXT (dns d)) as [data| | |]; cbn [mbind outcome_bind] in *; try naive_solver.
  destruct data as [|s data]; [done|]. rewrite (proj2 (idx_Ok (s :: data) 0 s) eq_refl). cbn [mbind outcome_bind].
  pose proof (parseEntryRoot_safe s) as Hp. destruct (parseEntryRoot s) as [rt| | |]; cbn [mbind outcome_bind]; try naive_solver.
  pose proof (next_loop_no_panic fuel (mkDisc (dns d) (Some rt) [eroot rt] (current d)) Hs) as Hn.
  destruct (next_loop _ _ _) as [[]]; cbn in *; naive_solver.
Qed.

End Trust.

End Theorems.

(** ** Examples *)

Module Demo.

(** Keys written out in full: a toy that satisfies the law. *)
#[local] Program Instance toy_compressed : CompressedKeys := {|
  SerializeCompressed p := be_put 32 (pub_X p) ++ be_put 32 (pub_Y p);
  ParsePubKey b := Some (mkPub (be_get (take 32 b)) (be_get (drop 32 b)));
  key_valid p := coord_ok (pub_X p) /\ coord_ok (pub_Y p);
|}.
Next Obligation. intros p. apply Forall_app. split; apply be_put_ok. Qed.
Next Obligation.
  intros [x y] [Hx Hy]. cbn [pub_X pub_Y] in *. unfold coord_ok in *.
  rewrite take_app_length', drop_app_length' by (by rewrite length_be_put). by rewrite !be_put_get.
Qed.

(** A digest that is quick to evaluate: the last bytes, backwards. *)
#[local] Program Instance tail_keccak : Keccak := {| keccak b := map (fun x => x mod 256) (take 32 (rev b ++ replicate 32 0)) |}.
Next Obligation. intros b. cbv beta. rewrite length_map, length_take, length_app, length_replicate. lia. Qed.
Next Obligation. intros b. cbv beta. apply Forall_map, Forall_true. intros x. apply byte_ok_mod. Qed.

(** Two vectors of [entries_test.go]. *)
Definition root_text : string :=
  "enrtree-root:v1 e=O4E5ES6EIACUASHASBGJGEC67M l=FDXN3SN67NA5DKA4J2GOK7BVQI seq=3189 sig=1SSfIYpZxREoK6eGeJZqicZb87O4y8D8YPOD2omG-C8Sb0aD0yInfMjX3F_GEUNHZKt4bpdQsZSJZ-16pndwtQE".
Example root_vector : exists r, parseEntry root_text = Ok (TRoot r) /\ root_seq r = 3189 /\ entryRoot_String r = root_text.
Proof. eexists. split; [vm_compute; reflexivity|]. split; vm_compute; reflexivity. Qed.
Example branch_vector :
  parseEntry "enrtree-branch:BRU43CYW2S4HCEES3DXJ2QYOYQ,AU6OB5RACUZMZMDZJLNJT7TGY4,BVCJRD3VTLDVFX7OPWPMP33SAU" =
  Ok (TBranch ["BRU43CYW2S4HCEES3DXJ2QYOYQ"; "AU6OB5RACUZMZMDZJLNJT7TGY4"; "BVCJRD3VTLDVFX7OPWPMP33SAU"]).
Proof. vm_compute. reflexivity. Qed.

(** A last group of three digits is dropped: one more character, and the name is a shorter hash. *)
Example tail_dropped : option_map length (base32_DecodeString "BRU43CYW2S4HCEES3DXJ2QYOYQ") = Some 16%nat /\
  option_map length (base32_DecodeString "BRU43CYW2S4HCEES3DXJ2QYOYQA") = Some 15%nat.
Proof. vm_compute. done. Qed.

Definition record (n : Z) : NodeRecord Value := mkRecord n [] [].
Definition inner : tree := Node [Leaf (record 2); Leaf (record 3)].
Definition sample_tree : tree := Node [Leaf (record 1); inner].
Definition sample_root : entryRoot := mkRoot (label sample_tree) (label sample_tree) "c2ln" 7.

(** The tree and its subtrees, published under a domain: the resolver of the tests, written as a list. *)
Definition find_text (ts : list tree) (n : string) : outcome (list string) :=
  match list_find (fun t => n = (label t ++ ".d")%string) ts with Some (_, t) => Ok [text t] | None => Err "not found" end.
Definition lookup (n : string) : outcome (list string) :=
  if bool_decide (n = "d") then Ok [entryRoot_String sample_root]
  else find_text [sample_tree; Leaf (record 1); inner; Leaf (record 2); Leaf (record 3)] n.

Lemma lookup_root : lookup "d" = Ok [entryRoot_String sample_root].
Proof. reflexivity. Qed.

Lemma record_ok n : u64_ok n -> Record_ok (record n).
Proof. intros Hn. split_and!; [done|constructor|constructor|constructor]. Qed.

Lemma sample_published : published lookup "d" sample_tree.
Proof.
  assert (forall n, n = 1 \/ n = 2 \/ n = 3 -> published lookup "d" (Leaf (record n))) as Hl.
  { intros n Hn. apply pub_leaf; [apply record_ok; unfold u64_ok; lia| |]; destruct_or!; subst n; vm_compute; reflexivity. }
  apply pub_node; [done| |vm_compute; reflexivity]. constructor; [apply Hl; lia|]. constructor; [|constructor].
  apply pub_node; [done| |vm_compute; reflexivity]. constructor; [apply Hl; lia|]. constructor; [apply Hl; lia|constructor].
Qed.

Lemma sample_root_ok : root_ok sample_root.
Proof. split_and!; try apply label_word; [split; [done|by repeat constructor]|unfold u64_ok; cbn; lia]. Qed.

Lemma parseEntry_String_witness : parseEntry (entry_String (TRoot sample_root)) = Ok (TRoot sample_root).
Proof. exact (parseEntry_String (TRoot sample_root) sample_root_ok). Defined.

Lemma walk_tree_witness : exists d, walk lookup 5 4 (NewDnsDiscovery "d") = Ok ([record 1; record 2; record 3], d) /\ missing d = [].
Proof.
  refine (walk_tree lookup "d" sample_root sample_tree [] 5 4 sample_root_ok eq_refl lookup_root sample_published _ _); cbn; lia.
Defined.

(** The state after the first record. *)
Lemma first_state : exists d ts, walked lookup "d" d /\ Next d = Some (record 1) /\ missing d = label <$> ts /\ forest_leaves ts = [record 2; record 3].
Proof.
  destruct (Has_start lookup "d" sample_root sample_tree [] 5 (record 1) [record 2; record 3] sample_root_ok eq_refl lookup_root sample_published)
    as (ts & E & Hl); [cbn; lia|reflexivity|].
  exists (mkDisc "d" (Some sample_root) (label <$> ts) (Some (record 1))), ts. split_and!; [|reflexivity|reflexivity|exact Hl].
  exact (walked_Has lookup "d" 5 (NewDnsDiscovery "d") true _ (walked_start lookup "d") E).
Qed.

Lemma Next_authentic_witness : exists d rt, root d = Some rt /\ authentic lookup "d" (eroot rt) (record 1).
Proof.
  destruct first_state as (d & ts & Hw & Hn & _). destruct (Next_authentic lookup "d" d (record 1) Hw Hn) as (rt & Hr & Ha).
  exists d, rt. split; [exact Hr|exact Ha].
Defined.

Lemma names_bounded_witness : exists h b, base32_DecodeString h = Some b /\ (12 <= length b <= 32)%nat.
Proof.
  destruct first_state as (d & ts & Hw & _ & Hm & Hl). destruct ts as [|t ts]; [done|].
  destruct (names_bounded lookup "d" d (label t) Hw) as (b & Hb & Hlen); [rewrite Hm; left|].
  exists (label t), b. split; [exact Hb|exact Hlen].
Defined.

Lemma Has_panics_witness : Has (fun _ => Ok []) 1 (NewDnsDiscovery "d") = Panic.
Proof. apply (proj2 (Has_panics (fun _ => Ok []) 1 (NewDnsDiscovery "d") (fun _ => I))). split; reflexivity. Defined.

End Demo.
